(* ===== verification/_CoqProject ===== *)
-Q . S2P
Prelude.v
PyText.v
SagaMachine.v
SagaOrchestrator.v
SagaLog.v
SagaCompensator.v
PyStr.v
Governance.v
RuntimeGovernance.v
TurnGate.v
TurnSlots.v
Tasks.v
TaskSystem.v
ToolFilter.v
Guardrails.v
Missions.v
Sessions.v
ToolBatch.v
StreamExec.v
Transcript.v
Research.v
Cadence.v
CadenceText.v
Schedules.v
ScheduleRuns.v
Invitations.v
Outbox.v
Texts.v
StreamText.v
StreamThink.v
StreamCalls.v
ApiErrors.v
CallRetry.v
Regex.v
MemoryKeys.v
Memory.v
MemoryRemote.v
