(* ===== verification/Prelude.v ===== *)
(** * Verification of the surogates agent backend

    surogates runs AI agents for many tenants: a worker process takes a
    session off a queue, holds it by a lease, and runs turns of it (ask the
    model, run the tools it calls, answer), while dispatchers hand out tasks
    to sub-agents and sweep up the sessions of workers that died.  This
    library models the parts of the backend (src/surogates) that decide what
    an agent may do and that keep its state right when workers crash, race
    and retry, and proves what makes them correct.

    ** The parts and the files

    Sagas: every tool call of a turn is a step of a saga, so that a stopped
    turn can be put back.
    - SagaMachine.v: governance/saga/state_machine.py.  [StepState],
      [SagaState], [STEP_TRANSITIONS], [SAGA_TRANSITIONS], the records, the
      guarded transitions ([step_transition], [saga_transition]) and the
      durable record ([to_dict], [from_dict]).
    - SagaOrchestrator.v: governance/saga/orchestrator.py.  The table of sagas;
      [execute_step] with its timeouts, retries and waits; [attempt];
      [compensate], which undoes the committed steps in reverse.
    - SagaLog.v: governance/events.py, [reconstruct_from_events], and the
      saga operations of harness/tool_exec.py and harness/loop.py (begin and
      end of a step, the wake, the normal end, the stop), each of which writes
      to the session's log.  A write of the store is taken or refused.
    - SagaCompensator.v: governance/saga/compensator.py.  The strategies that
      undo one step, and the undo of a turn's copy on its user's computer.

    Policy: what a tool call may do and which tools a session sees.
    - Governance.v: governance/policy.py.  The gate: [check], [offers],
      [freeze], [with_profile].
    - RuntimeGovernance.v: runtime/governance.py.  An agent's raw governance
      blob read as a profile, the tools no policy may take away, and the gate
      of a wake.  Uses Governance.v.
    - ToolFilter.v: harness/loop.py and orchestrator/worker.py.  The tools the
      model is sent ([tool_filter_for_session]) and the tools its prompt says
      it has ([filter_effective_tools]); the config of a task's worker
      (tasks/spawn.py), the sets of tools/builtin/coordinator.py, the case gate
      of keel/steps.py.
    - Guardrails.v: harness/tool_guardrails.py and its use in tool_exec.py.
      The per-turn controller that blocks repeated and failing tool calls.

    A response's tool calls.
    - ToolBatch.v: harness/tool_exec.py and harness/sanitize.py.  Which calls run
      side by side ([should_parallelize]), how a response's calls are cut down,
      and the execution of a batch one by one or all at once under Guardrails.v.
    - StreamExec.v: harness/streaming_executor.py.  Calls that start while the
      response still streams: the queue, the stretches of each call's task
      between its suspensions, the abort of siblings, discard and collection.
    - Transcript.v: [sanitize_tool_pairs] of harness/sanitize.py.

    Streamed answers: what of them is shown, and which calls they make.
    - StreamText.v and StreamThink.v: harness/stream_scrubbers.py and its use in
      harness/llm_call.py.  The scrubbers of memory, of thinking and of a
      gateway's errors, each fed the deltas of an answer one after the other
      ([feed_delta], [shown_text]).
    - StreamCalls.v: harness/llm_call.py and harness/message_utils.py.  The calls
      put together from their deltas ([feed_call], [finish_calls]), each told as
      soon as it is whole, and the calls of the message.

    Model calls that fail.
    - ApiErrors.v: harness/error_classifier.py and error_classify.py.  What kind of
      failure an exception is ([classify_api_error]), and what a person reads of
      it ([classify_harness_error]).
    - CallRetry.v: [call_llm_with_retry] of harness/llm_call.py and the fallbacks of
      harness/resilience.py.  The attempts of a call ([attempts]), each request sent
      by stream or plainly ([send]), the recoveries of a failed one ([handle])
      and the wait for a provider that throttles ([wait_out]).

    Capacity: how many turns run at once.
    - TurnGate.v: runtime/turn_gate.py.  The tenants' capped sets of turn
      holders, and [SlotGate], the interface a turn uses it by.
    - TurnSlots.v: runtime/turn_slots.py.  A turn's semaphore and tenant slot,
      given back while all of it waits; proved against [SlotGate] alone.

    Delegated work: tasks for sub-agents, and missions, which are judged.
    - Tasks.v and TaskSystem.v: tasks/.  The rows and operations of the task
      layer, then the ticks, eager spawns, tools and sessions of any number of
      processes interleaved, a transaction a step.
    - Missions.v: missions/ and harness/loop_mission_evaluator.py, with the idle
      tick of tasks/dispatcher.py.  The mission rows, the commands and routes
      on them, the evaluator before and after its judge.
    - Research.v: arbor/, tools/builtin/arbor.py and harness/loop_arbor.py.  The
      idea tree of a research mission ([add_node], [update_node], [prune]), its
      tools ([idea_tree], [dispatch_experiments], [merge_experiment]), the
      harvest of ended experiments and the gate of the judge's verdict.

    Scheduled work: prompts run at their times.
    - Cadence.v: scheduled/schedule.py and programs/cadence.py.  When the runs of
      a schedule fall ([ParsedSchedule], [next_after]), in which zone.
    - CadenceText.v: the same file's texts and columns a cadence is read from
      ([parse_schedule], [schedule_from_fields], [schedule_from_row]).
    - Schedules.v: scheduled/store.py.  The row of a schedule and every write to
      it ([apply_op]): by its people, by the ticker, by its runs.
    - ScheduleRuns.v: scheduled/materialize.py and platform_ticker.py.  The
      claim, the start of a run call by call ([job_step]), the sweeps ([tick]).

    - Invitations.v: programs/ and tools/builtin/checkin.py.  The question of a
      Program to one person: the updates of its row by the send pass, the sweep
      ([sweep_deadlines]), the dispatcher's and the provider's reports, the fallback
      to another channel ([fall_back]), the reply and the agent's outcome, by any
      number of processes ([act]).

    Channels: what an agent writes reaches a person.
    - Outbox.v: channels/delivery.py, the delivery half of channels/dispatcher.py,
      channel_progress.py and channel_media.py.  The rows of the outbox, the
      bursts, the delivery of an item call by call ([start_item], [item_step]) and
      the message edited in place; several dispatchers, a step at a time, and what
      the chat shows ([step]).

    Memory: what an agent remembers from one session to the next.
    - MemoryKeys.v: channels/memory_boundary.py, runtime/memory_protocol.py and the
      keys of orchestrator/worker.py and api/routes/memory.py.  The boundary of a
      session ([session_memory_boundary]) and who a part of the store belongs to.
    - Memory.v: memory/store.py, memory/builtin.py, tools/builtin/memory.py.  The
      files of entries, [add], [replace] and [remove], the scan of what is
      written, the prompt's blocks; stores that share their files ([step]).
    - MemoryRemote.v: memory/r2_store.py, runtime/memory_io.py and the route.  A
      request from its first read to its write ([advance]), and requests at once.

    The session store.
    - Sessions.v: session/store.py and the orphan sweep of
      orchestrator/dispatcher.py.  Rows and counters, the event log, leases
      with their fencing tokens, the cursor, and the recovery of sessions whose
      worker died.

    What all of them share.
    - Prelude.v (this file): Python values and dicts, exceptions as a sum,
      generic list lemmas, the tactics [case_if] and [bool_to_prop] and the
      hint databases [py] and [pydict].
    - PyText.v, PyStr.v, Texts.v and Regex.v: what the source uses of the standard library's
      UUIDs, timestamps, string methods, [int], [os.path] and [re].

    ** How the code is read

    A function that returns or raises is a function to [pyres]; one that
    changes an object or a row returns its new value; a record is the class
    of the same name.  Components with several processes (turn gate, turn
    slots, tasks, missions, sessions, schedules, invitations, the outbox, memory) are step relations or runs of a list of
    actions whose steps are the code's atomic sections: a database
    transaction, a Redis command, a section of a lock.  All interleavings of
    those are covered, and so is a process that stops between two of them,
    but where a theorem says on what condition it holds; the conditions are
    hypotheses with names, and lemmas beside the theorems show what happens
    without them.  An exception is the reports on an invitation, whose read and
    write are one step ([overlapping_reports_repeat], Invitations.v).
    An [await] of something outside ends in each of the ways the code tells
    apart (returns, times out, raises, is cancelled), chosen by the
    environment.  Strings are byte strings, and lists of code points (Texts.v) where case
    beyond ASCII or the number of characters matters, integers are unbounded as Python's
    are, and fuel is only in bounded scans of a text, in the walks up an
    idea tree, where the number of nodes is enough ([concat_propagate_up]), and in the
    wait for a provider, where 166 looks are ([wait_out_ends]).

    Code that is not in the repository is a parameter: the policy toolkit of the
    gate (class [Toolkit], with its role check as [ToolkitLaws]) and its memory guard
    (Memory.v), JSON and SHA-256 (Guardrails.v, ToolBatch.v, StreamExec.v, StreamCalls.v,
    MemoryKeys.v), the letters outside ASCII that count as words (Regex.v), pydantic's validation of
    a case's records (ToolFilter.v), the sandbox pool and a user's computer
    (SagaCompensator.v), the judge's answer (Missions.v), git and the eval
    commands (Research.v, whose scores are rationals), what a provider answers and how Pillow
    shrinks an image (CallRetry.v), the time zone database and
    croniter (Cadence.v).  UUIDs are drawn
    from outside, and where the code relies on them being distinct the
    theorem says so.

    ** What is proved

    - Sagas: the durable record round-trips (C1); no saga's life is longer
      than its table allows (C2); executing a step does what its retries
      promise and never executes a committed one again (C3, C4);
      compensation puts back the committed steps, last first, once in one table in
      memory (C5); where every write is taken and no stop is cut
      short, the log rebuilds the harness's table as far as it keeps it
      (C6), and a wake leaves no stale saga active (C7).
    - Policy: nothing is allowed that is not offered (C8), in what a
      profile narrows its gate, and in what not (C9); identical calls are bounded (C14).
    - A response's calls: every call of a batch is answered (C18); what runs side
      by side while a response streams may (C19), the collection ends
      with every call run (C20); a sanitised transcript's
      calls and results are paired (C21).
    - Streamed answers: what is shown of what is no thinking does not depend on how an
      answer is cut into deltas (C30), nothing of an opening block of thinking is
      shown where no other tag ends it (C31), and the calls come out whole, once and in order
      (C32).
    - Model calls: a call ends after six requests at most, and how it ends is
      traced to one of its attempts (C34); what an exception comes to for a
      person is a title and a line (C33).
    - Capacity: the gate's cap, which only turns that take a slot back pass (C10), and the accounting of a turn's slots over
      every interleaving (C11).
    - Delegated work: attempts are bounded (C12), parents come first
      (C13); the missions' invariant (C15).
    - Research: the idea tree is well formed and terminal nodes stay so
      (C22), trunk's score changes by a merge that passed its gate only
      (C23).
    - Sessions: a lease's fencing of the writes that name it (C16), and counters that are always those of the log (C17).

    - Scheduled work: the next run is the first past an instant (C24); a
      cadence is read back as it was stored (C25); a schedule's life, whoever writes to it (C26); each instant runs once
      where claims outlast their jobs (C27); a step is handed over once, and once more
      each time it moves (C35), and no step waits for a person for good (C36).
    - Channels: text that went out stays in its chat, where no two dispatchers deliver
      one session at a time (C28); a row of the outbox goes out at most
      once where its marks are taken, and is marked delivered only where it did
      (C29).

    - Memory: the route writes where the worker reads, for a session with a boundary or
      its own user, and owners are kept apart (C37); the files stay within
      their limits and free of threats (C38); a call does one edit that every
      later reader sees, where files are read and written (C39), and so does a
      request to the store of objects, where the second scan finds nothing (C40).

    Further theorems stand beside these in their files: the outcome of a compensation (SagaOrchestrator.v), what a crash in one loses (SagaLog.v),
    the undo that is owed, the plan of one step's undo and what an undo on a user's computer does
    (SagaCompensator.v), counters seeded from a conversation read back and the
    bound on failing calls (Guardrails.v), the calls of the saved message and the end of a collection (StreamExec.v), the argument check of a frozen
    gate (Governance.v), what a blob takes away (RuntimeGovernance.v), the end of a
    turn's slots (TurnSlots.v), the races of the task layer and how an ended attempt is settled and stays so (TaskSystem.v),
    when the judge waits for tasks and who may change a rubric (Missions.v), the two surfaces of tools, packages'
    entitlements, a task's worker that gets no tool that spawns, an allow-list that becomes empty and the sessions' gates (ToolFilter.v), the calls
    behind an unanswered question (ToolBatch.v), the numbering of ideas, the
    walk of a lesson, the merge a satisfied verdict needs and what a harvest below a
    merged node loses (Research.v), the end of the wait for a provider (CallRetry.v), the bound
    on recoveries (Sessions.v), memory that requests of others leave alone (MemoryRemote.v).

    [interrupted_compensation_forgotten] (SagaLog.v), [harvest_below_terminal] (Research.v), the races of TaskSystem.v, the last
    lemmas of ApiErrors.v, CallRetry.v, Cadence.v, Governance.v, Transcript.v, Invitations.v, Missions.v, Research.v, Outbox.v, StreamText.v, StreamThink.v, Memory.v,
    MemoryKeys.v and MemoryRemote.v, [unfenced_still_written] (Sessions.v), [paused_run_repeats]
    (Schedules.v) and [lease_outlived] (ScheduleRuns.v) are about behaviour that differs from what the
    code's comments intend.

    ** Not modelled

    - The model, its API clients and prompts (the requests of harness/llm_call.py, the
      watchdog of a silent stream, prompt.py, context.py and others), the text of messages, summaries and titles:
      input and output of services, with no state of their own that other
      parts rely on.
    - The rest of the turn's loop (harness/loop.py): it joins the parts above
      by way of the model's answers.
    - The HTTP routes (api/), the channels' platforms and webhooks, browser, devices, voice, web and desktop
      clients, office, storage and the Kubernetes launcher: input and output.
    - The landing of a turn's files and the sandbox's history
      (harness/landing.py, local_landing.py, sandbox/): shell programs and git
      run on other machines.
    - keel, follow-ups, workstreams, boards, and the rosters and texts of programs:
      their own state machines, not reached yet.
    - How a single call runs (sandboxes, repaired arguments, events) and which of
      the calls run at once raises first; the convergence detector, the briefs
      and the reports of research runs.
    - db/models.py but for the columns the parts above use. *)

From Stdlib Require Export Sorted.
From stdpp Require Export base tactics decidable gmap strings list pretty relations.
From stdpp Require Import options.
From Stdlib Require Export ZArith Lia Ascii.

(** ** Python values

    What a JSON document or a [dict[str, Any]] holds.  Strings are byte
    strings: the code modelled compares, concatenates and searches them. *)
#[local] Unset Elimination Schemes.
Inductive pyval :=
| VNone
| VBool (b : bool)
| VInt (z : Z)
| VStr (s : string)
| VList (l : list pyval)
| VDict (kvs : list (string * pyval)).
#[local] Set Elimination Schemes.

(** ** Exceptions: [Ok a] returns, [Raise e] raises *)
Inductive pyres (E A : Type) :=
| Ok (a : A)
| Raise (e : E).
Arguments Ok {E A} _.
Arguments Raise {E A} _.

Definition pybind {E A B} (m : pyres E A) (k : A → pyres E B) : pyres E B :=
  match m with
  | Ok a => k a
  | Raise e => Raise e
  end.

Definition is_ok {E A} (m : pyres E A) : bool :=
  match m with Ok _ => true | Raise _ => false end.

Declare Scope py_scope.
Delimit Scope py_scope with py.
Notation "'let!' x ':=' m 'in' k" := (pybind m (λ x, k))
  (at level 10, x pattern, m at level 100, k at level 200) : py_scope.
Notation "'guard' b 'orelse' e 'in' k" := (if b then k else Raise e)
  (at level 10, b at level 100, e at level 100, k at level 200) : py_scope.

(** The built-in exceptions the modelled code raises or lets through. *)
Inductive pyexn :=
| KeyError (key : string)
| ValueError (msg : string)
| TypeError (msg : string)
| AttributeError (attribute : string).

(** [v[key]] and [v.get(key)] of a JSON value. *)
Fixpoint assoc (key : string) (kvs : list (string * pyval)) : option pyval :=
  match kvs with
  | [] => None
  | (k, v) :: kvs' => if String.eqb k key then Some v else assoc key kvs'
  end.

Definition py_getitem (v : pyval) (key : string) : pyres pyexn pyval :=
  match v with
  | VDict kvs => match assoc key kvs with Some x => Ok x | None => Raise (KeyError key) end
  | _ => Raise (TypeError "not subscriptable")
  end.

Definition py_get (v : pyval) (key : string) (default : pyval) : pyval :=
  match v with
  | VDict kvs => match assoc key kvs with Some x => x | None => default end
  | _ => default
  end.

(** A value of the annotated type, which the records of the model hold. *)
Definition as_str (v : pyval) : pyres pyexn string :=
  match v with VStr s => Ok s | _ => Raise (TypeError "str expected") end.
Definition as_opt_str (v : pyval) : pyres pyexn (option string) :=
  match v with VStr s => Ok (Some s) | VNone => Ok None | _ => Raise (TypeError "str or None expected") end.
Definition as_int (v : pyval) : pyres pyexn Z :=
  match v with VInt z => Ok z | _ => Raise (TypeError "int expected") end.
Definition as_list (v : pyval) : pyres pyexn (list pyval) :=
  match v with VList l => Ok l | _ => Raise (TypeError "list expected") end.

Definition of_opt_str (o : option string) : pyval :=
  match o with Some s => VStr s | None => VNone end.

(** [[f(x) for x in xs]], where [f] may raise. *)
Fixpoint pymap {E A B} (f : A → pyres E B) (xs : list A) : pyres E (list B) :=
  match xs with
  | [] => Ok []
  | x :: xs' => pybind (f x) (λ y, pybind (pymap f xs') (λ ys, Ok (y :: ys)))
  end.

(** ** Truth and strings *)

(** [bool(value)] of a JSON value. *)
Definition truthy (v : pyval) : bool :=
  match v with
  | VNone => false
  | VBool b => b
  | VInt z => negb (z =? 0)%Z
  | VStr s => negb (String.eqb s "")
  | VList l => match l with [] => false | _ => true end
  | VDict kvs => match kvs with [] => false | _ => true end
  end.

Definition str_truthy (s : string) : bool := negb (String.eqb s "").

(** [x or default] for an optional string. *)
Definition opt_or (o : option string) (default : string) : string :=
  match o with
  | Some s => if str_truthy s then s else default
  | None => default
  end.

(** [s.startswith(p)] *)
Definition startswith (s p : string) : bool := String.prefix p s.

(** [f"{n}"] of an int. *)
Definition str_of_int (z : Z) : string := pretty z.

(** [sub in s] *)
Fixpoint str_contains (sub s : string) : bool :=
  String.prefix sub s ||
  match s with
  | EmptyString => false
  | String _ s' => str_contains sub s'
  end.

(** ** Insertion-ordered dicts

    A Python dict iterates in insertion order, and writing a key it has keeps
    the key's place.  Where the code iterates a dict the model uses this; where
    it only looks keys up it uses a [gmap]. *)
Section pydict.
Context {K V : Type} `{EqDecision K}.

Fixpoint dict_get (k : K) (d : list (K * V)) : option V :=
  match d with
  | [] => None
  | (k', v) :: d' => if decide (k = k') then Some v else dict_get k d'
  end.

Fixpoint dict_set (k : K) (v : V) (d : list (K * V)) : list (K * V) :=
  match d with
  | [] => [(k, v)]
  | (k', v') :: d' => if decide (k = k') then (k', v) :: d' else (k', v') :: dict_set k v d'
  end.

Definition dict_keys (d : list (K * V)) : list K := d.*1.
Definition dict_values (d : list (K * V)) : list V := d.*2.
End pydict.

(** [list(dict.fromkeys(xs))]: duplicates dropped, first occurrences kept. *)
Fixpoint fromkeys {A} `{EqDecision A} (seen : list A) (xs : list A) : list A :=
  match xs with
  | [] => []
  | x :: xs' => if decide (x ∈ seen) then fromkeys seen xs' else x :: fromkeys (x :: seen) xs'
  end.

(** ** Positions *)

(** The index of the first element [p] holds of. *)
Fixpoint find_index {A} (p : A → bool) (l : list A) : option nat :=
  match l with
  | [] => None
  | x :: l' => if p x then Some 0 else S <$> find_index p l'
  end.

(** [[i for i, x in enumerate(l) if p(x)]], from [i]. *)
Fixpoint indices_from {A} (p : A → bool) (i : nat) (l : list A) : list nat :=
  match l with
  | [] => []
  | x :: l' => if p x then i :: indices_from p (S i) l' else indices_from p (S i) l'
  end.
Definition indices {A} (p : A → bool) (l : list A) : list nat := indices_from p 0 l.

(** ** Automation *)

Create HintDb py discriminated.
Create Rewrite HintDb pydict.
#[export] Hint Constants Opaque : py.

(** Case analysis on every [if]/[match] scrutinee of a hypothesis or the goal,
    keeping the equation. *)
Ltac case_if :=
  match goal with
  | |- context [if ?b then _ else _] => destruct b eqn:?
  | H : context [if ?b then _ else _] |- _ => destruct b eqn:?
  end.

Ltac bool_to_prop :=
  repeat match goal with
  | H : _ && _ = true |- _ => apply andb_true_iff in H as [? ?]
  | H : _ || _ = false |- _ => apply orb_false_iff in H as [? ?]
  | H : negb _ = true |- _ => apply negb_true_iff in H
  | H : negb _ = false |- _ => apply negb_false_iff in H
  | H : bool_decide _ = true |- _ => apply bool_decide_eq_true in H
  | H : bool_decide _ = false |- _ => apply bool_decide_eq_false in H
  | H : (_ =? _)%Z = true |- _ => apply Z.eqb_eq in H
  | H : (_ =? _)%Z = false |- _ => apply Z.eqb_neq in H
  | H : (_ <=? _)%Z = true |- _ => apply Z.leb_le in H
  | H : (_ <=? _)%Z = false |- _ => apply Z.leb_gt in H
  | H : (_ <? _)%Z = true |- _ => apply Z.ltb_lt in H
  | H : (_ <? _)%Z = false |- _ => apply Z.ltb_ge in H
  | H : (_ <=? _)%nat = true |- _ => apply Nat.leb_le in H
  | H : (_ <=? _)%nat = false |- _ => apply Nat.leb_gt in H
  | H : (_ <? _)%nat = true |- _ => apply Nat.ltb_lt in H
  | H : (_ <? _)%nat = false |- _ => apply Nat.ltb_ge in H
  end.

(** ** Lemmas on results *)

Lemma pybind_ok {E A B} (m : pyres E A) (k : A → pyres E B) b :
  pybind m k = Ok b → ∃ a, m = Ok a ∧ k a = Ok b.
Proof. destruct m; naive_solver. Qed.

Lemma pymap_fmap {E A B} (f : B → pyres E A) (g : A → B) (h : A → A) xs :
  Forall (λ x, f (g x) = Ok (h x)) xs → pymap f (g <$> xs) = Ok (h <$> xs).
Proof. induction 1 as [|x xs Hx Hxs IH]; [done|]. csimpl. by rewrite Hx; simpl; rewrite IH. Qed.

(** ** Lemmas on dicts *)

Section pydict_lemmas.
Context {K V : Type} `{EqDecision K}.
Implicit Types d : list (K * V).

Lemma dict_get_set_eq k v d : dict_get k (dict_set k v d) = Some v.
Proof. induction d as [|[k' v'] d IH]; simpl; repeat (case_decide; simpl; simplify_eq); done. Qed.

Lemma dict_get_set_ne k k' v d : k ≠ k' → dict_get k (dict_set k' v d) = dict_get k d.
Proof.
  intros Hne. induction d as [|[k0 v0] d IH]; simpl;
    repeat (case_decide; simpl; simplify_eq); done.
Qed.

Lemma dict_get_set k k' v d :
  dict_get k (dict_set k' v d) = if decide (k = k') then Some v else dict_get k d.
Proof. case_decide; subst; [apply dict_get_set_eq | by apply dict_get_set_ne]. Qed.

(** A key written keeps its place, a new one goes last. *)
Lemma dict_keys_set_old k v d : k ∈ dict_keys d → dict_keys (dict_set k v d) = dict_keys d.
Proof.
  unfold dict_keys. induction d as [|[k0 v0] d IH]; csimpl; [by intros ?%not_elem_of_nil|].
  case_decide; csimpl; [done|]. intros Hin. f_equal. apply IH. set_solver.
Qed.

Lemma dict_keys_set_new k v d :
  k ∉ dict_keys d → dict_keys (dict_set k v d) = dict_keys d ++ [k].
Proof.
  unfold dict_keys. induction d as [|[k0 v0] d IH]; csimpl; [done|].
  intros Hin. rewrite decide_False by set_solver. csimpl. f_equal. apply IH. set_solver.
Qed.

Lemma dict_set_id k v d : dict_get k d = Some v → dict_set k v d = d.
Proof.
  induction d as [|[k0 v0] d IH]; simpl; [done|]. case_decide; intros; simplify_eq; [done|].
  f_equal. by apply IH.
Qed.

Lemma dict_set_set k v v' d : dict_set k v (dict_set k v' d) = dict_set k v d.
Proof.
  induction d as [|[k0 v0] d IH]; simpl; [by rewrite decide_True|].
  case_decide; simpl; subst; [by rewrite decide_True by done | rewrite decide_False by done; by rewrite IH].
Qed.

Lemma dict_get_in k v d : dict_get k d = Some v → (k, v) ∈ d.
Proof. induction d as [|[k0 v0] d IH]; simpl; [done|]. case_decide; simplify_eq; set_solver. Qed.

Lemma dict_set_NoDup k v d : NoDup (dict_keys d) → NoDup (dict_keys (dict_set k v d)).
Proof.
  intros Hnd. destruct (decide (k ∈ dict_keys d)) as [Hin|Hout].
  - by rewrite dict_keys_set_old.
  - rewrite dict_keys_set_new by done. apply NoDup_app. split_and!; [done| |apply NoDup_singleton].
    set_solver.
Qed.

Lemma dict_set_values k v w d : w ∈ dict_values (dict_set k v d) → w = v ∨ w ∈ dict_values d.
Proof.
  unfold dict_values. induction d as [|[k0 v0] d IH]; simpl; [set_solver|].
  case_decide; csimpl; set_solver.
Qed.

Lemma dict_get_elem k v d : NoDup (dict_keys d) → (k, v) ∈ d → dict_get k d = Some v.
Proof.
  unfold dict_keys. induction d as [|[k0 v0] d IH]; csimpl; intros Hnd Hin; [by apply not_elem_of_nil in Hin|].
  apply NoDup_cons in Hnd as [Hk Hnd]. apply elem_of_cons in Hin as [Heq|Hin]; simplify_eq.
  - by rewrite decide_True.
  - rewrite decide_False; [by apply IH|]. intros ->. apply Hk, list_elem_of_fmap. by exists (k0, v).
Qed.

Lemma dict_get_values k v d : dict_get k d = Some v → v ∈ dict_values d.
Proof. intros ?%dict_get_in. apply list_elem_of_fmap. by exists (k, v). Qed.
End pydict_lemmas.

#[export] Hint Rewrite @dict_get_set_eq : pydict.
#[export] Hint Resolve dict_get_in dict_get_values dict_set_NoDup : py.

(** ** Lemmas on positions and duplicates *)

Lemma find_index_Some {A} (p : A → bool) l i :
  find_index p l = Some i →
  ∃ x, l !! i = Some x ∧ p x = true ∧ ∀ j y, j < i → l !! j = Some y → p y = false.
Proof.
  revert i. induction l as [|x l IH]; simpl; intros i Hi; [done|].
  destruct (p x) eqn:Hp; simplify_eq/=.
  - exists x. repeat split; [done|]. intros; lia.
  - destruct (find_index p l) as [i'|] eqn:He; simplify_eq/=.
    destruct (IH i' eq_refl) as (y & ? & ? & Hmin). exists y. repeat split; [done..|].
    intros [|j] z ? ?; simplify_eq/=; [done | eapply (Hmin j); [lia | done]].
Qed.

Lemma find_index_None {A} (p : A → bool) l :
  find_index p l = None ↔ Forall (λ x, p x = false) l.
Proof.
  induction l as [|x l IH]; simpl; [done|].
  destruct (p x) eqn:Hp; rewrite Forall_cons, <- IH; [naive_solver congruence|].
  destruct (find_index p l); naive_solver.
Qed.

Lemma indices_from_elem {A} (p : A → bool) l k i :
  i ∈ indices_from p k l ↔ ∃ x, k ≤ i ∧ l !! (i - k) = Some x ∧ p x = true.
Proof.
  revert k. induction l as [|x l IH]; intros k; simpl.
  { split; [by intros ?%not_elem_of_nil | intros (?&?&?&?); done]. }
  assert (Hsplit : i ∈ (if p x then k :: indices_from p (S k) l else indices_from p (S k) l)
                   ↔ (i = k ∧ p x = true) ∨ i ∈ indices_from p (S k) l).
  { destruct (p x); rewrite ?elem_of_cons; naive_solver. }
  rewrite Hsplit, IH. split.
  - intros [[-> Hp]|(y & ? & Hy & ?)]; [exists x; rewrite Nat.sub_diag; auto|].
    exists y. replace (i - k) with (S (i - S k)) by lia. split; [lia | done].
  - intros (y & ? & Hy & ?). destruct (decide (i = k)) as [->|Hne].
    + rewrite Nat.sub_diag in Hy. simplify_eq/=. auto.
    + right. exists y. replace (i - k) with (S (i - S k)) in Hy by lia. split; [lia | done].
Qed.

Lemma indices_elem {A} (p : A → bool) l i :
  i ∈ indices p l ↔ ∃ x, l !! i = Some x ∧ p x = true.
Proof.
  unfold indices. rewrite indices_from_elem. rewrite Nat.sub_0_r.
  split; [naive_solver | intros (?&?&?); eexists; split; [lia | naive_solver]].
Qed.

Lemma indices_from_NoDup {A} (p : A → bool) l k : NoDup (indices_from p k l).
Proof.
  revert k. induction l as [|x l IH]; intros k; simpl; [constructor|].
  destruct (p x); [|done]. constructor; [|done].
  rewrite indices_from_elem. intros (?&?&?). lia.
Qed.

Lemma fromkeys_elem {A} `{EqDecision A} (seen xs : list A) x :
  x ∈ fromkeys seen xs ↔ x ∈ xs ∧ x ∉ seen.
Proof.
  revert seen. induction xs as [|y xs IH]; intros seen; simpl; [set_solver|].
  case_decide; rewrite ?elem_of_cons, IH; [set_solver|].
  destruct (decide (x = y)); set_solver.
Qed.

Lemma fromkeys_NoDup {A} `{EqDecision A} (seen xs : list A) : NoDup (fromkeys seen xs).
Proof.
  revert seen. induction xs as [|y xs IH]; intros seen; simpl; [constructor|].
  case_decide; [done|]. constructor; [|done]. rewrite fromkeys_elem. set_solver.
Qed.

Lemma fromkeys_NoDup_id {A} `{EqDecision A} (seen xs : list A) :
  NoDup xs → (∀ x, x ∈ xs → x ∉ seen) → fromkeys seen xs = xs.
Proof.
  revert seen. induction xs as [|y xs IH]; intros seen Hnd Hs; simpl; [done|].
  apply NoDup_cons in Hnd as [Hy Hnd]. rewrite decide_False by set_solver.
  f_equal. apply IH; set_solver.
Qed.

Lemma filter_Forall_id {A} (P : A → Prop) `{!∀ x, Decision (P x)} l : Forall P l → filter P l = l.
Proof.
  induction 1 as [|x l Hx Hl IH]; [done|]. rewrite filter_cons_True by done. by rewrite IH.
Qed.

Lemma elem_of_rev {A} (x : A) l : x ∈ rev l ↔ x ∈ l.
Proof. rewrite !list_elem_of_In. symmetry. apply in_rev. Qed.

Lemma indices_from_sorted {A} (p : A → bool) l k : StronglySorted lt (indices_from p k l).
Proof.
  revert k. induction l as [|x l IH]; intros k; simpl; [constructor|].
  destruct (p x); [|done]. constructor; [done|]. apply Forall_forall. intros i Hi.
  apply indices_from_elem in Hi as (?&?&_). lia.
Qed.

Lemma strongly_sorted_snoc {A} (R : relation A) l x :
  StronglySorted R l → Forall (λ y, R y x) l → StronglySorted R (l ++ [x]).
Proof.
  induction 1 as [|y l Hl IH Hy]; intros Hx; simpl; [by repeat constructor|].
  inversion_clear Hx. constructor; [by apply IH|]. apply Forall_app_2; [done | by constructor].
Qed.

Lemma strongly_sorted_rev {A} (R : relation A) l :
  StronglySorted R l → StronglySorted (flip R) (rev l).
Proof.
  induction 1 as [|y l Hl IH Hy]; simpl; [constructor|].
  apply strongly_sorted_snoc; [done|]. apply Forall_forall. intros z Hz.
  rewrite Forall_forall in Hy. apply Hy. by rewrite elem_of_rev in Hz.
Qed.

Lemma strongly_sorted_filter {A} (R : relation A) p l :
  StronglySorted R l → StronglySorted R (List.filter p l).
Proof.
  induction 1 as [|y l Hl IH Hy]; simpl; [constructor|]. destruct (p y); [|done].
  constructor; [done|]. apply Forall_forall. intros z [Hz _]%list_elem_of_In%filter_In.
  rewrite Forall_forall in Hy. apply Hy. by apply list_elem_of_In.
Qed.

Lemma sublist_filter_intro {A} (p : A → bool) l1 l2 :
  l1 `sublist_of` l2 → (∀ x, x ∈ l1 → p x = true) → l1 `sublist_of` List.filter p l2.
Proof.
  induction 1 as [|x l1 l2 Hl IH|x l1 l2 Hl IH]; intros Hp; simpl; [constructor|..].
  - rewrite Hp by set_solver. constructor. apply IH. set_solver.
  - destruct (p x); [constructor|]; by apply IH.
Qed.

Lemma fst_filter_NoDup {K A} (p : K * A → bool) (l : list (K * A)) : NoDup l.*1 → NoDup (List.filter p l).*1.
Proof.
  intros Hl. eapply sublist_NoDup; [exact Hl|]. clear Hl. apply fmap_sublist. induction l as [|x l IH]; csimpl; [constructor|].
  by destruct (p x); constructor.
Qed.

#[export] Hint Resolve fromkeys_NoDup filter_Forall_id : py.
