(* ===== verification/PyText.v ===== *)
(** * Fixed-width numerals, UUIDs and timestamps

    The text forms the backend writes into its JSON records: [str(uuid)] and
    [UUID(text)], [datetime.isoformat()] and [datetime.fromisoformat(text)].
    A UUID is its 128-bit integer and a timestamp its calendar fields, as in
    Python's own [uuid.UUID] and [datetime.datetime]; timestamps are in UTC. *)

From S2P Require Import Prelude.
From stdpp Require Import options.

(** ** Fixed-width numerals *)

(** The [w] low digits of [n], most significant first. *)
Fixpoint to_digits (base : Z) (w : nat) (n : Z) : list Z :=
  match w with
  | O => []
  | S w' => to_digits base w' (n / base) ++ [n mod base]
  end%Z.

Definition of_digits (base : Z) (ds : list Z) : Z := fold_left (λ acc d, acc * base + d)%Z ds 0%Z.

Definition digit_char (d : Z) : ascii :=
  ascii_of_nat (Z.to_nat (if (d <? 10)%Z then 48 + d else 87 + d)%Z).

(** The digit a character is, of either case, in base 16. *)
Definition char_digit (c : ascii) : option Z :=
  let n := Z.of_nat (nat_of_ascii c) in
  if ((48 <=? n) && (n <=? 57))%Z then Some (n - 48)%Z
  else if ((97 <=? n) && (n <=? 102))%Z then Some (n - 87)%Z
  else if ((65 <=? n) && (n <=? 70))%Z then Some (n - 55)%Z
  else None.

Definition numeral (base : Z) (w : nat) (n : Z) : list ascii := digit_char <$> to_digits base w n.

(** [int(text, base)] of a run of digits. *)
Definition parse_numeral (base : Z) (cs : list ascii) : option Z :=
  ds ← mapM char_digit cs;
  if forallb (λ d, d <? base)%Z ds then Some (of_digits base ds) else None.

(** The number the next [w] characters write, and the rest. *)
Definition take_numeral (w : nat) (cs : list ascii) : option (Z * list ascii) :=
  if (length cs <? w)%nat then None
  else n ← parse_numeral 10 (take w cs); Some (n, drop w cs).

Definition take_char (c : ascii) (cs : list ascii) : option (list ascii) :=
  match cs with
  | c' :: cs' => if decide (c = c') then Some cs' else None
  | [] => None
  end.

(** ** UUIDs *)

Definition UUID_valid (u : Z) : Prop := (0 <= u < 16 ^ 32)%Z.

(** [str(u)]: 32 hexadecimal digits, grouped 8-4-4-4-12. *)
Definition uuid_str (u : Z) : string :=
  let h := numeral 16 32 u in
  String.string_of_list_ascii
    (take 8 h ++ "-"%char :: take 4 (drop 8 h) ++ "-"%char :: take 4 (drop 12 h)
     ++ "-"%char :: take 4 (drop 16 h) ++ "-"%char :: drop 20 h).

(** [UUID(text)]: the hyphens are dropped and 32 hexadecimal digits must be
    left; anything else raises ValueError. *)
Definition uuid_parse (s : string) : option Z :=
  let h := filter (λ c, c ≠ "-"%char) (String.list_ascii_of_string s) in
  if (length h =? 32)%nat then parse_numeral 16 h else None.

(** ** Timestamps *)

Record datetime := mk_datetime {
  year : Z; month : Z; day : Z; hour : Z; minute : Z; second : Z; microsecond : Z
}.

Definition datetime_valid (d : datetime) : Prop :=
  (1 <= year d < 10 ^ 4 ∧ 1 <= month d <= 12 ∧ 1 <= day d <= 31 ∧ 0 <= hour d < 24 ∧
   0 <= minute d < 60 ∧ 0 <= second d < 60 ∧ 0 <= microsecond d < 10 ^ 6)%Z.

#[global] Instance datetime_eq_dec : EqDecision datetime.
Proof. solve_decision. Defined.

Definition utc_suffix : list ascii := String.list_ascii_of_string "+00:00".

(** [d.isoformat()]: the microseconds are left out when zero. *)
Definition isoformat (d : datetime) : string :=
  String.string_of_list_ascii
    (numeral 10 4 (year d) ++ "-"%char :: numeral 10 2 (month d) ++ "-"%char :: numeral 10 2 (day d)
     ++ "T"%char :: numeral 10 2 (hour d) ++ ":"%char :: numeral 10 2 (minute d)
     ++ ":"%char :: numeral 10 2 (second d)
     ++ (if (microsecond d =? 0)%Z then [] else "."%char :: numeral 10 6 (microsecond d))
     ++ utc_suffix).

(** [datetime.fromisoformat(text)], of the form [isoformat] writes. *)
Definition fromisoformat (s : string) : option datetime :=
  '(y, cs) ← take_numeral 4 (String.list_ascii_of_string s);
  '(mo, cs) ← take_char "-"%char cs ≫= take_numeral 2;
  '(d, cs) ← take_char "-"%char cs ≫= take_numeral 2;
  '(h, cs) ← take_char "T"%char cs ≫= take_numeral 2;
  '(mi, cs) ← take_char ":"%char cs ≫= take_numeral 2;
  '(sec, cs) ← take_char ":"%char cs ≫= take_numeral 2;
  '(us, cs) ← match take_char "."%char cs with
              | Some cs' => take_numeral 6 cs'
              | None => Some (0%Z, cs)
              end;
  if decide (cs = utc_suffix) then Some (mk_datetime y mo d h mi sec us) else None.

(** ** Lemmas *)

Lemma to_digits_length base w n : length (to_digits base w n) = w.
Proof. revert n. induction w as [|w IH]; intros n; simpl; [done|]. rewrite length_app, IH. simpl. lia. Qed.

Lemma to_digits_range base w n :
  (0 < base)%Z → Forall (λ d, 0 <= d < base)%Z (to_digits base w n).
Proof.
  intros Hb. revert n. induction w as [|w IH]; intros n; simpl; [done|].
  apply Forall_app_2; [apply IH|]. constructor; [|done]. by apply Z.mod_pos_bound.
Qed.

Lemma of_to_digits base w n :
  (0 < base)%Z → (0 <= n < base ^ Z.of_nat w)%Z → of_digits base (to_digits base w n) = n.
Proof.
  unfold of_digits. intros Hb. revert n. induction w as [|w IH]; intros n Hn; simpl.
  { change (Z.of_nat 0) with 0%Z in Hn. rewrite Z.pow_0_r in Hn. lia. }
  rewrite fold_left_app. simpl. rewrite IH.
  - rewrite (Z.div_mod n base) at 3 by lia. lia.
  - rewrite Nat2Z.inj_succ, Z.pow_succ_r in Hn by lia.
    split; [apply Z.div_pos; lia | apply Z.div_lt_upper_bound; lia].
Qed.

Lemma char_digit_digit_char d : (0 <= d < 16)%Z → char_digit (digit_char d) = Some d.
Proof.
  intros Hd. assert (Hin : d ∈ seqZ 0 16) by (apply elem_of_seqZ; lia). clear Hd. revert d Hin.
  apply Forall_forall. repeat constructor.
Qed.

Lemma digit_char_plain d : (0 <= d < 16)%Z → digit_char d ≠ "-"%char.
Proof. intros Hd Heq. pose proof (char_digit_digit_char d Hd) as Hc. rewrite Heq in Hc. done. Qed.

Lemma parse_numeral_numeral base w n :
  (1 < base <= 16)%Z → (0 <= n < base ^ Z.of_nat w)%Z → parse_numeral base (numeral base w n) = Some n.
Proof.
  intros Hb Hn. unfold parse_numeral, numeral.
  pose proof (to_digits_range base w n ltac:(lia)) as Hr.
  rewrite (proj2 (mapM_Some _ _ (to_digits base w n))); simpl.
  - rewrite (proj2 (forallb_forall _ _)); [rewrite of_to_digits; [done | lia | done]|].
    intros d Hd%list_elem_of_In. rewrite Forall_forall in Hr. apply Z.ltb_lt, Hr, Hd.
  - apply Forall2_fmap_l, Forall_Forall2_diag. eapply Forall_impl; [exact Hr|].
    intros d Hd; cbn in Hd |- *. apply char_digit_digit_char. lia.
Qed.

Lemma numeral_length base w n : length (numeral base w n) = w.
Proof. unfold numeral. by rewrite length_fmap, to_digits_length. Qed.

Lemma take_numeral_app w n rest :
  (0 <= n < 10 ^ Z.of_nat w)%Z → take_numeral w (numeral 10 w n ++ rest) = Some (n, rest).
Proof.
  intros Hn. unfold take_numeral. rewrite length_app, numeral_length.
  destruct (Nat.ltb_spec (w + length rest) w); [lia|].
  rewrite take_app_length', drop_app_length' by (symmetry; apply numeral_length).
  by rewrite parse_numeral_numeral by lia.
Qed.

Lemma take_char_cons c cs : take_char c (c :: cs) = Some cs.
Proof. simpl. by rewrite decide_True. Qed.

Lemma filter_hyphens_numeral w n :
  filter (λ c, c ≠ "-"%char) (numeral 16 w n) = numeral 16 w n.
Proof.
  apply filter_Forall_id. unfold numeral. apply Forall_fmap.
  eapply Forall_impl; [by apply (to_digits_range 16 w n)|].
  intros d Hd; cbn in Hd |- *. by apply digit_char_plain.
Qed.

Lemma uuid_parse_str u : UUID_valid u → uuid_parse (uuid_str u) = Some u.
Proof.
  intros Hu. unfold uuid_parse, uuid_str. rewrite String.list_ascii_of_string_of_list_ascii.
  set (h := numeral 16 32 u).
  assert (Hcat : take 8 h ++ take 4 (drop 8 h) ++ take 4 (drop 12 h) ++ take 4 (drop 16 h) ++ drop 20 h = h).
  { assert (Hd : ∀ m n l, @drop ascii (n + m) l = drop m (drop n l)) by (intros; by rewrite drop_drop).
    rewrite (Hd 4 16 h : drop 20 h = _), (take_drop 4).
    apply take_drop. }
  assert (Hplain : filter (λ c, c ≠ "-"%char) h = h) by apply filter_hyphens_numeral.
  assert (Hf : filter (λ c, c ≠ "-"%char)
     (take 8 h ++ "-"%char :: take 4 (drop 8 h) ++ "-"%char :: take 4 (drop 12 h)
      ++ "-"%char :: take 4 (drop 16 h) ++ "-"%char :: drop 20 h) = h).
  { rewrite <- Hplain at 6. rewrite <- Hcat at 6.
    repeat first [rewrite filter_app | rewrite filter_cons_False by tauto]. done. }
  rewrite Hf. unfold h. rewrite numeral_length. simpl. apply parse_numeral_numeral; [lia | done].
Qed.

Lemma fromisoformat_isoformat d : datetime_valid d → fromisoformat (isoformat d) = Some d.
Proof.
  intros (?&?&?&?&?&?&?). unfold fromisoformat, isoformat.
  rewrite String.list_ascii_of_string_of_list_ascii.
  repeat (rewrite take_numeral_app by (simpl; lia); cbn [mbind option_bind];
          rewrite ?take_char_cons; cbn [mbind option_bind]).
  destruct (Z.eqb_spec (microsecond d) 0) as [Hz|Hz]; cbn [app].
  - change (take_char "."%char utc_suffix) with (@None (list ascii)). cbn [mbind option_bind].
    rewrite decide_True by done. rewrite <- Hz. by destruct d.
  - rewrite take_char_cons. cbv iota. rewrite take_numeral_app by (simpl; lia).
    cbn [mbind option_bind]. rewrite decide_True by done. by destruct d.
Qed.

#[export] Hint Resolve uuid_parse_str fromisoformat_isoformat : py.

Lemma isoformat_nonempty d : datetime_valid d → String.eqb (isoformat d) "" = false.
Proof.
  intros Hd%fromisoformat_isoformat. apply String.eqb_neq. intros He. by rewrite He in Hd.
Qed.

#[global] Arguments uuid_str : simpl never.
#[global] Arguments uuid_parse : simpl never.
#[global] Arguments isoformat : simpl never.
#[global] Arguments fromisoformat : simpl never.
