(* ===== verification/SagaMachine.v ===== *)
(** * Saga state machine (governance/saga/state_machine.py)

    The step and saga states with their transition tables, the [SagaStep] and
    [Saga] records, guarded transitions, and the durable record ([to_dict],
    [from_dict]). *)

From S2P Require Import Prelude.
From S2P Require Import PyText.
From stdpp Require Import options.

Module StepState.
Inductive t :=
| PENDING | EXECUTING | COMMITTED | COMPENSATING | COMPENSATED | COMPENSATION_FAILED | FAILED.

#[global] Instance eq_dec : EqDecision t.
Proof. solve_decision. Defined.

Definition value (s : t) : string :=
  match s with
  | PENDING => "pending" | EXECUTING => "executing" | COMMITTED => "committed"
  | COMPENSATING => "compensating" | COMPENSATED => "compensated"
  | COMPENSATION_FAILED => "compensation_failed" | FAILED => "failed"
  end.

Definition all : list t :=
  [PENDING; EXECUTING; COMMITTED; COMPENSATING; COMPENSATED; COMPENSATION_FAILED; FAILED].

(** [StepState(v)] *)
Definition of_value (v : string) : pyres pyexn t :=
  match find_index (λ s, String.eqb (value s) v) all ≫= (λ i, all !! i) with
  | Some s => Ok s
  | None => Raise (ValueError v)
  end.
End StepState.

Module SagaState.
Inductive t := RUNNING | COMPENSATING | COMPLETED | FAILED | ESCALATED.

#[global] Instance eq_dec : EqDecision t.
Proof. solve_decision. Defined.

Definition value (s : t) : string :=
  match s with
  | RUNNING => "running" | COMPENSATING => "compensating" | COMPLETED => "completed"
  | FAILED => "failed" | ESCALATED => "escalated"
  end.

Definition all : list t := [RUNNING; COMPENSATING; COMPLETED; FAILED; ESCALATED].

(** [SagaState(v)] *)
Definition of_value (v : string) : pyres pyexn t :=
  match find_index (λ s, String.eqb (value s) v) all ≫= (λ i, all !! i) with
  | Some s => Ok s
  | None => Raise (ValueError v)
  end.
End SagaState.

Definition STEP_TRANSITIONS (s : StepState.t) : list StepState.t :=
  match s with
  | StepState.PENDING => [StepState.EXECUTING]
  | StepState.EXECUTING => [StepState.COMMITTED; StepState.FAILED]
  | StepState.COMMITTED => [StepState.COMPENSATING]
  | StepState.COMPENSATING => [StepState.COMPENSATED; StepState.COMPENSATION_FAILED]
  | StepState.COMPENSATED | StepState.COMPENSATION_FAILED | StepState.FAILED => []
  end.

Definition SAGA_TRANSITIONS (s : SagaState.t) : list SagaState.t :=
  match s with
  | SagaState.RUNNING => [SagaState.COMPENSATING; SagaState.COMPLETED; SagaState.FAILED]
  | SagaState.COMPENSATING => [SagaState.COMPLETED; SagaState.FAILED; SagaState.ESCALATED]
  | SagaState.COMPLETED | SagaState.FAILED | SagaState.ESCALATED => []
  end.

(** ** Exceptions *)

Inductive state_error :=
| InvalidStepTransition (from to : StepState.t)
| InvalidSagaTransition (from to : SagaState.t)
| SagaNotFound (saga_id : string)
| StepNotFound (step_id saga_id : string)
| NoErrorCaptured
| NoTryMade
| NoCheckpointHash (step_id : string)
| NoCompensationTool (step_id : string)
| RestoreInvalidJson (step_id : string)
| RestoreFailed (step_id : string) (error : pyval)
| NotCompensable (step_id : string).

(** What a saga operation raises.  [CancelledError] is no [Exception]: the
    [except Exception] clauses do not catch it. *)
Inductive exn :=
| SagaStateError (why : state_error)
| SagaTimeoutError (msg : string)
| StepRefused (msg : string)
| OtherException (msg : string)
| CancelledError
| Builtin (e : pyexn).

(** ** Records *)

(** The fields of a step fixed when it is added. *)
Record StepSpec := mk_spec {
  step_id : string;
  tool_name : string;
  tool_call_id : string;
  arguments : pyval;
  compensation_tool : option string;
  compensation_args : pyval;
  checkpoint_hash : option string;
  timeout_seconds : Z;
  max_retries : Z
}.

Record SagaStep := mk_step {
  spec : StepSpec;
  step_state : StepState.t;
  execute_result : pyval;
  compensation_result : pyval;
  step_error : option string;
  started_at : option datetime;
  step_completed_at : option datetime;
  retry_count : Z
}.

Record Saga := mk_saga {
  saga_id : string;
  session_id : Z;
  steps : list SagaStep;
  saga_state : SagaState.t;
  created_at : datetime;
  saga_completed_at : option datetime;
  saga_error : option string;
  kind : string;
  first_step : Z
}.

(** Attribute assignments. *)
Definition set_state (s : SagaStep) (st : StepState.t) : SagaStep :=
  mk_step (spec s) st (execute_result s) (compensation_result s) (step_error s)
    (started_at s) (step_completed_at s) (retry_count s).
Definition set_execute_result (s : SagaStep) (r : pyval) : SagaStep :=
  mk_step (spec s) (step_state s) r (compensation_result s) (step_error s)
    (started_at s) (step_completed_at s) (retry_count s).
Definition set_compensation_result (s : SagaStep) (r : pyval) : SagaStep :=
  mk_step (spec s) (step_state s) (execute_result s) r (step_error s)
    (started_at s) (step_completed_at s) (retry_count s).
Definition set_error (s : SagaStep) (e : option string) : SagaStep :=
  mk_step (spec s) (step_state s) (execute_result s) (compensation_result s) e
    (started_at s) (step_completed_at s) (retry_count s).
Definition set_started_at (s : SagaStep) (d : datetime) : SagaStep :=
  mk_step (spec s) (step_state s) (execute_result s) (compensation_result s) (step_error s)
    (Some d) (step_completed_at s) (retry_count s).
Definition set_completed_at (s : SagaStep) (d : datetime) : SagaStep :=
  mk_step (spec s) (step_state s) (execute_result s) (compensation_result s) (step_error s)
    (started_at s) (Some d) (retry_count s).
Definition set_retry_count (s : SagaStep) (n : Z) : SagaStep :=
  mk_step (spec s) (step_state s) (execute_result s) (compensation_result s) (step_error s)
    (started_at s) (step_completed_at s) n.

Definition set_steps (sg : Saga) (l : list SagaStep) : Saga :=
  mk_saga (saga_id sg) (session_id sg) l (saga_state sg) (created_at sg)
    (saga_completed_at sg) (saga_error sg) (kind sg) (first_step sg).
Definition set_saga_state (sg : Saga) (st : SagaState.t) : Saga :=
  mk_saga (saga_id sg) (session_id sg) (steps sg) st (created_at sg)
    (saga_completed_at sg) (saga_error sg) (kind sg) (first_step sg).
Definition set_saga_completed_at (sg : Saga) (d : datetime) : Saga :=
  mk_saga (saga_id sg) (session_id sg) (steps sg) (saga_state sg) (created_at sg)
    (Some d) (saga_error sg) (kind sg) (first_step sg).
Definition set_saga_error (sg : Saga) (e : option string) : Saga :=
  mk_saga (saga_id sg) (session_id sg) (steps sg) (saga_state sg) (created_at sg)
    (saga_completed_at sg) e (kind sg) (first_step sg).

(** ** Transitions *)

(** [SagaStep.transition]: [now] is what [datetime.now(UTC)] reads. *)
Definition step_transition (now : datetime) (new_state : StepState.t) (s : SagaStep)
    : pyres exn SagaStep :=
  if decide (new_state ∈ STEP_TRANSITIONS (step_state s)) then
    let s := set_state s new_state in
    if decide (new_state = StepState.EXECUTING) then Ok (set_started_at s now)
    else if decide (new_state ∈ [StepState.COMMITTED; StepState.COMPENSATED;
                                 StepState.COMPENSATION_FAILED; StepState.FAILED])
    then Ok (set_completed_at s now)
    else Ok s
  else Raise (SagaStateError (InvalidStepTransition (step_state s) new_state)).

(** [SagaStep.is_compensable] *)
Definition is_compensable (s : SagaStep) : bool :=
  match checkpoint_hash (spec s) with Some _ => true | None => false end
  || match compensation_tool (spec s) with Some _ => true | None => false end
  || startswith (tool_name (spec s)) "history.".

Definition terminal_saga (st : SagaState.t) : bool :=
  bool_decide (st ∈ [SagaState.COMPLETED; SagaState.FAILED; SagaState.ESCALATED]).

(** [Saga.transition] *)
Definition saga_transition (now : datetime) (new_state : SagaState.t) (sg : Saga)
    : pyres exn Saga :=
  if decide (new_state ∈ SAGA_TRANSITIONS (saga_state sg)) then
    let sg := set_saga_state sg new_state in
    if terminal_saga new_state then Ok (set_saga_completed_at sg now) else Ok sg
  else Raise (SagaStateError (InvalidSagaTransition (saga_state sg) new_state)).

Definition is_committed (s : SagaStep) : bool := bool_decide (step_state s = StepState.COMMITTED).

(** [Saga.committed_steps] *)
Definition committed_steps (sg : Saga) : list SagaStep :=
  filter (λ s, step_state s = StepState.COMMITTED) (steps sg).

(** [Saga.committed_steps_reversed], as the places of the steps in [steps]:
    the loop over it changes the steps themselves. *)
Definition committed_steps_reversed (sg : Saga) : list nat := rev (indices is_committed (steps sg)).

(** ** The durable record *)

Definition step_to_dict (s : SagaStep) : pyval :=
  VDict [
    ("step_id", VStr (step_id (spec s)));
    ("tool_name", VStr (tool_name (spec s)));
    ("tool_call_id", VStr (tool_call_id (spec s)));
    ("arguments", arguments (spec s));
    ("checkpoint_hash", of_opt_str (checkpoint_hash (spec s)));
    ("compensation_tool", of_opt_str (compensation_tool (spec s)));
    ("compensation_args", compensation_args (spec s));
    ("state", VStr (StepState.value (step_state s)));
    ("result", execute_result s);
    ("error", of_opt_str (step_error s));
    ("timeout_seconds", VInt (timeout_seconds (spec s)));
    ("max_retries", VInt (max_retries (spec s)))
  ].

(** [Saga.to_dict] *)
Definition to_dict (sg : Saga) : pyval :=
  VDict [
    ("saga_id", VStr (saga_id sg));
    ("session_id", VStr (uuid_str (session_id sg)));
    ("kind", VStr (kind sg));
    ("state", VStr (SagaState.value (saga_state sg)));
    ("created_at", VStr (isoformat (created_at sg)));
    ("completed_at", match saga_completed_at sg with Some d => VStr (isoformat d) | None => VNone end);
    ("error", of_opt_str (saga_error sg));
    ("steps", VList (step_to_dict <$> steps sg))
  ].

Section from_dict.
Local Open Scope py_scope.

Definition parse_uuid (s : string) : pyres pyexn Z :=
match uuid_parse s with Some u => Ok u | None => Raise (ValueError s) end.
Definition parse_datetime (s : string) : pyres pyexn datetime :=
match fromisoformat s with Some d => Ok d | None => Raise (ValueError s) end.

Definition step_from_dict (s : pyval) : pyres pyexn SagaStep :=
let! id := pybind (py_getitem s "step_id") as_str in
let! tool := pybind (py_getitem s "tool_name") as_str in
let! call := pybind (py_getitem s "tool_call_id") as_str in
let! args := py_getitem s "arguments" in
let! hash := pybind (py_getitem s "checkpoint_hash") as_opt_str in
let! ctool := pybind (py_getitem s "compensation_tool") as_opt_str in
let! cargs := py_getitem s "compensation_args" in
let! st := pybind (pybind (py_getitem s "state") as_str) StepState.of_value in
let! result := py_getitem s "result" in
let! err := pybind (py_getitem s "error") as_opt_str in
let! timeout := pybind (py_getitem s "timeout_seconds") as_int in
let! retries := pybind (py_getitem s "max_retries") as_int in
Ok (mk_step (mk_spec id tool call args ctool cargs hash timeout retries)
      st result VNone err None None 0).

(** [Saga.from_dict] *)
Definition from_dict (data : pyval) : pyres pyexn Saga :=
let! id := pybind (py_getitem data "saga_id") as_str in
let! session := pybind (pybind (py_getitem data "session_id") as_str) parse_uuid in
let! k := pybind (py_getitem data "kind") as_str in
let! st := pybind (pybind (py_getitem data "state") as_str) SagaState.of_value in
let! created := pybind (pybind (py_getitem data "created_at") as_str) parse_datetime in
let! completed_v := py_getitem data "completed_at" in
let! completed :=
  (if truthy completed_v
   then pybind (pybind (as_str completed_v) parse_datetime) (λ d, Ok (Some d))
   else Ok None) in
let! err := pybind (py_getitem data "error") as_opt_str in
let! ss := pybind (pybind (py_getitem data "steps") as_list) (pymap step_from_dict) in
Ok (mk_saga id session ss st created completed err k 0).
End from_dict.

(** What the record keeps of a step and of a saga: the rest is in memory only. *)
Definition durable_step (s : SagaStep) : SagaStep :=
  mk_step (spec s) (step_state s) (execute_result s) VNone (step_error s) None None 0.
Definition durable (sg : Saga) : Saga :=
  mk_saga (saga_id sg) (session_id sg) (durable_step <$> steps sg) (saga_state sg)
    (created_at sg) (saga_completed_at sg) (saga_error sg) (kind sg) 0.

Definition saga_dates_valid (sg : Saga) : Prop :=
  UUID_valid (session_id sg) ∧ datetime_valid (created_at sg) ∧
  from_option datetime_valid True (saga_completed_at sg).

(** One guarded transition of a step, of a saga. *)
Definition step_moves (s s' : SagaStep) : Prop := ∃ now st, step_transition now st s = Ok s'.
Definition saga_moves (sg sg' : Saga) : Prop := ∃ now st, saga_transition now st sg = Ok sg'.

(** How far along its life a state is. *)
Definition step_rank (s : StepState.t) : nat :=
  match s with
  | StepState.PENDING => 0 | StepState.EXECUTING => 1 | StepState.COMMITTED => 2
  | StepState.COMPENSATING => 3 | _ => 4
  end.
Definition saga_rank (s : SagaState.t) : nat :=
  match s with SagaState.RUNNING => 0 | SagaState.COMPENSATING => 1 | _ => 2 end.

(** ** A sample saga *)

Definition sample_time : datetime := mk_datetime 2026 3 1 9 30 0 250000.
Definition sample_step : SagaStep :=
  mk_step (mk_spec "step:1" "write_file" "call_1" (VDict [("path", VStr "a.txt")])
             None VNone (Some "abc123") 300 2)
    StepState.COMMITTED (VStr "ok") VNone None (Some sample_time) (Some sample_time) 1.
Definition sample_saga : Saga :=
  mk_saga "saga:1" 81985529216486895 [sample_step] SagaState.RUNNING sample_time None None "tools" 2.

(** ** Lemmas *)

Lemma step_of_value_value s : StepState.of_value (StepState.value s) = Ok s.
Proof. by destruct s. Qed.
Lemma saga_of_value_value s : SagaState.of_value (SagaState.value s) = Ok s.
Proof. by destruct s. Qed.
Lemma as_opt_str_of_opt_str o : as_opt_str (of_opt_str o) = Ok o.
Proof. by destruct o. Qed.

Lemma step_transition_Ok now st s s' :
  step_transition now st s = Ok s' →
  st ∈ STEP_TRANSITIONS (step_state s) ∧ step_state s' = st ∧ spec s' = spec s ∧
  execute_result s' = execute_result s ∧ compensation_result s' = compensation_result s ∧
  step_error s' = step_error s ∧ retry_count s' = retry_count s.
Proof.
  unfold step_transition. destruct (decide (st ∈ _)); [|done].
  destruct (decide (st = _)); [|destruct (decide (st ∈ [_; _; _; _]))]; naive_solver.
Qed.

Lemma step_transition_allowed now st s :
  st ∈ STEP_TRANSITIONS (step_state s) → ∃ s', step_transition now st s = Ok s'.
Proof. intros Hin. unfold step_transition. rewrite decide_True by done. repeat case_decide; eauto. Qed.

Lemma step_transition_refused now st s :
  st ∉ STEP_TRANSITIONS (step_state s) →
  step_transition now st s = Raise (SagaStateError (InvalidStepTransition (step_state s) st)).
Proof. intros Hin. unfold step_transition. by rewrite decide_False. Qed.

Lemma saga_transition_Ok now st sg sg' :
  saga_transition now st sg = Ok sg' →
  st ∈ SAGA_TRANSITIONS (saga_state sg) ∧ saga_state sg' = st ∧ steps sg' = steps sg ∧
  saga_id sg' = saga_id sg ∧ saga_error sg' = saga_error sg.
Proof.
  unfold saga_transition. destruct (decide (st ∈ _)); [|done].
  destruct (terminal_saga st); naive_solver.
Qed.

Lemma saga_transition_keeps now st sg sg' :
  saga_transition now st sg = Ok sg' → session_id sg' = session_id sg ∧ kind sg' = kind sg.
Proof. unfold saga_transition. destruct (decide (st ∈ _)); [|done]. destruct (terminal_saga st); naive_solver. Qed.

Lemma saga_transition_allowed now st sg :
  st ∈ SAGA_TRANSITIONS (saga_state sg) → ∃ sg', saga_transition now st sg = Ok sg'.
Proof. intros Hin. unfold saga_transition. rewrite decide_True by done. case_if; eauto. Qed.

Lemma saga_transition_refused now st sg :
  st ∉ SAGA_TRANSITIONS (saga_state sg) →
  saga_transition now st sg = Raise (SagaStateError (InvalidSagaTransition (saga_state sg) st)).
Proof. intros Hin. unfold saga_transition. by rewrite decide_False. Qed.

Lemma step_rank_increases st st' : st' ∈ STEP_TRANSITIONS st → step_rank st < step_rank st'.
Proof. destruct st; simpl; rewrite ?elem_of_cons, ?elem_of_nil; naive_solver lia. Qed.
Lemma saga_rank_increases st st' : st' ∈ SAGA_TRANSITIONS st → saga_rank st < saga_rank st'.
Proof. destruct st; simpl; rewrite ?elem_of_cons, ?elem_of_nil; naive_solver lia. Qed.

Lemma nsteps_rank {A} (R : relation A) (rank : A → nat) n x y :
  (∀ a b, R a b → rank a < rank b) → nsteps R n x y → n + rank x ≤ rank y.
Proof. intros HR. induction 1 as [|n x y z Hxy Hyz IH]; [lia|]. specialize (HR _ _ Hxy). lia. Qed.

Lemma step_from_to_dict s : step_from_dict (step_to_dict s) = Ok (durable_step s).
Proof.
  destruct s as [[]]. unfold step_from_dict, step_to_dict. cbn.
  by repeat (rewrite ?as_opt_str_of_opt_str, ?step_of_value_value; cbn).
Qed.

#[export] Hint Rewrite as_opt_str_of_opt_str step_of_value_value saga_of_value_value : pydict.

(** C1. Writing a saga to its record and reading the record back gives the same
    saga: its identity, kind, state, times, error and every step with its
    tool, arguments, compensation, state, result, error and bounds.  Only what
    lives in memory alone (attempt counts, step times, compensation results,
    the turn's numbering) starts afresh. *)
Theorem from_dict_to_dict (sg : Saga) (Hvalid : saga_dates_valid sg) :
  from_dict (to_dict sg) = Ok (durable sg) ∧ to_dict (durable sg) = to_dict sg.
Proof.
  destruct Hvalid as (Hu & Hc & Hd). split.
  - unfold from_dict, to_dict. cbn. unfold parse_uuid, parse_datetime.
    rewrite uuid_parse_str by done. cbn. rewrite saga_of_value_value. cbn.
    rewrite fromisoformat_isoformat by done. cbn.
    assert (Hsteps : pymap step_from_dict (step_to_dict <$> steps sg)
                     = Ok (durable_step <$> steps sg)).
    { apply pymap_fmap, Forall_true, step_from_to_dict. }
    destruct (saga_completed_at sg) as [d|] eqn:Hcd; cbn in Hd |- *.
    + rewrite isoformat_nonempty, fromisoformat_isoformat by done. cbn.
      rewrite as_opt_str_of_opt_str. cbn. rewrite Hsteps. cbn. unfold durable. by rewrite Hcd.
    + rewrite as_opt_str_of_opt_str. cbn. rewrite Hsteps. cbn. unfold durable. by rewrite Hcd.
  - assert (Hs : step_to_dict <$> (durable_step <$> steps sg) = step_to_dict <$> steps sg).
    { rewrite <- list_fmap_compose. by apply list_fmap_ext. }
    unfold to_dict. cbn [durable saga_id session_id kind saga_state created_at saga_completed_at
      saga_error steps]. by rewrite Hs.
Qed.

Lemma from_dict_to_dict_witness :
  from_dict (to_dict sample_saga) = Ok (durable sample_saga) ∧
  to_dict (durable sample_saga) = to_dict sample_saga.
Proof.
  apply (from_dict_to_dict sample_saga).
  repeat split; vm_compute; try reflexivity; intros Hf; discriminate Hf.
Defined.

(** C2. The life of a saga is bounded and ends for good: guarded transitions take a
    step at most four times further and a saga at most twice, and nothing
    leaves a step or a saga that has ended. *)
Theorem lifecycle_bounded :
  (∀ n s s', nsteps step_moves n s s' → n ≤ 4) ∧
  (∀ n sg sg', nsteps saga_moves n sg sg' → n ≤ 2) ∧
  (∀ now st sg, terminal_saga (saga_state sg) = true →
     saga_transition now st sg = Raise (SagaStateError (InvalidSagaTransition (saga_state sg) st))) ∧
  (∀ now st s, step_rank (step_state s) = 4 →
     step_transition now st s = Raise (SagaStateError (InvalidStepTransition (step_state s) st))).
Proof.
  repeat split.
  - intros n s s' Hn. apply (nsteps_rank _ (step_rank ∘ step_state)) in Hn; simpl in *.
    + destruct (step_state s'); simpl in *; lia.
    + intros a b (now & st & H). apply step_transition_Ok in H as (Hin & <- & _).
      by apply step_rank_increases.
  - intros n s s' Hn. apply (nsteps_rank _ (saga_rank ∘ saga_state)) in Hn; simpl in *.
    + destruct (saga_state s'); simpl in *; lia.
    + intros a b (now & st & H). apply saga_transition_Ok in H as (Hin & <- & _).
      by apply saga_rank_increases.
  - intros now st sg Ht. apply saga_transition_refused.
    destruct (saga_state sg); [done..| | |]; apply not_elem_of_nil.
  - intros now st s Hr. apply step_transition_refused.
    destruct (step_state s); [done..| | |]; apply not_elem_of_nil.
Qed.
