(* ===== verification/SagaOrchestrator.v ===== *)
(** * Saga orchestrator (governance/saga/orchestrator.py)

    The table of sagas, the forward execution of one step with its timeout and
    retries, the reverse-order compensation, and the rebuilding of the table
    from the session's event log.

    An awaited call ends in one of four ways: it returns, it times out, it
    raises, or its task is cancelled.  The calls a step makes are a parameter
    of the model (an [executor], a [compensator]), as they are of the code. *)

From S2P Require Import Prelude.
From S2P Require Import PyText.
From S2P Require Import SagaMachine.
From stdpp Require Import options.

Definition SAGA_DEFAULT_STEP_TIMEOUT_SECONDS : Z := 300.
(** Delays are in milliseconds. *)
Definition SAGA_DEFAULT_RETRY_DELAY : Z := 1000.
Definition SAGA_DEFAULT_MAX_RETRIES : Z := 2.

Record Orchestrator := mk_orch {
  sagas : list (string * Saga);
  default_step_timeout : Z;
  default_max_retries : Z;
  retry_delay : Z
}.

(** [SagaOrchestrator()] with the default bounds. *)
Definition new_orchestrator : Orchestrator :=
  mk_orch [] SAGA_DEFAULT_STEP_TIMEOUT_SECONDS SAGA_DEFAULT_MAX_RETRIES SAGA_DEFAULT_RETRY_DELAY.

Definition set_sagas (o : Orchestrator) (d : list (string * Saga)) : Orchestrator :=
  mk_orch d (default_step_timeout o) (default_max_retries o) (retry_delay o).

(** A change made to the saga held under [id]: the table shares the object. *)
Definition write_saga (o : Orchestrator) (id : string) (sg : Saga) : Orchestrator :=
  set_sagas o (dict_set id sg (sagas o)).

(** ** Lookups *)

Definition get_saga (o : Orchestrator) (id : string) : option Saga := dict_get id (sagas o).

(** [_get_saga] *)
Definition get_saga_or_raise (o : Orchestrator) (id : string) : pyres exn Saga :=
  match get_saga o id with
  | Some sg => Ok sg
  | None => Raise (SagaStateError (SagaNotFound id))
  end.

Definition step_index (sg : Saga) (id : string) : option nat :=
  find_index (λ s, String.eqb (step_id (spec s)) id) (steps sg).

(** [_get_step]: the first step of that id, with its place. *)
Definition get_step_or_raise (sg : Saga) (id : string) : pyres exn (nat * SagaStep) :=
  match step_index sg id with
  | Some i => match steps sg !! i with
              | Some s => Ok (i, s)
              | None => Raise (SagaStateError (StepNotFound id (saga_id sg)))
              end
  | None => Raise (SagaStateError (StepNotFound id (saga_id sg)))
  end.

Definition set_step (sg : Saga) (i : nat) (s : SagaStep) : Saga := set_steps sg (<[i := s]> (steps sg)).

Definition is_active (sg : Saga) : bool :=
  bool_decide (saga_state sg ∈ [SagaState.RUNNING; SagaState.COMPENSATING]).

(** [current_saga]: the first active one, in the order they were added. *)
Definition current_saga (o : Orchestrator) : option Saga := find is_active (dict_values (sagas o)).
(** [active_sagas] *)
Definition active_sagas (o : Orchestrator) : list Saga :=
  filter (λ sg, is_active sg = true) (dict_values (sagas o)).

(** ** Saga lifecycle *)

(** [adopt]: [self._sagas[saga.saga_id] = saga] *)
Definition adopt (o : Orchestrator) (sg : Saga) : Orchestrator := write_saga o (saga_id sg) sg.

(** [create_saga]: [uuid] is what [uuid.uuid4()] draws. *)
Definition create_saga (o : Orchestrator) (uuid : Z) (now : datetime) (session : Z) (knd : string)
    : Orchestrator * Saga :=
  let sg := mk_saga ("saga:" +:+ uuid_str uuid) session [] SagaState.RUNNING now None None knd 0 in
  (adopt o sg, sg).

Definition new_step (sp : StepSpec) : SagaStep :=
  mk_step sp StepState.PENDING VNone VNone None None None 0.

(** [add_step] *)
Definition add_step (o : Orchestrator) (sid : string) (uuid : Z) (tool call : string) (args : pyval)
    (ctool : option string) (cargs : pyval) (hash : option string)
    (timeout retries : option Z) : Orchestrator * pyres exn SagaStep :=
  match get_saga_or_raise o sid with
  | Raise e => (o, Raise e)
  | Ok sg =>
    let step := new_step (mk_spec ("step:" +:+ uuid_str uuid) tool call args ctool cargs hash
      (default (default_step_timeout o) timeout) (default (default_max_retries o) retries)) in
    (write_saga o sid (set_steps sg (steps sg ++ [step])), Ok step)
  end.

(** ** Forward execution *)

(** How an awaited call ends. *)
Inductive call_outcome :=
| Returns (v : pyval)
| TimesOut
| Raises (e : exn)
| Cancelled.

(** [str(exc)] *)
Definition state_error_str (w : state_error) : string :=
  match w with
  | InvalidStepTransition a b =>
      "Invalid step transition: " +:+ StepState.value a +:+ " -> " +:+ StepState.value b +:+ "."
  | InvalidSagaTransition a b =>
      "Invalid saga transition: " +:+ SagaState.value a +:+ " -> " +:+ SagaState.value b +:+ "."
  | SagaNotFound id => "Saga " +:+ id +:+ " not found"
  | StepNotFound st sg => "Step " +:+ st +:+ " not found in saga " +:+ sg
  | NoErrorCaptured => "Step execution failed with no error captured"
  | NoTryMade => "No try was made"
  | NoCheckpointHash st => "Step " +:+ st +:+ " has no checkpoint hash"
  | NoCompensationTool st => "Step " +:+ st +:+ " has no compensation tool"
  | RestoreInvalidJson st => "Checkpoint restore returned invalid JSON for step " +:+ st
  | RestoreFailed st _ => "Checkpoint restore failed for step " +:+ st
  | NotCompensable st => "Step " +:+ st +:+ " is not compensable"
  end.
Definition exn_str (e : exn) : string :=
  match e with
  | SagaStateError w => state_error_str w
  | SagaTimeoutError m | StepRefused m | OtherException m => m
  | CancelledError => ""
  | Builtin (KeyError m) | Builtin (ValueError m) | Builtin (TypeError m) | Builtin (AttributeError m) => m
  end.

(** What surrounds the tries of a step: how the try of each number ends,
    whether the wait after it is cancelled, and the clock. *)
Record exec_env := mk_env {
  run_try : Z → call_outcome;
  wait_cancelled : Z → bool;
  begun_at : Z → datetime;
  ended_at : Z → datetime
}.

(** What was done: the tries made and the milliseconds waited after each. *)
Record exec_log := mk_log { tries : list Z; waits : list Z }.

Definition timeout_error (s : SagaStep) (attempt attempts : Z) : exn :=
  SagaTimeoutError ("Step " +:+ step_id (spec s) +:+ " timed out after " +:+
    str_of_int (timeout_seconds (spec s)) +:+ "s (attempt " +:+ str_of_int (attempt + 1) +:+ "/" +:+
    str_of_int attempts +:+ ")").

Definition is_refused (e : exn) : bool := match e with StepRefused _ => true | _ => false end.

#[global] Arguments timeout_error : simpl never.
#[global] Arguments exn_str : simpl never.
#[global] Arguments is_refused : simpl never.

(** The [for attempt in range(attempts)] loop: [todo] are the attempts left,
    [last] is [last_error]. *)
Fixpoint try_step (delay : Z) (env : exec_env) (attempts : Z) (todo : list Z)
    (last : option exn) (s : SagaStep) : SagaStep * pyres exn pyval * exec_log :=
  match todo with
  | [] =>
    (s, match last with Some e => Raise e | None => Raise (SagaStateError NoErrorCaptured) end,
     mk_log [] [])
  | attempt :: todo' =>
    match step_transition (begun_at env attempt) StepState.EXECUTING (set_retry_count s attempt) with
    | Raise e => (set_retry_count s attempt, Raise e, mk_log [] [])
    | Ok s =>
      (* an [except] clause: the error is kept, the step fails, and unless the
         error refuses for good the next attempt starts from PENDING again *)
      let failed (s : SagaStep) (e : exn) :=
        match step_transition (ended_at env attempt) StepState.FAILED (set_error s (Some (exn_str e))) with
        | Raise e' => (set_error s (Some (exn_str e)), Raise e', mk_log [attempt] [])
        | Ok s =>
          if is_refused e then (s, Raise e, mk_log [attempt] [])
          else if (attempt <? attempts - 1)%Z then
            let s := set_error (set_state s StepState.PENDING) None in
            if wait_cancelled env attempt then (s, Raise CancelledError, mk_log [attempt] [])
            else
              let '(s, r, l) := try_step delay env attempts todo' (Some e) s in
              (s, r, mk_log (attempt :: tries l) (delay * (attempt + 1) :: waits l)%Z)
          else
            let '(s, r, l) := try_step delay env attempts todo' (Some e) s in
            (s, r, mk_log (attempt :: tries l) (waits l))
        end in
      match run_try env attempt with
      | Cancelled => (s, Raise CancelledError, mk_log [attempt] [])
      | TimesOut => failed s (timeout_error s attempt attempts)
      | Raises e => failed s e
      | Returns v =>
        let s := set_execute_result s v in
        match step_transition (ended_at env attempt) StepState.COMMITTED s with
        | Ok s => (s, Ok v, mk_log [attempt] [])
        | Raise e => failed s e
        end
      end
    end
  end.

(** A step's whole execution: [attempts = 1 + step.max_retries]. *)
Definition run_step (delay : Z) (env : exec_env) (s : SagaStep)
    : SagaStep * pyres exn pyval * exec_log :=
  let attempts := (1 + max_retries (spec s))%Z in
  try_step delay env attempts (seqZ 0 attempts) None s.

(** [execute_step] *)
Definition execute_step (o : Orchestrator) (sid stid : string) (env : exec_env)
    : Orchestrator * pyres exn pyval * exec_log :=
  match get_saga_or_raise o sid with
  | Raise e => (o, Raise e, mk_log [] [])
  | Ok sg =>
    match get_step_or_raise sg stid with
    | Raise e => (o, Raise e, mk_log [] [])
    | Ok (i, s) =>
      let '(s', r, l) := run_step (retry_delay o) env s in
      (write_saga o sid (set_step sg i s'), r, l)
    end
  end.

(** [attempt]: the same bounds outside any saga; the last try's error is raised. *)
Fixpoint attempt_from (delay : Z) (env : exec_env) (attempts : Z) (todo : list Z)
    : pyres exn pyval * exec_log :=
  match todo with
  | [] => (Raise (SagaStateError NoTryMade), mk_log [] [])
  | attempt :: todo' =>
    let failed (e : exn) :=
      if (attempt =? attempts - 1)%Z then (Raise e, mk_log [attempt] [])
      else if wait_cancelled env attempt then (Raise CancelledError, mk_log [attempt] [])
      else let '(r, l) := attempt_from delay env attempts todo' in
           (r, mk_log (attempt :: tries l) (delay * (attempt + 1) :: waits l)%Z) in
    match run_try env attempt with
    | Returns v => (Ok v, mk_log [attempt] [])
    | Cancelled => (Raise CancelledError, mk_log [attempt] [])
    | TimesOut => failed (OtherException "")
    | Raises e => failed e
    end
  end.

Definition attempt (o : Orchestrator) (least : Z) (env : exec_env) : pyres exn pyval * exec_log :=
  let attempts := Z.max least (1 + default_max_retries o) in
  attempt_from (retry_delay o) env attempts (seqZ 0 attempts).

(** ** Compensation *)

(** What the compensator does with the step at each place, and the clock. *)
Record comp_env := mk_comp_env {
  run_comp : nat → SagaStep → call_outcome;
  comp_begun_at : nat → datetime;
  comp_ended_at : nat → datetime
}.

(** One turn of the loop over [committed_steps_reversed]: the step, whether it
    failed compensation, and whether the compensator was called. *)
Inductive comp_verdict := Compensated | CompFailed | CompCancelled | CompError (e : exn).

Definition compensate_one (env : comp_env) (i : nat) (s : SagaStep) : SagaStep * comp_verdict * bool :=
  if negb (is_compensable s) then
    (set_error (set_state s StepState.COMPENSATION_FAILED) (Some "No compensation strategy available"),
     CompFailed, false)
  else
    match step_transition (comp_begun_at env i) StepState.COMPENSATING s with
    | Raise e => (s, CompError e, false)
    | Ok s =>
      let failed (s : SagaStep) (msg : string) :=
        match step_transition (comp_ended_at env i) StepState.COMPENSATION_FAILED
                (set_error s (Some msg)) with
        | Ok s => (s, CompFailed, true)
        | Raise e => (set_error s (Some msg), CompError e, true)
        end in
      match run_comp env i s with
      | Cancelled => (s, CompCancelled, true)
      | TimesOut =>
          failed s ("Compensation timed out after " +:+ str_of_int (timeout_seconds (spec s)) +:+ "s")
      | Raises e => failed s ("Compensation failed: " +:+ exn_str e)
      | Returns v =>
        let s := set_compensation_result s v in
        match step_transition (comp_ended_at env i) StepState.COMPENSATED s with
        | Ok s => (s, Compensated, true)
        | Raise e => failed s ("Compensation failed: " +:+ exn_str e)
        end
      end
    end.

(** The loop: the steps, the places that failed compensation in the order they
    failed, the places the compensator was called for in order, and what cut
    the loop short. *)
Fixpoint compensate_loop (env : comp_env) (todo : list nat) (l : list SagaStep)
    : list SagaStep * list nat * list nat * option exn :=
  match todo with
  | [] => (l, [], [], None)
  | i :: todo' =>
    match l !! i with
    | None => (l, [], [], None)
    | Some s =>
      let '(s', v, called) := compensate_one env i s in
      let calls := if called then [i] else [] in
      let l' := <[i := s']> l in
      match v with
      | CompCancelled => (l', [], calls, Some CancelledError)
      | CompError e => (l', [], calls, Some e)
      | Compensated =>
        let '(l'', fs, cs, e) := compensate_loop env todo' l' in (l'', fs, calls ++ cs, e)
      | CompFailed =>
        let '(l'', fs, cs, e) := compensate_loop env todo' l' in (l'', i :: fs, calls ++ cs, e)
      end
    end
  end.

(** The body of [compensate] on its saga: the failed places, in order, or what
    it raises; and the compensator's calls. *)
Definition compensate_saga (env : comp_env) (now ended : datetime) (sg : Saga)
    : Saga * pyres exn (list nat) * list nat :=
  match saga_transition now SagaState.COMPENSATING sg with
  | Raise e => (sg, Raise e, [])
  | Ok sg =>
    let '(l, failed, calls, cut) := compensate_loop env (committed_steps_reversed sg) (steps sg) in
    let sg := set_steps sg l in
    match cut with
    | Some e => (sg, Raise e, calls)
    | None =>
      match failed with
      | [] =>
        match saga_transition ended SagaState.COMPLETED sg with
        | Ok sg => (sg, Ok [], calls)
        | Raise e => (sg, Raise e, calls)
        end
      | _ :: _ =>
        match saga_transition ended SagaState.ESCALATED sg with
        | Ok sg =>
          (set_saga_error sg (Some (str_of_int (Z.of_nat (length failed)) +:+ " step(s) failed compensation")),
           Ok failed, calls)
        | Raise e => (sg, Raise e, calls)
        end
      end
    end
  end.

(** [compensate] *)
Definition compensate (o : Orchestrator) (sid : string) (env : comp_env) (now ended : datetime)
    : Orchestrator * pyres exn (list nat) * list nat :=
  match get_saga_or_raise o sid with
  | Raise e => (o, Raise e, [])
  | Ok sg =>
    let '(sg', r, calls) := compensate_saga env now ended sg in (write_saga o sid sg', r, calls)
  end.

(** ** What a step's execution should do *)

(** A try that failed in a way another try may mend. *)
Definition transient (env : exec_env) (a : Z) : Prop :=
  match run_try env a with
  | TimesOut => True
  | Raises e => is_refused e = false
  | Returns _ | Cancelled => False
  end.

(** The error a failed try leaves. *)
Definition try_error (env : exec_env) (attempts : Z) (s : SagaStep) (a : Z) : exn :=
  match run_try env a with Raises e => e | _ => timeout_error s a attempts end.

(** The waits after the first [n] tries. *)
Definition backoff (delay : Z) (n : Z) : list Z := (λ a, delay * (a + 1))%Z <$> seqZ 0 n.

(** The parts of a step its execution leaves alone. *)
Definition same_task s s' : Prop :=
  spec s' = spec s ∧ compensation_result s' = compensation_result s.

(** Whatever its tries do, the loop commits the step exactly when it returns. *)
Definition loop_result (s s' : SagaStep) (r : pyres exn pyval) : Prop :=
  match r with
  | Ok v => step_state s' = StepState.COMMITTED ∧ execute_result s' = v
  | Raise _ => step_state s' ∈ [StepState.PENDING; StepState.EXECUTING; StepState.FAILED] ∧
               execute_result s' = execute_result s
  end.

(** ** What a compensation should do *)

(** Whether the step at place [i] is put back. *)
Definition put_back (env : comp_env) (i : nat) (s : SagaStep) : bool :=
  is_compensable s &&
  match run_comp env i (set_state s StepState.COMPENSATING) with Returns _ => true | _ => false end.

Definition not_cancelled (env : comp_env) (i : nat) (s : SagaStep) : Prop :=
  is_compensable s = true → run_comp env i (set_state s StepState.COMPENSATING) ≠ Cancelled.

(** A property of the step at a place. *)
Definition at_place (l : list SagaStep) (P : nat → SagaStep → bool) (i : nat) : bool :=
  match l !! i with Some s => P i s | None => false end.

(** The places of [sg] whose steps compensation has to undo and cannot, and
    those it calls the compensator for, newest step first. *)
Definition not_put_back (env : comp_env) (sg : Saga) : list nat :=
  List.filter (at_place (steps sg) (λ i s, negb (put_back env i s))) (committed_steps_reversed sg).
Definition compensator_calls (sg : Saga) : list nat :=
  List.filter (at_place (steps sg) (λ _, is_compensable)) (committed_steps_reversed sg).

(** ** A sample table *)

Definition sample_pending : SagaStep :=
  new_step (mk_spec "step:2" "terminal" "call_2" (VDict []) None VNone (Some "def456") 300 2).
Definition sample_running : Saga :=
  set_steps sample_saga [sample_step; sample_pending; set_state sample_pending StepState.COMMITTED].
Definition sample_orchestrator : Orchestrator := adopt new_orchestrator sample_running.
(** The first try times out, the second returns. *)
Definition sample_env : exec_env :=
  mk_env (λ a, if (a =? 0)%Z then TimesOut else Returns (VStr "done")) (λ _, false)
    (λ _, sample_time) (λ _, sample_time).
Definition sample_comp_env : comp_env :=
  mk_comp_env (λ i _, if (i =? 0)%nat then Raises (OtherException "gone") else Returns VNone)
    (λ _, sample_time) (λ _, sample_time).

(** ** Lemmas: one try *)

Section tries.
Context (delay : Z) (env : exec_env) (attempts : Z).
Implicit Types s : SagaStep.

Lemma try_step_begin a s :
  step_state s = StepState.PENDING →
  ∃ s1, step_transition (begun_at env a) StepState.EXECUTING (set_retry_count s a) = Ok s1 ∧
    step_state s1 = StepState.EXECUTING ∧ same_task s s1 ∧ step_error s1 = step_error s ∧
    execute_result s1 = execute_result s ∧ retry_count s1 = a.
Proof. intros Hs. unfold step_transition. simpl. rewrite Hs. simpl. eexists. repeat split. Qed.

Lemma finish_step now st s :
  step_state s = StepState.EXECUTING → st ∈ [StepState.COMMITTED; StepState.FAILED] →
  ∃ s1, step_transition now st s = Ok s1 ∧ step_state s1 = st ∧ same_task s s1 ∧
    step_error s1 = step_error s ∧ execute_result s1 = execute_result s ∧ retry_count s1 = retry_count s.
Proof.
  intros Hs Hst. destruct (step_transition_allowed now st s) as [s1 H1].
  { by rewrite Hs. }
  exists s1. apply step_transition_Ok in H1 as Hp. destruct Hp as (_&?&?&?&?&?&?). done.
Qed.

Lemma timeout_error_same s s1 a : same_task s s1 → timeout_error s1 a attempts = timeout_error s a attempts.
Proof. intros [Hspec _]. unfold timeout_error. by rewrite Hspec. Qed.

(** A try that returns commits. *)
Lemma try_step_returns a todo last s v :
  step_state s = StepState.PENDING → run_try env a = Returns v →
  ∃ s', try_step delay env attempts (a :: todo) last s = (s', Ok v, mk_log [a] []) ∧
    step_state s' = StepState.COMMITTED ∧ execute_result s' = v ∧ step_error s' = step_error s ∧
    retry_count s' = a ∧ same_task s s'.
Proof.
  intros Hs Hv. destruct (try_step_begin a s Hs) as (s1 & H1 & Hst1 & [Hsp1 Hc1] & He1 & _ & Hr1).
  destruct (finish_step (ended_at env a) StepState.COMMITTED (set_execute_result s1 v))
    as (s2 & H2 & ? & [Hsp Hc] & ? & ? & ?); [done | set_solver |].
  exists s2. simpl. rewrite H1, Hv, H2. simpl in *. repeat split; congruence.
Qed.

(** A try that fails for good ends the execution; one that may be mended is
    followed by the next try, from PENDING with no error, after its wait. *)
Lemma try_step_fails a todo last s :
  step_state s = StepState.PENDING →
  (transient env a ∨ ∃ e, run_try env a = Raises e ∧ is_refused e = true) →
  let e := try_error env attempts s a in
  ∃ sf, step_state sf = StepState.FAILED ∧ step_error sf = Some (exn_str e) ∧ same_task s sf ∧
    execute_result sf = execute_result s ∧ retry_count sf = a ∧
    try_step delay env attempts (a :: todo) last s =
      if is_refused e then (sf, Raise e, mk_log [a] [])
      else if (a <? attempts - 1)%Z then
        let s := set_error (set_state sf StepState.PENDING) None in
        if wait_cancelled env a then (s, Raise CancelledError, mk_log [a] [])
        else let '(s, r, l) := try_step delay env attempts todo (Some e) s in
             (s, r, mk_log (a :: tries l) (delay * (a + 1) :: waits l)%Z)
      else let '(s, r, l) := try_step delay env attempts todo (Some e) sf in
           (s, r, mk_log (a :: tries l) (waits l)).
Proof.
  intros Hs Hf e. destruct (try_step_begin a s Hs) as (s1 & H1 & Hst1 & Hsame & He1 & Hx1 & Hr1).
  destruct (finish_step (ended_at env a) StepState.FAILED (set_error s1 (Some (exn_str e))))
    as (s2 & H2 & ? & [Hsp Hc] & ? & ? & ?); [done | set_solver |].
  exists s2. destruct Hsame as [Hsp1 Hc1]. simpl in *.
  split_and!; try (split; congruence); try congruence.
  rewrite H1. unfold transient in Hf. unfold e, try_error in *.
  rewrite (timeout_error_same s s1) by done.
  destruct (run_try env a) as [v| |e0|]; [naive_solver| | |naive_solver];
    cbv zeta beta; by rewrite H2.
Qed.

(** A run of tries that all may be mended, each waited after: the next try
    starts from PENDING. *)
Lemma try_step_skip n k todo last s :
  step_state s = StepState.PENDING →
  (∀ a, (k <= a < k + Z.of_nat n)%Z → transient env a ∧ wait_cancelled env a = false) →
  (k + Z.of_nat n <= attempts - 1)%Z →
  ∃ s' last', step_state s' = StepState.PENDING ∧ same_task s s' ∧
    execute_result s' = execute_result s ∧
    (if (n =? 0)%nat then step_error s' = step_error s else step_error s' = None) ∧
    try_step delay env attempts (seqZ k (Z.of_nat n) ++ todo) last s =
      let '(s2, r, l) := try_step delay env attempts todo last' s' in
      (s2, r, mk_log (seqZ k (Z.of_nat n) ++ tries l)
                     (((λ a, delay * (a + 1))%Z <$> seqZ k (Z.of_nat n)) ++ waits l)).
Proof.
  revert k last s. induction n as [|n IH]; intros k last s Hs Htr Hle.
  { exists s, last. do 4 (split; [done|]). simpl.
    destruct (try_step delay env attempts todo last s) as [[s2 r] [t w]]. done. }
  rewrite seqZ_cons by lia. replace (Z.pred (Z.of_nat (S n))) with (Z.of_nat n) by lia.
  destruct (Htr k ltac:(lia)) as [Hk Hw].
  destruct (try_step_fails k (seqZ (Z.succ k) (Z.of_nat n) ++ todo) last s Hs)
    as (sf & Hst & He & [Hsp Hc] & Hx & Hr & Heq); [by left|].
  destruct (IH (Z.succ k) (Some (try_error env attempts s k)) (set_error (set_state sf StepState.PENDING) None))
    as (s' & last' & Hs' & [Hsp' Hc'] & Hx' & He' & Heq'); [done|intros; apply Htr; lia|lia|].
  exists s', last'. split; [done|]. split; [split; simpl in *; congruence|].
  split; [simpl in *; congruence|]. split; [by destruct (n =? 0)%nat|].
  assert (Href : is_refused (try_error env attempts s k) = false).
  { unfold transient, try_error in *. by destruct (run_try env k). }
  rewrite fmap_cons, <- !app_comm_cons, Heq, Href, Hw, (proj2 (Z.ltb_lt k (attempts - 1))) by lia.
  cbv zeta. rewrite Heq'.
  by destruct (try_step delay env attempts todo last' s') as [[s2 r] l].
Qed.

(** The last try, or one refused for good, ends the execution in failure. *)
Lemma try_step_stops a last s :
  step_state s = StepState.PENDING →
  (transient env a ∨ ∃ e, run_try env a = Raises e ∧ is_refused e = true) →
  let e := try_error env attempts s a in
  is_refused e = true ∨ a = (attempts - 1)%Z →
  ∃ s', try_step delay env attempts (a :: seqZ (a + 1) (attempts - a - 1)) last s
          = (s', Raise e, mk_log [a] []) ∧
    step_state s' = StepState.FAILED ∧ step_error s' = Some (exn_str e) ∧ retry_count s' = a ∧
    execute_result s' = execute_result s ∧ spec s' = spec s.
Proof.
  intros Hs Hf e Hend.
  destruct (try_step_fails a (seqZ (a + 1) (attempts - a - 1)) last s Hs Hf)
    as (sf & Hst & He & [Hsp Hc] & Hx & Hr & Heq).
  exists sf. split; [|done]. rewrite Heq. fold e.
  destruct (is_refused e) eqn:Hre; [done|]. destruct Hend as [?| ->]; [done|].
  rewrite (proj2 (Z.ltb_ge _ _)) by lia.
  replace (attempts - (attempts - 1) - 1)%Z with 0%Z by lia. done.
Qed.
End tries.

(** The tries before the [n]th, the [n]th and those after. *)
Lemma seqZ_split n m : (0 <= n < m)%Z → seqZ 0 m = seqZ 0 n ++ n :: seqZ (n + 1) (m - n - 1).
Proof.
  intros Hn. replace m with (n + (m - n))%Z at 1 by lia. rewrite seqZ_app by lia. f_equal.
  rewrite Z.add_0_l, seqZ_cons by lia. repeat f_equal; lia.
Qed.
Lemma seqZ_snoc n : (0 <= n)%Z → seqZ 0 (n + 1) = seqZ 0 n ++ [n].
Proof. intros Hn. rewrite (seqZ_split n) by lia. do 2 f_equal. replace (n + 1 - n - 1)%Z with 0%Z by lia. done. Qed.

(** The execution of a step whose first [n] tries may be mended and are waited
    after, by how its next try ends. *)
Lemma run_step_outcome delay env s n :
  step_state s = StepState.PENDING → (0 <= n <= max_retries (spec s))%Z →
  (∀ a, (0 <= a < n)%Z → transient env a ∧ wait_cancelled env a = false) →
  let e := try_error env (1 + max_retries (spec s)) s n in
  match run_try env n with
  | Returns v => ∃ s',
      run_step delay env s = (s', Ok v, mk_log (seqZ 0 (n + 1)) (backoff delay n)) ∧
      step_state s' = StepState.COMMITTED ∧ execute_result s' = v ∧ retry_count s' = n ∧ spec s' = spec s
  | Cancelled => ∃ s',
      run_step delay env s = (s', Raise CancelledError, mk_log (seqZ 0 (n + 1)) (backoff delay n)) ∧
      step_state s' = StepState.EXECUTING ∧ execute_result s' = execute_result s ∧ spec s' = spec s
  | TimesOut | Raises _ =>
      is_refused e = true ∨ n = max_retries (spec s) → ∃ s',
      run_step delay env s = (s', Raise e, mk_log (seqZ 0 (n + 1)) (backoff delay n)) ∧
      step_state s' = StepState.FAILED ∧ step_error s' = Some (exn_str e) ∧
      retry_count s' = n ∧ execute_result s' = execute_result s ∧ spec s' = spec s
  end.
Proof.
  intros Hs Hn Htr e. unfold run_step. set (attempts := (1 + max_retries (spec s))%Z) in *.
  rewrite (seqZ_split n attempts) by lia.
  destruct (try_step_skip delay env attempts (Z.to_nat n) 0
    (n :: seqZ (n + 1) (attempts - n - 1)) None s) as (s1 & last & Hs1 & [Hsp Hc] & Hx & He & Heq);
    [done | intros; apply Htr; lia | lia |].
  rewrite Z2Nat.id in Heq by lia. rewrite Heq. fold (backoff delay n). rewrite (seqZ_snoc n) by lia.
  assert (Herr : try_error env attempts s1 n = e).
  { unfold e, try_error. destruct (run_try env n); [|by apply timeout_error_same|..]; try done;
      by apply timeout_error_same. }
  destruct (run_try env n) as [v| |e0|] eqn:Hrun.
  - destruct (try_step_returns delay env attempts n (seqZ (n + 1) (attempts - n - 1)) last s1 v)
      as (s2 & H2 & ? & ? & ? & ? & [Hsp2 Hc2]); [done..|].
    exists s2. rewrite H2. cbn. rewrite app_nil_r. repeat split; congruence.
  - intros Hend. rewrite <- Herr in *.
    destruct (try_step_stops delay env attempts n last s1) as (s2 & H2 & ? & ? & ? & ? & ?);
      [done | left; unfold transient; by rewrite Hrun | destruct Hend; [auto | right; lia] |].
    exists s2. rewrite H2. cbn. rewrite app_nil_r. repeat split; congruence.
  - intros Hend. rewrite <- Herr in *.
    destruct (try_step_stops delay env attempts n last s1) as (s2 & H2 & ? & ? & ? & ? & ?);
      [done | | destruct Hend; [auto | right; lia] |].
    { unfold transient. rewrite Hrun. destruct (is_refused e0) eqn:?; eauto. }
    exists s2. rewrite H2. cbn. rewrite app_nil_r. repeat split; congruence.
  - destruct (try_step_begin env n s1 Hs1) as (s2 & H2 & ? & [Hsp2 Hc2] & ? & ? & ?).
    exists s2. simpl. rewrite H2, Hrun. cbn. rewrite app_nil_r. repeat split; congruence.
Qed.

(** ** Lemmas: any execution *)

Lemma loop_result_weaken s s1 s' r :
  execute_result s1 = execute_result s → loop_result s1 s' r → loop_result s s' r.
Proof. intros He. destruct r; [done|]. unfold loop_result. by rewrite He. Qed.

Lemma try_step_not_pending delay env attempts todo last s :
  step_state s ≠ StepState.PENDING →
  let '(s', r, l) := try_step delay env attempts todo last s in
  spec s' = spec s ∧ step_state s' = step_state s ∧ execute_result s' = execute_result s ∧
  tries l = [] ∧ is_ok r = false.
Proof.
  intros Hs. destruct todo as [|a todo]; simpl; [by destruct last|].
  rewrite step_transition_refused; [done|]. simpl. destruct (step_state s); set_solver.
Qed.

Lemma try_step_safe_failed delay env attempts a todo last s :
  (∀ last s, step_state s = StepState.PENDING ∨ step_state s = StepState.FAILED →
     let '(s', r, l) := try_step delay env attempts todo last s in
     spec s' = spec s ∧ tries l `prefix_of` todo ∧ loop_result s s' r) →
  step_state s = StepState.PENDING →
  (transient env a ∨ ∃ e, run_try env a = Raises e ∧ is_refused e = true) →
  let '(s', r, l) := try_step delay env attempts (a :: todo) last s in
  spec s' = spec s ∧ tries l `prefix_of` a :: todo ∧ loop_result s s' r.
Proof.
  intros IH Hs Hf.
  destruct (try_step_fails delay env attempts a todo last s Hs Hf)
    as (sf & Hst & He & [Hsp Hc] & Hx & Hr & ->).
  set (e := try_error env attempts s a).
  assert (Hone : [a] `prefix_of` a :: todo) by apply prefix_cons, prefix_nil.
  destruct (is_refused e); [split; [done|]; split; [done|]; split; [rewrite Hst; set_solver | done]|].
  destruct (a <? attempts - 1)%Z; [destruct (wait_cancelled env a)|]; cbv zeta.
  - split; [done|]. split; [done|]. split; [set_solver | done].
  - specialize (IH (Some e) (set_error (set_state sf StepState.PENDING) None) ltac:(by left)).
    destruct (try_step _ _ _ todo _ _) as [[s' r] l]. destruct IH as (?&?&Hres). simpl in *.
    split; [congruence|]. split; [by apply prefix_cons|]. by eapply loop_result_weaken; [|exact Hres].
  - specialize (IH (Some e) sf ltac:(by right)).
    destruct (try_step _ _ _ todo _ _) as [[s' r] l]. destruct IH as (?&?&Hres). simpl in *.
    split; [congruence|]. split; [by apply prefix_cons|]. by eapply loop_result_weaken; [|exact Hres].
Qed.

Lemma try_step_safe delay env attempts todo last s :
  step_state s = StepState.PENDING ∨ step_state s = StepState.FAILED →
  let '(s', r, l) := try_step delay env attempts todo last s in
  spec s' = spec s ∧ tries l `prefix_of` todo ∧ loop_result s s' r.
Proof.
  revert last s. induction todo as [|a todo IH]; intros last s Hs.
  { simpl. split; [done|]. split; [done|]. destruct last; split; set_solver. }
  destruct Hs as [Hs|Hs].
  2:{ pose proof (try_step_not_pending delay env attempts (a :: todo) last s) as H.
      destruct (try_step _ _ _ _ _ _) as [[s' r] l]. destruct H as (?&Hst&?&Hl&?); [congruence|].
      rewrite Hl. split; [done|]. split; [apply prefix_nil|]. destruct r; [done|].
      split; [rewrite Hst, Hs; set_solver | done]. }
  destruct (run_try env a) as [v| |e|] eqn:Hrun.
  - destruct (try_step_returns delay env attempts a todo last s v Hs Hrun)
      as (s' & -> & ? & ? & ? & ? & [Hsp _]). simpl.
    split; [done|]. split; [by apply prefix_cons, prefix_nil | done].
  - apply try_step_safe_failed; [done.. |]. left. unfold transient. by rewrite Hrun.
  - apply try_step_safe_failed; [done.. |]. unfold transient. rewrite Hrun.
    destruct (is_refused e) eqn:?; eauto.
  - destruct (try_step_begin env a s Hs) as (s1 & H1 & Hst & [Hsp _] & ? & ? & ?).
    simpl. rewrite H1, Hrun. simpl. split; [done|]. split; [by apply prefix_cons, prefix_nil|].
    split; [rewrite Hst; set_solver | done].
Qed.

Lemma seqZ_prefix (l : list Z) m :
  l `prefix_of` seqZ 0 m → ∃ k, (0 <= k <= Z.max 0 m)%Z ∧ l = seqZ 0 k.
Proof.
  intros [l' Heq]. exists (Z.of_nat (length l)).
  assert (Hlen : length l + length l' = Z.to_nat m)
    by (rewrite <- length_app, <- Heq; apply length_seqZ).
  split; [lia|]. transitivity (take (length l) (seqZ 0 m)); [by rewrite Heq, take_app_length|].
  replace m with (Z.of_nat (length l) + (m - Z.of_nat (length l)))%Z by lia.
  destruct (decide (length l = 0)) as [H0|H0]; [by rewrite H0|].
  rewrite seqZ_app by lia. apply take_app_length'. rewrite length_seqZ. lia.
Qed.

(** ** Lemmas: compensation *)

Lemma compensate_one_spec env i s :
  step_state s = StepState.COMMITTED → not_cancelled env i s →
  ∃ s', compensate_one env i s =
          (s', if put_back env i s then Compensated else CompFailed, is_compensable s) ∧
    spec s' = spec s ∧ execute_result s' = execute_result s ∧
    step_state s' = if put_back env i s then StepState.COMPENSATED else StepState.COMPENSATION_FAILED.
Proof.
  intros Hs Hnc. unfold compensate_one, put_back, not_cancelled in *.
  destruct (is_compensable s) eqn:Hc; simpl; [|by eexists].
  unfold step_transition at 1. rewrite Hs. simpl.
  destruct (run_comp env i _) as [v| |e|]; [..|by destruct Hnc];
    unfold step_transition; simpl; eexists; split; done.
Qed.

Lemma at_place_insert l P i j s : i ≠ j → at_place (<[i:=s]> l) P j = at_place l P j.
Proof. intros Hne. unfold at_place. by rewrite list_lookup_insert_ne. Qed.

Lemma at_place_eq l P i s : l !! i = Some s → at_place l P i = P i s.
Proof. intros Hs. unfold at_place. by rewrite Hs. Qed.

Lemma filter_at_place_insert l P i s todo :
  i ∉ todo → List.filter (at_place (<[i:=s]> l) P) todo = List.filter (at_place l P) todo.
Proof.
  intros Hi. apply filter_ext_in. intros j Hj%list_elem_of_In.
  apply at_place_insert. set_solver.
Qed.

Lemma compensate_loop_spec env todo l :
  NoDup todo →
  (∀ i, i ∈ todo → ∃ s, l !! i = Some s ∧ step_state s = StepState.COMMITTED ∧ not_cancelled env i s) →
  ∃ l', compensate_loop env todo l =
      (l', List.filter (at_place l (λ i s, negb (put_back env i s))) todo,
       List.filter (at_place l (λ _, is_compensable)) todo, None) ∧
    (∀ i, i ∉ todo → l' !! i = l !! i) ∧
    (∀ i s, i ∈ todo → l !! i = Some s → ∃ s', l' !! i = Some s' ∧ spec s' = spec s ∧
       execute_result s' = execute_result s ∧
       step_state s' = if put_back env i s then StepState.COMPENSATED else StepState.COMPENSATION_FAILED).
Proof.
  revert l. induction todo as [|i todo IH]; intros l Hnd Hall.
  { exists l. simpl. split_and!; [done|done|]. intros ?? Hin. by apply not_elem_of_nil in Hin. }
  apply NoDup_cons in Hnd as [Hi Hnd].
  destruct (Hall i) as (s & Hs & Hst & Hnc); [set_solver|].
  destruct (compensate_one_spec env i s Hst Hnc) as (s' & H1 & Hsp & Hx & Hst').
  assert (Hlt : i < length l) by (apply lookup_lt_Some in Hs; lia).
  destruct (IH (<[i:=s']> l)) as (l' & Hloop & Hsame & Hdone); [done|..].
  { intros j Hj. rewrite list_lookup_insert_ne by set_solver. apply Hall. set_solver. }
  exists l'. split_and!.
  - simpl. rewrite Hs, H1, !(at_place_eq l _ i s Hs).
    rewrite !filter_at_place_insert in Hloop by done. rewrite Hloop.
    by destruct (put_back env i s), (is_compensable s).
  - intros j Hj. rewrite Hsame by set_solver. apply list_lookup_insert_ne. set_solver.
  - intros j t Hj Ht. destruct (decide (j = i)) as [->|Hne].
    + exists s'. rewrite Hsame by done. rewrite list_lookup_insert_eq by done.
      by simplify_eq.
    + apply Hdone; [set_solver|]. rewrite list_lookup_insert_ne by done. done.
Qed.

Lemma committed_places sg i :
  i ∈ committed_steps_reversed sg ↔ ∃ s, steps sg !! i = Some s ∧ step_state s = StepState.COMMITTED.
Proof.
  unfold committed_steps_reversed. rewrite elem_of_rev, indices_elem.
  unfold is_committed. setoid_rewrite bool_decide_eq_true. done.
Qed.

Lemma committed_steps_reversed_NoDup sg : NoDup (committed_steps_reversed sg).
Proof.
  unfold committed_steps_reversed. apply NoDup_ListNoDup, NoDup_rev, NoDup_ListNoDup, indices_from_NoDup.
Qed.

Lemma strongly_sorted_committed sg : StronglySorted (flip lt) (committed_steps_reversed sg).
Proof. apply strongly_sorted_rev, indices_from_sorted. Qed.

Lemma get_saga_write o id sg : get_saga (write_saga o id sg) id = Some sg.
Proof. apply dict_get_set_eq. Qed.

Lemma get_saga_write_ne o id id' sg : id' ≠ id → get_saga (write_saga o id sg) id' = get_saga o id'.
Proof. apply dict_get_set_ne. Qed.

Lemma get_saga_or_raise_Some o sid sg : get_saga o sid = Some sg → get_saga_or_raise o sid = Ok sg.
Proof. intros H. unfold get_saga_or_raise. by rewrite H. Qed.

Lemma get_step_or_raise_Some sg stid i s :
  step_index sg stid = Some i → steps sg !! i = Some s → get_step_or_raise sg stid = Ok (i, s).
Proof. intros Hi Hs. unfold get_step_or_raise. by rewrite Hi, Hs. Qed.

(** An execution of a step that is found is that of [run_step], written back. *)
Lemma execute_step_found o sid stid sg i s env :
  get_saga o sid = Some sg → step_index sg stid = Some i → steps sg !! i = Some s →
  execute_step o sid stid env =
    let '(s', r, l) := run_step (retry_delay o) env s in (write_saga o sid (set_step sg i s'), r, l).
Proof.
  intros Hg Hi Hs. unfold execute_step.
  by rewrite (get_saga_or_raise_Some _ _ _ Hg), (get_step_or_raise_Some _ _ _ _ Hi Hs).
Qed.

(** The compensation loop, whatever the compensator does. *)
Lemma compensate_loop_calls env todo l l' fs cs e :
  compensate_loop env todo l = (l', fs, cs, e) →
  cs `sublist_of` todo ∧ fs `sublist_of` todo ∧ (∀ i, i ∉ todo → l' !! i = l !! i) ∧
  length l' = length l.
Proof.
  revert l l' fs cs e. induction todo as [|i todo IH]; intros l l' fs cs e H; simpl in H; simplify_eq.
  { repeat split; constructor. }
  destruct (l !! i) as [s|] eqn:Hs; simplify_eq; [|repeat split; apply sublist_nil_l].
  destruct (compensate_one env i s) as [[s' v] called].
  assert (Hone : (if called then [i] else []) `sublist_of` i :: todo)
    by (destruct called; [apply sublist_skip|]; apply sublist_nil_l).
  assert (Hother : ∀ j, j ∉ i :: todo → <[i:=s']> l !! j = l !! j)
    by (intros j Hj; apply list_lookup_insert_ne; set_solver).
  destruct v; simplify_eq/=.
  3,4: repeat split; [done | apply sublist_nil_l | done | apply length_insert].
  all: destruct (compensate_loop env todo (<[i:=s']> l)) as [[[l2 fs2] cs2] e2] eqn:Hloop; simplify_eq/=;
    apply IH in Hloop as (Hc & Hf & Hsame & Hlen); split_and!;
    [destruct called; simpl; by constructor | by constructor
    | intros j Hj; rewrite Hsame by set_solver; by apply Hother | by rewrite Hlen, length_insert].
Qed.

Lemma compensate_loop_compensable env todo l l' fs cs e i :
  NoDup todo → compensate_loop env todo l = (l', fs, cs, e) → i ∈ cs →
  ∃ s, l !! i = Some s ∧ is_compensable s = true.
Proof.
  revert l l' fs cs e. induction todo as [|j todo IH]; intros l l' fs cs e Hnd H Hi; simpl in H; simplify_eq.
  { by apply not_elem_of_nil in Hi. }
  apply NoDup_cons in Hnd as [Hj Hnd].
  destruct (l !! j) as [s|] eqn:Hs; simplify_eq; [|by apply not_elem_of_nil in Hi].
  destruct (compensate_one env j s) as [[s' v] called] eqn:Hone.
  assert (Hcalled : called = true → is_compensable s = true).
  { unfold compensate_one in Hone. destruct (is_compensable s); [done|]. by simplify_eq/=. }
  destruct v; simplify_eq/=; try destruct (compensate_loop _ _ _) as [[[l2 fs2] cs2] e2] eqn:Hloop; simplify_eq/=.
  3,4: destruct called; [|by apply not_elem_of_nil in Hi]; exists s; split; set_solver.
  all: apply elem_of_app in Hi as [Hi|Hi];
    [destruct called; [|by apply not_elem_of_nil in Hi]; exists s; split; set_solver|];
    pose proof (compensate_loop_calls _ _ _ _ _ _ _ Hloop) as (Hc & _);
    rewrite <- (list_lookup_insert_ne l j i s'); [by eapply IH|];
    intros <-; apply Hj; by eapply elem_of_sublist.
Qed.

(** Whatever the compensator does, a committed step takes its turn without an
    error of its own, and keeps what it was of. *)
Lemma compensate_one_safe env i s :
  step_state s = StepState.COMMITTED →
  let '(s', v, _) := compensate_one env i s in
  spec s' = spec s ∧ match v with CompError _ => False | _ => True end.
Proof.
  intros Hs. unfold compensate_one. destruct (is_compensable s); simpl; [|done].
  unfold step_transition at 1. rewrite Hs. simpl.
  destruct (run_comp env i _); unfold step_transition; simpl; done.
Qed.

Lemma compensate_loop_safe env todo l l' fs cs cut :
  NoDup todo → (∀ i, i ∈ todo → ∃ s, l !! i = Some s ∧ step_state s = StepState.COMMITTED) →
  compensate_loop env todo l = (l', fs, cs, cut) →
  spec <$> l' = spec <$> l ∧ (cut = None ∨ cut = Some CancelledError).
Proof.
  revert l l' fs cs cut. induction todo as [|i todo IH]; intros l l' fs cs cut Hnd Hall H; simpl in H.
  { simplify_eq. auto. }
  apply NoDup_cons in Hnd as [Hi Hnd]. destruct (Hall i) as (s & Hs & Hst); [set_solver|]. rewrite Hs in H.
  pose proof (compensate_one_safe env i s Hst) as Hone.
  destruct (compensate_one env i s) as [[s' v] called]. destruct Hone as [Hsp Hv].
  assert (Hmap : spec <$> <[i:=s']> l = spec <$> l).
  { rewrite list_fmap_insert. apply list_insert_id. by rewrite list_lookup_fmap, Hs, Hsp. }
  assert (Hall' : ∀ j, j ∈ todo → ∃ s, <[i:=s']> l !! j = Some s ∧ step_state s = StepState.COMMITTED).
  { intros j Hj. rewrite list_lookup_insert_ne by set_solver. apply Hall. set_solver. }
  destruct v; simplify_eq/=; [..|done]; try done;
    try (destruct (compensate_loop env todo (<[i:=s']> l)) as [[[l2 fs2] cs2] e2] eqn:Hloop; simplify_eq/=;
         apply IH in Hloop as [Heq ?]; [|done..]; rewrite Heq); auto.
Qed.

Lemma compensating_from_running st :
  st ≠ SagaState.RUNNING → SagaState.COMPENSATING ∉ SAGA_TRANSITIONS st.
Proof. destruct st; set_solver. Qed.

Lemma compensate_saga_once env now ended sg sg' r calls :
  compensate_saga env now ended sg = (sg', r, calls) →
  calls `sublist_of` compensator_calls sg ∧
  (saga_state sg ≠ SagaState.RUNNING → calls = [] ∧ is_ok r = false) ∧
  saga_state sg' ≠ SagaState.RUNNING.
Proof.
  unfold compensate_saga. destruct (decide (saga_state sg = SagaState.RUNNING)) as [Hrun|Hrun].
  2:{ rewrite saga_transition_refused by by apply compensating_from_running. intros; simplify_eq.
      split_and!; [apply sublist_nil_l | done | done]. }
  destruct (saga_transition_allowed now SagaState.COMPENSATING sg) as (sg1 & H1).
  { rewrite Hrun. set_solver. }
  rewrite H1. apply saga_transition_Ok in H1 as (_ & Hst1 & Hsteps1 & _).
  replace (committed_steps_reversed sg1) with (committed_steps_reversed sg)
    by (unfold committed_steps_reversed; by rewrite Hsteps1).
  rewrite Hsteps1. destruct (compensate_loop _ _ _) as [[[l fs] cs] cut] eqn:Hloop.
  assert (Hcs : cs `sublist_of` compensator_calls sg).
  { apply sublist_filter_intro; [exact (proj1 (compensate_loop_calls _ _ _ _ _ _ _ Hloop))|]. intros i Hi.
    destruct (compensate_loop_compensable _ _ _ _ _ _ _ i (committed_steps_reversed_NoDup sg) Hloop Hi)
      as (s & Hs & Hcs). by rewrite (at_place_eq _ _ _ _ Hs). }
  intros H. cut (cs = calls ∧ saga_state sg' ≠ SagaState.RUNNING); [naive_solver|].
  destruct cut; [simplify_eq/=; by rewrite Hst1|].
  destruct fs; (destruct (saga_transition ended _ _) as [sg2|] eqn:H2;
    [apply saga_transition_Ok in H2 as (_ & ? & _) | ]); simplify_eq/=; split; congruence.
Qed.

(** A running saga's compensation ends it, unless it is cancelled. *)
Lemma compensate_saga_ends env now ended sg sg' r calls :
  saga_state sg = SagaState.RUNNING → compensate_saga env now ended sg = (sg', r, calls) →
  saga_id sg' = saga_id sg ∧ session_id sg' = session_id sg ∧ kind sg' = kind sg ∧
  spec <$> steps sg' = spec <$> steps sg ∧
  match r with
  | Ok _ => terminal_saga (saga_state sg') = true
  | Raise e => e = CancelledError ∧ saga_state sg' = SagaState.COMPENSATING
  end.
Proof.
  intros Hrun. unfold compensate_saga.
  destruct (saga_transition_allowed now SagaState.COMPENSATING sg) as (sg1 & H1).
  { rewrite Hrun. set_solver. }
  rewrite H1. pose proof (saga_transition_keeps _ _ _ _ H1) as [Hse1 Hk1].
  apply saga_transition_Ok in H1 as (_ & Hst1 & Hsteps1 & Hid1 & _).
  destruct (compensate_loop _ _ _) as [[[l fs] cs] cut] eqn:Hloop.
  apply compensate_loop_safe in Hloop as [Hmap Hcut].
  2:{ apply committed_steps_reversed_NoDup. }
  2:{ intros i. by rewrite committed_places. }
  rewrite Hsteps1 in Hmap. destruct cut as [e|].
  { destruct Hcut as [|Hcut]; [done|]. intros; simplify_eq. simpl. done. }
  set (st := match fs with [] => SagaState.COMPLETED | _ => SagaState.ESCALATED end).
  destruct (saga_transition_allowed ended st (set_steps sg1 l)) as (sg2 & H2).
  { simpl. rewrite Hst1. subst st. destruct fs; set_solver. }
  assert (Hst : terminal_saga st = true) by (by destruct fs).
  destruct fs; subst st; simpl in H2 |- *; rewrite H2;
    pose proof (saga_transition_keeps _ _ _ _ H2) as [Hse2 Hk2];
    apply saga_transition_Ok in H2 as (_ & Hst2 & Hs2 & Hid2 & _); intros; simplify_eq; simpl in *;
    rewrite Hs2, Hid2, Hst2, Hse2, Hk2; done.
Qed.

(** ** Properties *)

(** C3. A pending step whose first [n] tries time out or fail in a way another
    try may mend, and are waited after, has its outcome decided by its next
    try: a result commits it with that result; a timeout or an error on its
    last allowed try, or a refusal at any, fails it with that very error and
    raises it; a cancellation leaves it executing.  Exactly [n + 1] tries are
    made, with the delay times [1 .. n] between them, and the rest of the
    table is as it was. *)
Theorem execute_step_outcome o sid stid sg i s env n
    (Hg : get_saga o sid = Some sg) (Hi : step_index sg stid = Some i) (Hl : steps sg !! i = Some s)
    (Hs : step_state s = StepState.PENDING) (Hn : (0 <= n <= max_retries (spec s))%Z)
    (Htr : ∀ a, (0 <= a < n)%Z → transient env a ∧ wait_cancelled env a = false) :
  let e := try_error env (1 + max_retries (spec s)) s n in
  let done s' r :=
    execute_step o sid stid env =
      (write_saga o sid (set_step sg i s'), r, mk_log (seqZ 0 (n + 1)) (backoff (retry_delay o) n)) in
  match run_try env n with
  | Returns v => ∃ s', done s' (Ok v) ∧
      step_state s' = StepState.COMMITTED ∧ execute_result s' = v ∧ retry_count s' = n ∧ spec s' = spec s
  | Cancelled => ∃ s', done s' (Raise CancelledError) ∧
      step_state s' = StepState.EXECUTING ∧ execute_result s' = execute_result s ∧ spec s' = spec s
  | TimesOut | Raises _ =>
      is_refused e = true ∨ n = max_retries (spec s) → ∃ s', done s' (Raise e) ∧
      step_state s' = StepState.FAILED ∧ step_error s' = Some (exn_str e) ∧
      retry_count s' = n ∧ execute_result s' = execute_result s ∧ spec s' = spec s
  end.
Proof.
  cbv zeta. rewrite (execute_step_found _ _ _ _ _ _ env Hg Hi Hl).
  pose proof (run_step_outcome (retry_delay o) env s n Hs Hn Htr) as H. cbv zeta in H.
  destruct (run_try env n); [|intros Hend; specialize (H Hend)..|]; destruct H as (s' & -> & H); eauto.
Qed.

Lemma execute_step_outcome_witness :
  ∃ s', execute_step sample_orchestrator "saga:1" "step:2" sample_env =
    (write_saga sample_orchestrator "saga:1" (set_step sample_running 1 s'), Ok (VStr "done"),
     mk_log [0; 1]%Z [1000]%Z) ∧
    step_state s' = StepState.COMMITTED ∧ execute_result s' = VStr "done" ∧ retry_count s' = 1%Z ∧
    spec s' = spec sample_pending.
Proof.
  apply (execute_step_outcome sample_orchestrator "saga:1" "step:2" sample_running 1 sample_pending sample_env 1);
    try reflexivity; [simpl; lia|].
  intros a Ha. replace a with 0%Z by lia. done.
Defined.

(** C4. Whatever the calls, the waits and the clock do, executing a step of the
    table changes that step alone, keeps its tool and bounds, makes the tries
    [0, 1, ..] in order and at most [1 + max_retries] of them, and returns a
    value exactly when the step ends committed with it.  A step that is not
    pending is refused with no try made and its state and result kept, so a
    committed step is never executed again. *)
Theorem execute_step_safe o sid stid sg i s env
    (Hg : get_saga o sid = Some sg) (Hi : step_index sg stid = Some i) (Hl : steps sg !! i = Some s) :
  let '(o', r, l) := execute_step o sid stid env in
  ∃ s' k, o' = write_saga o sid (set_step sg i s') ∧ spec s' = spec s ∧
    tries l = seqZ 0 k ∧ (0 <= k <= Z.max 0 (1 + max_retries (spec s)))%Z ∧
    (step_state s = StepState.PENDING → loop_result s s' r) ∧
    (step_state s ≠ StepState.PENDING → k = 0%Z ∧ is_ok r = false ∧
       step_state s' = step_state s ∧ execute_result s' = execute_result s).
Proof.
  rewrite (execute_step_found _ _ _ _ _ _ env Hg Hi Hl). unfold run_step.
  destruct (decide (step_state s = StepState.PENDING)) as [Hs|Hs].
  - pose proof (try_step_safe (retry_delay o) env (1 + max_retries (spec s))
      (seqZ 0 (1 + max_retries (spec s))) None s (or_introl Hs)) as H.
    destruct (try_step _ _ _ _ _ _) as [[s' r] l]. destruct H as (Hsp & Hpre & Hres).
    apply seqZ_prefix in Hpre as (k & Hk & Hl'). exists s', k. done.
  - pose proof (try_step_not_pending (retry_delay o) env (1 + max_retries (spec s))
      (seqZ 0 (1 + max_retries (spec s))) None s Hs) as H.
    destruct (try_step _ _ _ _ _ _) as [[s' r] l]. destruct H as (Hsp & Hst & Hx & Ht & Hr).
    exists s', 0%Z. split_and!; [done..|lia|lia|done|done].
Qed.

Lemma execute_step_safe_witness :
  let '(o', r, l) := execute_step sample_orchestrator "saga:1" "step:1" sample_env in
  ∃ s' k, o' = write_saga sample_orchestrator "saga:1" (set_step sample_running 0 s') ∧
    spec s' = spec sample_step ∧
    tries l = seqZ 0 k ∧ (0 <= k <= Z.max 0 (1 + max_retries (spec sample_step)))%Z ∧
    (step_state sample_step = StepState.PENDING → loop_result sample_step s' r) ∧
    (step_state sample_step ≠ StepState.PENDING → k = 0%Z ∧ is_ok r = false ∧
       step_state s' = step_state sample_step ∧ execute_result s' = execute_result sample_step).
Proof. by apply (execute_step_safe sample_orchestrator "saga:1" "step:1" sample_running 0 sample_step sample_env). Defined.

(** Compensating a running saga, where no call is cancelled, calls the
    compensator for exactly its committed steps that can be undone, the newest
    first; marks each committed step compensated or not according to how its
    call ended; leaves every other step as it was; answers the steps not put
    back, in that order; and completes the saga exactly when there are none,
    escalating it with their number otherwise. *)
Theorem compensate_outcome o sid sg env now ended
    (Hg : get_saga o sid = Some sg) (Hrun : saga_state sg = SagaState.RUNNING)
    (Hnc : ∀ i s, steps sg !! i = Some s → not_cancelled env i s) :
  let left := not_put_back env sg in
  StronglySorted (flip lt) (compensator_calls sg) ∧
  ∃ sg', compensate o sid env now ended = (write_saga o sid sg', Ok left, compensator_calls sg) ∧
    (∀ i s, steps sg !! i = Some s → ∃ s', steps sg' !! i = Some s' ∧ spec s' = spec s ∧
       step_state s' = if is_committed s then
                         if put_back env i s then StepState.COMPENSATED else StepState.COMPENSATION_FAILED
                       else step_state s) ∧
    saga_id sg' = saga_id sg ∧
    match left with
    | [] => saga_state sg' = SagaState.COMPLETED ∧ saga_error sg' = saga_error sg
    | _ => saga_state sg' = SagaState.ESCALATED ∧
           saga_error sg' = Some (str_of_int (Z.of_nat (length left)) +:+ " step(s) failed compensation")
    end.
Proof.
  split; [apply strongly_sorted_filter, strongly_sorted_committed|].
  unfold compensate, compensate_saga. rewrite (get_saga_or_raise_Some _ _ _ Hg).
  destruct (saga_transition_allowed now SagaState.COMPENSATING sg) as (sg1 & H1).
  { rewrite Hrun. set_solver. }
  rewrite H1. apply saga_transition_Ok in H1 as (_ & Hst1 & Hsteps1 & Hid1 & Herr1).
  unfold committed_steps_reversed in *. rewrite Hsteps1.
  destruct (compensate_loop_spec env (committed_steps_reversed sg) (steps sg)) as (l' & Hloop & Hsame & Hdone).
  { apply committed_steps_reversed_NoDup. }
  { intros i Hi. apply committed_places in Hi as (s & ? & ?). eauto. }
  unfold committed_steps_reversed in Hloop at 1. rewrite Hloop.
  fold (not_put_back env sg) (compensator_calls sg).
  assert (Hall : ∀ i s, steps sg !! i = Some s → ∃ s', l' !! i = Some s' ∧ spec s' = spec s ∧
       step_state s' = if is_committed s then
                         if put_back env i s then StepState.COMPENSATED else StepState.COMPENSATION_FAILED
                       else step_state s).
  { intros i s Hs. unfold is_committed. case_bool_decide as Hc.
    - destruct (Hdone i s) as (s' & ? & ? & _ & ?); [apply committed_places; eauto | done |]. eauto.
    - exists s. rewrite Hsame; [done|]. intros Hin%committed_places. naive_solver. }
  destruct (not_put_back env sg) as [|i0 fs] eqn:Hleft.
  - destruct (saga_transition_allowed ended SagaState.COMPLETED (set_steps sg1 l')) as (sg2 & H2).
    { simpl. rewrite Hst1. set_solver. }
    rewrite H2. apply saga_transition_Ok in H2 as (_ & ? & Hs2 & Hid2 & He2).
    exists sg2. rewrite Hs2, Hid2, He2. simpl. rewrite Hid1, Herr1. done.
  - destruct (saga_transition_allowed ended SagaState.ESCALATED (set_steps sg1 l')) as (sg2 & H2).
    { simpl. rewrite Hst1. set_solver. }
    rewrite H2. apply saga_transition_Ok in H2 as (_ & ? & Hs2 & Hid2 & He2).
    eexists. split; [done|]. simpl. rewrite Hs2, Hid2. simpl. rewrite Hid1. done.
Qed.

Lemma compensate_outcome_witness :
  let left := not_put_back sample_comp_env sample_running in
  StronglySorted (flip lt) (compensator_calls sample_running) ∧
  ∃ sg', compensate sample_orchestrator "saga:1" sample_comp_env sample_time sample_time
         = (write_saga sample_orchestrator "saga:1" sg', Ok left, compensator_calls sample_running) ∧
    (∀ i s, steps sample_running !! i = Some s → ∃ s', steps sg' !! i = Some s' ∧ spec s' = spec s ∧
       step_state s' = if is_committed s then
                         if put_back sample_comp_env i s then StepState.COMPENSATED
                         else StepState.COMPENSATION_FAILED
                       else step_state s) ∧
    saga_id sg' = saga_id sample_running ∧
    match left with
    | [] => saga_state sg' = SagaState.COMPLETED ∧ saga_error sg' = saga_error sample_running
    | _ => saga_state sg' = SagaState.ESCALATED ∧
           saga_error sg' = Some (str_of_int (Z.of_nat (length left)) +:+ " step(s) failed compensation")
    end.
Proof.
  apply (compensate_outcome sample_orchestrator "saga:1" sample_running sample_comp_env sample_time sample_time);
    try reflexivity.
  intros i s _ _. simpl. by destruct (i =? 0)%nat.
Defined.

(** C5. Within one table in memory nothing is put back twice: whatever the
    compensator does, cut short or not, one compensation calls it at most once
    for a step, only for committed steps that can be undone, the newest first,
    and leaves the saga outside RUNNING, so that a second compensation of it
    in that table, with any compensator, calls nothing, raises and changes
    nothing. A table rebuilt from the log after a crash in the middle of a
    compensation is another matter: see [interrupted_compensation_forgotten]
    in SagaLog.v. *)
Theorem compensate_once o sid sg env now ended env' now' ended'
    (Hg : get_saga o sid = Some sg) :
  let '(o', r, calls) := compensate o sid env now ended in
  calls `sublist_of` compensator_calls sg ∧ NoDup calls ∧
  (saga_state sg ≠ SagaState.RUNNING → calls = [] ∧ is_ok r = false) ∧
  ∃ e, compensate o' sid env' now' ended' = (o', Raise e, []).
Proof.
  unfold compensate. rewrite (get_saga_or_raise_Some _ _ _ Hg).
  destruct (compensate_saga env now ended sg) as [[sg' r] calls] eqn:Hc.
  apply compensate_saga_once in Hc as (Hsub & Hrun & Hnot).
  split_and!; [done| | |].
  - eapply sublist_NoDup; [|done]. apply NoDup_ListNoDup, List.NoDup_filter, NoDup_ListNoDup.
    apply committed_steps_reversed_NoDup.
  - done.
  - rewrite (get_saga_or_raise_Some _ _ sg') by apply get_saga_write.
    unfold compensate_saga. rewrite saga_transition_refused.
    { eexists. unfold write_saga, set_sagas. simpl. by rewrite dict_set_set. }
    by apply compensating_from_running.
Qed.

Lemma compensate_once_witness :
  let '(o', r, calls) := compensate sample_orchestrator "saga:1" sample_comp_env sample_time sample_time in
  calls `sublist_of` compensator_calls sample_running ∧ NoDup calls ∧
  (saga_state sample_running ≠ SagaState.RUNNING → calls = [] ∧ is_ok r = false) ∧
  ∃ e, compensate o' "saga:1" sample_comp_env sample_time sample_time = (o', Raise e, []).
Proof. by apply (compensate_once sample_orchestrator "saga:1" sample_running). Defined.
