(* ===== verification/SagaLog.v ===== *)
(** * Sagas and the session's log

    The payloads of the saga events (governance/events.py), the rebuilding of
    the saga table from the log ([reconstruct_from_events],
    governance/saga/orchestrator.py), and the harness operations that change a
    turn's sagas and journal what they did (harness/tool_exec.py,
    harness/loop.py).

    The log is a list of events in id order.  A write of the store either
    appends the event or raises: [up] says which, by the id it would have.
    [compensate_sagas] is the path of a session that opens no copy on its
    user's computer. *)

From S2P Require Import Prelude.
From S2P Require Import PyText.
From S2P Require Import SagaMachine.
From S2P Require Import SagaOrchestrator.
From stdpp Require Import options.

Record Event := mk_event { event_id : Z; event_type : string; event_data : pyval }.

(** ** Payloads: [ts] is what [time.time()] reads *)

Definition policy_denied_event (tool_name reason : string) (ts : pyval) : pyval :=
  VDict [("tool", VStr tool_name); ("reason", VStr reason); ("timestamp", ts)].

Definition saga_start_event (saga_id session_id kind : string) (ts : pyval) : pyval :=
  VDict [("saga_id", VStr saga_id); ("session_id", VStr session_id); ("kind", VStr kind);
         ("timestamp", ts)].

(** The entry of a field, left out when it is [None]. *)
Definition field (key : string) (v : pyval) : list (string * pyval) :=
  match v with VNone => [] | _ => [(key, v)] end.

Definition saga_step_event (saga_id step_id tool_name state tool_call_id : string)
    (arguments : pyval) (compensation_tool : option string) (compensation_args : pyval)
    (checkpoint_hash : option string) (result : pyval) (error : option string) (ts : pyval) : pyval :=
  VDict ([("saga_id", VStr saga_id); ("step_id", VStr step_id); ("tool_name", VStr tool_name);
          ("state", VStr state); ("timestamp", ts)] ++
         (if str_truthy tool_call_id then [("tool_call_id", VStr tool_call_id)] else []) ++
         field "arguments" arguments ++
         field "compensation_tool" (of_opt_str compensation_tool) ++
         field "compensation_args" compensation_args ++
         field "checkpoint_hash" (of_opt_str checkpoint_hash) ++
         field "result" result ++
         field "error" (of_opt_str error)).

Definition saga_compensate_event (saga_id : string) (steps_rolled_back : Z) (reason : string)
    (failed_steps : list string) (ts : pyval) : pyval :=
  VDict ([("saga_id", VStr saga_id); ("steps_rolled_back", VInt steps_rolled_back);
          ("reason", VStr reason); ("timestamp", ts)] ++
         match failed_steps with [] => [] | _ => [("failed_steps", VList (VStr <$> failed_steps))] end).

Definition saga_complete_event (saga_id status : string) (steps_executed : Z) (ts : pyval) : pyval :=
  VDict [("saga_id", VStr saga_id); ("status", VStr status); ("steps_executed", VInt steps_executed);
         ("timestamp", ts)].

(** ** Rebuilding the table *)

Section reconstruct.
Local Open Scope py_scope.

(** [self._sagas.get(v)]: a list or a dict is no key. *)
Definition sagas_get (o : Orchestrator) (v : pyval) : pyres pyexn (option Saga) :=
  match v with
  | VStr id => Ok (get_saga o id)
  | VList _ | VDict _ => Raise (TypeError "unhashable type")
  | _ => Ok None
  end.

(** [_find_step]: the saga, with the step's place in it. *)
Definition find_step (o : Orchestrator) (sid stid : pyval) : pyres pyexn (option (Saga * nat * SagaStep)) :=
  let! found := sagas_get o sid in
  Ok (match found, stid with
      | Some sg, VStr id =>
        match step_index sg id with
        | Some i => match steps sg !! i with Some s => Some (sg, i, s) | None => None end
        | None => None
        end
      | _, _ => None
      end).

(** [saga.state = ...] of the saga the event names, when there is one. *)
Definition str_key (v : pyval) : string := match v with VStr s => s | _ => "" end.

Definition reconstruct_event (now : datetime) (o : Orchestrator) (ev : Event) : pyres pyexn Orchestrator :=
  let data := if truthy (event_data ev) then event_data ev else VDict [] in
  let sid := py_get data "saga_id" (VStr "") in
  let stid := py_get data "step_id" (VStr "") in
  if String.eqb (event_type ev) "saga.start" then
    let! id := pybind (py_getitem data "saga_id") as_str in
    let! session := pybind (pybind (py_getitem data "session_id") as_str) parse_uuid in
    let! knd := as_str (py_get data "kind" (VStr "tools")) in
    Ok (adopt o (mk_saga id session [] SagaState.RUNNING now None None knd 0))
  else if String.eqb (event_type ev) "saga.step_begin" then
    let! found := sagas_get o sid in
    match found with
    | None => Ok o
    | Some sg =>
      let! id := pybind (py_getitem data "step_id") as_str in
      let! tool := pybind (py_getitem data "tool_name") as_str in
      let! call := as_str (py_get data "tool_call_id" (VStr "")) in
      let! ctool := as_opt_str (py_get data "compensation_tool" VNone) in
      let! hash := as_opt_str (py_get data "checkpoint_hash" VNone) in
      let s := mk_step (mk_spec id tool call (py_get data "arguments" (VDict [])) ctool
                          (py_get data "compensation_args" VNone) hash 300 0)
                 StepState.EXECUTING VNone VNone None None None 0 in
      Ok (write_saga o (str_key sid) (set_steps sg (steps sg ++ [s])))
    end
  else if String.eqb (event_type ev) "saga.step_committed" then
    let! found := find_step o sid stid in
    match found with
    | None => Ok o
    | Some (sg, i, s) =>
      Ok (write_saga o (str_key sid) (set_step sg i
            (set_execute_result (set_completed_at (set_state s StepState.COMMITTED) now)
               (py_get data "result" VNone))))
    end
  else if String.eqb (event_type ev) "saga.step_failed" then
    let! found := find_step o sid stid in
    match found with
    | None => Ok o
    | Some (sg, i, s) =>
      let! err := as_opt_str (py_get data "error" VNone) in
      Ok (write_saga o (str_key sid) (set_step sg i
            (set_error (set_completed_at (set_state s StepState.FAILED) now) err)))
    end
  else if String.eqb (event_type ev) "saga.compensate" then
    let! found := sagas_get o sid in
    match found with
    | None => Ok o
    | Some sg => Ok (write_saga o (str_key sid) (set_saga_state sg SagaState.COMPENSATING))
    end
  else if String.eqb (event_type ev) "saga.complete" then
    let! found := sagas_get o sid in
    match found with
    | None => Ok o
    | Some sg =>
      let! st := pybind (as_str (py_get data "status" (VStr "completed"))) SagaState.of_value in
      let sg := set_saga_state sg st in
      Ok (write_saga o (str_key sid) (if terminal_saga st then set_saga_completed_at sg now else sg))
    end
  else Ok o.

(** [reconstruct_from_events]; an error it raises ends the wake, and the table
    with it.  [now] is the clock at each event. *)
Fixpoint reconstruct_from_events (now : Z → datetime) (o : Orchestrator) (events : list Event)
    : pyres pyexn Orchestrator :=
  match events with
  | [] => Ok o
  | ev :: events' =>
    let! o := reconstruct_event (now (event_id ev)) o ev in reconstruct_from_events now o events'
  end.
End reconstruct.

(** ** The harness *)

(** A turn's saga table, the session's log, and which writes the store takes. *)
Record Harness := mk_harness { table : Orchestrator; log : list Event; up : Z → bool }.

Definition set_table (h : Harness) (o : Orchestrator) : Harness := mk_harness o (log h) (up h).

Definition next_id (h : Harness) : Z := Z.of_nat (length (log h)) + 1.

(** [self._store.emit_event(session.id, type, data)] *)
Definition emit (h : Harness) (ty : string) (data : pyval) : Harness * bool :=
  if up h (next_id h) then (mk_harness (table h) (log h ++ [mk_event (next_id h) ty data]) (up h), true)
  else (h, false).

Definition SAGA_EXCLUDED_TOOLS : list string :=
  ["ask_user_question"; "list_files"; "office_edit"; "office_read"; "read_file"; "file_read";
   "search_files"; "session_search"; "skill_view"; "skills_list"; "todo"; "web_crawl";
   "web_extract"; "web_search"].

(** The saga step of a tool call, begun before it runs: the step, where one is
    tracked, by its saga's id and its own.  [None] when the begin could not be
    written, which ends the call. *)
Definition begin_step (h : Harness) (replay : bool) (uuid : Z) (now : datetime) (ts : pyval)
    (tool_name tool_call_id : string) (tool_args sanitized_args : pyval) (checkpoint_hash : option string)
    : Harness * option (option (string * string)) :=
  if negb replay && negb (bool_decide (tool_name ∈ SAGA_EXCLUDED_TOOLS)) then
    match current_saga (table h) with
    | None => (h, Some None)
    | Some current =>
      let sid := saga_id current in
      match add_step (table h) sid uuid tool_name tool_call_id tool_args None VNone checkpoint_hash None None with
      | (o, Raise _) => (set_table h o, None)
      | (o, Ok step) =>
        match get_saga_or_raise o sid, step_transition now StepState.EXECUTING step with
        | Ok sg, Ok step' =>
          let h := set_table h (write_saga o sid (set_step sg (length (steps sg) - 1) step')) in
          let '(h, ok) := emit h "saga.step_begin"
            (saga_step_event sid (step_id (spec step)) tool_name (StepState.value StepState.EXECUTING)
               tool_call_id sanitized_args None VNone checkpoint_hash VNone None ts) in
          (h, if ok then Some (Some (sid, step_id (spec step))) else None)
        | _, _ => (set_table h o, None)
        end
      end
    end
  else (h, Some None).

(** The step's end: [stid] of [sid] is the step [begin_step] answered. *)
Definition end_step (h : Harness) (sid stid : string) (now : datetime) (ts : pyval)
    (tool_failed : bool) (result_content : string) : Harness * bool :=
  match get_saga_or_raise (table h) sid with
  | Raise _ => (h, false)
  | Ok sg =>
    match get_step_or_raise sg stid with
    | Raise _ => (h, false)
    | Ok (i, step) =>
      let '(step, st, error) :=
        if tool_failed then (set_error step (Some result_content), StepState.FAILED, Some result_content)
        else (set_execute_result step (VStr result_content), StepState.COMMITTED, None) in
      match step_transition now st step with
      | Raise _ => (set_table h (write_saga (table h) sid (set_step sg i step)), false)
      | Ok step =>
        emit (set_table h (write_saga (table h) sid (set_step sg i step)))
          (if tool_failed then "saga.step_failed" else "saga.step_committed")
          (saga_step_event sid stid (tool_name (spec step)) (StepState.value st) "" VNone None VNone None
             VNone error ts)
      end
    end
  end.

(** [_finalize_sagas]: the body of its loop, an error of which is logged. *)
Definition finalize_saga (now : datetime) (ts : pyval) (h : Harness) (active : Saga) : Harness :=
  match saga_transition now SagaState.COMPLETED active with
  | Raise _ => h
  | Ok sg =>
    fst (emit (set_table h (write_saga (table h) (saga_id sg) sg)) "saga.complete"
           (saga_complete_event (saga_id sg) "completed" (Z.of_nat (length (steps sg))) ts))
  end.

Definition finalize_sagas (now : datetime) (ts : pyval) (h : Harness) : Harness :=
  foldl (finalize_saga now ts) h (active_sagas (table h)).

Definition stops : list string := ["session.pause"; "session.stopped"].
Definition ends : list string := ["session.complete"; "session.fail"] ++ stops.

(** [max((e.id for e in events if e.type in ends), default=None)] *)
Definition last_end (events : list Event) : option Z :=
  foldl (λ acc e, if decide (event_type e ∈ ends) then
                    Some (match acc with None => event_id e | Some m => Z.max m (event_id e) end)
                  else acc) None events.

(** [{e.data.get("saga_id"): e.id for e in events if e.type == "saga.start"}]
    read at a saga's id: the last start wins. *)
Definition started (events : list Event) (sid : string) : option Z :=
  foldl (λ acc e,
           if String.eqb (event_type e) "saga.start" then
             match py_get (event_data e) "saga_id" VNone with
             | VStr id => if String.eqb id sid then Some (event_id e) else acc
             | _ => acc
             end
           else acc) None events.

(** [_close_stale_sagas]: one stale saga, started at [start]. *)
Definition close_stale (events : list Event) (start : Z) (now : datetime) (ts : pyval) (h : Harness) (stale : Saga)
    : pyres exn Harness :=
  let stopped := existsb (λ e, bool_decide (event_type e ∈ stops) && (start <? event_id e)%Z) events in
  match (if bool_decide (saga_state stale = SagaState.RUNNING) && stopped
         then saga_transition now SagaState.COMPENSATING stale else Ok stale) with
  | Raise e => Raise e
  | Ok stale =>
    let status := if decide (saga_state stale = SagaState.RUNNING) then SagaState.COMPLETED
                  else SagaState.ESCALATED in
    match saga_transition now status stale with
    | Raise e => Raise e
    | Ok stale =>
      match emit (set_table h (write_saga (table h) (saga_id stale) stale)) "saga.complete"
              (saga_complete_event (saga_id stale) (SagaState.value status)
                 (Z.of_nat (length (steps stale))) ts) with
      | (h, true) => Ok h
      | (_, false) => Raise (OtherException "the event was not written")
      end
    end
  end.

Fixpoint close_stale_loop (events : list Event) (now : datetime) (ts : pyval)
    (todo : list (Saga * Z)) (h : Harness) : pyres exn Harness :=
  match todo with
  | [] => Ok h
  | (stale, start) :: todo' => pybind (close_stale events start now ts h stale) (close_stale_loop events now ts todo')
  end.

(** The active sagas that started before the last turn end, with their starts. *)
Definition stale_sagas (o : Orchestrator) (events : list Event) : list (Saga * Z) :=
  match last_end events with
  | None => []
  | Some ended =>
    omap (λ sg, match started events (saga_id sg) with
                | Some start => if (start <? ended)%Z then Some (sg, start) else None
                | None => None
                end) (active_sagas o)
  end.

Definition close_stale_sagas (events : list Event) (now : datetime) (ts : pyval) (h : Harness) : pyres exn Harness :=
  close_stale_loop events now ts (stale_sagas (table h) events) h.

Definition is_saga_event (e : Event) : bool := startswith (event_type e) "saga.".

(** The saga part of a wake: the table rebuilt from the log, the stale sagas
    closed, and a new one begun where none is active.  [bounds] is the empty
    orchestrator of the configured bounds. *)
Definition wake_sagas (bounds : Orchestrator) (clock : Z → datetime) (now : datetime) (ts : pyval)
    (uuid session : Z) (h : Harness) : pyres exn Harness :=
  let events := log h in
  let saga_events := List.filter is_saga_event events in
  let rebuilt :=
    match saga_events with
    | [] => Ok (set_table h bounds)
    | _ =>
      match reconstruct_from_events clock bounds saga_events with
      | Raise e => Raise (Builtin e)
      | Ok o => close_stale_sagas events now ts (set_table h o)
      end
    end in
  match rebuilt with
  | Raise e => Raise e
  | Ok h =>
    match active_sagas (table h) with
    | _ :: _ => Ok h
    | [] =>
      let '(o, sg) := create_saga (table h) uuid now session "tools" in
      match emit (set_table h o) "saga.start"
              (saga_start_event (saga_id sg) (uuid_str session) (kind sg) ts) with
      | (h, true) => Ok h
      | (_, false) => Raise (OtherException "the event was not written")
      end
    end
  end.

(** The two events that say a saga was put back, the second where the first is
    written. *)
Definition write_undone (h : Harness) (sg : Saga) (rolled_back : Z) (reason : string)
    (failed_ids : list string) (ts : pyval) : Harness :=
  let '(h, ok) := emit h "saga.compensate"
    (saga_compensate_event (saga_id sg) rolled_back reason failed_ids ts) in
  if ok then
    fst (emit h "saga.complete" (saga_complete_event (saga_id sg) (SagaState.value (saga_state sg))
           (Z.of_nat (length (steps sg))) ts))
  else h.

(** [_compensate_sagas]: one active saga.  [no_sandbox] says whether the pool
    failed to provide the sandbox the compensation needs.  [inr] is a
    cancellation, which nothing catches. *)
Definition compensate_active (reason : string) (no_sandbox : string → bool) (comp : string → comp_env)
    (now : datetime) (ts : pyval) (h : Harness) (active : Saga) : Harness * bool :=
  if decide (saga_state active = SagaState.COMPENSATING) then (h, true)
  else
    let sid := saga_id active in
    let committed := committed_steps active in
    let outcome :=
      if existsb is_compensable committed && no_sandbox sid then
        match pybind (saga_transition now SagaState.COMPENSATING active) (saga_transition now SagaState.ESCALATED) with
        | Raise e => (table h, Raise e)
        | Ok sg => (write_saga (table h) sid (set_saga_error sg (Some "Sandbox unavailable for compensation")),
                    Ok (committed_steps sg))
        end
      else
        let '(o, r, _) := compensate (table h) sid (comp sid) now now in
        (o, match r with
            | Raise e => Raise e
            | Ok places =>
              Ok (omap (λ i, get_saga o sid ≫= (λ sg, steps sg !! i)) places)
            end) in
    match outcome with
    | (o, Raise CancelledError) => (set_table h o, false)
    | (o, Raise _) => (set_table h o, true)
    | (o, Ok failed) =>
      let h := set_table h o in
      match get_saga o sid with
      | None => (h, true)
      | Some sg =>
        (write_undone h sg (Z.of_nat (length committed) - Z.of_nat (length failed)) reason
           ((λ s, step_id (spec s)) <$> failed) ts, true)
      end
    end.

Fixpoint compensate_actives (reason : string) (no_sandbox : string → bool) (comp : string → comp_env)
    (now : datetime) (ts : pyval) (todo : list Saga) (h : Harness) : Harness * bool :=
  match todo with
  | [] => (h, true)
  | active :: todo' =>
    match compensate_active reason no_sandbox comp now ts h active with
    | (h, true) => compensate_actives reason no_sandbox comp now ts todo' h
    | (h, false) => (h, false)
    end
  end.

Definition compensate_sagas (reason : string) (no_sandbox : string → bool) (comp : string → comp_env)
    (now : datetime) (ts : pyval) (h : Harness) : Harness * bool :=
  compensate_actives reason no_sandbox comp now ts (active_sagas (table h)) h.

(** ** What the log keeps of a table *)

(** The log does not keep a step's bounds, result or times; and of a saga put
    back or over it does not keep how each step was. *)
Definition same_call (s s' : SagaStep) : Prop :=
  step_id (spec s) = step_id (spec s') ∧ tool_name (spec s) = tool_name (spec s') ∧
  tool_call_id (spec s) = tool_call_id (spec s') ∧
  compensation_tool (spec s) = compensation_tool (spec s') ∧
  compensation_args (spec s) = compensation_args (spec s') ∧
  checkpoint_hash (spec s) = checkpoint_hash (spec s').

Definition same_record (sg sg' : Saga) : Prop :=
  saga_id sg = saga_id sg' ∧ session_id sg = session_id sg' ∧ kind sg = kind sg' ∧
  saga_state sg = saga_state sg' ∧ Forall2 same_call (steps sg) (steps sg') ∧
  (saga_state sg = SagaState.RUNNING → step_state <$> steps sg = step_state <$> steps sg').

Definition same_entry (p p' : string * Saga) : Prop :=
  p.1 = p'.1 ∧ p.1 = saga_id p.2 ∧ same_record p.2 p'.2.

Definition same_table (o o' : Orchestrator) : Prop :=
  NoDup (dict_keys (sagas o)) ∧ Forall2 same_entry (sagas o) (sagas o').

Definition recovers (bounds : Orchestrator) (clock : Z → datetime) (h : Harness) : Prop :=
  ∃ o', reconstruct_from_events clock bounds (List.filter is_saga_event (log h)) = Ok o' ∧
        same_table (table h) o'.

(** The sagas a loop has yet to take, as the table holds them. *)
Definition pending (h : Harness) (todo : list Saga) : Prop :=
  NoDup (saga_id <$> todo) ∧ Forall (λ sg, get_saga (table h) (saga_id sg) = Some sg) todo.

(** One operation of the harness, or an event of another kind, on a session
    whose writes the store takes. *)
Inductive harness_step (bounds : Orchestrator) (clock : Z → datetime) (h : Harness) : Harness → Prop :=
| step_other ty data :
    startswith ty "saga." = false → harness_step bounds clock h (fst (emit h ty data))
| step_wake now ts uuid session h' :
    UUID_valid session →
    wake_sagas bounds clock now ts uuid session h = Ok h' → harness_step bounds clock h h'
| step_begin replay uuid now ts tool call args sanitized hash :
    harness_step bounds clock h (fst (begin_step h replay uuid now ts tool call args sanitized hash))
| step_end sid stid now ts tool_failed content :
    harness_step bounds clock h (fst (end_step h sid stid now ts tool_failed content))
| step_finalize now ts : harness_step bounds clock h (finalize_sagas now ts h)
| step_compensate reason no_sandbox comp now ts h' :
    compensate_sagas reason no_sandbox comp now ts h = (h', true) → harness_step bounds clock h h'.

(** ** A sample session: two calls of a turn, both committed *)

Definition sample_clock : Z → datetime := λ _, sample_time.
Definition sample_new : Harness := mk_harness new_orchestrator [] (λ _, true).
Definition sample_awake : Harness :=
  match wake_sagas new_orchestrator sample_clock sample_time VNone 7 9 sample_new with
  | Ok h => h
  | Raise _ => sample_new
  end.
Definition sample_call (uuid : Z) (call : string) (h : Harness) : Harness :=
  match begin_step h false uuid sample_time VNone "terminal" call (VDict []) (VDict []) (Some "abc") with
  | (h, Some (Some (sid, stid))) => fst (end_step h sid stid sample_time VNone false "ok")
  | (h, _) => h
  end.
Definition sample_turn : Harness := sample_call 12 "call_2" (sample_call 11 "call_1" sample_awake).
(** The newest step is put back; the stop's worker is lost in the next. *)
Definition sample_lost_env : comp_env :=
  mk_comp_env (λ i _, if (i =? 0)%nat then Cancelled else Returns VNone) (λ _, sample_time) (λ _, sample_time).
Definition sample_saga_of (h : Harness) : Saga := default sample_saga (current_saga (table h)).
(** The turn ended, its saga's end lost. *)
Definition sample_ended : Harness := fst (emit sample_turn "session.complete" (VDict [])).

(** ** Lemmas: the same table *)

#[global] Instance same_call_preorder : PreOrder same_call.
Proof.
  split; [by repeat split|]. unfold same_call.
  intros ???(?&?&?&?&?&?) (?&?&?&?&?&?). split_and!; congruence.
Qed.

Lemma same_call_spec s t s' : spec t = spec s → same_call s s' → same_call t s'.
Proof. unfold same_call. by intros ->. Qed.

Lemma same_record_refl sg : same_record sg sg.
Proof. by repeat split. Qed.

Lemma same_table_get o o' sid :
  same_table o o' →
  match get_saga o sid, get_saga o' sid with
  | Some sg, Some sg' => saga_id sg = sid ∧ same_record sg sg'
  | None, None => True
  | _, _ => False
  end.
Proof.
  unfold same_table, get_saga. intros [_ H]. revert H.
  induction 1 as [|[k sg] [k' sg'] d d' (Hk & Hid & Hrec) _ IH]; simpl in *; [done|].
  subst k'. by case_decide; subst.
Qed.

Lemma same_table_write o o' sg sg' :
  same_table o o' → same_record sg sg' →
  same_table (write_saga o (saga_id sg) sg) (write_saga o' (saga_id sg) sg').
Proof.
  unfold same_table, write_saga. simpl. intros [Hnd H] Hsg.
  split; [by apply dict_set_NoDup|]. clear Hnd. revert H Hsg.
  induction 1 as [|[k t] [k' t'] d d' (Hk & Hid & Hrec) Hd IH]; intros Hsg; simpl in *.
  { repeat constructor; apply Hsg. }
  subst k'. case_decide as Heq; subst; (constructor; [done || (split; [done|]; simpl; split; [congruence|done])|]);
    [exact Hd | by apply IH].
Qed.

Lemma same_table_active o o' :
  same_table o o' → Forall2 same_record (active_sagas o) (active_sagas o').
Proof.
  unfold same_table, active_sagas, dict_values. intros [_ H]. revert H. induction 1 as [|[k t] [k' t'] d d' (Hk & Hid & Hrec) Hd IH]; [constructor|].
  cbn [fst snd] in *. rewrite !fmap_cons, !filter_cons. cbn [snd].
  assert (Heq : is_active t = is_active t') by (unfold is_active; by rewrite (proj1 (proj2 (proj2 (proj2 Hrec))))).
  rewrite Heq. by case_decide; [constructor|].
Qed.

Lemma same_steps_index sg sg' stid :
  Forall2 same_call (steps sg) (steps sg') → step_index sg stid = step_index sg' stid.
Proof.
  unfold step_index. induction 1 as [|s s' l l' Hs _ IH]; simpl; [done|].
  destruct Hs as (-> & _). by rewrite IH.
Qed.

(** ** Lemmas: replaying what was written *)

Lemma reconstruct_app clock o evs evs' :
  reconstruct_from_events clock o (evs ++ evs') =
  pybind (reconstruct_from_events clock o evs) (λ o', reconstruct_from_events clock o' evs').
Proof.
  revert o. induction evs as [|ev evs IH]; intros o; simpl; [done|].
  destruct (reconstruct_event _ _ _); simpl; [apply IH | done].
Qed.

(** What a write of a saga event adds to what the log rebuilds. *)
Lemma recovers_emit bounds clock h o ty data o' :
  (∀ n, up h n = true) → startswith ty "saga." = true →
  reconstruct_from_events clock bounds (List.filter is_saga_event (log h)) = Ok o →
  reconstruct_event (clock (next_id h)) o (mk_event (next_id h) ty data) = Ok o' →
  reconstruct_from_events clock bounds (List.filter is_saga_event (log (fst (emit h ty data)))) = Ok o' ∧
  snd (emit h ty data) = true.
Proof.
  intros Hup Hty Hrec Hev. unfold emit. rewrite Hup. simpl. split; [|done].
  rewrite List.filter_app, reconstruct_app, Hrec. simpl. unfold is_saga_event at 1. simpl.
  rewrite Hty. simpl. by rewrite Hev.
Qed.

Lemma emit_up h ty data : up (fst (emit h ty data)) = up h.
Proof. unfold emit. by destruct (up h _). Qed.
Lemma emit_table h ty data : table (fst (emit h ty data)) = table h.
Proof. unfold emit. by destruct (up h _). Qed.

Lemma as_opt_of_opt o : as_opt_str (of_opt_str o) = Ok o.
Proof. by destruct o. Qed.

Lemma replay_start now o id sid u k ts :
  UUID_valid u →
  reconstruct_event now o (mk_event id "saga.start" (saga_start_event sid (uuid_str u) k ts))
  = Ok (adopt o (mk_saga sid u [] SagaState.RUNNING now None None k 0)).
Proof.
  intros Hu. unfold reconstruct_event. cbn. unfold parse_uuid. by rewrite uuid_parse_str.
Qed.

Lemma replay_begin now o id sid stid tool st call args hash ts sg :
  get_saga o sid = Some sg →
  ∃ s, reconstruct_event now o (mk_event id "saga.step_begin"
      (saga_step_event sid stid tool st call args None VNone hash VNone None ts))
    = Ok (write_saga o sid (set_steps sg (steps sg ++ [s]))) ∧
    step_state s = StepState.EXECUTING ∧ ∀ t a tm mr,
      spec t = mk_spec stid tool call a None VNone hash tm mr → same_call t s.
Proof.
  intros Hg. unfold reconstruct_event. cbn. rewrite Hg. cbn.
  unfold str_truthy. destruct (String.eqb_spec call "") as [->|Hc]; destruct args, hash; cbn;
    (eexists; split; [done|]; split; [done|]; intros t a tm mr Ht; unfold same_call; by rewrite Ht).
Qed.

Lemma find_step_found o sid stid sg i s :
  get_saga o sid = Some sg → step_index sg stid = Some i → steps sg !! i = Some s →
  find_step o (VStr sid) (VStr stid) = Ok (Some (sg, i, s)).
Proof. intros Hg Hi Hs. unfold find_step. cbn. by rewrite Hg, Hi, Hs. Qed.

Lemma replay_end now o id sid stid tool (failed : bool) content sg i s ts :
  get_saga o sid = Some sg → step_index sg stid = Some i → steps sg !! i = Some s →
  ∃ s', reconstruct_event now o (mk_event id (if failed then "saga.step_failed" else "saga.step_committed")
      (saga_step_event sid stid tool (StepState.value (if failed then StepState.FAILED else StepState.COMMITTED))
         "" VNone None VNone None VNone (if failed then Some content else None) ts))
    = Ok (write_saga o sid (set_step sg i s')) ∧ spec s' = spec s ∧
      step_state s' = if failed then StepState.FAILED else StepState.COMMITTED.
Proof.
  intros Hg Hi Hs. unfold reconstruct_event.
  destruct failed; cbn -[find_step]; rewrite (find_step_found _ _ _ _ _ _ Hg Hi Hs); cbn; by eexists.
Qed.

Lemma replay_compensate now o id sid n reason failed ts sg :
  get_saga o sid = Some sg →
  reconstruct_event now o (mk_event id "saga.compensate" (saga_compensate_event sid n reason failed ts))
  = Ok (write_saga o sid (set_saga_state sg SagaState.COMPENSATING)).
Proof. intros Hg. unfold reconstruct_event. cbn. by rewrite Hg. Qed.

Lemma replay_complete now o id sid st n ts sg :
  get_saga o sid = Some sg →
  ∃ sg', reconstruct_event now o (mk_event id "saga.complete" (saga_complete_event sid (SagaState.value st) n ts))
    = Ok (write_saga o sid sg') ∧ saga_id sg' = saga_id sg ∧ session_id sg' = session_id sg ∧
      kind sg' = kind sg ∧ saga_state sg' = st ∧ steps sg' = steps sg.
Proof.
  intros Hg. unfold reconstruct_event. cbn. rewrite Hg. cbn. rewrite saga_of_value_value. cbn.
  eexists. split; [done|]. by destruct (terminal_saga st).
Qed.

(** ** Lemmas: each operation keeps the table recoverable *)

(** A change of one saga and the event that says it, on both sides. *)
Lemma recovers_write bounds clock h o' sg sg' ty data :
  (∀ n, up h n = true) → startswith ty "saga." = true →
  reconstruct_from_events clock bounds (List.filter is_saga_event (log h)) = Ok o' →
  same_table (table h) o' → same_record sg sg' →
  reconstruct_event (clock (next_id h)) o' (mk_event (next_id h) ty data) = Ok (write_saga o' (saga_id sg) sg') →
  let h' := set_table h (write_saga (table h) (saga_id sg) sg) in
  recovers bounds clock (fst (emit h' ty data)).
Proof.
  intros Hup Hty Hrec Htab Hsg Hev h'.
  destruct (recovers_emit bounds clock h' o' ty data _ Hup Hty Hrec Hev) as [Hrec' _].
  exists (write_saga o' (saga_id sg) sg'). split; [done|]. rewrite emit_table. simpl.
  by apply same_table_write.
Qed.

(** A change of one saga that the log does not keep. *)
Lemma recovers_unlogged bounds clock h sg :
  recovers bounds clock h →
  (∀ sg0, get_saga (table h) (saga_id sg) = Some sg0 → ∀ sg', same_record sg0 sg' → same_record sg sg') →
  is_Some (get_saga (table h) (saga_id sg)) →
  recovers bounds clock (set_table h (write_saga (table h) (saga_id sg) sg)).
Proof.
  intros (o' & Hrec & Htab) Hsg [sg0 Hg]. exists o'. split; [done|]. simpl.
  pose proof (same_table_get _ _ (saga_id sg) Htab) as Hget. rewrite Hg in Hget.
  destruct (get_saga o' (saga_id sg)) as [sg'|] eqn:Hg'; [|done]. destruct Hget as [_ Hsame].
  pose proof (same_table_write _ _ sg sg' Htab (Hsg _ Hg _ Hsame)) as H.
  unfold write_saga, set_sagas in H |- *. by rewrite (dict_set_id _ _ _ Hg') in H.
Qed.

Lemma active_get o o' sg :
  same_table o o' → sg ∈ dict_values (sagas o) → get_saga o (saga_id sg) = Some sg.
Proof.
  intros [Hnd Hall] Hin. apply list_elem_of_fmap in Hin as ([k sg0] & -> & Hin). simpl.
  apply dict_get_elem; [done|]. pose proof Hin as [i Hi]%list_elem_of_lookup.
  destruct (Forall2_lookup_l _ _ _ _ _ Hall Hi) as (p' & _ & _ & Heq & _). simpl in Heq. by rewrite <- Heq.
Qed.

Lemma write_saga_twice o id sg sg' : write_saga (write_saga o id sg) id sg' = write_saga o id sg'.
Proof. unfold write_saga, set_sagas. simpl. by rewrite dict_set_set. Qed.

Lemma insert_snoc {A} (l : list A) x y : <[length (l ++ [x]) - 1 := y]> (l ++ [x]) = l ++ [y].
Proof.
  rewrite length_app. simpl. rewrite Nat.add_sub, insert_app_r_alt by lia.
  by rewrite Nat.sub_diag.
Qed.

Lemma fst_pair_let {A B C} (p : A * B) (f : A → B → C) : fst (let '(a, b) := p in (a, f a b)) = fst p.
Proof. by destruct p. Qed.

Lemma begin_recovers bounds clock h replay uuid now ts tool call args sanitized hash :
  (∀ n, up h n = true) → recovers bounds clock h →
  recovers bounds clock (fst (begin_step h replay uuid now ts tool call args sanitized hash)).
Proof.
  intros Hup Hr. unfold begin_step. destruct (_ && _); [|done].
  destruct (current_saga (table h)) as [cur|] eqn:Hcur; [|done].
  destruct Hr as (o' & Hrec & Htab).
  apply find_some in Hcur as [Hin _]. apply list_elem_of_In in Hin.
  pose proof (active_get _ _ _ Htab Hin) as Hg.
  unfold add_step. rewrite (get_saga_or_raise_Some _ _ _ Hg).
  rewrite (get_saga_or_raise_Some _ _ _ (get_saga_write _ _ _)). cbn [step_transition].
  set (step := new_step _).
  destruct (step_transition_allowed now StepState.EXECUTING step) as (step' & Hstep); [set_solver|].
  rewrite Hstep. apply step_transition_Ok in Hstep as (_ & Hst & Hspec & _).
  rewrite write_saga_twice, fst_pair_let. unfold set_step. simpl steps. rewrite insert_snoc.
  pose proof (same_table_get _ _ (saga_id cur) Htab) as Hget. rewrite Hg in Hget.
  destruct (get_saga o' (saga_id cur)) as [cur'|] eqn:Hg'; [|done].
  destruct Hget as (_ & Hid & Hsess & Hk & Hstate & Hsteps & Hrun).
  destruct (replay_begin (clock (next_id h)) o' (next_id h) (saga_id cur) (step_id (spec step)) tool
    (StepState.value StepState.EXECUTING) call sanitized hash ts cur' Hg') as (s' & Hev & Hs' & Hcall).
  apply (recovers_write _ _ _ o' (set_steps cur (steps cur ++ [step'])) (set_steps cur' (steps cur' ++ [s'])));
    [done..| |exact Hev].
  unfold same_record. simpl. split_and!; [done..| |].
  - apply Forall2_app; [done|]. constructor; [|done]. by apply (Hcall _ _ _ _ Hspec).
  - intros Hr. rewrite !fmap_app, Hrun by done. simpl. by rewrite Hst, Hs'.
Qed.

Lemma get_saga_or_raise_Ok o sid sg : get_saga_or_raise o sid = Ok sg → get_saga o sid = Some sg.
Proof. unfold get_saga_or_raise. destruct (get_saga o sid); naive_solver. Qed.

Lemma get_step_or_raise_Ok sg stid i s :
  get_step_or_raise sg stid = Ok (i, s) → step_index sg stid = Some i ∧ steps sg !! i = Some s.
Proof.
  unfold get_step_or_raise. destruct (step_index sg stid) as [j|]; [|done].
  destruct (steps sg !! j) eqn:?; naive_solver.
Qed.

(** Writing a step of the same call in both. *)
Lemma same_record_set_step sg sg' i s s0 s' s0' :
  same_record sg sg' → steps sg !! i = Some s0 → steps sg' !! i = Some s0' →
  spec s = spec s0 → spec s' = spec s0' →
  (saga_state sg = SagaState.RUNNING → step_state s = step_state s') →
  same_record (set_step sg i s) (set_step sg' i s').
Proof.
  intros (Hid & Hsess & Hk & Hstate & Hsteps & Hrun) Hi Hi' Hs Hs' Hst.
  unfold same_record, set_step. simpl. split_and!; [done..| |].
  - apply Forall2_insert; [done|]. pose proof (Forall2_lookup_lr _ _ _ _ _ _ Hsteps Hi Hi') as Hc.
    unfold same_call in *. by rewrite Hs, Hs'.
  - intros Hr. rewrite !list_fmap_insert, Hrun, Hst by done. done.
Qed.

Lemma end_recovers bounds clock h sid stid now ts failed content :
  (∀ n, up h n = true) → recovers bounds clock h →
  recovers bounds clock (fst (end_step h sid stid now ts failed content)).
Proof.
  intros Hup Hr. unfold end_step.
  destruct (get_saga_or_raise (table h) sid) as [sg|] eqn:Hg; [|done]. apply get_saga_or_raise_Ok in Hg.
  destruct (get_step_or_raise sg stid) as [[i s]|] eqn:Hi; [|done]. apply get_step_or_raise_Ok in Hi as [Hi Hs].
  assert (Hid : sid = saga_id sg).
  { destruct Hr as (o' & _ & Htab). pose proof (same_table_get _ _ sid Htab) as Hget. rewrite Hg in Hget.
    destruct (get_saga o' sid); naive_solver. }
  set (st := if failed then StepState.FAILED else StepState.COMMITTED).
  set (s1 := if failed then set_error s (Some content) else set_execute_result s (VStr content)).
  set (err := if failed then Some content else None).
  assert (Heq : (if failed then (set_error s (Some content), StepState.FAILED, Some content)
                 else (set_execute_result s (VStr content), StepState.COMMITTED, None)) = (s1, st, err))
    by (by destruct failed).
  rewrite Heq. assert (Hs1 : spec s1 = spec s ∧ step_state s1 = step_state s) by (by destruct failed).
  destruct Hs1 as [Hsp1 Hst1]. subst sid.
  destruct (step_transition now st s1) as [s2|] eqn:H2; cbv iota beta zeta.
  - apply step_transition_Ok in H2 as (_ & Hst2 & Hsp2 & _). destruct Hr as (o' & Hrec & Htab).
    pose proof (same_table_get _ _ (saga_id sg) Htab) as Hget. rewrite Hg in Hget.
    destruct (get_saga o' (saga_id sg)) as [sg'|] eqn:Hg'; [|done]. destruct Hget as [_ Hsame].
    pose proof (proj1 (proj2 (proj2 (proj2 (proj2 Hsame))))) as Hsteps.
    destruct (Forall2_lookup_l _ _ _ _ _ Hsteps Hs) as (s' & Hs' & _).
    destruct (replay_end (clock (next_id h)) o' (next_id h) (saga_id sg) stid (tool_name (spec s2)) failed content
      sg' i s' ts Hg') as (s2' & Hev & Hsp' & Hst'); [by rewrite <- (same_steps_index sg sg')|done|].
    apply (recovers_write _ _ _ o' (set_step sg i s2) (set_step sg' i s2')); [done|by destruct failed|done..| |exact Hev].
    eapply same_record_set_step; [done..|congruence|done|]. intros _. rewrite Hst2, Hst'. by destruct failed.
  - apply (recovers_unlogged _ _ _ (set_step sg i s1)); [done| |by exists sg].
    intros sg0 Hg0 sg' Hsame. simpl in Hg0. rewrite Hg in Hg0. simplify_eq.
    destruct (Forall2_lookup_l _ _ _ _ _ (proj1 (proj2 (proj2 (proj2 (proj2 Hsame))))) Hs) as (s' & Hs' & _).
    replace sg' with (set_step sg' i s').
    + eapply same_record_set_step; [done..|done|]. intros Hr'. rewrite Hst1.
      pose proof (proj2 (proj2 (proj2 (proj2 (proj2 Hsame)))) Hr') as Hmap.
      apply (f_equal (.!! i)) in Hmap. rewrite !list_lookup_fmap, Hs, Hs' in Hmap. by simplify_eq/=.
    + unfold set_step. rewrite list_insert_id by done. by destruct sg'.
Qed.

Lemma pending_next h h' sg todo :
  pending h (sg :: todo) →
  (∀ id, id ≠ saga_id sg → get_saga (table h') id = get_saga (table h) id) → pending h' todo.
Proof.
  unfold pending. rewrite fmap_cons, NoDup_cons, Forall_cons. intros [[Hni Hnd] [_ Hall]] Hsame.
  split; [done|]. apply Forall_forall. intros t Ht. rewrite Forall_forall in Hall.
  rewrite Hsame; [by apply Hall|]. intros Heq. apply Hni. rewrite <- Heq. by apply list_elem_of_fmap_2.
Qed.

Lemma active_pending o' h : same_table (table h) o' → pending h (active_sagas (table h)).
Proof.
  intros Htab. assert (Hsub : active_sagas (table h) `sublist_of` dict_values (sagas (table h)))
    by apply sublist_filter.
  split.
  - eapply sublist_NoDup; [|by apply fmap_sublist]. destruct Htab as [Hnd Hall].
    replace (saga_id <$> dict_values (sagas (table h))) with (dict_keys (sagas (table h))); [done|].
    unfold dict_keys, dict_values. rewrite <- list_fmap_compose.
    clear Hsub Hnd. induction Hall as [|p p' d d' (_ & Hk & _) _ IH]; [done|]. csimpl. by rewrite Hk, IH.
  - apply Forall_forall. intros sg Hsg. eapply active_get; [done|]. by eapply elem_of_sublist.
Qed.

Lemma same_spec_call l l' : spec <$> l = spec <$> l' → Forall2 same_call l l'.
Proof.
  revert l'. induction l as [|s l IH]; intros [|s' l'] H; simplify_eq/=; constructor; [|by apply IH].
  unfold same_call. by match goal with H : spec _ = _ |- _ => rewrite H end.
Qed.

(** A saga ended in memory, its end written. *)
Lemma complete_recovers bounds clock h sg0 sg n ts :
  (∀ k, up h k = true) → recovers bounds clock h →
  get_saga (table h) (saga_id sg0) = Some sg0 →
  saga_id sg = saga_id sg0 → session_id sg = session_id sg0 → kind sg = kind sg0 →
  Forall2 same_call (steps sg) (steps sg0) → saga_state sg ≠ SagaState.RUNNING →
  recovers bounds clock (fst (emit (set_table h (write_saga (table h) (saga_id sg) sg)) "saga.complete"
    (saga_complete_event (saga_id sg) (SagaState.value (saga_state sg)) n ts))).
Proof.
  intros Hup (o' & Hrec & Htab) Hg Hid Hsess Hk Hcall Hst. rewrite <- Hid in Hg.
  pose proof (same_table_get _ _ (saga_id sg) Htab) as Hget. rewrite Hg in Hget.
  destruct (get_saga o' (saga_id sg)) as [sg'|] eqn:Hg'; [|done].
  destruct Hget as (_ & Hid' & Hsess' & Hk' & _ & Hsteps & _).
  destruct (replay_complete (clock (next_id h)) o' (next_id h) (saga_id sg) (saga_state sg) n ts sg' Hg')
    as (sg2 & Hev & ? & ? & ? & ? & Hs2).
  apply (recovers_write _ _ _ o' sg sg2); [done..| |exact Hev].
  unfold same_record. split_and!; [congruence..| |done].
  rewrite Hs2. by transitivity (steps sg0).
Qed.

Lemma write_other h sg ty data id :
  id ≠ saga_id sg →
  get_saga (table (fst (emit (set_table h (write_saga (table h) (saga_id sg) sg)) ty data))) id
  = get_saga (table h) id.
Proof. intros Hne. rewrite emit_table. simpl. by apply get_saga_write_ne. Qed.

Lemma finalize_loop_recovers bounds clock now ts todo h :
  (∀ n, up h n = true) → recovers bounds clock h → pending h todo →
  recovers bounds clock (foldl (finalize_saga now ts) h todo).
Proof.
  revert h. induction todo as [|sg todo IH]; intros h Hup Hr Hp; simpl; [done|].
  assert (Hg : get_saga (table h) (saga_id sg) = Some sg) by (by destruct Hp as [_ [? _]%Forall_cons]).
  unfold finalize_saga at 2. destruct (saga_transition now SagaState.COMPLETED sg) as [sg'|e] eqn:Ht.
  - pose proof (saga_transition_keeps _ _ _ _ Ht) as [Hsess Hk].
    apply saga_transition_Ok in Ht as (_ & Hst & Hsteps & Hid & _).
    pose proof (complete_recovers bounds clock h sg sg' (Z.of_nat (length (steps sg'))) ts Hup Hr Hg Hid Hsess Hk) as Hc.
    rewrite Hst in Hc. apply IH.
    + by rewrite emit_up.
    + apply Hc; [by rewrite Hsteps | done].
    + eapply pending_next; [done|]. intros id Hne. apply write_other. by rewrite Hid.
  - apply IH; [done..|]. by eapply pending_next.
Qed.

(** A saga put back in memory, what came of it written. *)
Lemma undone_recovers bounds clock h sg0 sg n failed reason ts :
  (∀ k, up h k = true) → recovers bounds clock h →
  get_saga (table h) (saga_id sg0) = Some sg0 →
  saga_id sg = saga_id sg0 → session_id sg = session_id sg0 → kind sg = kind sg0 →
  spec <$> steps sg = spec <$> steps sg0 → saga_state sg ≠ SagaState.RUNNING →
  let h2 := write_undone (set_table h (write_saga (table h) (saga_id sg) sg)) sg n reason failed ts in
  recovers bounds clock h2 ∧ up h2 = up h ∧
  (∀ id, id ≠ saga_id sg → get_saga (table h2) id = get_saga (table h) id).
Proof.
  intros Hup (o' & Hrec & Htab) Hg Hid Hsess Hk Hspec Hst h2. rewrite <- Hid in Hg.
  pose proof (same_table_get _ _ (saga_id sg) Htab) as Hget. rewrite Hg in Hget.
  destruct (get_saga o' (saga_id sg)) as [sg'|] eqn:Hg'; [|done].
  destruct Hget as (_ & Hid' & Hsess' & Hk' & _ & Hsteps & _).
  assert (Hcall : Forall2 same_call (steps sg) (steps sg'))
    by (transitivity (steps sg0); [by apply same_spec_call | done]).
  set (h0 := set_table h (write_saga (table h) (saga_id sg) sg)).
  pose proof (replay_compensate (clock (next_id h)) o' (next_id h) (saga_id sg) n reason failed ts sg' Hg') as Hev1.
  destruct (recovers_emit bounds clock h0 o' "saga.compensate" _ _ Hup eq_refl Hrec Hev1) as [Hrec1 Hok].
  unfold write_undone in h2. fold h0 in h2.
  destruct (emit h0 _ _) as [h1 ok] eqn:He. simpl in Hok, Hrec1. subst ok.
  assert (H1 : h1 = fst (emit h0 "saga.compensate" (saga_compensate_event (saga_id sg) n reason failed ts)))
    by (by rewrite He).
  set (o1 := write_saga o' (saga_id sg) _) in *.
  destruct (replay_complete (clock (next_id h1)) o1 (next_id h1) (saga_id sg) (saga_state sg) (Z.of_nat (length (steps sg))) ts
    (set_saga_state sg' SagaState.COMPENSATING) (get_saga_write _ _ _)) as (sg2 & Hev2 & ? & ? & ? & ? & Hs2).
  assert (Hup1 : ∀ k, up h1 k = true) by (intros k; rewrite H1, emit_up; apply Hup).
  destruct (recovers_emit bounds clock h1 o1 "saga.complete" _ _ Hup1 eq_refl Hrec1 Hev2) as [Hrec2 _].
  split_and!.
  - eexists. split; [exact Hrec2|]. unfold h2. rewrite H1, !emit_table. unfold o1. rewrite write_saga_twice.
    apply same_table_write; [done|]. unfold same_record. simpl in *. rewrite Hs2.
    split_and!; [congruence..|done|done].
  - unfold h2. by rewrite H1, !emit_up.
  - intros id Hne. unfold h2. rewrite H1, !emit_table. simpl. by apply get_saga_write_ne.
Qed.

Lemma compensate_active_recovers bounds clock reason no_sandbox comp now ts h active h' :
  (∀ k, up h k = true) → recovers bounds clock h →
  get_saga (table h) (saga_id active) = Some active → is_active active = true →
  compensate_active reason no_sandbox comp now ts h active = (h', true) →
  recovers bounds clock h' ∧ up h' = up h ∧
  (∀ id, id ≠ saga_id active → get_saga (table h') id = get_saga (table h) id).
Proof.
  intros Hup Hr Hg Hact. unfold compensate_active. case_decide as Hcomp; [intros; simplify_eq; done|].
  assert (Hrun : saga_state active = SagaState.RUNNING).
  { unfold is_active in Hact. apply bool_decide_eq_true in Hact. set_solver. }
  destruct (existsb _ _ && _).
  - destruct (saga_transition_allowed now SagaState.COMPENSATING active) as (sg1 & H1); [rewrite Hrun; set_solver|].
    rewrite H1. simpl. pose proof (saga_transition_keeps _ _ _ _ H1) as [Hse1 Hk1].
    apply saga_transition_Ok in H1 as (_ & Hst1 & Hs1 & Hid1 & _).
    destruct (saga_transition_allowed now SagaState.ESCALATED sg1) as (sg2 & H2); [rewrite Hst1; set_solver|].
    rewrite H2. pose proof (saga_transition_keeps _ _ _ _ H2) as [Hse2 Hk2].
    apply saga_transition_Ok in H2 as (_ & Hst2 & Hs2 & Hid2 & _). cbv iota beta zeta.
    rewrite get_saga_write. set (sg3 := set_saga_error sg2 _).
    assert (Hid3 : saga_id active = saga_id sg3) by (simpl; congruence). rewrite Hid3.
    intros; simplify_eq. apply (undone_recovers bounds clock h active sg3); [done..| | | |]; simpl; congruence.
  - unfold compensate. rewrite (get_saga_or_raise_Some _ _ _ Hg).
    destruct (compensate_saga (comp (saga_id active)) now now active) as [[sg1 r] calls] eqn:Hc.
    apply compensate_saga_ends in Hc as (Hid & Hse & Hk & Hspec & Hres); [|done].
    destruct r as [places|e]; [|destruct Hres as [-> _]; intros; simplify_eq].
    cbv iota beta zeta. rewrite get_saga_write.
    assert (Hst : saga_state sg1 ≠ SagaState.RUNNING) by (intros Heq; by rewrite Heq in Hres).
    rewrite <- Hid.
    intros; simplify_eq. by apply (undone_recovers bounds clock h active sg1).
Qed.

Lemma compensate_actives_recovers bounds clock reason no_sandbox comp now ts todo h h' :
  (∀ k, up h k = true) → recovers bounds clock h → pending h todo →
  Forall (λ sg, is_active sg = true) todo →
  compensate_actives reason no_sandbox comp now ts todo h = (h', true) → recovers bounds clock h'.
Proof.
  revert h. induction todo as [|sg todo IH]; intros h Hup Hr Hp Hact H; simpl in H; [by simplify_eq|].
  apply Forall_cons in Hact as [Hsg Hact].
  destruct (compensate_active _ _ _ _ _ h sg) as [h1 []] eqn:H1; [|done].
  apply (compensate_active_recovers bounds clock) in H1 as (Hr1 & Hup1 & Hother); [|done..| |done].
  2:{ by destruct Hp as [_ [? _]%Forall_cons]. }
  eapply IH; [by rewrite Hup1|done|by eapply pending_next|done..].
Qed.

Lemma emit_ok h ty data : (∀ n, up h n = true) → emit h ty data = (fst (emit h ty data), true).
Proof. intros Hup. unfold emit. by rewrite Hup. Qed.

(** A stale saga's end: how it ends, and that the log keeps it. *)
Lemma close_stale_spec bounds clock events start now ts h stale h' :
  (∀ k, up h k = true) → recovers bounds clock h →
  get_saga (table h) (saga_id stale) = Some stale →
  close_stale events start now ts h stale = Ok h' →
  recovers bounds clock h' ∧ up h' = up h ∧
  (∀ id, id ≠ saga_id stale → get_saga (table h') id = get_saga (table h) id) ∧
  ∃ sg, get_saga (table h') (saga_id stale) = Some sg ∧ steps sg = steps stale ∧
    saga_state sg =
      if bool_decide (saga_state stale = SagaState.RUNNING) &&
         negb (existsb (λ e, bool_decide (event_type e ∈ stops) && (start <? event_id e)%Z) events)
      then SagaState.COMPLETED else SagaState.ESCALATED.
Proof.
  intros Hup Hr Hg. unfold close_stale. set (stopped := existsb _ events).
  assert (Hmid : ∀ r, (if bool_decide (saga_state stale = SagaState.RUNNING) && stopped
      then saga_transition now SagaState.COMPENSATING stale else Ok stale) = Ok r →
      saga_id r = saga_id stale ∧ session_id r = session_id stale ∧ kind r = kind stale ∧ steps r = steps stale ∧
      (saga_state r = SagaState.RUNNING ↔ saga_state stale = SagaState.RUNNING ∧ stopped = false)).
  { intros r. case_bool_decide as Hs; destruct stopped; simpl; intros H; simplify_eq; try (split_and!; naive_solver).
    pose proof (saga_transition_keeps _ _ _ _ H) as [? ?].
    apply saga_transition_Ok in H as (_ & Hst & ? & ? & _). split_and!; [done..|].
    rewrite Hst. split; [done|naive_solver]. }
  destruct (if bool_decide _ && _ then _ else _) as [r|e]; [|done].
  destruct (Hmid r eq_refl) as (Hid & Hse & Hk & Hs & Hrun). clear Hmid.
  set (status := if decide (saga_state r = SagaState.RUNNING) then SagaState.COMPLETED else SagaState.ESCALATED).
  destruct (saga_transition now status r) as [sg|] eqn:Ht; [|done].
  pose proof (saga_transition_keeps _ _ _ _ Ht) as [Hse2 Hk2].
  apply saga_transition_Ok in Ht as (_ & Hst2 & Hs2 & Hid2 & _).
  rewrite emit_ok by done. intros [= <-].
  assert (Hnr : status ≠ SagaState.RUNNING) by (unfold status; by case_decide).
  split_and!.
  - rewrite <- Hst2. apply (complete_recovers bounds clock h stale sg); [done..|congruence|congruence|congruence| |by rewrite Hst2].
    by rewrite Hs2, Hs.
  - by rewrite emit_up.
  - intros id Hne. apply write_other. congruence.
  - exists sg. rewrite emit_table. simpl. rewrite <- Hid, <- Hid2. split_and!; [apply get_saga_write|congruence|].
    rewrite Hst2. unfold status. case_decide as Hd.
    + apply Hrun in Hd as [? ->]. by rewrite bool_decide_eq_true_2.
    + case_bool_decide; [|done]. destruct stopped; [done|]. naive_solver.
Qed.

Lemma same_table_refl_r o o' : same_table o o' → same_table o' o'.
Proof.
  intros [Hnd Hall]. split.
  - replace (dict_keys (sagas o')) with (dict_keys (sagas o)); [done|]. unfold dict_keys.
    clear Hnd. induction Hall as [|p p' d d' (Hk & _) _ IH]; csimpl; [done|]. by rewrite Hk, IH.
  - clear Hnd. induction Hall as [|p p' d d' (Hk & Hid & Hrec) _ IH]; constructor; [|done].
    split; [done|]. split; [|by apply same_record_refl]. destruct Hrec as (Hid' & _). congruence.
Qed.

Lemma stale_pending o' h events : same_table (table h) o' → pending h (stale_sagas (table h) events).*1.
Proof.
  intros Htab. destruct (active_pending _ _ Htab) as [Hnd Hall].
  assert (Hsub : (stale_sagas (table h) events).*1 `sublist_of` active_sagas (table h)).
  { unfold stale_sagas. destruct (last_end events); [|apply sublist_nil_l]. clear.
    induction (active_sagas (table h)) as [|sg l IH]; csimpl; [constructor|].
    destruct (started events (saga_id sg)); [case_if|]; csimpl; by constructor. }
  split; [eapply sublist_NoDup; [done|by apply fmap_sublist]|].
  apply Forall_forall. intros sg Hsg. rewrite Forall_forall in Hall. apply Hall. by eapply elem_of_sublist.
Qed.

Lemma close_stale_loop_recovers bounds clock events now ts todo h h' :
  (∀ k, up h k = true) → recovers bounds clock h → pending h todo.*1 →
  close_stale_loop events now ts todo h = Ok h' →
  recovers bounds clock h' ∧ up h' = up h ∧
  (∀ id, id ∉ saga_id <$> todo.*1 → get_saga (table h') id = get_saga (table h) id) ∧
  (∀ sg start, (sg, start) ∈ todo → ∃ sg', get_saga (table h') (saga_id sg) = Some sg' ∧ is_active sg' = false).
Proof.
  revert h. induction todo as [|[sg start] todo IH]; intros h Hup Hr Hp H; simpl in H.
  { simplify_eq. split_and!; [done..|]. intros ?? Hin. by apply not_elem_of_nil in Hin. }
  apply pybind_ok in H as (h1 & H1 & H). csimpl in Hp.
  assert (Hg : get_saga (table h) (saga_id sg) = Some sg) by (by destruct Hp as [_ [? _]%Forall_cons]).
  apply (close_stale_spec bounds clock) in H1 as (Hr1 & Hup1 & Hother & sg1 & Hg1 & _ & Hst1); [|done..].
  destruct (IH h1) as (Hr2 & Hup2 & Hother2 & Hdone); [by rewrite Hup1|done|by eapply pending_next|done|].
  destruct Hp as [[Hni _]%NoDup_cons _].
  split_and!; [done|congruence| |].
  - intros id Hid. csimpl in Hid. rewrite Hother2, Hother by set_solver. done.
  - intros sg2 start2 [Heq|Hin]%elem_of_cons; [|by eapply Hdone]. simplify_eq.
    exists sg1. rewrite Hother2 by done. split; [done|]. unfold is_active. rewrite Hst1.
    by destruct (_ && _).
Qed.

Lemma wake_recovers bounds clock now ts uuid session h h' :
  sagas bounds = [] → UUID_valid session → (∀ k, up h k = true) → recovers bounds clock h →
  wake_sagas bounds clock now ts uuid session h = Ok h' → recovers bounds clock h' ∧ up h' = up h.
Proof.
  intros Hb Hu Hup (o' & Hrec & Htab) H. unfold wake_sagas in H.
  assert (Hmid : ∀ h1, (match List.filter is_saga_event (log h) with
      | [] => Ok (set_table h bounds)
      | _ => match reconstruct_from_events clock bounds (List.filter is_saga_event (log h)) with
             | Raise e => Raise (Builtin e)
             | Ok o => close_stale_sagas (log h) now ts (set_table h o)
             end end) = Ok h1 → recovers bounds clock h1 ∧ up h1 = up h).
  { intros h1 H1. destruct (List.filter is_saga_event (log h)) eqn:Hf.
    - simplify_eq. split; [|done]. exists bounds. simpl. rewrite Hf. split; [done|].
      split; rewrite Hb; constructor.
    - rewrite Hrec in H1. unfold close_stale_sagas in H1.
      apply (close_stale_loop_recovers bounds clock) in H1 as (? & ? & _); [done|done| |].
      + exists o'. simpl. rewrite Hf. split; [done|by eapply same_table_refl_r].
      + eapply (stale_pending o'). by eapply same_table_refl_r. }
  destruct (match List.filter is_saga_event (log h) with [] => _ | _ => _ end) as [h1|]; [|done].
  destruct (Hmid h1 eq_refl) as [Hr1 Hup1]. clear Hmid.
  destruct (active_sagas (table h1)) eqn:Hact; [|by simplify_eq].
  assert (Hup1' : ∀ k, up h1 k = true) by (by rewrite Hup1).
  unfold create_saga in H. rewrite emit_ok in H by done. injection H as <-. split; [|by rewrite emit_up].
  destruct Hr1 as (o1 & Hrec1 & Htab1).
  set (sid := "saga:" +:+ uuid_str uuid).
  apply (recovers_write bounds clock h1 o1 (mk_saga sid session [] SagaState.RUNNING now None None "tools" 0)
    (mk_saga sid session [] SagaState.RUNNING (clock (next_id h1)) None None "tools" 0));
    [done..|by repeat split|by apply replay_start].
Qed.

Lemma begin_up h replay uuid now ts tool call args sanitized hash :
  up (fst (begin_step h replay uuid now ts tool call args sanitized hash)) = up h.
Proof.
  unfold begin_step. destruct (_ && _); [|done]. destruct (current_saga _); [|done].
  destruct (add_step _ _ _ _ _ _ _ _ _ _ _) as [o [step|]]; [|done].
  destruct (get_saga_or_raise o _); [|done]. destruct (step_transition _ _ _); [|done].
  rewrite fst_pair_let. by rewrite emit_up.
Qed.

Lemma end_up h sid stid now ts failed content : up (fst (end_step h sid stid now ts failed content)) = up h.
Proof.
  unfold end_step. destruct (get_saga_or_raise _ _); [|done]. destruct (get_step_or_raise _ _) as [[i s]|]; [|done].
  destruct failed; (destruct (step_transition _ _ _); [by rewrite emit_up | done]).
Qed.

Lemma finalize_up now ts todo h : up (foldl (finalize_saga now ts) h todo) = up h.
Proof.
  revert h. induction todo as [|sg todo IH]; intros h; simpl; [done|]. rewrite IH. unfold finalize_saga.
  destruct (saga_transition _ _ _); [by rewrite emit_up | done].
Qed.

Lemma write_undone_up h sg n reason failed ts : up (write_undone h sg n reason failed ts) = up h.
Proof.
  unfold write_undone. pose proof (emit_up h "saga.compensate" (saga_compensate_event (saga_id sg) n reason failed ts)) as H.
  destruct (emit _ _ _) as [h1 []]; simpl in H; [by rewrite emit_up | done].
Qed.

Lemma compensate_actives_up reason no_sandbox comp now ts todo h :
  up (fst (compensate_actives reason no_sandbox comp now ts todo h)) = up h.
Proof.
  revert h. induction todo as [|sg todo IH]; intros h; simpl; [done|].
  assert (H1 : up (fst (compensate_active reason no_sandbox comp now ts h sg)) = up h).
  { unfold compensate_active. case_decide; [done|].
    destruct (if existsb _ _ && _ then _ else _) as [o [failed|[]]]; try done.
    destruct (get_saga o _); [|done]. simpl. by rewrite write_undone_up. }
  destruct (compensate_active _ _ _ _ _ _ _) as [h1 []]; simpl in H1; [by rewrite IH | done].
Qed.

Lemma active_elem o sg : sg ∈ active_sagas o ↔ sg ∈ dict_values (sagas o) ∧ is_active sg = true.
Proof. unfold active_sagas. rewrite list_elem_of_filter. naive_solver. Qed.

Lemma current_active o sg : sg ∈ active_sagas o → ∃ cur, current_saga o = Some cur ∧ is_active cur = true.
Proof.
  rewrite active_elem. intros [Hin Hact]. unfold current_saga.
  destruct (find is_active (dict_values (sagas o))) as [cur|] eqn:Hf.
  - exists cur. by apply find_some in Hf as [_ ?].
  - apply list_elem_of_In in Hin. pose proof (find_none _ _ Hf _ Hin). congruence.
Qed.

(** After the stale sagas are closed, none that is active is stale. *)
Lemma closed_not_stale bounds clock now ts h h' sg start ended :
  (∀ k, up h k = true) → recovers bounds clock h →
  close_stale_sagas (log h) now ts h = Ok h' →
  sg ∈ active_sagas (table h') → started (log h) (saga_id sg) = Some start →
  last_end (log h) = Some ended → (ended <= start)%Z.
Proof.
  intros Hup Hr Hclose Hsg Hstart Hended. destruct (decide (ended <= start)%Z) as [|Hlt]; [done|]. exfalso.
  destruct Hr as (o' & Hrec & Htab).
  assert (Hr : recovers bounds clock h) by (by exists o').
  apply (close_stale_loop_recovers bounds clock) in Hclose as ((o1 & _ & Htab1) & _ & Hother & Hdone);
    [|done|done|by eapply stale_pending].
  apply active_elem in Hsg as [Hin Hact]. pose proof (active_get _ _ _ Htab1 Hin) as Hg.
  destruct (decide (saga_id sg ∈ saga_id <$> (stale_sagas (table h) (log h)).*1)) as [Hst|Hst].
  - apply list_elem_of_fmap in Hst as (sg0 & Heq & Hst). apply list_elem_of_fmap in Hst as ([? st0] & -> & Hst).
    simpl in Heq. destruct (Hdone _ _ Hst) as (sg1 & Hg1 & Hna). rewrite <- Heq in Hg1. congruence.
  - rewrite Hother in Hg by done. apply Hst. apply list_elem_of_fmap. exists sg. split; [done|].
    apply list_elem_of_fmap. exists (sg, start). split; [done|]. unfold stale_sagas. rewrite Hended.
    apply list_elem_of_omap. exists sg. rewrite Hstart, (proj2 (Z.ltb_lt _ _)) by lia. split; [|done].
    apply active_elem. split; [|done]. by eapply dict_get_values.
Qed.

Lemma rebuilt_table (o o' : Orchestrator) sg :
  same_table o o' → get_saga o (saga_id sg) = Some sg → saga_state sg = SagaState.RUNNING →
  ∃ sg', get_saga o' (saga_id sg) = Some sg' ∧ saga_state sg' = SagaState.RUNNING ∧
    compensator_calls sg' = compensator_calls sg.
Proof.
  intros Htab Hg Hrun. pose proof (same_table_get _ _ (saga_id sg) Htab) as Hget. rewrite Hg in Hget.
  destruct (get_saga o' (saga_id sg)) as [sg'|]; [|done]. exists sg'.
  destruct Hget as (_ & _ & _ & _ & Hst & Hcall & Hmap). specialize (Hmap Hrun).
  split_and!; [done|congruence|].
  assert (Hc : committed_steps_reversed sg' = committed_steps_reversed sg).
  { unfold committed_steps_reversed, indices. f_equal. generalize 0. clear Hg Hst.
    induction Hcall as [|s s' l l' _ _ IH]; intros k; csimpl in *; [done|].
    injection Hmap as Hs Hmap. replace (is_committed s) with (is_committed s') by (unfold is_committed; by rewrite Hs). by rewrite IH. }
  unfold compensator_calls. rewrite Hc. apply filter_ext. intros i. unfold at_place.
  pose proof (proj1 (Forall2_lookup _ _ _) Hcall i) as Hi. inversion Hi as [s s' (_ & Htool & _ & Hct & _ & Hh)|]; [|done].
  unfold is_compensable. by rewrite Htool, Hct, Hh.
Qed.

(** ** Properties *)

(** C6. The log is enough to go on from, where the store takes every write and
    no stop is cut short: after any run of the harness's saga operations from
    a new session (wakes, steps begun and ended, normal ends, stops, and
    events of every other kind, in any order), rebuilding the table from the
    session's log raises nothing and gives the sagas in memory: the same ones
    in the same order, of the same session, kind and state, with the same
    calls in the same order ([same_call]: id, tool, tool call, what undoes it,
    checkpoint), and, for a running saga, each step in the state it is in.
    Bounds, results, errors and times are not kept, nor the steps' states of a
    saga that ended. *)
Theorem crash_recovery bounds clock up0 h
    (Hb : sagas bounds = []) (Hup : ∀ n, up0 n = true)
    (Hrun : rtc (harness_step bounds clock) (mk_harness bounds [] up0) h) :
  recovers bounds clock h.
Proof.
  cut (recovers bounds clock h ∧ up h = up0); [naive_solver|].
  remember (mk_harness bounds [] up0) as h0 eqn:Hh0.
  assert (H0 : recovers bounds clock h0 ∧ up h0 = up0).
  { subst. split; [|done]. exists bounds. split; [done|]. split; simpl; rewrite Hb; constructor. }
  clear Hh0. induction Hrun as [|h0 h1 h2 Hstep _ IH]; [done|]. apply IH. destruct H0 as [Hr Hup0].
  assert (Hup0' : ∀ n, up h0 n = true) by (by rewrite Hup0).
  destruct Hstep.
  - rewrite emit_up. split; [|done]. destruct Hr as (o' & Hrec & Htab). exists o'. rewrite emit_table.
    unfold emit. rewrite Hup0'. simpl. rewrite List.filter_app. simpl. unfold is_saga_event at 2. simpl.
    rewrite H, app_nil_r. done.
  - destruct (wake_recovers bounds clock now ts uuid session h0 h') as [? Hup1]; [done..|]. by rewrite Hup1.
  - split; [by apply begin_recovers | by rewrite begin_up].
  - split; [by apply end_recovers | by rewrite end_up].
  - split; [|by unfold finalize_sagas; rewrite finalize_up].
    apply finalize_loop_recovers; [done..|]. destruct Hr as (o' & _ & Htab). by eapply active_pending.
  - split; [|pose proof (compensate_actives_up reason no_sandbox comp now ts (active_sagas (table h0)) h0) as Hu;
              unfold compensate_sagas in H; by rewrite H in Hu; rewrite <- Hup0].
    eapply compensate_actives_recovers; [done..| | |exact H].
    + destruct Hr as (o' & _ & Htab). by eapply active_pending.
    + apply Forall_forall. intros sg Hsg. unfold active_sagas in Hsg. by apply list_elem_of_filter in Hsg as [? _].
Qed.

Lemma crash_recovery_witness : recovers new_orchestrator sample_clock sample_turn.
Proof.
  apply (crash_recovery new_orchestrator sample_clock (λ _, true)); [reflexivity|reflexivity|].
  apply rtc_l with (y := sample_awake).
  { apply (step_wake _ _ _ sample_time VNone 7 9); [split; [lia|reflexivity]|vm_compute; reflexivity]. }
  apply rtc_l with (y := fst (begin_step sample_awake false 11 sample_time VNone "terminal" "call_1" (VDict []) (VDict []) (Some "abc"))).
  { apply step_begin. }
  apply rtc_l with (y := sample_call 11 "call_1" sample_awake).
  { apply (step_end _ _ _ ("saga:" +:+ uuid_str 7) ("step:" +:+ uuid_str 11) sample_time VNone false "ok"). }
  apply rtc_l with (y := fst (begin_step (sample_call 11 "call_1" sample_awake) false 12 sample_time VNone "terminal" "call_2" (VDict []) (VDict []) (Some "abc"))).
  { apply step_begin. }
  apply rtc_once.
  apply (step_end _ _ _ ("saga:" +:+ uuid_str 7) ("step:" +:+ uuid_str 12) sample_time VNone false "ok").
Defined.

(** C7. A wake leaves the turn a saga to add its steps to, and none of a turn
    that ended: on a session whose log rebuilds its table, a wake that does
    not fail has a current saga, every active one of them started after the
    last end of a turn in the log (or has no start there), and the log
    rebuilds the table still. *)
Theorem wake_settles bounds clock now ts uuid session h h'
    (Hb : sagas bounds = []) (Hu : UUID_valid session) (Hup : ∀ n, up h n = true)
    (Hr : recovers bounds clock h) (Hnew : started (log h) ("saga:" +:+ uuid_str uuid) = None)
    (Hwake : wake_sagas bounds clock now ts uuid session h = Ok h') :
  recovers bounds clock h' ∧
  (∃ cur, current_saga (table h') = Some cur ∧ is_active cur = true) ∧
  ∀ sg start ended, sg ∈ active_sagas (table h') → started (log h) (saga_id sg) = Some start →
    last_end (log h) = Some ended → (ended <= start)%Z.
Proof.
  split; [by eapply wake_recovers|]. destruct Hr as (o' & Hrec & Htab). unfold wake_sagas in Hwake.
  destruct (match List.filter is_saga_event (log h) with [] => _ | _ => _ end) as [h1|] eqn:H1; [|done].
  assert (Hsettled : up h1 = up h ∧ ∀ sg start ended, sg ∈ active_sagas (table h1) →
    started (log h) (saga_id sg) = Some start → last_end (log h) = Some ended → (ended <= start)%Z).
  { destruct (List.filter is_saga_event (log h)) eqn:Hf.
    - simplify_eq. split; [done|]. intros sg start ended Hsg. apply active_elem in Hsg as [Hin _].
      simpl in Hin. rewrite Hb in Hin. by apply not_elem_of_nil in Hin.
    - rewrite Hrec in H1. assert (Hr : recovers bounds clock (set_table h o')).
      { exists o'. simpl. rewrite Hf. split; [done|by eapply same_table_refl_r]. }
      split; [|by intros; eapply (closed_not_stale bounds clock now ts (set_table h o'))].
      apply (close_stale_loop_recovers bounds clock) in H1 as (_ & ? & _); [done..|].
      eapply (stale_pending o'). by eapply same_table_refl_r. }
  destruct Hsettled as [Hup1 Hsettled]. destruct (active_sagas (table h1)) as [|sg0 l] eqn:Hact.
  - unfold create_saga in Hwake. rewrite emit_ok in Hwake by (by simpl; rewrite Hup1). injection Hwake as <-.
    rewrite emit_table. simpl. set (new := mk_saga _ _ _ _ _ _ _ _ _). split.
    + apply (current_active _ new). apply active_elem. split; [|done].
      eapply dict_get_values, dict_get_set_eq.
    + intros sg start ended [Hin Hsg]%active_elem Hs _. exfalso.
      apply dict_set_values in Hin as [->|Hin]; [simpl in Hs; congruence|].
      assert (Hno : sg ∈ active_sagas (table h1)) by (by apply active_elem).
      rewrite Hact in Hno. by apply not_elem_of_nil in Hno.
  - simplify_eq. rewrite Hact. split; [|done]. apply (current_active _ sg0). rewrite Hact. set_solver.
Qed.

Lemma wake_settles_witness :
  let h' := match wake_sagas new_orchestrator sample_clock sample_time VNone 8 9 sample_ended with
            | Ok h => h | Raise _ => sample_ended end in
  recovers new_orchestrator sample_clock h' ∧
  (∃ cur, current_saga (table h') = Some cur ∧ is_active cur = true) ∧
  ∀ sg start ended, sg ∈ active_sagas (table h') → started (log sample_ended) (saga_id sg) = Some start →
    last_end (log sample_ended) = Some ended → (ended <= start)%Z.
Proof.
  apply (wake_settles new_orchestrator sample_clock sample_time VNone 8 9 sample_ended);
    [reflexivity|split; [lia|reflexivity]|reflexivity| |vm_compute; reflexivity|vm_compute; reflexivity].
  eexists. split; [vm_compute; reflexivity|]. vm_compute. split; repeat constructor; set_solver.
Defined.

(** A stop's compensation that is cut short is forgotten: where the worker
    is lost in the middle of putting its one active saga back, nothing of it is
    in the log, and the next wake's table has the saga running again, with
    exactly the steps to undo that it had, those already put back among them.
    So the guard that skips a saga already compensating does not see it. *)
Theorem interrupted_compensation_forgotten bounds clock reason no_sandbox comp now ts h h' sg
    (Hr : recovers bounds clock h) (Hone : active_sagas (table h) = [sg])
    (Hrun : saga_state sg = SagaState.RUNNING)
    (Hcut : compensate_sagas reason no_sandbox comp now ts h = (h', false)) :
  log h' = log h ∧
  (∃ sg1, get_saga (table h') (saga_id sg) = Some sg1 ∧ saga_state sg1 = SagaState.COMPENSATING) ∧
  ∃ o' sg', reconstruct_from_events clock bounds (List.filter is_saga_event (log h')) = Ok o' ∧
    get_saga o' (saga_id sg) = Some sg' ∧ saga_state sg' = SagaState.RUNNING ∧
    compensator_calls sg' = compensator_calls sg.
Proof.
  destruct Hr as (o' & Hrec & Htab).
  assert (Hg : get_saga (table h) (saga_id sg) = Some sg).
  { destruct (active_pending _ _ Htab) as [_ Hall]. rewrite Hone in Hall. by apply Forall_cons in Hall as [? _]. }
  assert (Hact : compensate_active reason no_sandbox comp now ts h sg = (h', false)).
  { unfold compensate_sagas in Hcut. rewrite Hone in Hcut. simpl in Hcut.
    destruct (compensate_active _ _ _ _ _ _ _) as [h1 []]; naive_solver. }
  assert (H : log h' = log h ∧
    ∃ sg1, get_saga (table h') (saga_id sg) = Some sg1 ∧ saga_state sg1 = SagaState.COMPENSATING).
  { unfold compensate_active in Hact. rewrite decide_False in Hact by congruence.
    destruct (existsb _ _ && _).
    - destruct (pybind _ _) as [sg2|e] eqn:Hp; cbv iota beta zeta in Hact.
      { rewrite get_saga_write in Hact. done. }
      exfalso. destruct (saga_transition_allowed now SagaState.COMPENSATING sg) as (sg1 & H1); [rewrite Hrun; set_solver|].
      rewrite H1 in Hp. apply saga_transition_Ok in H1 as (_ & Hst1 & _). simpl in Hp.
      destruct (saga_transition_allowed now SagaState.ESCALATED sg1) as (sg2 & H2); [rewrite Hst1; set_solver|].
      congruence.
    - unfold compensate in Hact. rewrite (get_saga_or_raise_Some _ _ _ Hg) in Hact.
      destruct (compensate_saga _ _ _ _) as [[sg1 r] calls] eqn:Hc.
      apply compensate_saga_ends in Hc as (_ & _ & _ & _ & Hres); [|done].
      destruct r as [places|e]; cbv iota beta zeta in Hact; [by rewrite get_saga_write in Hact|].
      destruct Hres as [-> Hst]. simplify_eq. split; [done|]. exists sg1. simpl.
      split; [apply get_saga_write | done]. }
  destruct H as [Hlog Hmem]. split_and!; [done..|].
  destruct (rebuilt_table _ _ sg Htab Hg Hrun) as (sg' & Hg' & Hrun' & Hcalls).
  exists o', sg'. by rewrite Hlog.
Qed.

Lemma interrupted_compensation_forgotten_witness :
  let h' := fst (compensate_sagas "interrupt" (λ _, false) (λ _, sample_lost_env) sample_time VNone sample_turn) in
  let sg := sample_saga_of sample_turn in
  log h' = log sample_turn ∧
  (∃ sg1, get_saga (table h') (saga_id sg) = Some sg1 ∧ saga_state sg1 = SagaState.COMPENSATING) ∧
  ∃ o' sg', reconstruct_from_events sample_clock new_orchestrator (List.filter is_saga_event (log h')) = Ok o' ∧
    get_saga o' (saga_id sg) = Some sg' ∧ saga_state sg' = SagaState.RUNNING ∧
    compensator_calls sg' = compensator_calls sg.
Proof.
  apply (interrupted_compensation_forgotten new_orchestrator sample_clock "interrupt" (λ _, false) (λ _, sample_lost_env)
    sample_time VNone sample_turn); [|vm_compute; reflexivity..].
  eexists. split; [vm_compute; reflexivity|]. vm_compute. split; repeat constructor; set_solver.
Defined.
