(* ===== verification/SagaCompensator.v ===== *)
(** * Saga compensation (governance/saga/compensator.py)

    The strategies that undo one step (a landing's, an undo tool's, a checkpoint's),
    and the undo of a stopped turn's copy on its user's computer.

    The sandbox pool, the computer's answers and JSON decoding are parameters:
    a pool answers a tool's payload with a text or an error, and a computer
    answers each put-back in one of the ways the code tells apart. *)

From S2P Require Import Prelude.
From S2P Require Import PyText.
From S2P Require Import SagaMachine.
From S2P Require Import SagaOrchestrator.
From stdpp Require Import options.

(** ** One step's strategy *)

(** The calls made to the pool, in order, and how the strategy ended. *)
Definition undo_run : Type := list (string * pyval) * pyres exn pyval.

Section strategies.
Context (execute : string → pyval → pyres exn string) (loads : string → option pyval) (py_str : pyval → string).

(** [x.get(key, default)] of a decoded answer: only a dict has [get]. *)
Definition answer_get (v : pyval) (key : string) (dflt : pyval) : pyres exn pyval :=
  match v with
  | VDict _ => Ok (py_get v key dflt)
  | _ => Raise (OtherException "no attribute 'get'")
  end.

Definition compensate_builtin (s : SagaStep) : undo_run :=
  match checkpoint_hash (spec s) with
  | Some h =>
    if str_truthy h then
      let payload := VDict [("action", VStr "restore"); ("hash", VStr h)] in
      let calls := [("_checkpoint", payload)] in
      (calls,
       match execute "_checkpoint" payload with
       | Raise e => Raise e
       | Ok raw =>
         match loads raw with
         | None => Raise (SagaStateError (RestoreInvalidJson (step_id (spec s))))
         | Some result =>
           match answer_get result "success" VNone, answer_get result "error" (VStr "unknown error") with
           | Ok ok, Ok err =>
             if truthy ok then Ok result else Raise (SagaStateError (RestoreFailed (step_id (spec s)) err))
           | Raise e, _ | _, Raise e => Raise e
           end
         end
       end)
    else ([], Raise (SagaStateError (NoCheckpointHash (step_id (spec s)))))
  | None => ([], Raise (SagaStateError (NoCheckpointHash (step_id (spec s)))))
  end.

Definition compensate_mcp (s : SagaStep) : undo_run :=
  match compensation_tool (spec s) with
  | Some tool =>
    if str_truthy tool then
      let payload := if truthy (compensation_args (spec s)) then compensation_args (spec s) else VDict [] in
      ([(tool, payload)],
       match execute tool payload with Ok raw => Ok (VStr raw) | Raise e => Raise e end)
    else ([], Raise (SagaStateError (NoCompensationTool (step_id (spec s)))))
  | None => ([], Raise (SagaStateError (NoCompensationTool (step_id (spec s)))))
  end.

(** [{**d, key: v}] *)
Definition with_key (d : pyval) (key : string) (v : pyval) : pyval :=
  match d with VDict kvs => VDict (dict_set key v kvs) | _ => VDict [(key, v)] end.

(** [step_result]: a step's result, or its pod's failure. *)
Definition step_result (answer : string) : pyres exn pyval :=
  match loads answer with
  | Some (VDict kvs) =>
    let has k := match assoc k kvs with Some _ => true | None => false end in
    if has "error" || has "timed_out" || has "exit_code" then
      let get k := py_get (VDict kvs) k VNone in
      Raise (OtherException
        (if truthy (get "error") then py_str (get "error")
         else if truthy (get "timed_out") then "the pod's step timed out"
         else if truthy (get "stderr") then py_str (get "stderr")
         else "the pod did not run the step"))
    else Ok (VDict kvs)
  | _ => Raise (OtherException "the pod's answer is not a step's result")
  end.

Definition compensate_history (ran : bool) (s : SagaStep) : undo_run :=
  if negb (String.eqb (tool_name (spec s)) "history.apply") then ([], Ok VNone)
  else
    let made := match execute_result s with VDict _ => py_get (execute_result s) "made" (VList []) | _ => VList [] end in
    let payload :=
      with_key (with_key (with_key (arguments (spec s)) "made" made) "action" (VStr "unapply")) "ran" (VBool ran) in
    ([("_history", payload)], pybind (execute "_history" payload) step_result).

(** [compensate_step] *)
Definition compensate_step (s : SagaStep) : undo_run :=
  if startswith (tool_name (spec s)) "history." then compensate_history true s
  else if str_truthy (default "" (compensation_tool (spec s))) then
    let '(calls, undone) := compensate_mcp s in
    match undone with
    | Raise e => (calls, Raise e)
    | Ok v =>
      if str_truthy (default "" (checkpoint_hash (spec s))) then
        let '(calls', restored) := compensate_builtin s in
        (calls ++ calls', match restored with Ok _ => Ok v | Raise e => Raise e end)
      else (calls, Ok v)
    end
  else if str_truthy (default "" (checkpoint_hash (spec s))) then compensate_builtin s
  else ([], Raise (SagaStateError (NotCompensable (step_id (spec s))))).
End strategies.

(** ** The undo of a stopped turn on its user's computer *)

(** How a put-back of a snapshot ends. *)
Inductive restore_outcome :=
| Restored
| RestoreTimedOut
| LeaseLost
| ComputerRefused (kind : string) (code : option string)
| NotAnAnswer
| DeviceOperationError
| RestoreRaises (e : exn).

(** [code_of] of a refusal by the computer. *)
Definition code_of (kind : string) (code : option string) : string := opt_or code kind.

Definition WHY_NOT_TAKEN_BACK (why : string) : string :=
  if String.eqb why "no_snapshot" then "no snapshot of the copy was taken before it"
  else if String.eqb why "landed" then "it had already landed in your folder"
  else if String.eqb why "owed" then "not taken back yet"
  else if String.eqb why "refused" then "your computer did not put the copy back"
  else "your computer could not be asked to put the copy back".

(** One step not taken back, as the stop names it. *)
Record NotTakenBack := mk_not_taken_back {
  left_step : string; left_tool : string; left_why : string;
  left_code : option string; left_path : option string
}.

(** [_not_taken_back] *)
Definition not_taken_back (s : SagaStep) (why : string) (code : option string) : NotTakenBack :=
  let path := match arguments (spec s) with VDict _ => py_get (arguments (spec s)) "path" VNone | _ => VNone end in
  mk_not_taken_back (step_id (spec s)) (tool_name (spec s)) why
    (match code with Some c => if str_truthy c then Some c else None | None => None end)
    (match path with VStr p => Some p | _ => None end).

Definition began_state (s : SagaStep) : bool :=
  bool_decide (step_state s ∈ [StepState.EXECUTING; StepState.COMMITTED; StepState.FAILED]).

(** The places of the steps that began. *)
Definition began (sg : Saga) : list nat := indices began_state (steps sg).

Definition has_snapshot (s : SagaStep) : bool :=
  match checkpoint_hash (spec s) with Some _ => true | None => false end.

Definition whys : Type := list (string * (string * option string)).

(** What cuts the put-backs short. *)
Inductive undo_cut := Owed | Cut (e : exn).

(** The put-backs, newest first: [todo] are the numbers left of the steps that
    began, [l].  Answers the number the copy is back from, why each refused one
    was, the numbers asked in order, and what cut them short. *)
Fixpoint put_backs (restore : nat → restore_outcome) (l : list SagaStep) (todo : list nat)
    (back_from : nat) (why : whys) : nat * whys * list nat * option undo_cut :=
  match todo with
  | [] => (back_from, why, [], None)
  | i :: todo' =>
    match l !! i with
    | None => (back_from, why, [], None)
    | Some s =>
      if negb (has_snapshot s) then put_backs restore l todo' back_from why
      else
        let go (back_from : nat) (why : whys) :=
          let '(b, w, asked, c) := put_backs restore l todo' back_from why in (b, w, i :: asked, c) in
        let refused (r : string) (code : option string) :=
          go back_from (dict_set (step_id (spec s)) (r, code) why) in
        match restore i with
        | RestoreTimedOut | LeaseLost => (back_from, why, [i], Some Owed)
        | RestoreRaises e => (back_from, why, [i], Some (Cut e))
        | ComputerRefused kind code =>
          if decide (code = Some "not_on_base") then refused "landed" None
          else refused "refused" (Some (code_of kind code))
        | NotAnAnswer => refused "refused" (Some "not_an_answer")
        | DeviceOperationError => refused "not_asked" None
        | Restored => go i why
        end
    end
  end.

(** What is owed: the steps before the copy's place that ran. *)
Definition owed_left (ran : SagaStep → bool) (l : list SagaStep) (back_from : nat) (why : whys) : list NotTakenBack :=
  let oldest := default 0 (find_index has_snapshot l) in
  omap (λ p : nat * SagaStep,
          let '(at_, s) := p in
          if ran s then
            let '(r, code) := default (if (at_ <? oldest)%nat then "no_snapshot" else "owed", None)
                                (dict_get (step_id (spec s)) why) in
            Some (not_taken_back s r code)
          else None) (imap pair (take back_from l)).

(** A step's end, by its number among those that began. *)
Definition settle_step (ran : SagaStep → bool) (back_from : nat) (why : whys) (i : nat) (s : SagaStep)
    : SagaStep * option NotTakenBack :=
  if (back_from <=? i)%nat || negb (ran s) then (set_state s StepState.COMPENSATED, None)
  else
    let '(r, code) := default ("no_snapshot", None) (dict_get (step_id (spec s)) why) in
    (set_error (set_state s StepState.COMPENSATION_FAILED) (Some (WHY_NOT_TAKEN_BACK r)),
     Some (not_taken_back s r code)).

(** The loop over the steps that began, by their places, from number [i]. *)
Fixpoint settle (ran : SagaStep → bool) (back_from : nat) (why : whys) (i : nat) (places : list nat)
    (l : list SagaStep) : list SagaStep * list NotTakenBack :=
  match places with
  | [] => (l, [])
  | p :: places' =>
    match l !! p with
    | None => (l, [])
    | Some s =>
      let '(s', e) := settle_step ran back_from why i s in
      let '(l', entries) := settle ran back_from why (S i) places' (<[p := s']> l) in
      (l', match e with Some e => e :: entries | None => entries end)
    end
  end.

Inductive undo_result :=
| Left (entries : list NotTakenBack)
| UndoOwed (entries : list NotTakenBack)
| UndoRaises (e : exn).

(** [undo_on_computer]: [restore] answers by the step's number among those that
    began.  Answers the saga, what came of it, and the numbers asked. *)
Definition undo_on_computer (restore : nat → restore_outcome) (ran : SagaStep → bool) (now ended : datetime)
    (sg : Saga) : Saga * undo_result * list nat :=
  match saga_transition now SagaState.COMPENSATING sg with
  | Raise e => (sg, UndoRaises e, [])
  | Ok sg =>
    let places := began sg in
    let l := omap (λ p, steps sg !! p) places in
    let n := length l in
    let '(back_from, why, asked, cut) := put_backs restore l (rev (seq 0 n)) n [] in
    match cut with
    | Some Owed => (sg, UndoOwed (owed_left ran l back_from why), asked)
    | Some (Cut e) => (sg, UndoRaises e, asked)
    | None =>
      let '(l', entries) := settle ran back_from why 0 places (steps sg) in
      let sg := set_steps sg l' in
      match entries with
      | [] =>
        match saga_transition ended SagaState.COMPLETED sg with
        | Ok sg => (sg, Left [], asked)
        | Raise e => (sg, UndoRaises e, asked)
        end
      | _ :: _ =>
        match saga_transition ended SagaState.ESCALATED sg with
        | Ok sg => (set_saga_error sg (Some (str_of_int (Z.of_nat (length entries)) +:+ " step(s) not taken back")),
                    Left entries, asked)
        | Raise e => (sg, UndoRaises e, asked)
        end
      end
    end
  end.

(** ** What a stop says *)

Definition STAYS_IN_COPY : string :=
  "What the steps below changed stays in this thread's copy, and lands in your folder with the thread's next turn.".
Definition STOP_LEFT_IN_COPY : string :=
  "Stopped, but not all of this turn could be taken back. " +:+ STAYS_IN_COPY.
Definition STOP_LEFT_LANDED : string :=
  "Stopped, but part of this turn had already landed in your folder, so it was not taken back.".
Definition STOP_NOT_YET : string :=
  "Stopped, but this turn is not taken back yet. It is taken back before the thread's next turn starts, once your computer answers.".
Definition OWED_ALONE : string :=
  "Stopped, but this turn is not all taken back yet. The steps below not taken back yet are taken back before the thread's next turn starts, once your computer answers.".
Definition STOP_NOT_YET_LEFT_IN_COPY : string :=
  OWED_ALONE +:+ " What the others changed stays in this thread's copy, and lands in your folder with the thread's next turn.".
Definition STOP_NOT_YET_LANDED : string := OWED_ALONE +:+ " The others had already landed in your folder.".

(** [stop_left]: its title and its lines. *)
Definition stop_title (entries : list NotTakenBack) : string :=
  let staying := existsb (λ e, negb (String.eqb (left_why e) "landed")) entries in
  let owed := (λ e, String.eqb (left_why e) "owed") <$> entries in
  let in_copy := existsb (λ e, negb (bool_decide (left_why e ∈ ["owed"; "landed"]))) entries in
  if existsb id owed then
    if forallb id owed then STOP_NOT_YET
    else if in_copy then STOP_NOT_YET_LEFT_IN_COPY else STOP_NOT_YET_LANDED
  else if staying then STOP_LEFT_IN_COPY else STOP_LEFT_LANDED.

Definition stop_lines (entries : list NotTakenBack) : list string :=
  (λ e, (match left_path e with
         | Some p => left_tool e +:+ " (" +:+ p +:+ ")"
         | None => left_tool e
         end) +:+ ": " +:+ WHY_NOT_TAKEN_BACK (left_why e)) <$> entries.

(** ** What an undo should do *)

(** The computer answered, one way or the other. *)
Definition answered (r : restore_outcome) : Prop :=
  match r with
  | Restored | ComputerRefused _ _ | NotAnAnswer | DeviceOperationError => True
  | RestoreTimedOut | LeaseLost | RestoreRaises _ => False
  end.
Definition restored (r : restore_outcome) : bool := match r with Restored => true | _ => false end.

Definition began_steps (sg : Saga) : list SagaStep := omap (λ p, steps sg !! p) (began sg).

(** Whether the step of number [i] was put back by its own snapshot. *)
Definition put_back_at (restore : nat → restore_outcome) (l : list SagaStep) (i : nat) : bool :=
  at_place l (λ i s, has_snapshot s && restored (restore i)) i.

Definition first_or (l : list nat) (d : nat) : nat := match l with i :: _ => i | [] => d end.

(** The number the copy is back from: the oldest put back of those from [k] on. *)
Definition copy_from (restore : nat → restore_outcome) (l : list SagaStep) (k : nat) : nat :=
  first_or (List.filter (put_back_at restore l) (seq k (length l - k))) (length l).

(** The calls that undo a step: its put-back in the pod for a landing's apply,
    else its undo tool and then its snapshot. *)
Definition undo_plan (s : SagaStep) : list (string * pyval) :=
  let restore :=
    match checkpoint_hash (spec s) with
    | Some h => if str_truthy h then [("_checkpoint", VDict [("action", VStr "restore"); ("hash", VStr h)])] else []
    | None => []
    end in
  if startswith (tool_name (spec s)) "history." then
    if String.eqb (tool_name (spec s)) "history.apply" then
      let made := match execute_result s with VDict _ => py_get (execute_result s) "made" (VList []) | _ => VList [] end in
      [("_history", with_key (with_key (with_key (arguments (spec s)) "made" made) "action" (VStr "unapply"))
                      "ran" (VBool true))]
    else []
  else
    match compensation_tool (spec s) with
    | Some tool =>
      if str_truthy tool then
        (tool, if truthy (compensation_args (spec s)) then compensation_args (spec s) else VDict []) :: restore
      else restore
    | None => restore
    end.

(** A stopped turn of three steps, the first with no snapshot, the last cut
    short; the computer puts the second back and refuses the third. *)
Definition sample_stopped : Saga :=
  set_steps sample_saga
    [set_state (new_step (mk_spec "step:1" "terminal" "c1" (VDict []) None VNone None 300 2)) StepState.COMMITTED;
     set_state (new_step (mk_spec "step:2" "write_file" "c2" (VDict [("path", VStr "a")]) None VNone (Some "h2") 300 2)) StepState.FAILED;
     set_state (new_step (mk_spec "step:3" "write_file" "c3" (VDict []) None VNone (Some "h3") 300 2)) StepState.EXECUTING].
Definition sample_restore (i : nat) : restore_outcome := if (i =? 1)%nat then Restored else NotAnAnswer.
Definition sample_away (i : nat) : restore_outcome := if (i =? 1)%nat then RestoreTimedOut else Restored.

(** ** Lemmas: the put-backs *)

Lemma rev_seq_S n : rev (seq 0 (S n)) = n :: rev (seq 0 n).
Proof. rewrite seq_S, rev_app_distr. done. Qed.

Lemma first_or_app l l' d : first_or (l ++ l') d = first_or l (first_or l' d).
Proof. by destruct l. Qed.

Section put_backs.
Context (restore : nat → restore_outcome) (l : list SagaStep).

(** One put-back the computer answered. *)
Lemma put_backs_answered i s todo bf why :
  l !! i = Some s → answered (restore i) →
  ∃ why', put_backs restore l (i :: todo) bf why =
    let '(b, w, asked, c) :=
      put_backs restore l todo (if put_back_at restore l i then i else bf) why' in
    (b, w, (if has_snapshot s then [i] else []) ++ asked, c).
Proof.
  intros Hs Ha. unfold put_back_at. rewrite (at_place_eq _ _ _ _ Hs). simpl. rewrite Hs.
  destruct (has_snapshot s); simpl.
  2:{ exists why. by destruct (put_backs _ _ _ _ _) as [[[??]?]?]. }
  destruct (restore i); simpl; try done; try (by eexists). case_decide; by eexists.
Qed.

Lemma seq_first n k : k < n → seq k (n - k) = k :: seq (S k) (n - S k).
Proof. intros Hk. by replace (n - k) with (S (n - S k)) by lia. Qed.

(** The put-backs of the numbers from [k] on, all answered. *)
Lemma put_backs_down k m bf why :
  k + m ≤ length l → (∀ i, k ≤ i < k + m → answered (restore i)) →
  ∃ why', put_backs restore l (rev (seq 0 (k + m))) bf why =
    let '(b, w, asked, c) :=
      put_backs restore l (rev (seq 0 k)) (first_or (List.filter (put_back_at restore l) (seq k m)) bf) why' in
    (b, w, rev (List.filter (at_place l (λ _, has_snapshot)) (seq k m)) ++ asked, c).
Proof.
  revert bf why. induction m as [|m IH]; intros bf why Hlen Hans.
  { exists why. rewrite Nat.add_0_r. simpl. by destruct (put_backs _ _ _ _ _) as [[[??]?]?]. }
  rewrite <- plus_n_Sm, rev_seq_S.
  destruct (lookup_lt_is_Some_2 l (k + m)) as [s Hs]; [lia|].
  destruct (put_backs_answered (k + m) s (rev (seq 0 (k + m))) bf why Hs) as [w1 ->]; [apply Hans; lia|].
  destruct (IH (if put_back_at restore l (k + m) then k + m else bf) w1) as [w2 ->]; [lia|intros; apply Hans; lia|].
  exists w2. rewrite seq_S, !List.filter_app, first_or_app, rev_app_distr. simpl.
  rewrite (at_place_eq _ _ _ _ Hs). simpl.
  assert (Hf : first_or (if put_back_at restore l (k + m) then [k + m] else []) bf
               = if put_back_at restore l (k + m) then k + m else bf) by (by destruct (put_back_at _ _ _)).
  rewrite Hf. destruct (put_backs _ _ _ _ _) as [[[b w] asked] c].
  by destruct (has_snapshot s).
Qed.
End put_backs.

Lemma indices_at_place (p : SagaStep → bool) l :
  indices p l = List.filter (at_place l (λ _, p)) (seq 0 (length l)).
Proof.
  unfold indices. change (seq 0 (length l)) with (seq (0 + 0) (length l)).
  assert (H : ∀ pre k, length pre = k →
    indices_from p k l = List.filter (at_place (pre ++ l) (λ _, p)) (seq k (length l))).
  { induction l as [|s l IH]; intros pre k Hk; simpl; [done|].
    assert (Hs : (pre ++ s :: l) !! k = Some s) by (by rewrite list_lookup_middle).
    rewrite (at_place_eq _ _ _ _ Hs), (IH (pre ++ [s]) (S k)) by (rewrite length_app; simpl; lia).
    by rewrite <- app_assoc. }
  apply (H [] 0 eq_refl).
Qed.

(** ** Lemmas: settling *)

Lemma settle_step_spec ran bf why i s :
  spec (fst (settle_step ran bf why i s)) = spec s ∧
  step_state (fst (settle_step ran bf why i s)) =
    (if (bf <=? i)%nat || negb (ran s) then StepState.COMPENSATED else StepState.COMPENSATION_FAILED) ∧
  (left_step <$> snd (settle_step ran bf why i s)) =
    if (bf <=? i)%nat || negb (ran s) then None else Some (step_id (spec s)).
Proof.
  unfold settle_step. destruct (_ || _); [done|]. by destruct (default _ _) as [r code].
Qed.

Lemma settle_spec ran bf why i places l l' es :
  NoDup places → (∀ p, p ∈ places → is_Some (l !! p)) →
  settle ran bf why i places l = (l', es) →
  (∀ p, p ∉ places → l' !! p = l !! p) ∧
  (∀ j p s, places !! j = Some p → l !! p = Some s →
     l' !! p = Some (fst (settle_step ran bf why (i + j) s))) ∧
  left_step <$> es = (λ s, step_id (spec s)) <$> List.filter ran (take (bf - i) (omap (l !!.) places)).
Proof.
  revert i l l' es. induction places as [|p places IH]; intros i l l' es Hnd Hall H; simpl in H.
  { simplify_eq. split_and!; [done|done|]. simpl. by rewrite take_nil. }
  apply NoDup_cons in Hnd as [Hp Hnd]. destruct (Hall p) as [s Hs]; [set_solver|]. rewrite Hs in H.
  destruct (settle_step ran bf why i s) as [s' e] eqn:He.
  destruct (settle ran bf why (S i) places (<[p:=s']> l)) as [l2 es2] eqn:H2. simplify_eq.
  assert (Hne : ∀ q, q ∈ places → <[p:=s']> l !! q = l !! q).
  { intros q Hq. apply list_lookup_insert_ne. intros ->. done. }
  apply IH in H2 as (Hother & Hdone & Hes); [|done|].
  2:{ intros q Hq. rewrite Hne by done. apply Hall. set_solver. }
  pose proof (settle_step_spec ran bf why i s) as (_ & _ & Hleft). rewrite He in Hleft. simpl in Hleft.
  split_and!.
  - intros q Hq. rewrite Hother by set_solver. apply list_lookup_insert_ne. set_solver.
  - intros [|j] q t Hj Hq; simplify_eq/=.
    + rewrite Hother, list_lookup_insert_eq by (done || by eapply lookup_lt_Some).
      by rewrite Nat.add_0_r, He.
    + rewrite <- plus_n_Sm. apply (Hdone j q t Hj). rewrite Hne; [done|]. by eapply list_elem_of_lookup_2.
  - assert (Ho : omap (<[p:=s']> l !!.) places = omap (l !!.) places).
    { apply list_omap_ext. apply Forall_Forall2_diag, Forall_forall. intros q Hq. by apply Hne. }
    rewrite Ho in Hes. simpl. rewrite Hs. destruct (Nat.leb_spec bf i) as [Hle|Hlt]; simpl in Hleft.
    + replace (bf - i) with 0 by lia. replace (bf - S i) with 0 in Hes by lia. simpl in *.
      destruct e; simplify_eq/=. done.
    + replace (bf - i) with (S (bf - S i)) by lia. simpl. destruct (ran s), e; simplify_eq/=; [by rewrite Hleft, Hes | exact Hes].
Qed.

Lemma began_lookup sg p : p ∈ began sg → is_Some (steps sg !! p).
Proof. unfold began. rewrite indices_elem. naive_solver. Qed.

Lemma began_same sg sg' : steps sg' = steps sg → began sg' = began sg.
Proof. unfold began. by intros ->. Qed.

(** What is owed names the steps before the copy's place that ran. *)
Lemma owed_left_steps ran l bf why :
  left_step <$> owed_left ran l bf why = (λ s, step_id (spec s)) <$> List.filter ran (take bf l).
Proof.
  unfold owed_left. generalize (default 0 (find_index has_snapshot l)). intros oldest.
  assert (H : ∀ (k : list SagaStep) (f : nat → nat), left_step <$> omap (λ p : nat * SagaStep,
      let '(at_, s) := p in
      if ran s then
        let '(r, code) := default (if (at_ <? oldest)%nat then "no_snapshot" else "owed", None)
                            (dict_get (step_id (spec s)) why) in
        Some (not_taken_back s r code)
      else None) (imap (λ i, pair (f i)) k) = (λ s, step_id (spec s)) <$> List.filter ran k).
  { induction k as [|s k IH]; intros f; [done|]. simpl. specialize (IH (f ∘ S)).
    destruct (ran s); [|exact IH]. destruct (default _ _) as [r code]. csimpl. f_equal. exact IH. }
  apply (H _ id).
Qed.

(** A restore makes its one call, and succeeds only if the call did. *)
Lemma compensate_builtin_run execute loads s h :
  checkpoint_hash (spec s) = Some h → str_truthy h = true →
  let call := ("_checkpoint", VDict [("action", VStr "restore"); ("hash", VStr h)]) in
  ∃ r, compensate_builtin execute loads s = ([call], r) ∧ (is_ok r = true → is_ok (execute call.1 call.2) = true).
Proof.
  intros Hh Ht call. unfold compensate_builtin. rewrite Hh, Ht. eexists. split; [done|]. simpl.
  by destruct (execute "_checkpoint" _).
Qed.

(** ** Properties *)

(** A stopped turn's undo on its user's computer, where the computer answers
    every put-back: each step that began and has a snapshot is asked to be put
    back, newest first; the oldest one put back is where the copy is, and every
    step from it on is taken back, as is a step that never ran; the others are
    marked not taken back and named to the stop, oldest first; a step that never
    began is left as it was; and the saga completes exactly when every step is
    taken back, escalating otherwise. *)
Theorem undo_on_computer_outcome restore ran now ended sg
    (Hrun : saga_state sg = SagaState.RUNNING) (Hans : ∀ i, answered (restore i)) :
  let l := began_steps sg in
  let from := copy_from restore l 0 in
  ∃ sg' entries,
    undo_on_computer restore ran now ended sg = (sg', Left entries, rev (indices has_snapshot l)) ∧
    left_step <$> entries = (λ s, step_id (spec s)) <$> List.filter ran (take from l) ∧
    (∀ p, p ∉ began sg → steps sg' !! p = steps sg !! p) ∧
    (∀ j p s, began sg !! j = Some p → steps sg !! p = Some s →
       ∃ s', steps sg' !! p = Some s' ∧ spec s' = spec s ∧
         step_state s' = if (from <=? j)%nat || negb (ran s) then StepState.COMPENSATED
                         else StepState.COMPENSATION_FAILED) ∧
    saga_state sg' = match entries with [] => SagaState.COMPLETED | _ => SagaState.ESCALATED end.
Proof.
  intros l from. unfold undo_on_computer.
  destruct (saga_transition_allowed now SagaState.COMPENSATING sg) as (sg1 & H1); [rewrite Hrun; set_solver|].
  rewrite H1. apply saga_transition_Ok in H1 as (_ & Hst1 & Hs1 & _).
  rewrite (began_same _ _ Hs1), Hs1. change (omap (λ p, steps sg !! p) (began sg)) with l.
  destruct (put_backs_down restore l 0 (length l) (length l) []) as [why Hput]; [lia|auto|].
  simpl in Hput. rewrite app_nil_r, <- indices_at_place in Hput. rewrite Hput. clear Hput.
  replace (first_or _ _) with from by (unfold from, copy_from; by rewrite Nat.sub_0_r).
  destruct (settle ran from why 0 (began sg) (steps sg)) as [l' es] eqn:Hset.
  apply settle_spec in Hset as (Hother & Hdone & Hes);
    [|apply indices_from_NoDup|apply began_lookup]. rewrite Nat.sub_0_r in Hes.
  set (st := match es with [] => SagaState.COMPLETED | _ => SagaState.ESCALATED end).
  destruct (saga_transition_allowed ended st (set_steps sg1 l')) as (sg2 & H2).
  { simpl. rewrite Hst1. unfold st. destruct es; set_solver. }
  assert (Hall : ∀ j p s, began sg !! j = Some p → steps sg !! p = Some s →
       ∃ s', l' !! p = Some s' ∧ spec s' = spec s ∧
         step_state s' = if (from <=? j)%nat || negb (ran s) then StepState.COMPENSATED
                         else StepState.COMPENSATION_FAILED).
  { intros j p s Hj Hs. eexists. split; [by eapply Hdone|]. simpl.
    destruct (settle_step_spec ran from why j s) as (? & ? & _). done. }
  pose proof H2 as (_ & Hst2 & Hs2 & _)%saga_transition_Ok. simpl in Hs2.
  destruct es as [|e es]; unfold st in *; rewrite H2; eexists _, _; (split; [done|]); simpl; rewrite ?Hs2; done.
Qed.

Lemma undo_on_computer_outcome_witness :
  let l := began_steps sample_stopped in
  let from := copy_from sample_restore l 0 in
  ∃ sg' entries,
    undo_on_computer sample_restore (λ _, true) sample_time sample_time sample_stopped
      = (sg', Left entries, rev (indices has_snapshot l)) ∧
    left_step <$> entries = (λ s, step_id (spec s)) <$> List.filter (λ _, true) (take from l) ∧
    (∀ p, p ∉ began sample_stopped → steps sg' !! p = steps sample_stopped !! p) ∧
    (∀ j p s, began sample_stopped !! j = Some p → steps sample_stopped !! p = Some s →
       ∃ s', steps sg' !! p = Some s' ∧ spec s' = spec s ∧
         step_state s' = if (from <=? j)%nat || negb true then StepState.COMPENSATED
                         else StepState.COMPENSATION_FAILED) ∧
    saga_state sg' = match entries with [] => SagaState.COMPLETED | _ => SagaState.ESCALATED end.
Proof.
  apply (undo_on_computer_outcome sample_restore (λ _, true) sample_time sample_time sample_stopped); [reflexivity|].
  intros i. unfold sample_restore. by destruct (i =? 1)%nat.
Defined.

(** Where the computer does not answer the put-back of some step in time, or
    the worker lost the thread, after answering every newer one, nothing more
    is asked, no step's state is touched, the saga stays being put back, and
    what is owed names exactly the steps that ran and are older than where the
    answered put-backs left the copy. *)
Theorem undo_on_computer_owed restore ran now ended sg k s
    (Hrun : saga_state sg = SagaState.RUNNING) (Hk : began_steps sg !! k = Some s)
    (Hsnap : has_snapshot s = true) (Haway : restore k = RestoreTimedOut ∨ restore k = LeaseLost)
    (Hans : ∀ i, k < i → answered (restore i)) :
  let l := began_steps sg in
  ∃ sg' entries,
    undo_on_computer restore ran now ended sg
      = (sg', UndoOwed entries, rev (List.filter (at_place l (λ _, has_snapshot)) (seq k (length l - k)))) ∧
    steps sg' = steps sg ∧ saga_state sg' = SagaState.COMPENSATING ∧
    left_step <$> entries
      = (λ s, step_id (spec s)) <$> List.filter ran (take (copy_from restore l (S k)) l).
Proof.
  intros l. unfold undo_on_computer.
  destruct (saga_transition_allowed now SagaState.COMPENSATING sg) as (sg1 & H1); [rewrite Hrun; set_solver|].
  rewrite H1. apply saga_transition_Ok in H1 as (_ & Hst1 & Hs1 & _).
  rewrite (began_same _ _ Hs1), Hs1. change (omap (λ p, steps sg !! p) (began sg)) with l.
  assert (Hlt : k < length l) by (by eapply lookup_lt_Some).
  destruct (put_backs_down restore l (S k) (length l - S k) (length l) []) as [why Hput]; [lia|intros; apply Hans; lia|].
  replace (S k + (length l - S k)) with (length l) in Hput by lia. rewrite Hput, rev_seq_S. clear Hput.
  fold (copy_from restore l (S k)). cbn [put_backs]. change (began_steps sg) with l in Hk. rewrite Hk, Hsnap.
  cbn [negb]. rewrite (seq_first (length l) k) by done. cbn [List.filter].
  rewrite (at_place_eq _ _ _ _ Hk), Hsnap. cbn [rev].
  destruct Haway as [-> | ->]; eexists _, _; (split; [done|]); (split; [done|]); (split; [done|]);
    apply owed_left_steps.
Qed.

Lemma undo_on_computer_owed_witness :
  let l := began_steps sample_stopped in
  ∃ sg' entries,
    undo_on_computer sample_away (λ _, true) sample_time sample_time sample_stopped
      = (sg', UndoOwed entries, rev (List.filter (at_place l (λ _, has_snapshot)) (seq 1 (length l - 1)))) ∧
    steps sg' = steps sample_stopped ∧ saga_state sg' = SagaState.COMPENSATING ∧
    left_step <$> entries
      = (λ s, step_id (spec s)) <$> List.filter (λ _, true) (take (copy_from sample_away l 2) l).
Proof.
  eapply (undo_on_computer_owed sample_away (λ _, true) sample_time sample_time sample_stopped 1);
    [reflexivity|reflexivity|reflexivity|left; reflexivity|].
  intros i Hi. unfold sample_away. destruct (Nat.eqb_spec i 1); [lia|done].
Defined.

(** Undoing one step makes the calls its strategies name, in their order (a
    landing's put-back; else its undo tool and then its snapshot), stops at the
    first that fails, and succeeds only when every one of them did; and a step
    with a strategy is never refused for want of one. *)
Theorem compensate_step_plan execute loads py_str s :
  let '(calls, r) := compensate_step execute loads py_str s in
  calls `prefix_of` undo_plan s ∧
  (is_ok r = true → calls = undo_plan s ∧ Forall (λ c, is_ok (execute c.1 c.2) = true) calls) ∧
  (undo_plan s ≠ [] → calls ≠ []) ∧
  (undo_plan s = [] → r = if startswith (tool_name (spec s)) "history." then Ok VNone
                          else Raise (SagaStateError (NotCompensable (step_id (spec s))))).
Proof.
  unfold compensate_step, undo_plan, compensate_history.
  destruct (startswith (tool_name (spec s)) "history.").
  { destruct (String.eqb _ _); simpl; [|done]. set (payload := with_key _ _ _).
    split_and!; [done| |done|done].
    destruct (execute "_history" payload) eqn:He; simpl; [|done]. intros _. split; [done|].
    repeat constructor. simpl. by rewrite He. }
  unfold compensate_mcp.
  destruct (checkpoint_hash (spec s)) as [h|] eqn:Hh; cbn [default from_option id];
    [destruct (str_truthy h) eqn:Hth|];
    [destruct (compensate_builtin_run execute loads s h Hh Hth) as (r & -> & Hr)|..];
    (destruct (compensation_tool (spec s)) as [tool|]; cbn [default from_option id];
      [destruct (str_truthy tool) eqn:Ht; rewrite ?Ht|]);
    try (destruct (execute tool _) eqn:He); try destruct r; cbn in *;
    (split_and!; [| |done|done]); try done; try (by apply prefix_cons, prefix_nil);
    intros Hok; (split; [done|]); repeat constructor; cbn; rewrite ?He; auto.
Qed.
