(* ===== verification/PyStr.v ===== *)
(** * Strings and paths of the Python standard library

    [str.split], [str.join], [str.strip], [int], the POSIX [os.path] functions, and the
    search for a shell variable reference that the governance gate's path check
    makes. *)

From S2P Require Import Prelude.
From stdpp Require Import options.

Definition slash : ascii := "/".

(** [s.split(c)]: never empty. *)
Fixpoint split_on (c : ascii) (s : string) : list string :=
  match s with
  | EmptyString => [""]
  | String a s' =>
    if Ascii.eqb a c then "" :: split_on c s'
    else match split_on c s' with
         | w :: ws => String a w :: ws
         | [] => [String a ""]
         end
  end.

(** [sep.join(ws)] *)
Fixpoint join (sep : string) (ws : list string) : string :=
  match ws with
  | [] => ""
  | [w] => w
  | w :: ws' => w +:+ sep +:+ join sep ws'
  end.

(** What follows a prefix. *)
Fixpoint drop_prefix (p s : string) : option string :=
  match p, s with
  | EmptyString, _ => Some s
  | String a p, String b s => if Ascii.eqb a b then drop_prefix p s else None
  | _, _ => None
  end.

(** ASCII white space, as [str.strip] drops it. *)
Definition is_space (a : ascii) : bool :=
  bool_decide (a ∈ [" "; "009"; "010"; "011"; "012"; "013"; "028"; "029"; "030"; "031"]%char).

Fixpoint lstrip (s : string) : string :=
  match s with
  | String a s' => if is_space a then lstrip s' else s
  | EmptyString => ""
  end.

Fixpoint string_rev (s acc : string) : string :=
  match s with EmptyString => acc | String a s' => string_rev s' (String a acc) end.

(** [s.strip()] *)
Definition strip (s : string) : string := string_rev (lstrip (string_rev (lstrip s) "")) "".

(** ** Numbers *)

(** [int()] of a JSON value, [None] where it raises: the digits of a numeral may
    be grouped by single underscores. *)
Definition dec_digit (a : ascii) : option Z :=
  let n := nat_of_ascii a in if (48 <=? n)%nat && (n <=? 57)%nat then Some (Z.of_nat n - 48)%Z else None.
Fixpoint int_digits (s : string) (acc : Z) (after_digit : bool) : option Z :=
  match s with
  | EmptyString => if after_digit then Some acc else None
  | String a r =>
    match dec_digit a with
    | Some d => int_digits r (acc * 10 + d) true
    | None => if Ascii.eqb a "_" && after_digit then int_digits r acc false else None
    end
  end.
Definition int_of_str (s : string) : option Z :=
  match strip s with
  | String "-" r => Z.opp <$> int_digits r 0 false
  | String "+" r => int_digits r 0 false
  | r => int_digits r 0 false
  end.
Definition py_int (v : pyval) : option Z :=
  match v with
  | VBool b => Some (if b then 1 else 0)%Z
  | VInt z => Some z
  | VStr s => int_of_str s
  | _ => None
  end.

(** ** POSIX paths *)

Definition isabs (p : string) : bool := startswith p "/".

Definition endswith (s p : string) : bool := String.prefix (string_rev p "") (string_rev s "").

(** [os.path.join(a, b)] *)
Definition path_join (a b : string) : string :=
  if isabs b then b
  else if negb (str_truthy a) || endswith a "/" then a +:+ b
  else a +:+ "/" +:+ b.

(** The components [normpath] keeps, newest first, of an absolute path or not. *)
Definition norm_step (absolute : bool) (acc : list string) (comp : string) : list string :=
  if String.eqb comp "" || String.eqb comp "." then acc
  else if negb (String.eqb comp "..") || (negb absolute && bool_decide (acc = []))
          || match acc with c :: _ => String.eqb c ".." | [] => false end
  then comp :: acc
  else match acc with _ :: acc' => acc' | [] => [] end.

(** [os.path.normpath(path)] *)
Definition normpath (path : string) : string :=
  if String.eqb path "" then "."
  else
    let slashes :=
      if startswith path "/" then
        if startswith path "//" && negb (startswith path "///") then "//" else "/"
      else "" in
    let comps := foldl (norm_step (str_truthy slashes)) [] (split_on slash path) in
    let res := slashes +:+ join "/" (rev comps) in
    if String.eqb res "" then "." else res.

(** [os.path.abspath(path)], from the working directory [cwd]. *)
Definition abspath (cwd path : string) : string := normpath (path_join cwd path).

(** ** Shell variables: [\$\{[A-Za-z_][A-Za-z0-9_]*\}|\$[A-Za-z_][A-Za-z0-9_]*] *)

Definition name_start (a : ascii) : bool :=
  let n := N_of_ascii a in
  ((65 <=? n) && (n <=? 90))%N || ((97 <=? n) && (n <=? 122))%N || (n =? 95)%N.
Definition name_char (a : ascii) : bool :=
  let n := N_of_ascii a in name_start a || ((48 <=? n) && (n <=? 57))%N.

Fixpoint span_name (s : string) : string * string :=
  match s with
  | String a s' => if name_char a then let '(w, r) := span_name s' in (String a w, r) else ("", s)
  | EmptyString => ("", "")
  end.

(** A name at the head of [s], and what follows it. *)
Definition name_at (s : string) : option (string * string) :=
  match s with
  | String a s' => if name_start a then let '(w, r) := span_name s' in Some (String a w, r) else None
  | EmptyString => None
  end.

(** The reference at the head of [s]. *)
Definition shell_var_at (s : string) : option string :=
  match s with
  | String "$" (String "{" s') =>
    match name_at s' with
    | Some (w, String "}" _) => Some ("${" +:+ w +:+ "}")
    | _ => None
    end
  | String "$" s' => match name_at s' with Some (w, _) => Some ("$" +:+ w) | None => None end
  | _ => None
  end.

(** [_SHELL_VAR_RE.search(s)]: the first reference in [s]. *)
Fixpoint shell_var_search (s : string) : option string :=
  match shell_var_at s with
  | Some m => Some m
  | None => match s with String _ s' => shell_var_search s' | EmptyString => None end
  end.

(** ** Lemmas *)

(** The words of a split hold no separator. *)
Definition no_char (c : ascii) (w : string) : Prop := split_on c w = [w].

Lemma split_on_nonempty c s : split_on c s ≠ [].
Proof. destruct s as [|a s]; simpl; [done|]. destruct (Ascii.eqb a c); [done|]. by destruct (split_on c s). Qed.

Lemma no_char_cons c a w : no_char c (String a w) ↔ Ascii.eqb a c = false ∧ no_char c w.
Proof.
  unfold no_char. simpl. destruct (Ascii.eqb a c).
  - split; [done|by intros [? _]].
  - split.
    + intros H. split; [done|]. destruct (split_on c w) as [|x xs] eqn:Hw; [by destruct (split_on_nonempty c w)|].
      by simplify_eq.
    + intros [_ ->]. done.
Qed.

Lemma split_on_no_char c s : Forall (no_char c) (split_on c s).
Proof.
  induction s as [|a s IH]; simpl; [by repeat constructor|].
  destruct (Ascii.eqb a c) eqn:Ha; [by constructor|].
  destruct (split_on c s) as [|w ws]; [by repeat constructor; apply no_char_cons|].
  apply Forall_cons in IH as [Hw Hws]. constructor; [by apply no_char_cons | done].
Qed.

(** Splitting at a separator. *)
Lemma split_on_sep c w s : no_char c w → split_on c (w +:+ String c s) = w :: split_on c s.
Proof.
  induction w as [|a w IH]; simpl; intros Hw; [by rewrite Ascii.eqb_refl|].
  apply no_char_cons in Hw as [-> Hw]. by rewrite IH.
Qed.

Lemma split_on_join ws :
  ws ≠ [] → Forall (no_char slash) ws → split_on slash (join "/" ws) = ws.
Proof.
  induction ws as [|w ws IH]; intros Hne Hall; [done|]. apply Forall_cons in Hall as [Hw Hws].
  destruct ws as [|w' ws]; [done|]. cbn [join]. change ("/" +:+ ?x) with (String slash x).
  rewrite split_on_sep by done. f_equal. by apply IH.
Qed.

Lemma norm_step_dotdot acc comp :
  ".." ∉ acc → no_char slash comp → Forall (no_char slash) acc →
  ".." ∉ norm_step true acc comp ∧ Forall (no_char slash) (norm_step true acc comp).
Proof.
  intros Hacc Hc Hall. unfold norm_step. destruct (_ || String.eqb comp "."); [done|].
  destruct (String.eqb_spec comp "..") as [->|Hne]; simpl.
  - destruct acc as [|c acc]; simpl; [done|]. apply Forall_cons in Hall as [Hh Ht].
    destruct (String.eqb_spec c ".."); [set_solver|]. split; [set_solver | done].
  - split; [set_solver | by constructor].
Qed.

Lemma norm_fold_dotdot comps acc :
  ".." ∉ acc → Forall (no_char slash) acc → Forall (no_char slash) comps →
  ".." ∉ foldl (norm_step true) acc comps ∧ Forall (no_char slash) (foldl (norm_step true) acc comps).
Proof.
  revert acc. induction comps as [|c comps IH]; intros acc Hacc Hall Hc; simpl; [done|].
  apply Forall_cons in Hc as [Hc Hcs]. destruct (norm_step_dotdot acc c) as [H1 H2]; [done..|]. by apply IH.
Qed.

(** No parent reference survives the normalisation of an absolute path. *)
Lemma normpath_no_dotdot path :
  isabs path = true → ".." ∉ split_on slash (normpath path).
Proof.
  unfold isabs, normpath. intros Habs. destruct (String.eqb_spec path "") as [->|_]; [done|]. rewrite Habs.
  set (slashes := if _ && _ then "//" else "/"). set (comps := foldl _ _ _).
  assert (Hs : str_truthy slashes = true) by (unfold slashes; by destruct (_ && _)).
  destruct (norm_fold_dotdot (split_on slash path) []) as [Hno Hall];
    [set_solver|constructor|apply split_on_no_char|].
  assert (Hcomps : ".." ∉ comps ∧ Forall (no_char slash) comps) by (unfold comps; by rewrite Hs).
  clearbody comps. clear Hno Hall. destruct Hcomps as [Hno Hall].
  assert (Hjoin : ".." ∉ split_on slash (join "/" (rev comps))).
  { destruct (decide (rev comps = [])) as [->|Hne]; [simpl; set_solver|].
    rewrite split_on_join; [by rewrite elem_of_rev|done|]. by apply Forall_rev. }
  assert (Hres : split_on slash (slashes +:+ join "/" (rev comps))
    = (if bool_decide (slashes = "//") then [""; ""] else [""]) ++ split_on slash (join "/" (rev comps))).
  { unfold slashes. by destruct (_ && _). }
  destruct (String.eqb_spec (slashes +:+ join "/" (rev comps)) "") as [Heq|_].
  { unfold slashes in Heq. by destruct (_ && _). }
  rewrite Hres. case_bool_decide; set_solver.
Qed.

Lemma isabs_app p q : isabs p = true → isabs (p +:+ q) = true.
Proof.
  unfold isabs, startswith. destruct p as [|a p]; [done|].
  change (String a p +:+ q) with (String a (p +:+ q)). cbn [String.prefix].
  destruct (ascii_dec "/" a); [|done]. by destruct p, q.
Qed.

Lemma isabs_normpath p : isabs p = true → isabs (normpath p) = true.
Proof.
  intros Hp. unfold normpath. destruct (String.eqb_spec p "") as [->|_]; [done|].
  unfold isabs in Hp. rewrite Hp. set (comps := foldl _ _ _). clearbody comps.
  destruct (_ && _); set (rest := join "/" (rev comps)); clearbody rest; by destruct rest.
Qed.

Lemma isabs_abspath cwd path : isabs cwd = true → isabs (abspath cwd path) = true.
Proof.
  intros Hcwd. apply isabs_normpath. unfold path_join. destruct (isabs path) eqn:Hp; [done|].
  destruct (_ || _); by apply isabs_app.
Qed.

(** ** [strip] is idempotent *)

Lemma string_rev_rev s acc : string_rev (string_rev s acc) "" = string_rev acc s.
Proof. revert acc. induction s as [|a s IH]; intros acc; csimpl; [done|]. by rewrite IH. Qed.
Lemma string_app_nil_r (s : string) : s +:+ "" = s.
Proof. induction s as [|a s IH]; [done|]. change (String a s +:+ "") with (String a (s +:+ "")). by rewrite IH. Qed.

Lemma string_app_assoc (s t u : string) : s +:+ t +:+ u = (s +:+ t) +:+ u.
Proof. induction s as [|a s IH]; [done|]. apply (f_equal (String a)). exact IH. Qed.
Lemma string_app_length (s t : string) : String.length (s +:+ t) = (String.length s + String.length t)%nat.
Proof. induction s as [|a s IH]; [done|]. apply (f_equal S). exact IH. Qed.
Lemma string_app_inj_r (s s' t : string) : s +:+ t = s' +:+ t → s = s'.
Proof.
  revert s'. induction s as [|a s IH]; intros [|b s'] H; [done|..].
  - apply (f_equal String.length) in H. rewrite !string_app_length in H. csimpl in H. lia.
  - apply (f_equal String.length) in H. rewrite !string_app_length in H. csimpl in H. lia.
  - change (String a (s +:+ t) = String b (s' +:+ t)) in H. injection H as -> H. f_equal. by apply IH.
Qed.

Lemma string_rev_app s t acc : string_rev (s +:+ t) acc = string_rev t (string_rev s acc).
Proof. revert acc. induction s as [|a s IH]; intros acc; csimpl; [done|]. by rewrite IH. Qed.
Lemma string_rev_acc s acc : string_rev s acc = string_rev s "" +:+ acc.
Proof.
  revert acc. induction s as [|a s IH]; intros acc; csimpl; [done|]. rewrite IH, (IH (String a "")).
  clear IH. induction (string_rev s "") as [|b r IHr]; [done|]. apply (f_equal (String b)). exact IHr.
Qed.

(** No white space in front. *)
Definition stripped_front (s : string) : bool := match s with String a _ => negb (is_space a) | EmptyString => true end.

Lemma lstrip_front s : stripped_front (lstrip s) = true.
Proof. induction s as [|a s IH]; csimpl; [done|]. destruct (is_space a) eqn:Ha; csimpl; [done|]. by rewrite Ha. Qed.
Lemma lstrip_id s : stripped_front s = true → lstrip s = s.
Proof. destruct s as [|a s]; csimpl; [done|]. by destruct (is_space a). Qed.
Lemma lstrip_suffix s : ∃ ws, s = ws +:+ lstrip s.
Proof.
  induction s as [|a s [ws IH]]; [by exists ""|]. csimpl. destruct (is_space a); [|by exists ""].
  exists (String a ws). apply (f_equal (String a)). exact IH.
Qed.

Lemma strip_strip s : strip (strip s) = strip s.
Proof.
  unfold strip at 1. assert (Hf : stripped_front (strip s) = true).
  { unfold strip. destruct (lstrip_suffix (string_rev (lstrip s) "")) as [ws Hws].
    pose proof (f_equal (λ x, string_rev x "") Hws) as Hu. csimpl in Hu.
    rewrite string_rev_rev, string_rev_app in Hu. csimpl in Hu. rewrite string_rev_acc in Hu.
    pose proof (lstrip_front s) as Hfr. rewrite Hu in Hfr. by destruct (string_rev (lstrip (string_rev (lstrip s) "")) ""). }
  rewrite (lstrip_id _ Hf). unfold strip at 1. rewrite string_rev_rev. csimpl.
  by rewrite (lstrip_id _ (lstrip_front (string_rev (lstrip s) ""))).
Qed.

(** ** Numbers written and read back *)

Definition spaceless (s : string) : Prop := ∀ a, a ∈ String.list_ascii_of_string s → is_space a = false.

Lemma string_rev_list s acc :
  String.list_ascii_of_string (string_rev s acc) = rev (String.list_ascii_of_string s) ++ String.list_ascii_of_string acc.
Proof. revert acc. induction s as [|a s IH]; intros acc; csimpl; [done|]. rewrite IH. csimpl. by rewrite <-app_assoc. Qed.

Lemma strip_spaceless s : spaceless s → strip s = s.
Proof.
  intros Hs. assert (Hid : ∀ t, spaceless t → lstrip t = t).
  { intros t Ht. apply lstrip_id. destruct t as [|a t]; [done|]. csimpl. by rewrite (Ht a (list_elem_of_here _ _)). }
  unfold strip. rewrite (Hid s) by done. rewrite (Hid (string_rev s "")); [by rewrite string_rev_rev|].
  intros a Ha. rewrite string_rev_list, app_nil_r, elem_of_rev in Ha. by apply Hs.
Qed.

(** A digit is no space, no dot and no sign. *)
Definition digit (a : ascii) : bool := match dec_digit a with Some _ => true | None => false end.
Lemma digit_plain a : digit a = true → is_space a = false ∧ Ascii.eqb a "." = false ∧ a ≠ "-"%char ∧ a ≠ "+"%char.
Proof. destruct a as [[] [] [] [] [] [] [] []]; vm_compute; intuition congruence. Qed.
Lemma pretty_digit (x : N) : (x < 10)%N → dec_digit (pretty_N_char x) = Some (Z.of_N x).
Proof.
  intros Hx. assert (Hall : Forall (λ n : N, dec_digit (pretty_N_char n) = Some (Z.of_N n)) [0; 1; 2; 3; 4; 5; 6; 7; 8; 9]%N)
    by (repeat constructor).
  rewrite Forall_forall in Hall. apply Hall, list_elem_of_In. simpl. lia.
Qed.

Definition digits (s : string) : Prop := ∀ a, a ∈ String.list_ascii_of_string s → digit a = true.

Lemma pretty_go_digits x s : digits s → digits (pretty_N_go x s).
Proof.
  revert s. induction (N.lt_wf_0 x) as [x _ IH]; intros s Hs.
  destruct (decide (x = 0)%N) as [->|Hx]; [by rewrite pretty_N_go_0|].
  rewrite pretty_N_go_step by lia. apply IH; [apply N.div_lt; lia|]. intros a Ha. csimpl in Ha.
  apply elem_of_cons in Ha as [->|Ha]; [|by apply Hs]. unfold digit.
  by rewrite pretty_digit by (apply N.mod_lt; lia).
Qed.
Lemma pretty_go_value x s b :
  (0 < x)%N → int_digits (pretty_N_go x s) 0 b = int_digits s (Z.of_N x) true.
Proof.
  revert s b. induction (N.lt_wf_0 x) as [x _ IH]; intros s b Hx. rewrite pretty_N_go_step by done.
  pose proof (pretty_digit (x mod 10)%N (N.mod_lt x 10 ltac:(lia))) as Hd.
  destruct (decide (x < 10)%N) as [Hs|Hs].
  - rewrite N.div_small by done. rewrite N.mod_small in * by done. rewrite pretty_N_go_0. csimpl. by rewrite Hd.
  - rewrite IH; [|apply N.div_lt; lia|apply N.div_str_pos; lia]. csimpl. rewrite Hd.
    pose proof (N.div_mod x 10 ltac:(lia)). by replace (Z.of_N (x / 10) * 10 + Z.of_N (x mod 10))%Z with (Z.of_N x) by lia.
Qed.

Lemma str_of_int_pos k : (0 < k)%Z → str_of_int k = pretty_N_go (Z.to_N k) "".
Proof. intros Hk. destruct k as [|k|k]; [lia| |lia]. unfold str_of_int. change (pretty (Z.pos k)) with (pretty (N.pos k)). unfold pretty, pretty_N. by case_decide. Qed.

Lemma str_of_int_digits k : (0 < k)%Z → digits (str_of_int k).
Proof. intros Hk. rewrite str_of_int_pos by done. apply pretty_go_digits. intros a Ha. by apply list_elem_of_In in Ha. Qed.

(** [int(str(k)) == k] *)
Lemma int_of_str_of_int k : (0 < k)%Z → int_of_str (str_of_int k) = Some k.
Proof.
  intros Hk. pose proof (str_of_int_digits k Hk) as Hd. unfold int_of_str.
  rewrite strip_spaceless by (intros a Ha; by apply digit_plain, Hd).
  assert (Hv : int_digits (str_of_int k) 0 false = Some k).
  { rewrite str_of_int_pos, pretty_go_value by lia. csimpl. f_equal. lia. }
  destruct (str_of_int k) as [|a s]; [done|].
  destruct (digit_plain a) as (_ & _ & Hm & Hp); [apply Hd; left|].
  destruct a as [[] [] [] [] [] [] [] []]; try exact Hv; done.
Qed.

