(* ===== verification/Governance.v ===== *)
(** * The governance gate (governance/policy.py)

    What a tool call may do: the name-level decision (deny-list, approval,
    allow-list), the path hygiene, workspace, egress and argument checks, the
    changes of an unfrozen gate, and its narrowing by a profile.

    The policy engine, the execution sandbox and the egress policy are a
    third-party toolkit: the class [Toolkit] holds what the gate calls of them,
    and [ToolkitLaws] what it relies on, the engine's role check. *)

From S2P Require Import Prelude.
From S2P Require Import PyStr.
From stdpp Require Import options.

(** ** Policies *)

Record EgressRule := mk_rule { domain : pyval; ports : pyval; protocol : pyval; action : pyval }.
Record EgressPolicy := mk_egress { default_action : string; rules : list EgressRule }.

Record PolicyDecision := mk_decision {
  allowed : bool; reason : string; decided_tool : string; overridable : bool
}.

(** What the gate calls of the toolkit and of the system it runs on. *)
Class Toolkit := {
  (** [engine.check_violation("agent", tool, arguments)], by the role's
      permissions and the blocked patterns the engine holds. *)
  check_violation : gset string → gset string → string → pyval → option string;
  (** [ExecutionSandbox(allowed_paths=[workspace]).check_file_access(path, mode)] *)
  check_file_access : string → string → string → bool;
  (** [policy.check_url(url)]: whether it is allowed, and why not. *)
  check_url : EgressPolicy → string → bool * string;
  expanduser : string → string;
  getcwd : string
}.

(** The engine refuses a tool its role is not permitted, and a process runs in
    an absolute directory. *)
Class ToolkitLaws `{Toolkit} : Prop := {
  role_checked : ∀ perms blocked tool args, tool ∉ perms → check_violation perms blocked tool args ≠ None;
  cwd_absolute : isabs getcwd = true
}.

(** [state_permissions.get("agent")] is [permissions]: [None] while the role has
    no entry.  [sandboxes] are the workspaces whose sandbox is cached. *)
Record Gate := mk_gate {
  enabled : bool;
  require_approval : gset string;
  open_policy : bool;
  has_allow_list : bool;
  denied : gset string;
  permissions : option (gset string);
  blocked_patterns : gset string;
  frozen : bool;
  egress : option EgressPolicy;
  sandboxes : gset string
}.

Definition permitted (g : Gate) : gset string := default ∅ (permissions g).

Definition set_permissions (g : Gate) (p : option (gset string)) : Gate :=
  mk_gate (enabled g) (require_approval g) (open_policy g) (has_allow_list g) (denied g) p
    (blocked_patterns g) (frozen g) (egress g) (sandboxes g).
Definition set_denied (g : Gate) (d : gset string) : Gate :=
  mk_gate (enabled g) (require_approval g) (open_policy g) (has_allow_list g) d (permissions g)
    (blocked_patterns g) (frozen g) (egress g) (sandboxes g).
Definition add_sandbox (g : Gate) (w : string) : Gate :=
  mk_gate (enabled g) (require_approval g) (open_policy g) (has_allow_list g) (denied g) (permissions g)
    (blocked_patterns g) (frozen g) (egress g) ({[w]} ∪ sandboxes g).

(** [GovernanceGate(...)] *)
Definition new_gate (allowed_tools denied_tools : option (gset string)) (on : bool)
    (egress_policy : option EgressPolicy) (approval : option (gset string)) : Gate :=
  mk_gate on (default ∅ approval)
    (match allowed_tools with Some _ => false | None => true end)
    (match allowed_tools with Some _ => true | None => false end)
    (default ∅ denied_tools)
    (match allowed_tools with Some a => Some (a ∖ default ∅ denied_tools) | None => None end)
    (default ∅ denied_tools) false egress_policy ∅.

(** ** Mutation *)

Definition freeze (g : Gate) : Gate :=
  mk_gate (enabled g) (require_approval g) (open_policy g) (has_allow_list g) (denied g) (permissions g)
    (blocked_patterns g) true (egress g) (sandboxes g).

Definition add_allowed (g : Gate) (tool : string) : Gate :=
  if frozen g then g
  else mk_gate (enabled g) (require_approval g) false true (denied g) (Some ({[tool]} ∪ permitted g))
         (blocked_patterns g) (frozen g) (egress g) (sandboxes g).

Definition add_denied (g : Gate) (tool : string) : Gate :=
  if frozen g then g
  else set_permissions (set_denied g ({[tool]} ∪ denied g)) ((λ p, p ∖ {[tool]}) <$> permissions g).

(** ** Decisions by name *)

Definition name_decision (g : Gate) (tool : string) : option PolicyDecision :=
  if negb (enabled g) then Some (mk_decision true "governance disabled" tool false)
  else if decide (tool ∈ denied g) then
    Some (mk_decision false ("denied: tool '" +:+ tool +:+ "' explicitly blocked") tool false)
  else if decide (tool ∈ require_approval g) then
    Some (mk_decision false ("tool '" +:+ tool +:+ "' requires human approval") tool true)
  else None.

Definition skips_role_check (g : Gate) (tool : string) : bool := open_policy g || startswith tool "mcp__".

Definition offers (g : Gate) (tool : string) : bool :=
  match name_decision g tool with
  | Some d => allowed d || overridable d
  | None => skips_role_check g tool || bool_decide (tool ∈ permitted g)
  end.

Definition allow_listed (g : Gate) (names : list string) : gset string :=
  if has_allow_list g then list_to_set (filter (λ n, n ∈ permitted g) names) else ∅.

(** ** Decisions by arguments *)

Definition PATH_ARGUMENT_MAP (tool : string) : list string :=
  if decide (tool ∈ ["read_file"; "write_file"; "patch"; "search_files"; "list_files"]) then ["path"]
  else if String.eqb tool "terminal" then ["workdir"] else [].

Definition URL_ARGUMENT_MAP (tool : string) : list string :=
  if String.eqb tool "web_search" then ["query"]
  else if String.eqb tool "web_extract" then ["url"]
  else if String.eqb tool "web_crawl" then ["url"; "start_url"]
  else if String.eqb tool "browser_navigate" then ["url"] else [].

(** The first violation among the values of [keys] that are non-empty texts. *)
Fixpoint first_violation (check : string → string → option string) (keys : list string) (arguments : pyval)
    : option string :=
  match keys with
  | [] => None
  | key :: keys' =>
    match py_get arguments key VNone with
    | VStr raw =>
      if str_truthy raw then
        match check key raw with
        | Some v => Some v
        | None => first_violation check keys' arguments
        end
      else first_violation check keys' arguments
    | _ => first_violation check keys' arguments
    end
  end.

Definition check_path_arg_hygiene (tool : string) (arguments : pyval) : option string :=
  first_violation (λ key raw,
    match shell_var_search raw with
    | Some m => Some ("Path argument '" +:+ key +:+ "' contains shell variable '" +:+ m +:+
                      "' — paths are taken literally and never expanded by a shell.  Use a relative path (working directory is the workspace) or omit the variable.")
    | None => None
    end) (PATH_ARGUMENT_MAP tool) arguments.

Section checks.
Context `{Toolkit}.

Definition check_workspace_sandbox (tool : string) (arguments : pyval) (workspace : string) : option string :=
  first_violation (λ _ raw,
    let expanded := expanduser raw in
    let expanded := if isabs expanded then expanded else path_join workspace expanded in
    let mode := if decide (tool ∈ ["write_file"; "patch"]) then "w" else "r" in
    if check_file_access workspace expanded mode then None
    else Some ("Workspace sandbox violation: '" +:+ raw +:+ "' resolves outside the session workspace. All file operations must stay within the workspace directory."))
    (PATH_ARGUMENT_MAP tool) arguments.

Definition check_egress (g : Gate) (tool : string) (arguments : pyval) : option string :=
  match egress g with
  | None => None
  | Some policy =>
    first_violation (λ _ raw,
      if startswith raw "http://" || startswith raw "https://" then
        let '(ok, why) := check_url policy raw in
        if ok then None
        else Some ("Egress policy violation: outbound request to '" +:+ raw +:+ "' blocked — " +:+ why)
      else None) (URL_ARGUMENT_MAP tool) arguments
  end.

(** [_check_arguments_direct] *)
Definition check_arguments_direct (tool : string) (arguments : pyval) : option string :=
  if decide (tool ∈ ["write_file"; "read_file"; "delete_file"; "file_write"; "file_read"]) then
    match py_get arguments "path" (VStr "") with
    | VStr path =>
      if str_contains (String "010" "") path || str_contains (String "013" "") path
         || str_contains (String "000" "") path
      then Some "Path contains control characters"
      else if bool_decide (".." ∈ split_on slash (normpath (abspath getcwd path)))
      then Some ("Path traversal detected: " +:+ path)
      else None
    | _ => None
    end
  else None.

(** [_check_arguments]: the tool is admitted for the engine's check and taken
    back out of the role's permissions after it. *)
Definition check_arguments (g : Gate) (tool : string) (arguments : pyval) : Gate * option string :=
  if frozen g then (g, check_arguments_direct tool arguments)
  else
    let perms := {[tool]} ∪ permitted g in
    (set_permissions g (Some (perms ∖ {[tool]})), check_violation perms (blocked_patterns g) tool arguments).

(** A violation that says something refuses. *)
Definition refuses (v : option string) : option string :=
  match v with Some m => if str_truthy m then Some m else None | None => None end.

Definition deny (m tool : string) : PolicyDecision := mk_decision false m tool false.
Definition allow (tool : string) : PolicyDecision := mk_decision true "allowed" tool false.

(** [check] *)
Definition check (g : Gate) (tool : string) (arguments : pyval) (workspace : option string)
    : Gate * PolicyDecision :=
  match name_decision g tool with
  | Some d => (g, d)
  | None =>
    match refuses (check_path_arg_hygiene tool arguments) with
    | Some m => (g, deny m tool)
    | None =>
      let w := default "" workspace in
      let guarded := str_truthy w && negb (bool_decide (PATH_ARGUMENT_MAP tool = [])) in
      let g := if guarded then add_sandbox g w else g in
      match refuses (if guarded then check_workspace_sandbox tool arguments w else None) with
      | Some m => (g, deny m tool)
      | None =>
        match refuses (check_egress g tool arguments) with
        | Some m => (g, deny m tool)
        | None =>
          if skips_role_check g tool then
            let '(g, v) := check_arguments g tool arguments in
            match refuses v with
            | Some m => (g, deny m tool)
            | None => (g, allow tool)
            end
          else
            match check_violation (permitted g) (blocked_patterns g) tool arguments with
            | Some m => (g, deny m tool)
            | None => (g, allow tool)
            end
        end
      end
    end
  end.
End checks.

(** ** Narrowing by a profile *)

(** An egress rule of a profile, with the fields it names. *)
Record ProfileRule := mk_profile_rule {
  rule_domain : option pyval; rule_ports : option pyval; rule_protocol : option pyval; rule_action : option pyval
}.

(** A missing list is an empty one; [profile_egress] is the default action and
    the rules, where the profile has egress at all. *)
Record Profile := mk_profile {
  profile_allowed : list string;
  profile_denied : list string;
  profile_egress : option (option string * list ProfileRule);
  profile_approval : list string
}.

(** [_strictest_egress_default] *)
Definition strictest_egress_default (base profile : option string) : string :=
  let candidates := filter (λ v, str_truthy v = true) (option_list base ++ option_list profile) in
  match candidates with
  | [] => "deny"
  | _ => if existsb (String.eqb "deny") candidates then "deny"
         else if forallb (String.eqb "allow") candidates then "allow" else "deny"
  end.

Definition rule_of_profile (r : ProfileRule) : EgressRule :=
  mk_rule (default (VStr "") (rule_domain r)) (default (VList [VInt 443]) (rule_ports r))
    (default (VStr "tcp") (rule_protocol r)) (default (VStr "allow") (rule_action r)).

Definition compose_egress (base : option EgressPolicy) (profile : option (option string * list ProfileRule))
    : option EgressPolicy :=
  let '(profile_default, profile_rules) := default (None, []) profile in
  if bool_decide (is_Some base) || bool_decide (profile_rules ≠ []) || bool_decide (profile_default = Some "deny")
  then
    Some (mk_egress (strictest_egress_default (default_action <$> base) profile_default)
            (from_option rules [] base ++ (rule_of_profile <$> profile_rules)))
  else None.

(** [set.update(str(t).strip() for t in ... if str(t).strip())] *)
Definition stripped_names (l : list string) : gset string :=
  list_to_set (filter (λ t, str_truthy t = true) (strip <$> l)).

(** [with_profile] *)
Definition with_profile (g : Gate) (p : Profile) : Gate :=
  let base_allowed := if has_allow_list g then Some (permitted g) else None in
  let narrowed : option (gset string) :=
    match profile_allowed p with [] => None | l => Some (list_to_set l) end in
  let new_allowed :=
    match base_allowed, narrowed with
    | Some b, Some a => Some (b ∩ a)
    | None, Some a => Some a
    | Some b, None => Some b
    | None, None => None
    end in
  let new_denied := denied g ∪ list_to_set (profile_denied p) in
  let new_approval := require_approval g ∪ stripped_names (profile_approval p) in
  freeze (new_gate new_allowed (if decide (new_denied = ∅) then None else Some new_denied) (enabled g)
            (compose_egress (egress g) (profile_egress p))
            (if decide (new_approval = ∅) then None else Some new_approval)).

(** ** What a gate should do *)

(** A gate has an allow-list or an open policy. *)
Definition gate_ok (g : Gate) : Prop := open_policy g = negb (has_allow_list g).

Definition is_mcp (tool : string) : bool := startswith tool "mcp__".

(** A gate whose policy is the same, for every tool. *)
Definition same_policy (g g' : Gate) : Prop :=
  (∀ t, offers g' t = offers g t) ∧ (∀ t, name_decision g' t = name_decision g t) ∧
  frozen g' = frozen g ∧ egress g' = egress g ∧ has_allow_list g' = has_allow_list g ∧
  (∀ t, is_mcp t = false → has_allow_list g = true → (t ∈ permitted g' ↔ t ∈ permitted g)).

(** A file tool's path argument that no path may have. *)
Definition bad_path (tool : string) (arguments : pyval) : bool :=
  bool_decide (tool ∈ ["write_file"; "read_file"; "delete_file"; "file_write"; "file_read"]) &&
  match py_get arguments "path" (VStr "") with
  | VStr path => str_contains (String "010" "") path || str_contains (String "013" "") path
                 || str_contains (String "000" "") path
  | _ => false
  end.

(** A toolkit that permits what its role holds, and a gate of it. *)
#[global] Instance sample_toolkit : Toolkit := {|
  check_violation perms _ tool _ := if decide (tool ∈ perms) then None else Some "not permitted";
  check_file_access w p _ := startswith p w;
  check_url policy _ := (String.eqb (default_action policy) "allow", "default");
  expanduser p := p;
  getcwd := "/work"
|}.
#[global] Instance sample_laws : ToolkitLaws.
Proof. split; [|done]. intros perms blocked tool args Ht. simpl. by rewrite decide_False. Qed.

Definition sample_gate : Gate := new_gate (Some {["read_file"; "terminal"]}) (Some {["web_crawl"]}) true None None.
Definition sample_profile : Profile := mk_profile ["read_file"] ["terminal"] (Some (Some "deny", [])) ["send_mail"].

(** ** Lemmas *)

Lemma refuses_None v : v = None → refuses v = None.
Proof. by intros ->. Qed.

Lemma name_decision_None g t :
  name_decision g t = None ↔ enabled g = true ∧ t ∉ denied g ∧ t ∉ require_approval g.
Proof. unfold name_decision. destruct (enabled g); simpl; repeat case_decide; naive_solver. Qed.

Lemma name_decision_overridable g t d :
  name_decision g t = Some d → overridable d = true → enabled g = true ∧ t ∉ denied g ∧ t ∈ require_approval g.
Proof. unfold name_decision. destruct (enabled g); simpl; repeat case_decide; naive_solver. Qed.

Lemma add_sandbox_same g w : same_policy g (add_sandbox g w).
Proof. by repeat split. Qed.

(** Taking a tool that skips the role check out of the role's permissions. *)
Lemma drop_permission_same g t :
  gate_ok g → skips_role_check g t = true → frozen g = false →
  same_policy g (set_permissions g (Some (({[t]} ∪ permitted g) ∖ {[t]}))).
Proof.
  intros Hok Hskip Hf. unfold same_policy. split_and!; try done.
  - intros t'. unfold offers, name_decision, skips_role_check in *. cbn.
    destruct (negb (enabled g)); [done|]. case_decide; [done|]. case_decide; [done|].
    destruct (open_policy g); simpl in *; [done|]. destruct (startswith t' "mcp__") eqn:Hm; simpl; [done|].
    apply bool_decide_ext. assert (t' ≠ t) by congruence. set_solver.
  - intros t' Hm Hl. cbn. unfold gate_ok, skips_role_check in *. rewrite Hl in Hok. simpl in Hok.
    rewrite Hok in Hskip. simpl in Hskip. assert (t' ≠ t) by (unfold is_mcp in Hm; congruence). set_solver.
Qed.

Section checked.
Context `{Toolkit}.

(** The gate a check leaves, and when it allows. *)
Lemma check_cases g t args w g' d :
  check g t args w = (g', d) →
  (∃ d', name_decision g t = Some d' ∧ d = d' ∧ g' = g) ∨
  (name_decision g t = None ∧ overridable d = false ∧
   (g' = g ∨ (∃ w, g' = add_sandbox g w) ∨
    skips_role_check g t = true ∧
      (∃ g0, (g0 = g ∨ ∃ w, g0 = add_sandbox g w) ∧ g' = fst (check_arguments g0 t args))) ∧
   (allowed d = true → skips_role_check g t = true ∨
      check_violation (permitted g) (blocked_patterns g) t args = None)).
Proof.
  unfold check. destruct (name_decision g t) as [d'|] eqn:Hn; [intros; simplify_eq; eauto|].
  intros Hc. right. split; [done|]. revert Hc.
  destruct (refuses (check_path_arg_hygiene t args)); [intros; simplify_eq/=; naive_solver|].
  set (guarded := _ && _). set (g0 := if guarded then add_sandbox g _ else g).
  assert (Hg0 : g0 = g ∨ ∃ w, g0 = add_sandbox g w) by (unfold g0; destruct guarded; eauto).
  assert (Heq : skips_role_check g0 t = skips_role_check g t ∧ permitted g0 = permitted g ∧
                blocked_patterns g0 = blocked_patterns g) by (destruct Hg0 as [->|[? ->]]; done).
  destruct Heq as (Hs & Hp & Hb). clearbody g0.
  destruct (refuses (if guarded then _ else _)); [intros [= <- <-]; naive_solver|].
  destruct (refuses (check_egress _ _ _)); [intros [= <- <-]; naive_solver|].
  rewrite Hs. destruct (skips_role_check g t) eqn:Hskip.
  - destruct (check_arguments g0 t args) as [g1 v] eqn:Ha.
    assert (g1 = fst (check_arguments g0 t args)) by (by rewrite Ha).
    destruct (refuses v); intros [= <- <-]; (split; [done|]); (split; [right; right; eauto|naive_solver]).
  - rewrite Hp, Hb. destruct (check_violation _ _ _ _); intros [= <- <-]; naive_solver.
Qed.

Lemma check_same_policy g t args w : gate_ok g → same_policy g (fst (check g t args w)).
Proof.
  intros Hok. destruct (check g t args w) as [g' d] eqn:Hc. simpl.
  apply check_cases in Hc as [(? & _ & _ & ->)|(_ & _ & [->|[[w' ->]|(Hskip & g0 & Hg0 & ->)]] & _)]; [by repeat split..| |].
  { apply add_sandbox_same. }
  assert (Heq : gate_ok g0 ∧ skips_role_check g0 t = true ∧ same_policy g g0).
  { destruct Hg0 as [->|[? ->]]; [|by split_and!; [..|apply add_sandbox_same]]. by repeat split. }
  destruct Heq as (Hok0 & Hskip0 & Hsame).
  unfold check_arguments. destruct (frozen g0) eqn:Hf; simpl; [done|].
  pose proof (drop_permission_same g0 t Hok0 Hskip0 Hf) as Hd.
  destruct Hsame as (H1 & H2 & H3 & H4 & H5 & H6), Hd as (K1 & K2 & K3 & K4 & K5 & K6).
  unfold same_policy. split_and!; [congruence..|]. intros t' Hm Hl. rewrite K6, H6; [done..|congruence].
Qed.
End checked.

Lemma gate_ok_ops g t p :
  gate_ok g → gate_ok (freeze g) ∧ gate_ok (add_allowed g t) ∧ gate_ok (add_denied g t) ∧
              gate_ok (with_profile g p).
Proof.
  intros Hok. unfold add_allowed, add_denied. split_and!; try done; try (by destruct (frozen g)).
  unfold gate_ok, with_profile. cbn.
  by destruct (has_allow_list g), (profile_allowed p).
Qed.

Lemma if_empty (X : gset string) : default ∅ (if decide (X = ∅) then None else Some X) = X.
Proof. by case_decide. Qed.

(** What a narrowed gate denies, asks approval of and admits. *)
Lemma with_profile_fields g p :
  denied (with_profile g p) = denied g ∪ list_to_set (profile_denied p) ∧
  require_approval (with_profile g p) = require_approval g ∪ stripped_names (profile_approval p) ∧
  enabled (with_profile g p) = enabled g ∧ frozen (with_profile g p) = true ∧
  egress (with_profile g p) = compose_egress (egress g) (profile_egress p) ∧
  open_policy (with_profile g p) = negb (has_allow_list g) && bool_decide (profile_allowed p = []) ∧
  ∀ t, t ∉ denied (with_profile g p) → open_policy (with_profile g p) = false →
    (t ∈ permitted (with_profile g p) ↔
     (has_allow_list g = true → t ∈ permitted g) ∧ (profile_allowed p ≠ [] → t ∈ profile_allowed p)).
Proof.
  assert (Hd : denied (with_profile g p) = denied g ∪ list_to_set (profile_denied p)) by (cbn; apply if_empty).
  split_and!; [done|cbn; apply if_empty|done|done|done|by cbn; destruct (has_allow_list g), (profile_allowed p)|].
  intros t. rewrite Hd. intros Ht Hopen. unfold permitted at 1. cbn -[permitted]. rewrite if_empty.
  cbn in Hopen. destruct (has_allow_list g), (profile_allowed p) as [|a l] eqn:Ha; cbn -[permitted] in *; try done;
    clear Hd Hopen Ha; rewrite ?elem_of_difference, ?elem_of_intersection;
    rewrite ?elem_of_union, ?elem_of_singleton, ?elem_of_cons, ?elem_of_list_to_set in *; intuition congruence.
Qed.

(** ** Properties *)

(** C8. What a check allows, its gate offers: for every gate, arguments and
    workspace, a tool the gate does not offer is refused, and not in a way an
    approval could override; a call is allowed only of a tool that is neither
    denied nor in need of approval and that the policy leaves open, the MCP
    plane governs or the allow-list holds; and only a tool that needs approval
    and is not denied is refused overridably. *)
Theorem check_only_offered `{ToolkitLaws} g t args w :
  let d := snd (check g t args w) in
  (offers g t = false → allowed d = false ∧ overridable d = false) ∧
  (allowed d = true → enabled g = true → t ∉ denied g ∧ t ∉ require_approval g ∧
     (open_policy g = true ∨ is_mcp t = true ∨ t ∈ permitted g)) ∧
  (overridable d = true → enabled g = true ∧ t ∈ require_approval g ∧ t ∉ denied g).
Proof.
  cbv zeta. destruct (check g t args w) as [g' d] eqn:Hc. cbn [snd].
  apply check_cases in Hc as [(d' & Hn & <- & _)|(Hn & Ho & _ & Ha)].
  - split_and!.
    + unfold offers. rewrite Hn. by intros [? ?]%orb_false_iff.
    + intros Hd He. revert Hn. unfold name_decision. rewrite He. simpl.
      repeat case_decide; intros; simplify_eq/=.
    + intros Hd. destruct (name_decision_overridable _ _ _ Hn Hd) as (? & ? & ?). done.
  - apply name_decision_None in Hn as Hn'. destruct Hn' as (He & Hd & Hr).
    assert (Hrole : allowed d = true → skips_role_check g t = true ∨ t ∈ permitted g).
    { intros Hd'. destruct (Ha Hd') as [|Hv]; [by left|]. right.
      destruct (decide (t ∈ permitted g)) as [|Hnot]; [done|]. by destruct (role_checked _ (blocked_patterns g) _ args Hnot). }
    split_and!; [| |intros; congruence].
    + unfold offers. rewrite Hn. intros [Hs Hp]%orb_false_iff. bool_to_prop. split; [|done].
      destruct (allowed d); [|done]. destruct Hrole; [done|congruence|done].
    + intros Hd' _. split_and!; [done..|]. destruct (Hrole Hd') as [Hs|]; [|by auto].
      unfold skips_role_check in Hs. apply orb_true_iff in Hs as [|]; auto.
Qed.

Lemma check_only_offered_witness :
  let d := snd (check sample_gate "terminal" (VDict [("workdir", VStr "src")]) (Some "/work")) in
  (offers sample_gate "terminal" = false → allowed d = false ∧ overridable d = false) ∧
  (allowed d = true → enabled sample_gate = true →
     "terminal" ∉ denied sample_gate ∧ "terminal" ∉ require_approval sample_gate ∧
     (open_policy sample_gate = true ∨ is_mcp "terminal" = true ∨ "terminal" ∈ permitted sample_gate)) ∧
  (overridable d = true → enabled sample_gate = true ∧ "terminal" ∈ require_approval sample_gate ∧
     "terminal" ∉ denied sample_gate).
Proof.
  exact (check_only_offered (H0 := sample_laws) sample_gate "terminal" (VDict [("workdir", VStr "src")]) (Some "/work")).
Defined.

(** Checking calls never changes the policy: whatever is checked, the gate
    afterwards decides every tool's name as before, offers the same tools, has
    the same egress, and its allow-list holds the same tools but for names of
    the MCP plane, which it does not govern; a frozen gate's permissions are
    untouched. *)
Theorem check_keeps_policy `{Toolkit} g t args w (Hok : gate_ok g) :
  let g' := fst (check g t args w) in
  same_policy g g' ∧ gate_ok g' ∧ (frozen g = true → permissions g' = permissions g).
Proof.
  cbv zeta. split; [by apply check_same_policy|]. destruct (check g t args w) as [g' d] eqn:Hc. cbn [fst].
  apply check_cases in Hc as [(? & _ & _ & ->)|(_ & _ & [->|[[w' ->]|(Hskip & g0 & Hg0 & ->)]] & _)]; [done..|].
  assert (Heq : gate_ok g0 ∧ permissions g0 = permissions g ∧ frozen g0 = frozen g)
    by (destruct Hg0 as [->|[? ->]]; done).
  destruct Heq as (Hok0 & Hp & Hf). unfold check_arguments. rewrite Hf. by destruct (frozen g).
Qed.

Lemma check_keeps_policy_witness :
  let g' := fst (check sample_gate "mcp__jira__create" (VDict []) None) in
  same_policy sample_gate g' ∧ gate_ok g' ∧ (frozen sample_gate = true → permissions g' = permissions sample_gate).
Proof. apply (check_keeps_policy sample_gate "mcp__jira__create" (VDict []) None). reflexivity. Defined.



(** Where a profile widens: a tool it puts behind an approval is offered though
    the base's allow-list does not hold it, and a rule of its own opens a domain
    that the base, with a default that denies, closes. *)
Lemma approval_offers_more :
  let p := mk_profile [] [] None ["execute_code"] in
  offers sample_gate "execute_code" = false ∧ offers (with_profile sample_gate p) "execute_code" = true.
Proof. by vm_compute. Qed.
Lemma profile_opens_domain :
  let open := mk_profile_rule (Some (VStr "example.com")) None None (Some (VStr "allow")) in
  compose_egress (Some (mk_egress "deny" [])) (Some (None, [open]))
  = Some (mk_egress "deny" [mk_rule (VStr "example.com") (VList [VInt 443]) (VStr "tcp") (VStr "allow")]).
Proof. by vm_compute. Qed.

(** A frozen gate's own argument check finds control characters and nothing
    else: its search for a parent reference runs on a path already made
    absolute and normal, in which none is left, so it never refuses a
    traversal. *)
Theorem frozen_arguments_control_characters_only `{ToolkitLaws} t args :
  check_arguments_direct t args
  = if bad_path t args then Some "Path contains control characters" else None.
Proof.
  unfold check_arguments_direct, bad_path. case_decide as Ht; [rewrite bool_decide_eq_true_2 by done|by rewrite bool_decide_eq_false_2].
  destruct (py_get args "path" (VStr "")) as [| | |path| |]; try done. simpl. destruct (_ || _); [done|].
  rewrite bool_decide_eq_false_2; [done|]. apply normpath_no_dotdot, isabs_abspath, cwd_absolute.
Qed.

Lemma frozen_arguments_witness :
  check_arguments_direct "read_file" (VDict [("path", VStr "../../etc/passwd")])
  = if bad_path "read_file" (VDict [("path", VStr "../../etc/passwd")])
    then Some "Path contains control characters" else None.
Proof.
  exact (frozen_arguments_control_characters_only (H0 := sample_laws) "read_file"
           (VDict [("path", VStr "../../etc/passwd")])).
Defined.
