(* ===== verification/RuntimeGovernance.v ===== *)
(** * The agent's governance profile (runtime/governance.py)

    An agent's raw governance blob turned into the profile its gate is narrowed
    by, the tools no policy may take away, and the gate of a wake. *)

From S2P Require Import Prelude.
From S2P Require Import PyStr.
From S2P Require Import Governance.
From stdpp Require Import options.

Definition FLOOR_GATE : Gate := new_gate None None true None None.

Definition WORKER_SELF_TOOLS : gset string := {["worker_block"; "worker_complete"; "worker_context"]}.
Definition BOARD_SELF_TOOLS : gset string := {["share_note"; "read_board"; "expand_note"]}.
Definition TASK_LIFECYCLE_TOOLS : gset string := {["unblock_task"; "cancel_task"]}.
Definition PROJECT_THREAD_TOOLS : gset string :=
  {["start_thread"; "message_thread"; "stop_thread"; "list_threads"; "read_thread"; "resolve_thread";
    "propose_threads"]}.
Definition CASE_STEP_TOOLS : gset string := {["complete_step"; "raise_hand"]}.
Definition CASE_ITEM_TOOLS : gset string := {["complete_item"; "return_item"]}.

Definition PROTECTED_TOOLS : gset string :=
  WORKER_SELF_TOOLS ∪ BOARD_SELF_TOOLS ∪ TASK_LIFECYCLE_TOOLS ∪ PROJECT_THREAD_TOOLS
  ∪ CASE_STEP_TOOLS ∪ CASE_ITEM_TOOLS.

Definition VOICE_TOOLS : gset string := {["end_call"]}.
Definition CHANNEL_TOOLS : gset string := VOICE_TOOLS.

Definition RENAMED_TOOLS : list (string * string) :=
  [("checkin_escalate", "escalate");
   ("care_team_overview", "team_overview");
   ("care_team_message_patient", "team_message_person");
   ("care_team_update_patient", "team_update_person");
   ("care_team_enroll_patient", "team_enroll_person");
   ("checkin_outcome", "step_outcome")].

(** [_tool_names]: the non-empty names of a list, a renamed one's new name too;
    nothing of a value that is no list. *)
Definition tool_names (governance : pyval) (key : string) : gset string :=
  match py_get governance key VNone with
  | VList value =>
    let names : gset string :=
      list_to_set (omap (λ t, match t with
                              | VStr s => let w := strip s in if str_truthy w then Some w else None
                              | _ => None
                              end) value) in
    names ∪ list_to_set (omap (λ p : string * string, if decide (p.1 ∈ names) then Some p.2 else None) RENAMED_TOOLS)
  | _ => ∅
  end.

(** A rule of the blob, of those that are dicts. *)
Definition profile_rule (r : pyval) : option ProfileRule :=
  match r with
  | VDict kvs => Some (mk_profile_rule (assoc "domain" kvs) (assoc "ports" kvs) (assoc "protocol" kvs) (assoc "action" kvs))
  | _ => None
  end.

(** The egress part of the profile, where the blob restricts egress; its rules
    are a list, or absent. *)
Definition egress_profile (governance : pyval) : option (option string * list ProfileRule) :=
  match py_get governance "egress" VNone with
  | VDict kvs =>
    let rules := match py_get (VDict kvs) "rules" VNone with VList l => omap profile_rule l | _ => [] end in
    let default_action := py_get (VDict kvs) "default_action" VNone in
    let deny := match default_action with VStr a => String.eqb a "deny" | _ => false end in
    if negb (bool_decide (rules = [])) || deny then
      Some (Some (match default_action with
                  | VStr a => if String.eqb a "allow" then "allow" else "deny"
                  | _ => "deny"
                  end), rules)
    else None
  | _ => None
  end.

(** [governance_profile]; a name set is the profile's sorted list of it. *)
Definition governance_profile (governance : pyval) : option Profile :=
  match governance with
  | VDict (_ :: _) =>
    if truthy (py_get governance "enabled" (VBool true)) then
      let allowed := tool_names governance "allowed_tools" in
      let denied := tool_names governance "denied_tools" in
      let approval := tool_names governance "require_approval" in
      let p := mk_profile
        (if decide (allowed = ∅) then [] else elements (allowed ∪ PROTECTED_TOOLS ∪ CHANNEL_TOOLS))
        (elements (denied ∖ PROTECTED_TOOLS))
        (egress_profile governance)
        (elements approval) in
      if bool_decide (profile_allowed p = []) && bool_decide (profile_denied p = []) &&
         bool_decide (profile_approval p = []) && bool_decide (¬ is_Some (profile_egress p))
      then None else Some p
    else None
  | _ => None
  end.

(** [build_governance_gate] *)
Definition build_governance_gate (governance : pyval) : Gate :=
  match governance_profile governance with
  | None => FLOOR_GATE
  | Some p => with_profile FLOOR_GATE p
  end.

(** [rename_tool_calls], on the names of the calls. *)
Definition rename_tool_calls (names : list string) : list string :=
  (λ n, default n (dict_get n RENAMED_TOOLS)) <$> names.

(** An agent with an allow-list, a protected tool denied and an approval asked. *)
Definition sample_blob : pyval :=
  VDict [("allowed_tools", VList [VStr " read_file "; VInt 3]);
         ("denied_tools", VList [VStr "worker_block"; VStr "checkin_escalate"]);
         ("require_approval", VList [VStr "send_mail"])].

(** ** Lemmas *)

Lemma floor_ok : gate_ok FLOOR_GATE.
Proof. done. Qed.

Lemma profile_fields governance p :
  governance_profile governance = Some p →
  (∀ t, t ∈ profile_denied p ↔ t ∈ tool_names governance "denied_tools" ∧ t ∉ PROTECTED_TOOLS) ∧
  (tool_names governance "allowed_tools" = ∅ → profile_allowed p = []) ∧
  (tool_names governance "allowed_tools" ≠ ∅ → profile_allowed p ≠ [] ∧
     ∀ t, t ∈ profile_allowed p ↔
       t ∈ tool_names governance "allowed_tools" ∪ PROTECTED_TOOLS ∪ CHANNEL_TOOLS) ∧
  profile_approval p = elements (tool_names governance "require_approval").
Proof.
  unfold governance_profile. destruct governance as [| | | | |[|kv kvs]]; try done.
  destruct (truthy _); [|done]. destruct (_ && _); [done|]. intros [= <-]. cbn [profile_denied profile_allowed profile_approval].
  split_and!.
  - intros t. rewrite elem_of_elements, elem_of_difference. done.
  - intros ->. by rewrite decide_True.
  - intros Hne. rewrite decide_False by done. split; [|intros t; by rewrite elem_of_elements].
    intros Hnil. apply elements_empty_inv in Hnil. apply Hne. apply leibniz_equiv. set_solver.
  - done.
Qed.

(** When a gate narrowed from the floor offers a tool. *)
Lemma floor_offers p t :
  let c := with_profile FLOOR_GATE p in
  offers c t = true ↔ t ∉ profile_denied p ∧
    (t ∈ stripped_names (profile_approval p) ∨ is_mcp t = true ∨ profile_allowed p = [] ∨ t ∈ profile_allowed p).
Proof.
  cbv zeta. destruct (with_profile_fields FLOOR_GATE p) as (Hd & Hr & He & _ & _ & Hop & Hperm).
  set (c := with_profile FLOOR_GATE p) in *. clearbody c.
  change (denied FLOOR_GATE) with (∅ : gset string) in Hd. change (require_approval FLOOR_GATE) with (∅ : gset string) in Hr.
  change (negb (has_allow_list FLOOR_GATE)) with true in Hop. change (has_allow_list FLOOR_GATE) with false in Hperm.
  rewrite (left_id_L ∅ (∪)) in Hd, Hr. unfold offers, name_decision. rewrite He. simpl.
  rewrite Hd, Hr in *. case_decide as Hden.
  { apply elem_of_list_to_set in Hden. simpl. naive_solver. }
  rewrite elem_of_list_to_set in Hden. case_decide as Happ; [simpl; naive_solver|].
  unfold skips_role_check, is_mcp. rewrite Hop. simpl in *. destruct (startswith t "mcp__").
  { rewrite orb_true_r. naive_solver. }
  rewrite orb_false_r. case_bool_decide as Hall; simpl; [naive_solver|].
  rewrite bool_decide_eq_true, Hperm; [naive_solver|by rewrite elem_of_list_to_set|done].
Qed.

(** ** Properties *)

(** No agent policy can take a protected tool away: whatever an agent's
    governance blob holds, its gate offers every tool a session reports its own
    state by or a stuck one is unstuck by. *)
Theorem protected_always_offered governance :
  set_Forall (λ t, offers (build_governance_gate governance) t = true) PROTECTED_TOOLS.
Proof.
  intros t Ht. unfold build_governance_gate. destruct (governance_profile governance) as [p|] eqn:Hp; [|done].
  apply floor_offers. apply profile_fields in Hp as (Hd & Hno & Hal & _). split; [rewrite Hd; by intros [_ ?]|].
  right. right. destruct (decide (tool_names governance "allowed_tools" = ∅)) as [He|He]; [auto|].
  right. apply Hal; [done|]. by apply elem_of_union_l, elem_of_union_r.
Qed.

(** What an agent's blob restricts, its gate enforces: for a blob that is
    switched on, a tool it denies is never offered unless it is protected; and
    where it has an allow-list, a tool outside it that is neither protected, a
    channel's, of the MCP plane nor put behind an approval by the blob is never
    offered. *)
Theorem blob_enforced governance p t (Hp : governance_profile governance = Some p) :
  let g := build_governance_gate governance in
  (t ∈ tool_names governance "denied_tools" → t ∉ PROTECTED_TOOLS → offers g t = false) ∧
  (tool_names governance "allowed_tools" ≠ ∅ →
   t ∉ tool_names governance "allowed_tools" ∪ PROTECTED_TOOLS ∪ CHANNEL_TOOLS → is_mcp t = false →
   t ∉ stripped_names (elements (tool_names governance "require_approval")) → offers g t = false).
Proof.
  cbv zeta. unfold build_governance_gate. rewrite Hp. apply profile_fields in Hp as (Hd & _ & Hal & Happ).
  split.
  - intros Ht Hn. apply not_true_iff_false. rewrite floor_offers, Hd. intros [Hx _]. by apply Hx.
  - intros Hne Ht Hm Hna. apply not_true_iff_false. rewrite floor_offers, Happ.
    destruct (Hal Hne) as [Hnil Hin]. rewrite Hin.
    intros [_ [?|[?|[?|?]]]]; [by apply Hna|congruence|by apply Hnil|by apply Ht].
Qed.

Lemma blob_enforced_witness :
  let g := build_governance_gate sample_blob in
  ("escalate" ∈ tool_names sample_blob "denied_tools" → "escalate" ∉ PROTECTED_TOOLS → offers g "escalate" = false) ∧
  (tool_names sample_blob "allowed_tools" ≠ ∅ →
   "escalate" ∉ tool_names sample_blob "allowed_tools" ∪ PROTECTED_TOOLS ∪ CHANNEL_TOOLS → is_mcp "escalate" = false →
   "escalate" ∉ stripped_names (elements (tool_names sample_blob "require_approval")) → offers g "escalate" = false).
Proof. eapply (blob_enforced sample_blob); vm_compute; reflexivity. Defined.
