(* ===== verification/TurnGate.v ===== *)
(** * The per-tenant turn gate (runtime/turn_gate.py)

    A set of turn holders per tenant in Redis, capped.  Taking a slot is a
    transaction (add and count) and, over the cap, a removal after it: the
    calls of different turns interleave between the two.

    [SlotGate] is what the gate promises a turn that holds one of its slots
    (runtime/turn_slots.py): the turn's theorems use that interface alone, and
    [turn_gate_slots] discharges it. *)

From S2P Require Import Prelude.
From S2P Require Import PyStr.
From stdpp Require Import options.

(** ** Redis sets *)

Notation redis := (gmap string (gset string)).

Definition smembers (r : redis) (key : string) : gset string := default ∅ (r !! key).

(** [SADD key holder; SCARD key], one transaction: whether it was added, and the
    count after. *)
Definition sadd_scard (r : redis) (key holder : string) : redis * (bool * Z) :=
  let s := smembers r key in
  let s' := {[holder]} ∪ s in
  (<[key := s']> r, (bool_decide (holder ∉ s), Z.of_nat (size s'))).

(** [SREM key holders]: how many it removed. *)
Definition srem (r : redis) (key : string) (holders : gset string) : redis * Z :=
  let s := smembers r key in
  (<[key := s ∖ holders]> r, Z.of_nat (size (s ∩ holders))).

(** [sys.maxsize], the cap a turn takes its slot back under. *)
Definition maxsize : Z := 9223372036854775807.

(** ** The gate *)

Definition holders_key (org_id agent_id : string) : string :=
  "surogates:turn_holders:" +:+ org_id +:+ ":" +:+ agent_id.

(** The transaction of [try_acquire]: the answer, or the removal it still owes. *)
Inductive acquire_step := Answered (ok : bool) | Over.

Definition acquire_add (default_max : Z) (r : redis) (key holder : string) (limit : option Z)
    : redis * acquire_step :=
  let cap := default default_max limit in
  if (cap <=? 0)%Z then (r, Answered false)
  else
    let '(r, (added, count)) := sadd_scard r key holder in
    (r, if added && (cap <? count)%Z then Over else Answered true).

(** [try_acquire], with nothing in between. *)
Definition try_acquire (default_max : Z) (r : redis) (key holder : string) (limit : option Z) : redis * bool :=
  match acquire_add default_max r key holder limit with
  | (r, Answered ok) => (r, ok)
  | (r, Over) => (fst (srem r key {[holder]}), false)
  end.

Definition release (r : redis) (key holder : string) : redis * bool :=
  let '(r, n) := srem r key {[holder]} in (r, negb (n =? 0)%Z).

(** The holders of a session, [session_id:*]. *)
Definition session_holders (s : gset string) (session_id : string) : gset string :=
  filter (λ h, startswith h (session_id +:+ ":") = true) s.

(** [release_session]: the scan visits every member that stays in the set. *)
Definition release_session (r : redis) (key session_id : string) : redis * Z :=
  srem r key (session_holders (smembers r key) session_id).

(** [acquire] around a body of effect [body] on the store. *)
Definition with_slot (default_max : Z) (r : redis) (key holder : string) (limit : option Z) (body : redis → redis)
    : redis * bool :=
  match try_acquire default_max r key holder limit with
  | (r, true) => (fst (release (body r) key holder), true)
  | (r, false) => (r, false)
  end.

(** ** Interleaving

    The turns of one tenant, whose cap is [cap]: those whose acquire answered
    yes and are not released, those of them that took their slot back after
    giving it up ([TurnSlots._take_back], under no cap but [sys.maxsize]), and
    those over their cap whose removal is yet to come.  A turn makes one call at
    a time, and recovery releases no session whose acquire is in flight.  Nothing
    is asked of a take-back: a turn that waited, or one whose release timed out
    and whose slot is still counted, may make it. *)
Record gate_state := mk_gate_state {
  kv : redis; granted : gset string; taken_back : gset string; rolling : gset string
}.

Inductive gate_step (cap : Z) (key : string) (s : gate_state) : gate_state → Prop :=
| gate_grant h r :
    h ∉ rolling s → acquire_add cap (kv s) key h None = (r, Answered true) →
    gate_step cap key s (mk_gate_state r ({[h]} ∪ granted s) (taken_back s) (rolling s))
| gate_refuse h r :
    acquire_add cap (kv s) key h None = (r, Answered false) →
    gate_step cap key s (mk_gate_state r (granted s) (taken_back s) (rolling s))
| gate_over h r :
    h ∉ rolling s → acquire_add cap (kv s) key h None = (r, Over) →
    gate_step cap key s (mk_gate_state r (granted s) (taken_back s) ({[h]} ∪ rolling s))
| gate_take_back h r :
    h ∉ rolling s → acquire_add cap (kv s) key h (Some maxsize) = (r, Answered true) →
    gate_step cap key s (mk_gate_state r ({[h]} ∪ granted s) ({[h]} ∪ taken_back s) (rolling s))
| gate_take_back_over h r :
    h ∉ rolling s → acquire_add cap (kv s) key h (Some maxsize) = (r, Over) →
    gate_step cap key s (mk_gate_state r (granted s) (taken_back s) ({[h]} ∪ rolling s))
| gate_rollback h :
    h ∈ rolling s →
    gate_step cap key s (mk_gate_state (fst (srem (kv s) key {[h]})) (granted s) (taken_back s) (rolling s ∖ {[h]}))
| gate_release h :
    h ∉ rolling s →
    gate_step cap key s (mk_gate_state (fst (release (kv s) key h)) (granted s ∖ {[h]}) (taken_back s ∖ {[h]}) (rolling s))
| gate_release_session session :
    set_Forall (λ h, startswith h (session +:+ ":") = false) (rolling s) →
    let gone := session_holders (smembers (kv s) key) session in
    gate_step cap key s (mk_gate_state (fst (release_session (kv s) key session))
      (granted s ∖ gone) (taken_back s ∖ gone) (rolling s)).

(** The tenant's set is the turns granted and those being rolled back; but for
    those that took their slot back, the turns granted keep to the cap. *)
Definition gate_inv (cap : Z) (key : string) (s : gate_state) : Prop :=
  smembers (kv s) key = granted s ∪ rolling s ∧ granted s ## rolling s ∧
  taken_back s ⊆ granted s ∧
  (Z.of_nat (size (granted s ∖ taken_back s)) <= Z.max 0 cap)%Z.

(** ** The interface of a slot *)

(** A gate as one turn sees it: who holds a slot, whether it can count one more,
    taking one whatever the tenant's cap, and giving one back. *)
Class SlotGate (G : Type) := {
  holds : G → string → Prop;
  room : G → Prop;
  slot_acquire : G → string → G * bool;
  slot_release : G → string → G
}.

Class SlotGateLaws (G : Type) `{SlotGate G} : Prop := {
  slot_acquired : ∀ g h, room g → snd (slot_acquire g h) = true ∧ holds (fst (slot_acquire g h)) h;
  slot_acquired_others : ∀ g h h', h' ≠ h → holds (fst (slot_acquire g h)) h' ↔ holds g h';
  slot_released : ∀ g h, ¬ holds (slot_release g h) h;
  slot_released_others : ∀ g h h', h' ≠ h → holds (slot_release g h) h' ↔ holds g h'
}.

Record tenant := mk_tenant { store : redis; tenant_key : string }.

#[global] Instance turn_gate_slots : SlotGate tenant := {|
  holds t h := h ∈ smembers (store t) (tenant_key t);
  room t := (Z.of_nat (size (smembers (store t) (tenant_key t))) < maxsize)%Z;
  slot_acquire t h :=
    let '(r, ok) := try_acquire 10 (store t) (tenant_key t) h (Some maxsize) in
    (mk_tenant r (tenant_key t), ok);
  slot_release t h := mk_tenant (fst (release (store t) (tenant_key t) h)) (tenant_key t)
|}.

#[global] Arguments smembers : simpl never.
#[global] Arguments acquire_add : simpl never.
#[global] Arguments try_acquire : simpl never.

(** ** Lemmas *)

Lemma smembers_insert r key s : smembers (<[key := s]> r) key = s.
Proof. unfold smembers. by rewrite lookup_insert_eq. Qed.

Lemma acquire_add_cases dm r key h limit :
  let cap := default dm limit in
  let s := smembers r key in
  acquire_add dm r key h limit =
    if (cap <=? 0)%Z then (r, Answered false)
    else (<[key := {[h]} ∪ s]> r,
          if bool_decide (h ∉ s) && (cap <? Z.of_nat (size ({[h]} ∪ s)))%Z then Over else Answered true).
Proof. unfold acquire_add. by destruct (_ <=? 0)%Z. Qed.

Lemma size_add (h : string) (s : gset string) :
  size ({[h]} ∪ s) = if decide (h ∈ s) then size s else S (size s).
Proof.
  case_decide as Hh.
  - f_equal. apply leibniz_equiv. set_solver.
  - rewrite size_union by set_solver. by rewrite size_singleton.
Qed.

#[global] Instance turn_gate_slot_laws : SlotGateLaws tenant.
Proof.
  assert (Hacq : ∀ t h, let r := fst (slot_acquire t h) in
    (room t → snd (slot_acquire t h) = true ∧ smembers (store r) (tenant_key r) = {[h]} ∪ smembers (store t) (tenant_key t)) ∧
    (∀ h', h' ≠ h → holds r h' ↔ holds t h')).
  { intros t h. cbn. unfold try_acquire. rewrite acquire_add_cases. cbn.
    rewrite size_add. destruct (bool_decide (h ∉ smembers (store t) (tenant_key t))) eqn:Hnew; bool_to_prop; cbn.
    - rewrite decide_False by done. destruct (maxsize <? _)%Z eqn:Hcap; bool_to_prop; cbn.
      + split; [lia|]. intros h' Hne. rewrite !smembers_insert. set_solver.
      + rewrite !smembers_insert. split; [done|]. intros h' Hne. set_solver.
    - rewrite !smembers_insert. split; [done|]. intros h' Hne. set_solver. }
  split.
  - intros t h Hroom. destruct (Hacq t h) as [H _]. destruct (H Hroom) as [Hok Hm]. split; [done|].
    cbn [holds turn_gate_slots]. unfold holds. rewrite Hm. set_solver.
  - intros t h h' Hne. destruct (Hacq t h) as [_ H]. by apply H.
  - intros t h. cbn. rewrite !smembers_insert. set_solver.
  - intros t h h' Hne. cbn. rewrite !smembers_insert. set_solver.
Qed.

Lemma size_sub (A B : gset string) (n : Z) : A ⊆ B → (Z.of_nat (size B) <= n)%Z → (Z.of_nat (size A) <= n)%Z.
Proof. intros H ?. apply subseteq_size in H. lia. Qed.

(** A turn let in under the cap is one of at most [cap] in the set. *)
Lemma admitted_within dm r key h r' :
  acquire_add dm r key h None = (r', Answered true) →
  smembers r' key = {[h]} ∪ smembers r key ∧
  (h ∈ smembers r key ∨ (Z.of_nat (size (smembers r' key)) <= dm)%Z).
Proof.
  rewrite acquire_add_cases. cbn. destruct (dm <=? 0)%Z; [done|].
  destruct (bool_decide (h ∉ smembers r key)) eqn:Hnew; cbn; bool_to_prop.
  - destruct (dm <? _)%Z eqn:Hover; [done|]. bool_to_prop. intros [= <-]. rewrite smembers_insert. split; [done|]. right. lia.
  - intros [= <-]. rewrite smembers_insert. split; [done|]. left. by destruct (decide (h ∈ smembers r key)).
Qed.

Lemma answered_true_set dm r key h limit r' :
  acquire_add dm r key h limit = (r', Answered true) → smembers r' key = {[h]} ∪ smembers r key.
Proof.
  rewrite acquire_add_cases. cbn. destruct (default dm limit <=? 0)%Z; [done|].
  destruct (_ && _); [done|]. intros [= <-]. apply smembers_insert.
Qed.

Lemma answered_false_set dm r key h limit r' : acquire_add dm r key h limit = (r', Answered false) → r' = r.
Proof.
  rewrite acquire_add_cases. cbn. destruct (default dm limit <=? 0)%Z; [by intros [= <-]|]. by destruct (_ && _).
Qed.

Lemma over_set dm r key h limit r' :
  acquire_add dm r key h limit = (r', Over) → smembers r' key = {[h]} ∪ smembers r key ∧ h ∉ smembers r key.
Proof.
  rewrite acquire_add_cases. cbn. destruct (default dm limit <=? 0)%Z; [done|].
  destruct (bool_decide (h ∉ smembers r key)) eqn:Hnew; cbn; bool_to_prop; [|done].
  destruct (_ <? _)%Z; [|done]. intros [= <-]. by rewrite smembers_insert.
Qed.

Lemma gate_step_inv cap key s s' : gate_step cap key s s' → gate_inv cap key s → gate_inv cap key s'.
Proof.
  intros Hstep (Hm & Hdisj & Hsub & Hsize). unfold gate_inv. destruct Hstep as
    [h r Hroll Hadd|h r Hadd|h r Hroll Hadd|h r Hroll Hadd|h r Hroll Hadd|h Hroll|h Hroll|session Hroll gone]; simpl.
  - apply admitted_within in Hadd as [-> Hcap]. rewrite Hm in *. split_and!; [set_solver..|].
    destruct Hcap as [Hin|Hcap].
    + eapply size_sub; [|exact Hsize]. set_solver.
    + eapply size_sub; [|etrans; [exact Hcap|lia]]. set_solver.
  - by apply answered_false_set in Hadd as ->.
  - apply over_set in Hadd as [-> Hnew]. rewrite Hm in *. split_and!; [set_solver..|done].
  - apply answered_true_set in Hadd as ->. rewrite Hm. split_and!; [set_solver..|].
    eapply size_sub; [|exact Hsize]. set_solver.
  - apply over_set in Hadd as [-> Hnew]. rewrite Hm in *. split_and!; [set_solver..|done].
  - rewrite smembers_insert, Hm. split_and!; [set_solver..|done].
  - rewrite smembers_insert, Hm. split_and!; [set_solver..|]. eapply size_sub; [|exact Hsize]. set_solver.
  - assert (Hgone : ∀ h, h ∈ gone → h ∉ rolling s).
    { unfold gone, session_holders. intros h [Hh _]%elem_of_filter Hr. apply Hroll in Hr. simpl in Hr. congruence. }
    rewrite smembers_insert. fold gone. rewrite Hm. split_and!; [|set_solver..|].
    + apply set_eq. intros h. specialize (Hgone h). set_solver.
    + eapply size_sub; [|exact Hsize]. set_solver.
Qed.

Lemma gate_reach_inv cap key s : rtc (gate_step cap key) (mk_gate_state ∅ ∅ ∅ ∅) s → gate_inv cap key s.
Proof.
  intros Hrun. eapply (rtc_ind_r (gate_inv cap key)); [|by intros; eapply gate_step_inv|exact Hrun].
  split_and!; [done|set_solver|done|]. vm_compute. by destruct cap.
Qed.

(** The cap governs new turns alone: under a cap of one, a turn that waited
    takes its slot back beside the turn let in meanwhile, and both hold one. *)
Lemma taken_back_past_cap :
  let s := mk_gate_state {["k" := {["a:1"]} ∪ ({[ "b:2" ]} ∪ (({["a:1"]} ∪ ∅) ∖ {["a:1"]}))]}
             ({["a:1"]} ∪ ({["b:2"]} ∪ (({["a:1"]} ∪ ∅) ∖ {["a:1"]}))) ({["a:1"]} ∪ (∅ ∖ {["a:1"]})) ∅ in
  rtc (gate_step 1 "k") (mk_gate_state ∅ ∅ ∅ ∅) s ∧ size (granted s) = 2.
Proof.
  intros s. split; [|by vm_compute].
  eapply rtc_l; [apply (gate_grant 1 "k" _ "a:1"); [set_solver|vm_compute; reflexivity]|].
  eapply rtc_l; [apply (gate_release 1 "k" _ "a:1"); set_solver|]. cbn [kv granted taken_back rolling].
  eapply rtc_l; [apply (gate_grant 1 "k" _ "b:2"); [set_solver|vm_compute; reflexivity]|]. cbn [kv granted taken_back rolling].
  eapply rtc_l; [apply (gate_take_back 1 "k" _ "a:1"); [set_solver|vm_compute; reflexivity]|]. cbn [kv granted taken_back rolling].
  apply rtc_refl.
Qed.

(** ** Properties *)

(** C10. However the calls of a tenant's turns interleave, between the add and
    the removal of an acquire too, and whatever turns that waited take their
    slots back past the cap: the turns holding a slot under the cap, those that
    took theirs back left out, are no more than the cap; a turn not yet counted
    is let in only where, with it, all that are counted, those taken back too,
    are within the cap; and the tenant's set holds exactly the turns with a slot
    and the ones still being taken back out, so that when none is in flight
    nothing is counted that holds no slot. *)
Theorem turn_gate_capped cap key s
    (Hrun : rtc (gate_step cap key) (mk_gate_state ∅ ∅ ∅ ∅) s) :
  (Z.of_nat (size (granted s ∖ taken_back s)) <= Z.max 0 cap)%Z ∧
  (∀ h r, h ∉ smembers (kv s) key → acquire_add cap (kv s) key h None = (r, Answered true) →
    (Z.of_nat (size (smembers r key)) <= cap)%Z) ∧
  smembers (kv s) key = granted s ∪ rolling s.
Proof.
  destruct (gate_reach_inv cap key s Hrun) as (? & _ & _ & ?). split_and!; [done| |done].
  intros h r Hnew Hadd. by apply admitted_within in Hadd as [_ [Hin|Hcap]].
Qed.

Lemma turn_gate_capped_witness :
  let s := mk_gate_state {["k" := {["a:1"]}]} ({["a:1"]} ∪ ∅) ∅ ∅ in
  (Z.of_nat (size (granted s ∖ taken_back s)) <= Z.max 0 1)%Z ∧
  (∀ h r, h ∉ smembers (kv s) "k" → acquire_add 1 (kv s) "k" h None = (r, Answered true) →
    (Z.of_nat (size (smembers r "k")) <= 1)%Z) ∧
  smembers (kv s) "k" = granted s ∪ rolling s.
Proof.
  apply (turn_gate_capped 1 "k"). apply rtc_once.
  apply (gate_grant 1 "k" (mk_gate_state ∅ ∅ ∅ ∅) "a:1"); [set_solver|vm_compute; reflexivity].
Defined.
