(* ===== verification/TurnSlots.v ===== *)
(** * The capacity one turn holds (runtime/turn_slots.py)

    A turn's semaphore slot and tenant slot, given back while all of the turn
    waits and taken again before any of it goes on.

    The lock makes giving back and taking back atomic; the counters change
    outside it.  So one step of the model is one stretch of a task between two
    of its suspensions: a counter's change, or one section of the lock with
    however its calls ended.  A gate call ends done, or cancelled, or in an
    error, the last two with or without having reached the gate; a wait for the
    semaphore ends with a slot, or as the turn is interrupted or ended meanwhile,
    or cancelled.  A task may also be cancelled while it waits for the lock
    itself: its section is skipped.  The tenant gate is the interface
    [SlotGate]. *)

From S2P Require Import Prelude.
From S2P Require Import TurnGate.
From stdpp Require Import options.

Inductive gate_call := GateDone | GateCancelled (landed : bool) | GateError (landed : bool).
Inductive sem_call := SemAcquired | SemStopped (by_end : bool) | SemCancelled.

(** The turn's record. *)
Record Slots := mk_slots {
  uses_gate : bool;
  gate_held : bool;
  semaphore_held : bool;
  active : Z;
  waiting : Z;
  resumable : Z;
  ended : bool;
  detached : bool;
  stop_waiting : bool
}.

Definition set_gate_held (s : Slots) (b : bool) : Slots :=
  mk_slots (uses_gate s) b (semaphore_held s) (active s) (waiting s) (resumable s) (ended s) (detached s) (stop_waiting s).
Definition set_semaphore_held (s : Slots) (b : bool) : Slots :=
  mk_slots (uses_gate s) (gate_held s) b (active s) (waiting s) (resumable s) (ended s) (detached s) (stop_waiting s).
Definition add_active (s : Slots) (n : Z) : Slots :=
  mk_slots (uses_gate s) (gate_held s) (semaphore_held s) (active s + n) (waiting s) (resumable s) (ended s) (detached s) (stop_waiting s).
Definition add_waiting (s : Slots) (n : Z) (res : bool) : Slots :=
  mk_slots (uses_gate s) (gate_held s) (semaphore_held s) (active s) (waiting s + n)
    (if res then resumable s + n else resumable s) (ended s) (detached s) (stop_waiting s).
Definition set_ended (s : Slots) (e d st : bool) : Slots :=
  mk_slots (uses_gate s) (gate_held s) (semaphore_held s) (active s) (waiting s) (resumable s) e d st.

(** [TurnSlots(...)]: the dispatcher took the semaphore slot, and the tenant's
    where [gate_held]. *)
Definition new_slots (has_gate held : bool) : Slots :=
  mk_slots (has_gate && held) (has_gate && held) true 0 0 0 false false false.

(** [all_waiting], [waiting_resumably] *)
Definition all_waiting (s : Slots) : bool := (0 <? active s)%Z && (active s <=? waiting s)%Z.
Definition waiting_resumably (s : Slots) : bool := (0 <? active s)%Z && (active s <=? resumable s)%Z.

(** [detach], [interrupt], and the start of [release_owned]. *)
Definition detach (s : Slots) : Slots :=
  if detached s then s else set_ended s true true (stop_waiting s).
Definition interrupt (s : Slots) : Slots := set_ended s (ended s) (detached s) true.
Definition end_turn (s : Slots) : Slots := set_ended s true (detached s) true.

(** Where a task of the turn is: outside any activity; at work; at each
    suspension of [waiting], [joining] and [activity]; or unwinding a
    cancellation. *)
Inductive phase :=
| Idle | Working | Leaving
| WaitStart (res : bool) | Waiting (res : bool) | WaitOver
| JoinStart | Joining | JoinOver
| Unwinding.

#[global] Instance phase_eq_dec : EqDecision phase.
Proof. solve_decision. Defined.

(** A task cancelled while it waits for the lock: on its way out of [activity]
    it is gone and nothing is given back; at either end of [waiting] and of
    [joining] it unwinds, its counters restored by the [finally] blocks and
    nothing given back or taken back. *)
Definition cancelled_at_lock (p : phase) (s : Slots) : option (phase * Slots) :=
  match p with
  | Leaving => Some (Idle, s)
  | WaitStart res => Some (Unwinding, add_waiting s (-1) res)
  | JoinStart => Some (Unwinding, add_active s 1)
  | WaitOver | JoinOver => Some (Unwinding, s)
  | _ => None
  end.

Section slots.
Context {G : Type} `{SlotGateLaws G} (holder : string).

(** The semaphore's free slots and the tenant's gate. *)
Record World := mk_world { permits : Z; gate : G }.

(** [_give_back]: whether it raised, and whether a slot that was counted as
    given back was not. *)
Definition give_back (call : gate_call) (w : World) (s : Slots) : World * Slots * bool * bool :=
  let w := if semaphore_held s then mk_world (permits w + 1) (gate w) else w in
  let s := set_semaphore_held s false in
  if gate_held s then
    let released := mk_world (permits w) (slot_release (gate w) holder) in
    match call with
    | GateDone => (released, set_gate_held s false, false, false)
    | GateCancelled landed => (if landed then released else w, set_gate_held s false, true, negb landed)
    | GateError landed => (if landed then released else w, s, false, false)
    end
  else (w, s, false, false).

Definition give_back_if_all_waiting (call : gate_call) (w : World) (s : Slots) : World * Slots * bool * bool :=
  if all_waiting s then give_back call w s else (w, s, false, false).

(** [_acquire_semaphore] and its assignment. *)
Definition take_semaphore (sem : sem_call) (w : World) (s : Slots) : World * Slots * bool :=
  if semaphore_held s then (w, s, false)
  else if stop_waiting s then (w, s, false)
  else match sem with
       | SemAcquired => (mk_world (permits w - 1) (gate w), set_semaphore_held s true, false)
       | SemStopped by_end => (w, set_ended s by_end (detached s) true, false)
       | SemCancelled => (w, s, true)
       end.

(** [_take_back]: whether it raised. *)
Definition take_back (call : gate_call) (sem : sem_call) (w : World) (s : Slots) : World * Slots * bool :=
  if ended s then (w, s, false)
  else if uses_gate s && negb (gate_held s) then
    let '(g, ok) := slot_acquire (gate w) holder in
    let acquired := mk_world (permits w) g in
    match call with
    | GateDone => take_semaphore sem acquired (set_gate_held s ok)
    | GateCancelled landed => (if landed then acquired else w, set_gate_held s true, true)
    | GateError landed => take_semaphore sem (if landed then acquired else w) (set_gate_held s true)
    end
  else take_semaphore sem w s.

(** The turn, its tasks, the semaphore slots other turns hold, and whether a
    cancelled give-back left its slot behind. *)
Record System := mk_system {
  world : World; slots : Slots; tasks : list phase; others : Z; left_behind : bool
}.

Definition with_task (x : System) (i : nat) (p : phase) (r : World * Slots) : System :=
  mk_system (fst r) (snd r) (<[i := p]> (tasks x)) (others x) (left_behind x).

Definition forgets (x : System) (lost : bool) : System :=
  mk_system (world x) (slots x) (tasks x) (others x) (left_behind x || lost).

(** A semaphore slot is only taken where one is free. *)
Definition sem_free (sem : sem_call) (w : World) : Prop := sem = SemAcquired → (0 < permits w)%Z.

Inductive step (x : System) : System → Prop :=
| enter i call sem w s raised :
    tasks x !! i = Some Idle → sem_free sem (world x) → room (gate (world x)) →
    take_back call sem (world x) (slots x) = (w, s, raised) →
    step x (if raised then with_task x i Idle (w, s) else with_task x i Working (w, add_active s 1))
| leave i p :
    tasks x !! i = Some p → p = Working ∨ p = Unwinding →
    step x (with_task x i Leaving (world x, add_active (slots x) (-1)))
| left_ i call w s raised lost :
    tasks x !! i = Some Leaving → give_back_if_all_waiting call (world x) (slots x) = (w, s, raised, lost) →
    step x (forgets (with_task x i Idle (w, s)) lost)
| wait i res :
    tasks x !! i = Some Working →
    step x (with_task x i (WaitStart res) (world x, add_waiting (slots x) 1 res))
| wait_in i res call w s raised lost :
    tasks x !! i = Some (WaitStart res) →
    give_back_if_all_waiting call (world x) (slots x) = (w, s, raised, lost) →
    step x (forgets (if raised then with_task x i Unwinding (w, add_waiting s (-1) res)
                     else with_task x i (Waiting res) (w, s)) lost)
| wait_end i res (cancelled : bool) :
    tasks x !! i = Some (Waiting res) →
    step x (with_task x i (if cancelled then Unwinding else WaitOver) (world x, add_waiting (slots x) (-1) res))
| wait_out i call sem w s raised :
    tasks x !! i = Some WaitOver → sem_free sem (world x) → room (gate (world x)) →
    (if (waiting (slots x) <? active (slots x))%Z then take_back call sem (world x) (slots x)
     else (world x, slots x, false)) = (w, s, raised) →
    step x (with_task x i (if raised then Unwinding else Working) (w, s))
| join i :
    tasks x !! i = Some Working → step x (with_task x i JoinStart (world x, add_active (slots x) (-1)))
| join_in i call w s raised lost :
    tasks x !! i = Some JoinStart → give_back_if_all_waiting call (world x) (slots x) = (w, s, raised, lost) →
    step x (forgets (if raised then with_task x i Unwinding (w, add_active s 1)
                     else with_task x i Joining (w, s)) lost)
| join_end i (cancelled : bool) :
    tasks x !! i = Some Joining →
    step x (with_task x i (if cancelled then Unwinding else JoinOver) (world x, add_active (slots x) 1))
| join_out i call sem w s raised :
    tasks x !! i = Some JoinOver → sem_free sem (world x) → room (gate (world x)) →
    take_back call sem (world x) (slots x) = (w, s, raised) →
    step x (with_task x i (if raised then Unwinding else Working) (w, s))
| do_end : step x (mk_system (world x) (end_turn (slots x)) (tasks x) (others x) (left_behind x))
| do_detach : step x (mk_system (world x) (detach (slots x)) (tasks x) (others x) (left_behind x))
| do_interrupt : step x (mk_system (world x) (interrupt (slots x)) (tasks x) (others x) (left_behind x))
| release_owned call w s raised lost :
    ended (slots x) = true → give_back call (world x) (slots x) = (w, s, raised, lost) →
    step x (mk_system w s (tasks x) (others x) (left_behind x || lost))
| other_takes :
    (0 < permits (world x))%Z →
    step x (mk_system (mk_world (permits (world x) - 1) (gate (world x))) (slots x) (tasks x) (others x + 1) (left_behind x))
| other_gives :
    (0 < others x)%Z →
    step x (mk_system (mk_world (permits (world x) + 1) (gate (world x))) (slots x) (tasks x) (others x - 1) (left_behind x))
| gate_moves g :
    (holds g holder ↔ holds (gate (world x)) holder) →
    step x (mk_system (mk_world (permits (world x)) g) (slots x) (tasks x) (others x) (left_behind x))
| lock_cancelled i p p' s :
    tasks x !! i = Some p → cancelled_at_lock p (slots x) = Some (p', s) →
    step x (with_task x i p' (world x, s)).

(** A turn just dispatched, of [n] tasks, on a worker of [free] free slots. *)
Definition dispatched (has_gate held : bool) (g : G) (free other : Z) (n : nat) : System :=
  mk_system (mk_world free g) (new_slots has_gate held) (replicate n Idle) other false.

(** ** What holds of a turn *)

Definition counted (p : phase) : bool :=
  match p with Working | WaitStart _ | Waiting _ | WaitOver | JoinOver | Unwinding => true | _ => false end.
Definition waits (p : phase) : bool := match p with WaitStart _ | Waiting _ => true | _ => false end.
Definition waits_resumably (p : phase) : bool := match p with WaitStart r | Waiting r => r | _ => false end.
Definition count (q : phase → bool) (l : list phase) : Z := Z.of_nat (length (List.filter q l)).

Definition b2z (b : bool) : Z := if b then 1 else 0.

Definition slots_inv (total : Z) (x : System) : Prop :=
  active (slots x) = count counted (tasks x) ∧ waiting (slots x) = count waits (tasks x) ∧
  resumable (slots x) = count waits_resumably (tasks x) ∧
  (permits (world x) + b2z (semaphore_held (slots x)) + others x = total)%Z ∧
  (0 <= permits (world x))%Z ∧
  (Working ∈ tasks x → ended (slots x) = false →
     (semaphore_held (slots x) = true ∨ stop_waiting (slots x) = true) ∧
     (uses_gate (slots x) = true → gate_held (slots x) = true)) ∧
  (gate_held (slots x) = true → uses_gate (slots x) = true) ∧
  (left_behind x = false → uses_gate (slots x) = true → gate_held (slots x) = false →
     ¬ holds (gate (world x)) holder).

(** ** Lemmas *)

Lemma count_insert q l i p p' :
  l !! i = Some p → count q (<[i := p']> l) = (count q l - b2z (q p) + b2z (q p'))%Z.
Proof.
  unfold count. revert i. induction l as [|x l IH]; intros [|i] Hi; simplify_eq/=.
  - destruct (q p), (q p'); simpl; unfold b2z; lia.
  - specialize (IH i Hi). destruct (q x); simpl; lia.
Qed.

Lemma count_le q q' l : (∀ p, q p = true → q' p = true) → (count q l <= count q' l)%Z.
Proof.
  intros Hq. unfold count. induction l as [|x l IH]; simpl; [done|].
  destruct (q x) eqn:Hx; [rewrite (Hq _ Hx)|destruct (q' x)]; simpl; lia.
Qed.

Lemma count_lt q q' l p :
  (∀ p, q p = true → q' p = true) → p ∈ l → q p = false → q' p = true → (count q l < count q' l)%Z.
Proof.
  intros Hq [i Hi]%list_elem_of_lookup H1 H2. revert i Hi. induction l as [|x l IH]; intros [|i] Hi; simplify_eq/=.
  - pose proof (count_le q q' l Hq). unfold count in *. simpl. rewrite H1, H2. simpl. lia.
  - specialize (IH i Hi). unfold count in *. simpl.
    destruct (q x) eqn:Hx; [rewrite (Hq _ Hx)|destruct (q' x)]; simpl; lia.
Qed.

(** Nothing is given back while a task is at work. *)
Lemma working_not_all_waiting total x : slots_inv total x → Working ∈ tasks x → all_waiting (slots x) = false.
Proof.
  intros (Ha & Hw & _) Hin. unfold all_waiting. rewrite Ha, Hw.
  assert (count waits (tasks x) < count counted (tasks x))%Z
    by (eapply (count_lt _ _ _ Working); [|done..]; by intros []).
  apply andb_false_iff. right. apply Z.leb_gt. lia.
Qed.

(** What a section of the lock leaves alone. *)
Definition same_counters (s s' : Slots) : Prop :=
  uses_gate s' = uses_gate s ∧ active s' = active s ∧ waiting s' = waiting s ∧ resumable s' = resumable s.

Lemma give_back_spec call w s w' s' raised lost :
  give_back call w s = (w', s', raised, lost) →
  same_counters s s' ∧ ended s' = ended s ∧ stop_waiting s' = stop_waiting s ∧ semaphore_held s' = false ∧
  permits w' = (permits w + b2z (semaphore_held s))%Z ∧
  (gate_held s' = true → gate_held s = true) ∧
  (gate_held s = false → gate w' = gate w) ∧
  (gate_held s = true → gate_held s' = false → lost = false → ¬ holds (gate w') holder).
Proof using Type*.
  unfold give_back. intros Heq.
  assert (Hp : ∀ b : bool, permits (if b then mk_world (permits w + 1) (gate w) else w) = (permits w + b2z b)%Z ∧
                    gate (if b then mk_world (permits w + 1) (gate w) else w) = gate w)
    by (intros []; simpl; split; lia || done).
  specialize (Hp (semaphore_held s)). set (w1 := if semaphore_held s then _ else w) in *.
  destruct Hp as [Hp Hgt]. clearbody w1. simpl in Heq. destruct (gate_held s) eqn:Hg.
  - destruct call as [|[]|[]]; simplify_eq/=; rewrite ?Hgt;
      (split_and!; [by repeat split|done..| | |]); try done; intros; try congruence; apply slot_released.
  - simplify_eq/=. split_and!; [by repeat split|done..|congruence|done|done].
Qed.

Lemma take_semaphore_spec sem w s w' s' raised :
  sem_free sem w → ended s = false → take_semaphore sem w s = (w', s', raised) →
  same_counters s s' ∧ gate w' = gate w ∧ gate_held s' = gate_held s ∧
  (permits w' + b2z (semaphore_held s') = permits w + b2z (semaphore_held s))%Z ∧
  (0 <= permits w → 0 <= permits w')%Z ∧
  (semaphore_held s = true ∨ stop_waiting s = true → semaphore_held s' = true ∨ stop_waiting s' = true) ∧
  (raised = false → semaphore_held s' = true ∨ stop_waiting s' = true).
Proof.
  unfold take_semaphore, sem_free. intros Hfree He Heq.
  destruct (semaphore_held s) eqn:Hs; [simplify_eq; rewrite ?Hs; split_and!; (done || by repeat split || auto)|].
  destruct (stop_waiting s) eqn:Hst; [simplify_eq; rewrite ?Hs; split_and!; (done || by repeat split || auto)|].
  destruct sem; simplify_eq/=; rewrite ?Hs;
    (split_and!; [by repeat split|done|done|simpl; lia| |naive_solver congruence|naive_solver congruence]); [|done|done].
  specialize (Hfree eq_refl). lia.
Qed.

Lemma take_back_spec call sem w s w' s' raised :
  sem_free sem w → room (gate w) → (gate_held s = true → uses_gate s = true) →
  take_back call sem w s = (w', s', raised) →
  same_counters s s' ∧
  (permits w' + b2z (semaphore_held s') = permits w + b2z (semaphore_held s))%Z ∧
  (0 <= permits w → 0 <= permits w')%Z ∧
  (ended s' = false → ended s = false) ∧
  (ended s' = false → semaphore_held s = true ∨ stop_waiting s = true → semaphore_held s' = true ∨ stop_waiting s' = true) ∧
  (gate_held s = true → gate_held s' = true) ∧ (gate_held s' = true → uses_gate s' = true) ∧
  (gate_held s' = false → gate w' = gate w) ∧
  (raised = false → ended s' = false →
     (semaphore_held s' = true ∨ stop_waiting s' = true) ∧ (uses_gate s' = true → gate_held s' = true)).
Proof using Type*.
  intros Hfree Hroom Hug Heq. unfold take_back in Heq. destruct (ended s) eqn:He.
  { simplify_eq. split_and!; try done; try by repeat split. all: intros; congruence. }
  assert (Hgen : ∀ w1 s1, permits w1 = permits w → (gate_held s1 = false → gate w1 = gate w) →
    same_counters s s1 → ended s1 = false → semaphore_held s1 = semaphore_held s → stop_waiting s1 = stop_waiting s →
    (gate_held s = true → gate_held s1 = true) → (gate_held s1 = true → uses_gate s = true) →
    (uses_gate s = true → gate_held s1 = true) → take_semaphore sem w1 s1 = (w', s', raised) →
    same_counters s s' ∧
    (permits w' + b2z (semaphore_held s') = permits w + b2z (semaphore_held s))%Z ∧
    (0 <= permits w → 0 <= permits w')%Z ∧ (ended s' = false → false = false) ∧
    (ended s' = false → semaphore_held s = true ∨ stop_waiting s = true → semaphore_held s' = true ∨ stop_waiting s' = true) ∧
    (gate_held s = true → gate_held s' = true) ∧ (gate_held s' = true → uses_gate s' = true) ∧
    (gate_held s' = false → gate w' = gate w) ∧
    (raised = false → ended s' = false →
       (semaphore_held s' = true ∨ stop_waiting s' = true) ∧ (uses_gate s' = true → gate_held s' = true))).
  { intros w1 s1 Hp Hgw (Hu & Ha & Hw & Hr) He1 Hs1 Hst1 Hg1 Hg2 Hg3 Ht.
    apply take_semaphore_spec in Ht as ((Hu' & Ha' & Hw' & Hr') & Hgate & Hgh & Hperm & Hpos & Hkeep & Hdone);
      [|unfold sem_free; by rewrite Hp|done].
    rewrite Hp, Hs1 in Hperm. rewrite Hp in Hpos. rewrite Hs1, Hst1 in Hkeep. unfold same_counters.
    split_and!; try congruence; try done; try naive_solver congruence. }
  destruct (uses_gate s && negb (gate_held s)) eqn:Hneed.
  - apply andb_true_iff in Hneed as [Hu Hng%negb_true_iff].
    destruct (slot_acquired (gate w) holder Hroom) as [Hok _].
    destruct (slot_acquire (gate w) holder) as [g ok]. simpl in Hok. subst ok.
    destruct call as [|landed|landed].
    + eapply Hgen in Heq; done.
    + simplify_eq/=. clear Hgen. split_and!; try done; try (by repeat split); by destruct landed.
    + eapply Hgen in Heq; try done; by destruct landed.
  - apply andb_false_iff in Hneed. eapply Hgen in Heq; try done.
    intros Hu. rewrite Hu in Hneed. destruct Hneed as [|?%negb_false_iff]; done.
Qed.

(** A section of the lock keeps what holds of the turn. *)
Lemma inv_take total x call sem w s raised :
  slots_inv total x → sem_free sem (world x) → room (gate (world x)) →
  take_back call sem (world x) (slots x) = (w, s, raised) →
  slots_inv total (mk_system w s (tasks x) (others x) (left_behind x)) ∧
  (raised = false → ended s = false →
     (semaphore_held s = true ∨ stop_waiting s = true) ∧ (uses_gate s = true → gate_held s = true)).
Proof using Type*.
  intros (Ha & Hw & Hr & Htot & Hpos & Hwork & Hug & Hgone) Hfree Hroom Ht.
  apply take_back_spec in Ht as ((Hu' & Ha' & Hw' & Hr') & Hp' & Hpos' & He' & Hkeep & Hg1 & Hg2 & Hg3 & Hdone); [|done..].
  split; [|done]. unfold slots_inv. simpl. rewrite Ha', Hw', Hr', Hu' in *.
  split_and!; [done..|lia|by apply Hpos'| |done|].
  - intros Hin He. destruct (Hwork Hin (He' He)) as [Hs Hg]. split; [by apply Hkeep|]. intros Hu. by apply Hg1, Hg.
  - intros Hl Hu Hng. rewrite Hg3 by done. apply Hgone; [done..|]. destruct (gate_held (slots x)); [|done].
    rewrite Hg1 in Hng; done.
Qed.

Lemma inv_give total x call w s raised lost :
  slots_inv total x → (Working ∈ tasks x → ended (slots x) = true) →
  give_back call (world x) (slots x) = (w, s, raised, lost) →
  slots_inv total (mk_system w s (tasks x) (others x) (left_behind x || lost)).
Proof using Type*.
  intros (Ha & Hw & Hr & Htot & Hpos & Hwork & Hug & Hgone) Hnw Hg.
  apply give_back_spec in Hg as ((Hu' & Ha' & Hw' & Hr') & He' & Hst' & Hs' & Hp' & Hg1 & Hg2 & Hg3).
  unfold slots_inv. simpl. rewrite Ha', Hw', Hr', Hu', Hs', Hp', He' in *.
  split_and!; [done..|simpl; lia|destruct (semaphore_held _); simpl; lia| |auto|].
  - intros Hin He. rewrite Hnw in He by done. done.
  - intros [Hl ->]%orb_false_iff Hu Hng. destruct (gate_held (slots x)) eqn:Hold; [by apply Hg3|].
    rewrite Hg2 by done. by apply Hgone.
Qed.

Lemma inv_give_if total x call w s raised lost :
  slots_inv total x →
  give_back_if_all_waiting call (world x) (slots x) = (w, s, raised, lost) →
  slots_inv total (mk_system w s (tasks x) (others x) (left_behind x || lost)).
Proof using Type*.
  intros Hinv. unfold give_back_if_all_waiting. destruct (all_waiting (slots x)) eqn:Hall.
  - apply inv_give; [done|]. intros Hin. rewrite (working_not_all_waiting _ _ Hinv Hin) in Hall. done.
  - intros [= <- <- _ <-]. rewrite orb_false_r. exact Hinv.
Qed.

(** A task moves on and the counters with it. *)
Lemma inv_phase total x i p p' s' :
  slots_inv total x → tasks x !! i = Some p →
  active s' = (active (slots x) - b2z (counted p) + b2z (counted p'))%Z →
  waiting s' = (waiting (slots x) - b2z (waits p) + b2z (waits p'))%Z →
  resumable s' = (resumable (slots x) - b2z (waits_resumably p) + b2z (waits_resumably p'))%Z →
  semaphore_held s' = semaphore_held (slots x) → gate_held s' = gate_held (slots x) →
  uses_gate s' = uses_gate (slots x) → ended s' = ended (slots x) → stop_waiting s' = stop_waiting (slots x) →
  (p' = Working → ended (slots x) = false →
     (semaphore_held (slots x) = true ∨ stop_waiting (slots x) = true) ∧
     (uses_gate (slots x) = true → gate_held (slots x) = true)) →
  slots_inv total (mk_system (world x) s' (<[i := p']> (tasks x)) (others x) (left_behind x)).
Proof using Type*.
  intros (Ha & Hw & Hr & Htot & Hpos & Hwork & Hug & Hgone) Hi Ha' Hw' Hr' Hs Hg Hu He Hst Hnew.
  unfold slots_inv. simpl. rewrite !(count_insert _ _ _ _ _ Hi), Ha', Hw', Hr', Hs, Hg, Hu, He, Hst.
  split_and!; [lia..|done|done| |done|done]. intros Hin He'.
  destruct (decide (p' = Working)) as [Heq|Hne]; [by apply Hnew|]. apply Hwork; [|done].
  apply list_elem_of_lookup in Hin as [j Hj]. destruct (decide (i = j)) as [<-|Hij].
  - apply lookup_lt_Some in Hi. rewrite list_lookup_insert_eq in Hj by done. congruence.
  - rewrite list_lookup_insert_ne in Hj by done. by eapply list_elem_of_lookup_2.
Qed.

Lemma inv_flags total x e d st :
  slots_inv total x → (e = false → ended (slots x) = false) → (stop_waiting (slots x) = true → st = true) →
  slots_inv total (mk_system (world x) (set_ended (slots x) e d st) (tasks x) (others x) (left_behind x)).
Proof using Type*.
  intros (Ha & Hw & Hr & Htot & Hpos & Hwork & Hug & Hgone) He Hst. unfold slots_inv. simpl.
  split_and!; try done. intros Hin Hf. destruct (Hwork Hin (He Hf)) as [[?|?] ?]; auto.
Qed.

(** A task whose wait is over is counted and waits no more, so it takes back. *)
Lemma wait_over_takes_back total x i :
  slots_inv total x → tasks x !! i = Some WaitOver → (waiting (slots x) <? active (slots x))%Z = true.
Proof using Type*.
  intros (Ha & Hw & _) Hi. apply Z.ltb_lt. rewrite Ha, Hw.
  eapply (count_lt _ _ _ WaitOver); [by intros []|by eapply list_elem_of_lookup_2|done..].
Qed.

Lemma step_inv total x x' : step x x' → slots_inv total x → slots_inv total x'.
Proof using Type*.
  intros Hstep Hinv. destruct Hstep as
    [i call sem w s raised Hi Hf Hroom Ht|i p Hi Hp|i call w s raised lost Hi Hg|i res Hi
    |i res call w s raised lost Hi Hg|i res cancelled Hi|i call sem w s raised Hi Hf Hroom Ht|i Hi
    |i call w s raised lost Hi Hg|i cancelled Hi|i call sem w s raised Hi Hf Hroom Ht| | |
    |call w s raised lost He Hg|Hfree|Hothers|g Hsame|i p p' s Hi Hcancel].
  - destruct (inv_take _ _ _ _ _ _ _ Hinv Hf Hroom Ht) as [Hinv' Hdone]. destruct raised.
    + by eapply (inv_phase _ _ _ Idle Idle) in Hinv'; [exact Hinv'|simpl; done || lia..].
    + eapply (inv_phase _ _ _ Idle Working) in Hinv'; [exact Hinv'|simpl; done || lia || auto..].
  - eapply (inv_phase _ _ _ p Leaving) in Hinv; [exact Hinv|simpl; destruct Hp as [-> | ->]; done || (simpl; lia)..].
  - apply (inv_give_if _ _ _ _ _ _ _ Hinv) in Hg.
    eapply (inv_phase _ _ _ Leaving Idle) in Hg; [exact Hg|simpl; done || lia..].
  - eapply (inv_phase _ _ _ Working (WaitStart res)) in Hinv; [exact Hinv|destruct res; simpl; done || lia..].
  - apply (inv_give_if _ _ _ _ _ _ _ Hinv) in Hg. destruct raised.
    + eapply (inv_phase _ _ _ (WaitStart res) Unwinding) in Hg; [exact Hg|destruct res; simpl; done || lia..].
    + eapply (inv_phase _ _ _ (WaitStart res) (Waiting res)) in Hg; [exact Hg|destruct res; simpl; done || lia..].
  - destruct cancelled.
    + eapply (inv_phase _ _ _ (Waiting res) Unwinding) in Hinv; [exact Hinv|destruct res; simpl; done || lia..].
    + eapply (inv_phase _ _ _ (Waiting res) WaitOver) in Hinv; [exact Hinv|destruct res; simpl; done || lia..].
  - rewrite (wait_over_takes_back _ _ _ Hinv Hi) in Ht.
    destruct (inv_take _ _ _ _ _ _ _ Hinv Hf Hroom Ht) as [Hinv' Hdone].
    destruct raised; (eapply (inv_phase _ _ _ WaitOver) in Hinv'; [exact Hinv'|simpl; done || lia || auto..]).
  - eapply (inv_phase _ _ _ Working JoinStart) in Hinv; [exact Hinv|simpl; done || lia..].
  - apply (inv_give_if _ _ _ _ _ _ _ Hinv) in Hg. destruct raised.
    + eapply (inv_phase _ _ _ JoinStart Unwinding) in Hg; [exact Hg|simpl; done || lia..].
    + eapply (inv_phase _ _ _ JoinStart Joining) in Hg; [exact Hg|simpl; done || lia..].
  - destruct cancelled; (eapply (inv_phase _ _ _ Joining) in Hinv; [exact Hinv|simpl; done || lia..]).
  - destruct (inv_take _ _ _ _ _ _ _ Hinv Hf Hroom Ht) as [Hinv' Hdone].
    destruct raised; (eapply (inv_phase _ _ _ JoinOver) in Hinv'; [exact Hinv'|simpl; done || lia || auto..]).
  - by apply inv_flags.
  - unfold detach. destruct (detached (slots x)); [by destruct x | by apply inv_flags].
  - by apply inv_flags.
  - eapply inv_give; [done|by intros _|done].
  - destruct Hinv as (Ha & Hw & Hr & Htot & Hpos & Hwork & Hug & Hgone). unfold slots_inv. simpl.
    split_and!; done || lia.
  - destruct Hinv as (Ha & Hw & Hr & Htot & Hpos & Hwork & Hug & Hgone). unfold slots_inv. simpl.
    split_and!; done || lia.
  - destruct Hinv as (Ha & Hw & Hr & Htot & Hpos & Hwork & Hug & Hgone). unfold slots_inv. simpl.
    split_and!; try done. intros. rewrite Hsame. auto.
  - destruct p as [| | |res|res| | | | |]; try destruct res; simplify_eq/=;
      (eapply inv_phase in Hinv; [exact Hinv|exact Hi|simpl; done || lia..]).
Qed.

(** What an ended turn has given back stays given back. *)
Definition stays_free (x y : System) : Prop :=
  ended (slots y) = true ∧ uses_gate (slots y) = uses_gate (slots x) ∧
  (semaphore_held (slots x) = false → semaphore_held (slots y) = false) ∧
  (gate_held (slots x) = false → gate_held (slots y) = false ∧
     (holds (gate (world y)) holder ↔ holds (gate (world x)) holder)).

Lemma give_back_stays_free call w s w' s' raised lost :
  ended s = true → give_back call w s = (w', s', raised, lost) →
  ended s' = true ∧ uses_gate s' = uses_gate s ∧ semaphore_held s' = false ∧
  (gate_held s = false → gate_held s' = false ∧ gate w' = gate w).
Proof using Type*.
  intros He Hg. apply give_back_spec in Hg as ((Hu & _) & He' & _ & Hs & _ & Hg1 & Hg2 & _).
  split_and!; [congruence|done|done|]. intros Hng. split; [|by apply Hg2].
  destruct (gate_held s'); [by rewrite Hg1 in Hng|done].
Qed.

Lemma give_back_if_stays_free call w s w' s' raised lost :
  ended s = true → give_back_if_all_waiting call w s = (w', s', raised, lost) →
  ended s' = true ∧ uses_gate s' = uses_gate s ∧ (semaphore_held s = false → semaphore_held s' = false) ∧
  (gate_held s = false → gate_held s' = false ∧ gate w' = gate w).
Proof using Type*.
  intros He. unfold give_back_if_all_waiting. destruct (all_waiting s).
  - intros Hg. apply give_back_stays_free in Hg as (? & ? & ? & ?); done.
  - intros [= <- <- _ _]. done.
Qed.

Lemma step_stays_free x y : step x y → ended (slots x) = true → stays_free x y.
Proof using Type*.
  intros Hstep He. unfold stays_free. destruct Hstep as
    [i call sem w s raised Hi Hf Hroom Ht|i p Hi Hp|i call w s raised lost Hi Hg|i res Hi
    |i res call w s raised lost Hi Hg|i res cancelled Hi|i call sem w s raised Hi Hf Hroom Ht|i Hi
    |i call w s raised lost Hi Hg|i cancelled Hi|i call sem w s raised Hi Hf Hroom Ht| | |
    |call w s raised lost _ Hg|Hfree|Hothers|g Hsame|i p p' s Hi Hcancel].
  1,7,11: unfold take_back in Ht; rewrite He in Ht; try destruct (_ <? _)%Z; simplify_eq; by simpl.
  2,4,7: apply give_back_if_stays_free in Hg as (? & ? & ? & Hg); [|done]; try destruct raised; simpl;
    (split_and!; [done..|]); intros Hng; destruct (Hg Hng) as [? ->]; done.
  7: { simpl. unfold detach. by destruct (detached (slots x)). }
  8: { apply give_back_stays_free in Hg as (? & ? & ? & Hg); [|done]. simpl.
       split_and!; [done..|]. intros Hng; destruct (Hg Hng) as [? ->]; done. }
  all: try by simpl.
  by destruct p as [| | |res|res| | | | |]; simplify_eq/=.
Qed.

Lemma rtc_stays_free x y : rtc step x y → ended (slots x) = true → stays_free x y.
Proof using Type*.
  induction 1 as [x|x y z Hxy _ IH]; intros He; [by repeat split|].
  apply step_stays_free in Hxy as (He1 & Hu1 & Hs1 & Hg1); [|done].
  destruct (IH He1) as (He2 & Hu2 & Hs2 & Hg2).
  split_and!; [done|congruence|auto|]. intros Hng. destruct (Hg1 Hng) as [Hng1 Hh1].
  destruct (Hg2 Hng1) as [? Hh2]. split; [done|]. by rewrite Hh2.
Qed.
End slots.

(** ** Properties *)


(** A turn that works, waits on its user's computer and gives both slots back. *)
Definition sample_tenant : tenant := mk_tenant {["k" := {["s:1"]}]} "k".
Definition sample_dispatched : System (G := tenant) := dispatched true true sample_tenant 2 0 1.
Definition sample_working : System := with_task sample_dispatched 0 Working (world sample_dispatched, add_active (slots sample_dispatched) 1).
Definition sample_wait_start : System :=
  with_task sample_working 0 (WaitStart true) (world sample_working, add_waiting (slots sample_working) 1 true).
Definition sample_waiting : System :=
  let '(w, s, _, _) := give_back_if_all_waiting "s:1" GateDone (world sample_wait_start) (slots sample_wait_start) in
  forgets (with_task sample_wait_start 0 (Waiting true) (w, s)) false.


(** The turn's end frees its slots for good: once an ended turn's slots are
    given back, whatever its tasks still do it never holds a semaphore slot
    again, and where the gate answered, and no cancelled give-back had left its
    slot behind, the gate never counts it again. *)
Theorem turn_end_frees {G} `{SlotGateLaws G} holder total call (x y z : System) w s raised lost
    (Hinv : slots_inv holder total x) (Hend : ended (slots x) = true)
    (Hgive : give_back holder call (world x) (slots x) = (w, s, raised, lost))
    (Hy : y = mk_system w s (tasks x) (others x) (left_behind x || lost))
    (Hrun : rtc (step holder) y z) :
  semaphore_held (slots z) = false ∧
  (call = GateDone → left_behind x = false → uses_gate (slots x) = true →
     gate_held (slots z) = false ∧ ¬ holds (gate (world z)) holder).
Proof.
  pose proof Hgive as Hspec. apply give_back_spec in Hspec as ((Hu & _) & He & _ & Hs & _ & _ & _ & Hgone).
  assert (Hey : ended (slots y) = true) by (subst y; simpl; congruence).
  destruct (rtc_stays_free holder y z Hrun Hey) as (_ & _ & Hs' & Hg').
  split; [apply Hs'; by subst y|]. intros -> Hl Huse.
  assert (Hng : gate_held s = false ∧ ¬ holds (gate w) holder).
  { destruct Hinv as (_ & _ & _ & _ & _ & _ & _ & Hfree). unfold give_back in Hgive. simpl in Hgive.
    destruct (gate_held (slots x)) eqn:Hg; simplify_eq/=.
    - split; [done|]. apply slot_released.
    - split; [done|]. destruct (semaphore_held (slots x)); by apply Hfree. }
  subst y. simpl in Hg'. destruct Hng as [Hng Hnh]. destruct (Hg' Hng) as [? Hh]. split; [done|]. by rewrite Hh.
Qed.

Lemma turn_end_frees_witness :
  let x := mk_system (world sample_working) (end_turn (slots sample_working)) (tasks sample_working) 0 false in
  let '(w, s, raised, lost) := give_back "s:1" GateDone (world x) (slots x) in
  let y := mk_system w s (tasks x) (others x) (left_behind x || lost) in
  semaphore_held (slots y) = false ∧
  (GateDone = GateDone → left_behind x = false → uses_gate (slots x) = true →
     gate_held (slots y) = false ∧ ¬ holds (gate (world y)) "s:1").
Proof.
  eapply (turn_end_frees "s:1" 3 GateDone
    (mk_system (world sample_working) (end_turn (slots sample_working)) (tasks sample_working) 0 false));
    [|reflexivity|reflexivity|reflexivity|apply rtc_refl].
  unfold slots_inv. simpl. split_and!; try done; try lia.
Defined.
