(* ===== verification/Tasks.v ===== *)
(** * The task layer's operations (tasks/completion.py, service.py, dispatcher.py, tools.py)

    Task rows and their links, the classification of an ended attempt, the eager
    spawn, the transactions of the dispatcher's tick, and the tool handlers.
    Their interleaving is TaskSystem.v.

    [json.loads] of a stored payload and [str] of a value are parameters. *)

From S2P Require Import Prelude.
From S2P Require Import PyText.
From S2P Require Import PyStr.
From stdpp Require Import options.

Inductive TaskStatus := todo | ready | running | blocked | done_ | failed | cancelled.
#[global] Instance task_status_eq_dec : EqDecision TaskStatus.
Proof. solve_decision. Defined.

Definition status_str (s : TaskStatus) : string :=
  match s with
  | todo => "todo" | ready => "ready" | running => "running" | blocked => "blocked"
  | done_ => "done" | failed => "failed" | cancelled => "cancelled"
  end.

Record Task := mk_task {
  org_id : Z;
  parent_session_id : Z;
  agent_def_name : option string;
  goal : string;
  context : option string;
  status : TaskStatus;
  attempt_count : Z;
  max_attempts : Z;
  mission_id : option Z;
  current_session_id : option Z;
  result : option string;
  result_metadata : pyval;
  blocked_reason : option string;
  started : bool;
  completed : bool
}.

Definition set_status (t : Task) (s : TaskStatus) : Task :=
  mk_task (org_id t) (parent_session_id t) (agent_def_name t) (goal t) (context t) s (attempt_count t)
    (max_attempts t) (mission_id t) (current_session_id t) (result t) (result_metadata t) (blocked_reason t)
    (started t) (completed t).
Definition set_attempts (t : Task) (n : Z) : Task :=
  mk_task (org_id t) (parent_session_id t) (agent_def_name t) (goal t) (context t) (status t) n
    (max_attempts t) (mission_id t) (current_session_id t) (result t) (result_metadata t) (blocked_reason t)
    (started t) (completed t).
Definition set_session (t : Task) (s : option Z) : Task :=
  mk_task (org_id t) (parent_session_id t) (agent_def_name t) (goal t) (context t) (status t) (attempt_count t)
    (max_attempts t) (mission_id t) s (result t) (result_metadata t) (blocked_reason t) (started t) (completed t).
Definition set_result (t : Task) (r : option string) (m : pyval) : Task :=
  mk_task (org_id t) (parent_session_id t) (agent_def_name t) (goal t) (context t) (status t) (attempt_count t)
    (max_attempts t) (mission_id t) (current_session_id t) r m (blocked_reason t) (started t) (completed t).
Definition set_blocked_reason (t : Task) (r : option string) : Task :=
  mk_task (org_id t) (parent_session_id t) (agent_def_name t) (goal t) (context t) (status t) (attempt_count t)
    (max_attempts t) (mission_id t) (current_session_id t) (result t) (result_metadata t) r (started t) (completed t).
Definition set_context (t : Task) (c : option string) : Task :=
  mk_task (org_id t) (parent_session_id t) (agent_def_name t) (goal t) c (status t) (attempt_count t)
    (max_attempts t) (mission_id t) (current_session_id t) (result t) (result_metadata t) (blocked_reason t)
    (started t) (completed t).
Definition set_times (t : Task) (st co : bool) : Task :=
  mk_task (org_id t) (parent_session_id t) (agent_def_name t) (goal t) (context t) (status t) (attempt_count t)
    (max_attempts t) (mission_id t) (current_session_id t) (result t) (result_metadata t) (blocked_reason t) st co.

(** An event of a session's log, and a session row. *)
Record TEvent := mk_tevent { event_kind : string; payload : option pyval }.
Record Sess := mk_sess { task_of : option Z; session_status : string; log_of : list TEvent }.

(** The database, the work queue, the interrupts published and the task events
    sessions were sent. *)
Record DB := mk_db {
  rows : gmap Z Task;
  links : list (Z * Z);
  sessions : gmap Z Sess;
  queue : list Z;
  interrupts : list (Z * string);
  told : list (Z * string * Z)
}.

Definition set_rows (d : DB) (m : gmap Z Task) : DB :=
  mk_db m (links d) (sessions d) (queue d) (interrupts d) (told d).
Definition set_sessions (d : DB) (m : gmap Z Sess) : DB :=
  mk_db (rows d) (links d) m (queue d) (interrupts d) (told d).
(** [UPDATE tasks SET ... WHERE id = ...] *)
Definition update (d : DB) (id : Z) (f : Task → Task) : DB := set_rows d (alter f id (rows d)).
Definition publish (d : DB) (session : Z) (why : string) : DB :=
  mk_db (rows d) (links d) (sessions d) (queue d) (interrupts d ++ [(session, why)]) (told d).
Definition enqueue_session (d : DB) (session : Z) : DB :=
  mk_db (rows d) (links d) (sessions d) (queue d ++ [session]) (interrupts d) (told d).
(** The event in the parent's log, and the parent woken to read it. *)
Definition notify_parent_of_task_event (d : DB) (parent : Z) (what : string) (id : Z) : DB :=
  enqueue_session (mk_db (rows d) (links d) (sessions d) (queue d) (interrupts d) (told d ++ [(parent, what, id)])) parent.

(** ** How an attempt ended (tasks/completion.py) *)

Inductive TaskAttemptOutcome := COMPLETED | BLOCKED | CRASHED.
#[global] Instance outcome_eq_dec : EqDecision TaskAttemptOutcome.
Proof. solve_decision. Defined.

(** [_OUTCOME_EVENT_KINDS], and what each says. *)
Definition event_outcome (e : TEvent) : option TaskAttemptOutcome :=
  if String.eqb (event_kind e) "worker.complete" then Some COMPLETED
  else if String.eqb (event_kind e) "task.blocked" then Some BLOCKED
  else None.

(** The scan of [reversed(events)]. *)
Fixpoint last_outcome (rev_events : list TEvent) : option (TaskAttemptOutcome * TEvent) :=
  match rev_events with
  | [] => None
  | e :: es =>
    match event_outcome e with
    | Some o => Some (o, e)
    | None => last_outcome es
    end
  end.

Definition last_llm_response (events : list TEvent) : option TEvent :=
  find (λ e, String.eqb (event_kind e) "llm.response") (rev events).

Definition classify_attempt_outcome (events : list TEvent) (session_status : option string)
    : TaskAttemptOutcome * option TEvent :=
  match last_outcome (rev events) with
  | Some (o, e) => (o, Some e)
  | None =>
    if decide (session_status = Some "completed") then (COMPLETED, last_llm_response events)
    else (CRASHED, None)
  end.

Definition outcome_str (o : TaskAttemptOutcome) : string :=
  match o with COMPLETED => "completed" | BLOCKED => "blocked" | CRASHED => "crashed" end.

Section payloads.
Context (loads : string → option pyval) (py_str : pyval → string).

Definition extract_result_from_completion_event (event : option TEvent) : option string :=
  match event ≫= payload with
  | None => None
  | Some raw =>
    match (match raw with VStr s => loads s | v => Some v end) with
    | Some (VDict kvs) =>
      match default VNone (assoc "result" kvs) with
      | VNone =>
        match default VNone (assoc "message" kvs) with
        | VDict mkvs =>
          match default VNone (assoc "content" mkvs) with
          | VStr c => if str_truthy c then Some c else None
          | _ => None
          end
        | _ => None
        end
      | v => Some (py_str v)
      end
    | _ => None
    end
  end.

(** The reason in a block event: [payload or data or {}], decoded, [(raw or {}).get("reason")]. *)
Definition block_reason (e : TEvent) : pyres pyexn pyval :=
  let raw := default VNone (payload e) in
  let raw := if truthy raw then raw else VDict [] in
  let raw := match raw with VStr s => default (VDict []) (loads s) | v => v end in
  if truthy raw then
    match raw with
    | VDict kvs => Ok (default VNone (assoc "reason" kvs))
    | _ => Raise (AttributeError "get")
    end
  else Ok VNone.

(** One prior attempt as a retry is told of it; a log that cannot be read is an
    empty one. *)
Definition attempt_summary (log : option (list TEvent)) : pyres pyexn (TaskAttemptOutcome * pyval) :=
  match classify_attempt_outcome (default [] log) None with
  | (COMPLETED, Some e) => Ok (COMPLETED, of_opt_str (extract_result_from_completion_event (Some e)))
  | (BLOCKED, Some e) => pybind (block_reason e) (λ r, Ok (BLOCKED, r))
  | (o, _) => Ok (o, VStr "(no completion event — likely crashed or timed out)")
  end.

(** The sessions of the task in the order of their creation, less one; of the
    summaries, the last [limit]. *)
Definition fetch_prior_attempt_summaries (prior : list (Z * option (list TEvent))) (exclude : option Z) (limit : nat)
    : pyres pyexn (list (Z * (TaskAttemptOutcome * pyval))) :=
  pybind (pymap (λ p : Z * option (list TEvent), pybind (attempt_summary p.2) (λ s, Ok (p.1, s)))
            (filter (λ p : Z * option (list TEvent), Some p.1 ≠ exclude) prior))
    (λ out, Ok (if Nat.ltb limit (length out) then drop (length out - limit) out else out)).

Definition render_prior_attempts_section (prior : list (Z * (TaskAttemptOutcome * pyval))) : string :=
  join (String "010" "")
    (imap (λ i (p : Z * (TaskAttemptOutcome * pyval)),
      "- Attempt " +:+ str_of_int (Z.of_nat i + 1) +:+ " (" +:+ outcome_str p.2.1 +:+ "): " +:+
      (if truthy p.2.2 then py_str p.2.2 else "(no summary recorded)")) prior).
End payloads.

(** ** The eager spawn (tasks/service.py) *)

Inductive spawn_error :=
| ParentsNotFound (missing : list Z)
| DifferentOrg (parent : Z)
| NoSuchAgent
| NotHandedOn
| SpawnFailed.

(** What [create_task_and_spawn] is asked for. *)
Record SpawnRequest := mk_spawn {
  req_goal : string;
  req_context : option string;
  req_agent : option string;
  req_max_attempts : Z;
  req_parents : list Z;
  req_session : Z;
  req_org : Z;
  req_mission : option Z
}.

(** [select(Task).where(Task.id.in_(parent_ids))] *)
Definition parent_rows (d : DB) (ids : list Z) : list (Z * Task) :=
  omap (λ p, (λ t, (p, t)) <$> rows d !! p) (fromkeys [] ids).

Definition new_task (r : SpawnRequest) (st : TaskStatus) : Task :=
  mk_task (req_org r) (req_session r) (req_agent r) (req_goal r) (req_context r) st 0
    (req_max_attempts r) (req_mission r) None None VNone None false false.

(** Phase 1: the row [id] and its links, or the refusal; [agent_ok] answers for
    the agent's catalogue, [handed_on] for [before_child]. *)
Definition insert_task (d : DB) (id : Z) (r : SpawnRequest) (agent_ok handed_on : bool) : DB * pyres spawn_error TaskStatus :=
  let parents := parent_rows d (req_parents r) in
  if negb (length parents =? length (req_parents r))%nat then
    (d, Raise (ParentsNotFound (filter (λ p, p ∉ parents.*1) (req_parents r))))
  else
    match find (λ p : Z * Task, negb (org_id p.2 =? req_org r)%Z) parents with
    | Some p => (d, Raise (DifferentOrg p.1))
    | None =>
      let st := if existsb (λ p : Z * Task, negb (bool_decide (status p.2 = done_))) parents then todo else ready in
      if match req_agent r with Some name => str_truthy name && negb agent_ok | None => false end then (d, Raise NoSuchAgent)
      else if negb handed_on then (d, Raise NotHandedOn)
      else
        (mk_db (<[id := new_task r st]> (rows d)) (links d ++ ((λ p, (p, id)) <$> req_parents r)) (sessions d) (queue d)
           (interrupts d) (told d), Ok st)
    end.

Definition claimed (t : Task) : Task :=
  set_times (set_attempts (set_status t running) (attempt_count t + 1)) true (completed t).

(** Phase 2, and the tick's Phase A: [UPDATE ... WHERE id = .. AND status =
    'ready' RETURNING]. *)
Definition claim (d : DB) (id : Z) : DB * option Task :=
  match rows d !! id with
  | Some t => if decide (status t = ready) then (update d id claimed, Some (claimed t)) else (d, None)
  | None => (d, None)
  end.

(** [_rollback_claim] of the eager spawn: the attempt is given back. *)
Definition unclaimed (t : Task) : Task := set_attempts (set_status t ready) (attempt_count t - 1).
Definition service_rollback (d : DB) (id : Z) : DB := update d id unclaimed.

(** The child session of the attempt. *)
Definition open_session (d : DB) (id session : Z) : DB :=
  set_sessions d (<[session := mk_sess (Some id) "active" []]> (sessions d)).

(** The child wired to its task, unless the write fails, and put on the queue. *)
Definition wire (d : DB) (id session : Z) (written : bool) : DB :=
  enqueue_session (if written then update d id (λ t, set_session t (Some session)) else d) session.

(** How the child's creation ends: the session it made, whether the write of
    [current_session_id] went through; or it raised, whether the rollback went
    through. *)
Inductive eager_end := EagerSpawned (session : Z) (written : bool) | EagerRaises (rolled_back : bool).

Definition end_eager (d : DB) (id : Z) (e : eager_end) : DB :=
  match e with
  | EagerSpawned session written => wire (open_session d id session) id session written
  | EagerRaises rolled_back => if rolled_back then service_rollback d id else d
  end.

(** The answer: the status reported, and the worker's session. *)
Definition create_task_and_spawn (d : DB) (id : Z) (r : SpawnRequest) (agent_ok handed_on : bool) (e : eager_end)
    : DB * pyres spawn_error (TaskStatus * option Z) :=
  match insert_task d id r agent_ok handed_on with
  | (d, Raise err) => (d, Raise err)
  | (d, Ok st) =>
    if decide (st = todo) then (d, Ok (todo, None))
    else
      match claim d id with
      | (d, None) => (d, Ok (ready, None))
      | (d, Some _) =>
        (end_eager d id e,
         match e with EagerSpawned session _ => Ok (running, Some session) | EagerRaises _ => Raise SpawnFailed end)
      end
  end.

(** ** The tick's transactions (tasks/dispatcher.py) *)

Definition MAX_ENQUEUES_PER_TICK : nat := 10.

Definition parents_of (d : DB) (id : Z) : list Z :=
  omap (λ l : Z * Z, if (l.2 =? id)%Z then Some l.1 else None) (links d).

(** No link to a parent that is not done. *)
Definition all_parents_done (d : DB) (id : Z) : bool :=
  forallb (λ p, match rows d !! p with Some t => bool_decide (status t = done_) | None => true end) (parents_of d id).

(** [_promote_todo_to_ready]: the one UPDATE of [_PROMOTE_SQL]. *)
Definition promote_row (d : DB) (id : Z) (t : Task) : Task :=
  if bool_decide (status t = todo) && all_parents_done d id then set_status t ready else t.
Definition promote (d : DB) : DB := set_rows d (map_imap (λ id t, Some (promote_row d id t)) (rows d)).

Definition ENDED_SESSION_STATUSES : list string := ["completed"; "failed"; "cancelled"; "paused"].

(** What the finalize step makes of one row. *)
Inductive final := FinalDone (result : option string) | FinalFailed | FinalReady | FinalSkip.

Section finalize.
Context (loads : string → option pyval) (py_str : pyval → string).

Definition final_of (t : Task) (s : Sess) : final :=
  match classify_attempt_outcome (log_of s) (Some (session_status s)) with
  | (COMPLETED, e) => FinalDone (extract_result_from_completion_event loads py_str e)
  | (BLOCKED, _) => FinalSkip
  | (CRASHED, _) => if (max_attempts t <=? attempt_count t)%Z then FinalFailed else FinalReady
  end.

(** The running rows whose session ended, as read, each with what is made of it. *)
Definition finalize_read (d : DB) : gmap Z (Task * final) :=
  map_imap (λ _ t,
    if decide (status t = running) then
      match current_session_id t ≫= (λ s, sessions d !! s) with
      | Some s => if decide (session_status s ∈ ENDED_SESSION_STATUSES) then Some (t, final_of t s) else None
      | None => None
      end
    else None) (rows d).
End finalize.

(** The row's write at the commit: the columns whose value differs from the one
    read, by the row's id alone. *)
Definition finalize_row (t0 : Task) (f : final) (t : Task) : Task :=
  match f with
  | FinalDone r =>
    set_times (set_result (set_status t done_) (if decide (r = result t0) then result t else r) (result_metadata t))
      (started t) true
  | FinalFailed => set_times (set_status t failed) (started t) true
  | FinalReady => set_status t ready
  | FinalSkip => t
  end.

Definition final_row (fs : gmap Z (Task * final)) (id : Z) (t : Task) : Task :=
  match fs !! id with Some (t0, f) => finalize_row t0 f t | None => t end.

(** Then the parents of the failed ones are told. *)
Definition finalize_write (d : DB) (fs : gmap Z (Task * final)) : DB :=
  foldl (λ d (p : Z * (Task * final)),
           match p.2.2 with
           | FinalFailed => notify_parent_of_task_event d (parent_session_id p.2.1) "task.failed" p.1
           | _ => d
           end)
    (set_rows d (map_imap (λ id t, Some (final_row fs id t)) (rows d))) (map_to_list fs).

(** [_finalize_ended_sessions] *)
Definition finalize_ended_sessions (loads : string → option pyval) (py_str : pyval → string) (d : DB) : DB :=
  finalize_write d (finalize_read loads py_str d).

(** [_rollback_claim] of the tick: the attempt is kept. *)
Definition tick_rollback (d : DB) (id : Z) (written : bool) : DB :=
  if written then update d id (λ t, set_status t ready) else d.

Definition blocked_row (why : string) (t : Task) : Task :=
  set_attempts (set_blocked_reason (set_status t blocked) (Some why)) (attempt_count t - 1).

(** [_block_claim]; [notify] is whether it was given the session store. *)
Definition block_claim (d : DB) (id : Z) (c : Task) (reason : string) (notify written : bool) : DB :=
  if written then
    let d := update d id (blocked_row (String.substring 0 500 reason)) in
    if notify then notify_parent_of_task_event d (parent_session_id c) "task.blocked" id else d
  else d.

(** [_retry_or_block], of the row as the claim returned it. *)
Definition retry_or_block (d : DB) (id : Z) (c : Task) (reason : string) (notify written : bool) : DB :=
  if (max_attempts c <=? attempt_count c)%Z then block_claim d id c reason notify written
  else tick_rollback d id written.

(** How Phases B and C end; [written] is whether the transaction that ends them
    went through. *)
Inductive spawn_end :=
| Spawned (session : Z) (written : bool)
| TenantRaises (written : bool)
| ConfigError (why : string) (written : bool)
| SpawnRaises (why : string) (written : bool).

Definition end_claim (d : DB) (id : Z) (c : Task) (e : spawn_end) : DB :=
  match e with
  | Spawned session written => wire (open_session d id session) id session written
  | TenantRaises written => retry_or_block d id c "tenant resolution failed" false written
  | ConfigError why written => block_claim d id c why true written
  | SpawnRaises why written => retry_or_block d id c ("spawn failed: " +:+ why) true written
  end.

Definition spawn_failed (e : spawn_end) : bool := match e with Spawned _ _ => false | _ => true end.

(** ** Tool handlers (tasks/tools.py): the change, and what the tool answers *)

Inductive tool_error :=
| Required (what : string)
| Invalid (what : string)
| TaskNotFound
| NotYours
| WrongStatus (s : TaskStatus)
| SessionNotFound
| NoTask
| NotCurrent.

(** [int(v)]: of text, an optional sign and digits, single underscores between. *)
Definition int_of_text (s : string) : option Z :=
  let s := strip s in
  let '(neg, digits) := match s with
                        | String "-"%char r => (true, r)
                        | String "+"%char r => (false, r)
                        | _ => (false, s)
                        end in
  let groups := split_on "_" digits in
  if existsb (String.eqb "") groups then None
  else
    z ← parse_numeral 10 (String.list_ascii_of_string (join "" groups));
    Some (if neg : bool then (- z)%Z else z).

Definition py_int (v : pyval) : option Z :=
  match v with
  | VInt z => Some z
  | VBool b => Some (if b then 1%Z else 0%Z)
  | VStr s => int_of_text s
  | _ => None
  end.

Section handlers.
Context (py_str : pyval → string).
Local Open Scope py_scope.

(** [not v or not str(v).strip()] refuses; else the text. *)
Definition arg_text (v : pyval) (what : string) : pyres tool_error string :=
  let s := strip (py_str v) in
  if truthy v && str_truthy s then Ok s else Raise (Required what).

Definition arg_task_id (arguments : pyval) : pyres tool_error Z :=
  let v := py_get arguments "task_id" VNone in
  if truthy v then
    match uuid_parse (py_str v) with Some u => Ok u | None => Raise (Invalid "task_id") end
  else Raise (Required "task_id").

(** [_parse_uuid_list] *)
Fixpoint parse_uuids (seen : list Z) (items : list pyval) : pyres tool_error (list Z) :=
  match items with
  | [] => Ok []
  | item :: items =>
    match uuid_parse (py_str item) with
    | None => Raise (Invalid "parents")
    | Some u =>
      if bool_decide (u ∈ seen) then parse_uuids seen items
      else let! us := parse_uuids (u :: seen) items in Ok (u :: us)
    end
  end.
Definition parse_uuid_list (raw : pyval) : pyres tool_error (list Z) :=
  match raw with
  | VNone => Ok []
  | VList items => parse_uuids [] items
  | _ => Raise (Invalid "parents")
  end.

Definition arg_max_attempts (v : pyval) : pyres tool_error Z :=
  match v with
  | VNone => Ok 3%Z
  | v =>
    match py_int v with
    | None => Raise (Invalid "max_attempts")
    | Some n => if (n <? 1)%Z then Raise (Invalid "max_attempts") else Ok n
    end
  end.

(** [str(v)] unless None; [str(v).strip() or None] unless None. *)
Definition arg_opt_str (v : pyval) : option string :=
  match v with VNone => None | v => Some (py_str v) end.
Definition arg_opt_strip (v : pyval) : option string :=
  match v with
  | VNone => None
  | v => let s := strip (py_str v) in if str_truthy s then Some s else None
  end.

(** The session's [active_mission_id], where it is one. *)
Definition active_mission (config : pyval) : option Z :=
  let raw := py_get config "active_mission_id" VNone in
  if truthy raw then uuid_parse (py_str raw) else None.

(** [_spawn_task_handler], up to [create_task_and_spawn]; [config] is the
    calling session's, where it could be read. *)
Definition spawn_task_request (arguments : pyval) (caller org : Z) (config : option pyval)
    : pyres tool_error SpawnRequest :=
  let! goal := arg_text (py_get arguments "goal" VNone) "goal" in
  let! attempts := arg_max_attempts (py_get arguments "max_attempts" VNone) in
  let! parents := parse_uuid_list (py_get arguments "parents" VNone) in
  Ok (mk_spawn goal (arg_opt_str (py_get arguments "context" VNone))
        (arg_opt_strip (py_get arguments "agent_type" VNone)) attempts parents caller org (config ≫= active_mission)).

(** [additional_context] appended under its stamp. *)
Definition append_context (old : option string) (stamp additional : string) : string :=
  let prefix := default "" old in
  let sep := if str_truthy prefix then String "010" (String "010" "") else "" in
  prefix +:+ sep +:+ "[unblock at " +:+ stamp +:+ "]" +:+ String "010" "" +:+ additional.

(** [_unblock_task_handler] *)
Definition unblocked (additional : option string) (stamp : string) (t : Task) : Task :=
  let t := set_blocked_reason (set_status t ready) None in
  match additional with Some a => set_context t (Some (append_context (context t) stamp a)) | None => t end.
Definition unblock_task (d : DB) (caller : Z) (arguments : pyval) (stamp : string) : DB * pyres tool_error Z :=
  match arg_task_id arguments with
  | Raise e => (d, Raise e)
  | Ok id =>
    match rows d !! id with
    | None => (d, Raise TaskNotFound)
    | Some t =>
      if negb (parent_session_id t =? caller)%Z then (d, Raise NotYours)
      else if decide (status t = blocked) then
        (update d id (unblocked (arg_opt_strip (py_get arguments "additional_context" VNone)) stamp), Ok id)
      else (d, Raise (WrongStatus (status t)))
    end
  end.

Definition is_terminal (s : TaskStatus) : bool := bool_decide (s ∈ [done_; failed; cancelled]).

Definition cancelled_row (t : Task) : Task := set_times (set_status t cancelled) (started t) true.

(** [_cancel_task_handler] *)
Definition cancel_task (d : DB) (caller : Z) (arguments : pyval) : DB * pyres tool_error Z :=
  match arg_task_id arguments with
  | Raise e => (d, Raise e)
  | Ok id =>
    match rows d !! id with
    | None => (d, Raise TaskNotFound)
    | Some t =>
      if negb (parent_session_id t =? caller)%Z then (d, Raise NotYours)
      else if is_terminal (status t) then (d, Raise (WrongStatus (status t)))
      else
        let d := update d id cancelled_row in
        (match (if decide (status t = running) then current_session_id t else None) with
         | Some s => publish d s "task_cancel"
         | None => d
         end, Ok id)
    end
  end.

(** The task of the calling worker, where it is the task's current attempt. *)
Definition own_task (d : DB) (session : Z) : pyres tool_error (Z * Task) :=
  match sessions d !! session with
  | None => Raise SessionNotFound
  | Some sess =>
    match task_of sess with
    | None => Raise NoTask
    | Some id =>
      match rows d !! id with
      | None => Raise TaskNotFound
      | Some t =>
        if decide (current_session_id t = Some session) then
          if decide (status t = running) then Ok (id, t) else Raise (WrongStatus (status t))
        else Raise NotCurrent
      end
    end
  end.

Definition completed_row (summary : string) (metadata : pyval) (t : Task) : Task :=
  set_times (set_result (set_status t done_) (Some summary) metadata) (started t) true.

(** [_worker_complete_handler] *)
Definition worker_complete (d : DB) (session : Z) (arguments : pyval) : DB * pyres tool_error Z :=
  match arg_text (py_get arguments "summary" VNone) "summary" with
  | Raise e => (d, Raise e)
  | Ok summary =>
    match py_get arguments "metadata" VNone with
    | (VNone | VDict _) as metadata =>
      match own_task d session with
      | Raise e => (d, Raise e)
      | Ok (id, _) => (publish (update d id (completed_row summary metadata)) session "worker_complete", Ok id)
      end
    | _ => (d, Raise (Invalid "metadata"))
    end
  end.

(** [_worker_block_handler] *)
Definition worker_block (d : DB) (session : Z) (arguments : pyval) : DB * pyres tool_error Z :=
  match arg_text (py_get arguments "reason" VNone) "reason" with
  | Raise e => (d, Raise e)
  | Ok reason =>
    match own_task d session with
    | Raise e => (d, Raise e)
    | Ok (id, t) =>
      (publish (notify_parent_of_task_event (update d id (blocked_row reason)) (parent_session_id t) "task.blocked" id)
         session "worker_block", Ok id)
    end
  end.
End handlers.
