(* ===== verification/TaskSystem.v ===== *)
(** * The task layer running: ticks, eager spawns and tools interleaved

    One step is one transaction of tasks/dispatcher.py, service.py or tools.py,
    with the phase its process is in between two of them.  Any number of ticks
    run: every worker process hosts one.  Sessions change on their own. *)

From S2P Require Import Prelude.
From S2P Require Import PyText.
From S2P Require Import PyStr.
From S2P Require Import Tasks.
From stdpp Require Import options.

(** Where a tick is in [tasks_tick]; [n] claims are left to it, [failed] are the
    tasks whose spawn raised within it. *)
Inductive tick :=
| Idle
| Promoted
| Finalizing (fs : gmap Z (Task * final))
| Enqueuing (n : nat) (failed : list Z)
| Spawning (n : nat) (failed : list Z) (id : Z) (c : Task).

(** [pending]: inserted ready, the eager claim not yet tried; [spawning]: claimed
    by their eager spawn.  [ever_done] remembers the tasks that were done. *)
Record Sys := mk_sys {
  db : DB;
  ticks : list tick;
  pending : list Z;
  spawning : list Z;
  ever_done : gset Z
}.

Definition done_ids (d : DB) : gset Z := dom (filter (λ p : Z * Task, status p.2 = done_) (rows d)).

(** A transaction's effect, with the ids now done remembered. *)
Definition commit (s : Sys) (d : DB) : Sys := mk_sys d (ticks s) (pending s) (spawning s) (ever_done s ∪ done_ids d).
Definition set_tick (s : Sys) (i : nat) (k : tick) : Sys :=
  mk_sys (db s) (<[i := k]> (ticks s)) (pending s) (spawning s) (ever_done s).
Definition set_spawns (s : Sys) (p sp : list Z) : Sys := mk_sys (db s) (ticks s) p sp (ever_done s).

Definition forget (id : Z) (l : list Z) : list Z := filter (λ j, j ≠ id) l.

Section system.
Context (loads : string → option pyval) (py_str : pyval → string).

Inductive step (s : Sys) : Sys → Prop :=
| step_insert id r agent_ok handed_on d st :
    rows (db s) !! id = None → (1 <= req_max_attempts r)%Z →
    insert_task (db s) id r agent_ok handed_on = (d, Ok st) →
    step s (set_spawns (commit s d) (if decide (st = ready) then id :: pending s else pending s) (spawning s))
| step_eager_claim id d o :
    id ∈ pending s → claim (db s) id = (d, o) →
    step s (set_spawns (commit s d) (forget id (pending s)) (if o then id :: spawning s else spawning s))
| step_eager_end id e :
    id ∈ spawning s →
    step s (set_spawns (commit s (end_eager (db s) id e)) (pending s) (forget id (spawning s)))
| step_promote i :
    ticks s !! i = Some Idle → step s (set_tick (commit s (promote (db s))) i Promoted)
| step_finalize_read i :
    ticks s !! i = Some Promoted → step s (set_tick s i (Finalizing (finalize_read loads py_str (db s))))
| step_finalize_write i fs :
    ticks s !! i = Some (Finalizing fs) →
    step s (set_tick (commit s (finalize_write (db s) fs)) i (Enqueuing MAX_ENQUEUES_PER_TICK []))
| step_claim i n fl id d c :
    ticks s !! i = Some (Enqueuing (S n) fl) → id ∉ fl → claim (db s) id = (d, Some c) →
    step s (set_tick (commit s d) i (Spawning n fl id c))
| step_end_claim i n fl id c e :
    ticks s !! i = Some (Spawning n fl id c) →
    step s (set_tick (commit s (end_claim (db s) id c e)) i (Enqueuing n (if spawn_failed e then id :: fl else fl)))
| step_tick_over i k : ticks s !! i = Some k → step s (set_tick s i Idle)
| step_unblock caller arguments stamp :
    step s (commit s (unblock_task py_str (db s) caller arguments stamp).1)
| step_cancel caller arguments :
    step s (commit s (cancel_task py_str (db s) caller arguments).1)
| step_complete session arguments :
    step s (commit s (worker_complete py_str (db s) session arguments).1)
| step_block session arguments :
    step s (commit s (worker_block py_str (db s) session arguments).1)
| step_sessions m : step s (commit s (set_sessions (db s) m)).

Definition reachable (n : nat) (s : Sys) : Prop :=
  rtc step (mk_sys (mk_db ∅ [] ∅ [] [] []) (replicate n Idle) [] [] ∅) s.

(** ** What a step does to one row *)

(** [finalizing s id t0 f]: some tick holds that decision; [spawning_tick]: some
    tick holds that claim. *)
Definition finalizing (s : Sys) (id : Z) (t0 : Task) (f : final) : Prop :=
  ∃ i fs, ticks s !! i = Some (Finalizing fs) ∧ fs !! id = Some (t0, f).
Definition spawning_tick (s : Sys) (id : Z) (c : Task) : Prop :=
  ∃ i n fl, ticks s !! i = Some (Spawning n fl id c).

Inductive change (s : Sys) (id : Z) (t : Task) : Task → Prop :=
| ch_none : change s id t t
| ch_promote : status t = todo → all_parents_done (db s) id = true → change s id t (set_status t ready)
| ch_claim : status t = ready → change s id t (claimed t)
| ch_unclaim : id ∈ spawning s → change s id t (unclaimed t)
| ch_wire session : id ∈ spawning s ∨ (∃ c, spawning_tick s id c) → change s id t (set_session t (Some session))
| ch_final t0 f : finalizing s id t0 f → change s id t (finalize_row t0 f t)
| ch_rollback c : spawning_tick s id c → (attempt_count c < max_attempts c)%Z → change s id t (set_status t ready)
| ch_block_claim c why : spawning_tick s id c → change s id t (blocked_row why t)
| ch_unblock additional stamp : status t = blocked → change s id t (unblocked additional stamp t)
| ch_cancel : is_terminal (status t) = false → change s id t (cancelled_row t)
| ch_complete summary metadata : status t = running → is_Some (current_session_id t) →
    change s id t (completed_row summary metadata t)
| ch_block why : status t = running → is_Some (current_session_id t) → change s id t (blocked_row why t).
End system.

(** ** One row at a time *)

(** [d'] is [d] with at most one row rewritten, as [Q] allows. *)
Definition touches (Q : Z → Task → Task → Prop) (d d' : DB) : Prop :=
  links d' = links d ∧
  (rows d' = rows d ∨ ∃ id f, rows d' = alter f id (rows d) ∧ ∀ t, rows d !! id = Some t → Q id t (f t)).

(** Every row of [d] is in [d'], changed as [Q] allows, and [d'] has no other. *)
Definition rows_change (Q : Z → Task → Task → Prop) (d d' : DB) : Prop :=
  ∀ id, match rows d !! id with
        | Some t => ∃ t', rows d' !! id = Some t' ∧ Q id t t'
        | None => rows d' !! id = None
        end.

Lemma touches_rows (Q : Z → Task → Task → Prop) d d' :
  (∀ id t, Q id t t) → touches Q d d' → rows_change Q d d'.
Proof.
  intros Hrefl [_ Hd] id. destruct Hd as [->|(i & f & -> & Hf)].
  - destruct (rows d !! id) eqn:E; eauto.
  - destruct (decide (id = i)) as [->|Hne].
    + rewrite lookup_alter_eq. destruct (rows d !! i) eqn:E; csimpl; eauto.
    + rewrite lookup_alter_ne by done. destruct (rows d !! id) eqn:E; eauto.
Qed.

Lemma touches_same Q d d' : links d' = links d → rows d' = rows d → touches Q d d'.
Proof. by split; [|left]. Qed.

Lemma touches_one (Q : Z → Task → Task → Prop) d d' id f :
  links d' = links d → rows d' = alter f id (rows d) → (∀ t, rows d !! id = Some t → Q id t (f t)) → touches Q d d'.
Proof. intros ? ? ?. split; [done|]. right. eauto. Qed.

Lemma rows_finalize_write d fs :
  rows (finalize_write d fs) = map_imap (λ id t, Some (final_row fs id t)) (rows d) ∧
  links (finalize_write d fs) = links d.
Proof.
  unfold finalize_write.
  match goal with |- context [foldl ?f ?a ?l] => set (g := f); set (d0 := a); generalize l end.
  intros l. change (map_imap _ _) with (rows d0). change (links d) with (links d0).
  generalize d0. induction l as [|[i [t f]] l IH]; intros e; [done|]. csimpl.
  destruct (IH (g e (i, (t, f)))) as [-> ->]. unfold g. csimpl. by destruct f.
Qed.

Section changes.
Context (loads : string → option pyval) (py_str : pyval → string).
Implicit Types s : Sys.

Lemma claim_touches s id d o : claim (db s) id = (d, o) → touches (change s) (db s) d.
Proof.
  unfold claim. destruct (rows (db s) !! id) as [t|] eqn:E; [destruct (decide _)|]; intros [= <- <-];
    try by apply touches_same.
  eapply touches_one; [done|done|]. intros t' ?. simplify_eq. by apply ch_claim.
Qed.

Lemma end_eager_touches s id e : id ∈ spawning s → touches (change s) (db s) (end_eager (db s) id e).
Proof.
  intros Hin. destruct e as [session [] | []]; csimpl; try by apply touches_same.
  - eapply touches_one; [done|done|]. intros t _. apply ch_wire. by left.
  - eapply touches_one; [done|done|]. intros t _. by apply ch_unclaim.
Qed.

Lemma block_claim_touches s id c reason notify written :
  spawning_tick s id c → touches (change s) (db s) (block_claim (db s) id c reason notify written).
Proof.
  intros Hin. unfold block_claim. destruct written; [|by apply touches_same].
  destruct notify; (eapply touches_one; [done|done|]); intros t _; by eapply ch_block_claim.
Qed.

Lemma retry_or_block_touches s id c reason notify written :
  spawning_tick s id c → touches (change s) (db s) (retry_or_block (db s) id c reason notify written).
Proof.
  intros Hin. unfold retry_or_block. destruct (Z.leb_spec (max_attempts c) (attempt_count c)).
  - by apply block_claim_touches.
  - unfold tick_rollback. destruct written; [|by apply touches_same].
    eapply touches_one; [done|done|]. intros t _. by eapply ch_rollback.
Qed.

Lemma end_claim_touches s id c e : spawning_tick s id c → touches (change s) (db s) (end_claim (db s) id c e).
Proof.
  intros Hin. destruct e as [session [] | | |]; csimpl;
    eauto using retry_or_block_touches, block_claim_touches; [|by apply touches_same].
  eapply touches_one; [done|done|]. intros t _. apply ch_wire. eauto.
Qed.

Lemma unblock_touches s caller arguments stamp :
  touches (change s) (db s) (unblock_task py_str (db s) caller arguments stamp).1.
Proof.
  unfold unblock_task. repeat case_match; csimpl; try by apply touches_same.
  eapply touches_one; [done|done|]. intros t' ?. simplify_eq. by apply ch_unblock.
Qed.

Lemma cancel_touches s caller arguments : touches (change s) (db s) (cancel_task py_str (db s) caller arguments).1.
Proof.
  unfold cancel_task.
  destruct (arg_task_id _ _) as [id|]; [|by apply touches_same].
  destruct (rows (db s) !! id) as [t|] eqn:E; [|by apply touches_same].
  destruct (negb _); [by apply touches_same|].
  destruct (is_terminal (status t)) eqn:Ht; [by apply touches_same|].
  assert (Hc : ∀ t', rows (db s) !! id = Some t' → change s id t' (cancelled_row t')).
  { intros t' ?. simplify_eq. by apply ch_cancel. }
  csimpl. case_match; eapply touches_one; done.
Qed.

Lemma own_task_ok d session id t :
  own_task d session = Ok (id, t) → rows d !! id = Some t ∧ status t = running ∧ current_session_id t = Some session.
Proof. unfold own_task. repeat case_match; intros [=]; simplify_eq; eauto. Qed.

Lemma complete_touches s session arguments :
  touches (change s) (db s) (worker_complete py_str (db s) session arguments).1.
Proof.
  unfold worker_complete. destruct (arg_text _ _ _) as [summary|]; [|by apply touches_same].
  assert (H : ∀ metadata, touches (change s) (db s)
    (match own_task (db s) session with
     | Raise e => (db s, Raise e)
     | Ok (id, _) => (publish (update (db s) id (completed_row summary metadata)) session "worker_complete", Ok id)
     end).1).
  { intros metadata. destruct (own_task _ _) as [[id t]|] eqn:E; [|by apply touches_same].
    apply own_task_ok in E as (Hr & Hs & Hc).
    eapply touches_one; [done|done|]. intros t' ?. simplify_eq. by apply ch_complete; [|eexists]. }
  repeat case_match; subst; solve [by apply touches_same | apply H].
Qed.

Lemma block_touches s session arguments : touches (change s) (db s) (worker_block py_str (db s) session arguments).1.
Proof.
  unfold worker_block. destruct (arg_text _ _ _) as [why|]; [|by apply touches_same].
  destruct (own_task _ _) as [[id t]|] eqn:E; [|by apply touches_same].
  apply own_task_ok in E as (Hr & Hs & Hc).
  eapply touches_one; [done|done|]. intros t' ?. simplify_eq. by apply ch_block; [|eexists].
Qed.
End changes.

(** ** One step *)

(** A step that inserts a task: [ready] only with every parent done. *)
Definition inserts (d d' : DB) (id : Z) (r : SpawnRequest) (st : TaskStatus) : Prop :=
  rows d !! id = None ∧ (1 <= req_max_attempts r)%Z ∧
  rows d' = <[id := new_task r st]> (rows d) ∧ links d' = links d ++ ((λ p, (p, id)) <$> req_parents r) ∧
  (∀ p, p ∈ req_parents r → is_Some (rows d !! p)) ∧
  (st = todo ∨ st = ready ∧ ∀ p t, p ∈ req_parents r → rows d !! p = Some t → status t = done_).

(** The claims and decisions in flight after a step are those before it, or one
    taken by the step. *)
Record control (s s' : Sys) : Prop := mk_control {
  ctl_spawning_tick id c : spawning_tick s' id c →
    spawning_tick s id c ∨
    ∃ t, rows (db s) !! id = Some t ∧ status t = ready ∧ c = claimed t ∧ rows (db s') !! id = Some c;
  ctl_finalizing id t0 f : finalizing s' id t0 f →
    finalizing s id t0 f ∨
    rows (db s) !! id = Some t0 ∧ status t0 = running ∧ is_Some (current_session_id t0) ∧ rows (db s') = rows (db s) ∧
    (f = FinalReady → attempt_count t0 < max_attempts t0)%Z;
  ctl_spawning id : id ∈ spawning s' →
    id ∈ spawning s ∨ ∃ t, rows (db s) !! id = Some t ∧ status t = ready ∧ rows (db s') !! id = Some (claimed t);
  ctl_ever : ever_done s ⊆ ever_done s';
  ctl_done : done_ids (db s) ⊆ ever_done s → done_ids (db s') ⊆ ever_done s'
}.

Lemma parent_rows_all d ids :
  length (parent_rows d ids) = length ids → ∀ p, p ∈ ids → ∃ t, rows d !! p = Some t ∧ (p, t) ∈ parent_rows d ids.
Proof.
  unfold parent_rows. intros Hlen p Hp.
  assert (Hle : ∀ l : list Z, length (omap (λ p, (λ t, (p, t)) <$> rows d !! p) l) ≤ length l).
  { induction l as [|x l IH]; csimpl; [lia|]. destruct (rows d !! x); csimpl; lia. }
  assert (Hfk : ∀ seen l, length (fromkeys seen l) ≤ length (l : list Z)).
  { intros seen l. revert seen. induction l as [|x l IH]; intros seen; csimpl; [lia|].
    case_decide; csimpl; [specialize (IH seen)|specialize (IH (x :: seen))]; lia. }
  assert (Hin : p ∈ fromkeys [] ids) by (apply fromkeys_elem; set_solver).
  assert (Hx : length (omap (λ p, (λ t, (p, t)) <$> rows d !! p) (fromkeys [] ids)) = length (fromkeys [] ids)).
  { specialize (Hle (fromkeys [] ids)). specialize (Hfk [] ids). lia. }
  clear Hlen Hfk Hp. revert Hin Hx. generalize (fromkeys [] ids) as l. induction l as [|x l IH]; csimpl; [set_solver|].
  destruct (rows d !! x) as [t|] eqn:E; csimpl; intros Hin Hx.
  - apply elem_of_cons in Hin as [->|Hin]; [exists t; split; [done|left]|].
    destruct (IH Hin ltac:(lia)) as (t' & ? & ?). exists t'. split; [done|by right].
  - specialize (Hle l). lia.
Qed.

Lemma insert_inserts d id r agent_ok handed_on d' st :
  rows d !! id = None → (1 <= req_max_attempts r)%Z → insert_task d id r agent_ok handed_on = (d', Ok st) →
  inserts d d' id r st.
Proof.
  intros Hid Hmax. unfold insert_task.
  destruct (Nat.eqb_spec (length (parent_rows d (req_parents r))) (length (req_parents r))) as [Hlen|]; [|done]. csimpl.
  destruct (find _ _); [done|].
  destruct (match req_agent r with Some _ => _ | None => _ end); [done|].
  destruct (negb handed_on); [done|]. intros [= <- Hst]. csimpl. rewrite Hst.
  unfold inserts. csimpl. split_and!; try done.
  - intros p Hp. destruct (parent_rows_all _ _ Hlen p Hp) as (t & -> & _). eauto.
  - destruct (existsb _ _) eqn:Hex; subst st; [by left|right]. split; [done|]. intros p t Hp Hr.
    destruct (parent_rows_all _ _ Hlen p Hp) as (t' & ? & Hin). simplify_eq.
    destruct (decide (status t = done_)) as [|Hn]; [done|]. exfalso.
    assert (existsb (λ p : Z * Task, negb (bool_decide (status p.2 = done_))) (parent_rows d (req_parents r)) = true); [|congruence].
    apply existsb_exists. exists (p, t). split; [by apply list_elem_of_In|]. csimpl. by rewrite bool_decide_eq_false_2.
Qed.

Section steps.
Context (loads : string → option pyval) (py_str : pyval → string).
Implicit Types s : Sys.
Notation step := (step loads py_str).

Lemma change_refl s id t : change s id t t.
Proof. constructor. Qed.

Lemma promote_change s : rows_change (change s) (db s) (promote (db s)) ∧ links (promote (db s)) = links (db s).
Proof.
  split; [|done]. intros id. unfold promote. csimpl. rewrite map_lookup_imap.
  destruct (rows (db s) !! id) as [t|]; csimpl; [|done]. eexists. split; [done|]. unfold promote_row.
  case_bool_decide; csimpl; [|constructor]. destruct (all_parents_done _ _) eqn:?; by constructor.
Qed.

Lemma finalize_change s i fs :
  ticks s !! i = Some (Finalizing fs) →
  rows_change (change s) (db s) (finalize_write (db s) fs) ∧ links (finalize_write (db s) fs) = links (db s).
Proof.
  intros Hi. destruct (rows_finalize_write (db s) fs) as [Hr ->]. split; [|done]. intros id.
  rewrite Hr, map_lookup_imap. destruct (rows (db s) !! id) as [t|]; csimpl; [|done]. eexists. split; [done|].
  unfold final_row. destruct (fs !! id) as [[t0 f]|] eqn:Hf; [|constructor].
  apply ch_final. by exists i, fs.
Qed.

Lemma step_rows s s' :
  step s s' →
  (rows_change (change s) (db s) (db s') ∧ links (db s') = links (db s)) ∨ ∃ id r st, inserts (db s) (db s') id r st.
Proof.
  assert (Ht : ∀ d', touches (change s) (db s) d' →
                     rows_change (change s) (db s) d' ∧ links d' = links (db s)).
  { intros d' Hd. split; [|apply Hd]. apply touches_rows; [apply change_refl|done]. }
  destruct 1; cbn [db set_spawns set_tick commit].
  1: right; eauto using insert_inserts.
  all: left.
  3: by apply promote_change.
  4: by eapply finalize_change.
  all: apply Ht; try by apply touches_same.
  all: eauto using claim_touches, unblock_touches, cancel_touches, complete_touches, block_touches, end_eager_touches.
  apply end_claim_touches. unfold spawning_tick. eauto.
Qed.
Lemma set_tick_spawning s i k id c :
  spawning_tick (set_tick s i k) id c → spawning_tick s id c ∨ ∃ n fl, k = Spawning n fl id c.
Proof.
  intros (j & n & fl & Hj). csimpl in Hj. destruct (decide (i = j)) as [->|Hne].
  - right. apply list_lookup_insert_Some in Hj as [(_ & -> & _)|[]]; [eauto|done].
  - left. rewrite list_lookup_insert_ne in Hj by done. unfold spawning_tick. eauto.
Qed.

Lemma set_tick_finalizing s i k id t0 f :
  finalizing (set_tick s i k) id t0 f → finalizing s id t0 f ∨ ∃ fs, k = Finalizing fs ∧ fs !! id = Some (t0, f).
Proof.
  intros (j & fs & Hj & Hf). csimpl in Hj. destruct (decide (i = j)) as [->|Hne].
  - right. apply list_lookup_insert_Some in Hj as [(_ & -> & _)|[]]; [eauto|done].
  - left. rewrite list_lookup_insert_ne in Hj by done. unfold finalizing. eauto.
Qed.

Lemma claim_some d id d' c :
  claim d id = (d', Some c) → ∃ t, rows d !! id = Some t ∧ status t = ready ∧ c = claimed t ∧ rows d' !! id = Some c.
Proof.
  unfold claim. destruct (rows d !! id) as [t|] eqn:E; [|done]. destruct (decide _); [|done]. intros [= <- <-].
  exists t. split_and!; try done. csimpl. by rewrite lookup_alter_eq, E.
Qed.

Lemma finalize_read_some d id t0 f :
  finalize_read loads py_str d !! id = Some (t0, f) →
  rows d !! id = Some t0 ∧ status t0 = running ∧ is_Some (current_session_id t0) ∧
  (f = FinalReady → attempt_count t0 < max_attempts t0)%Z.
Proof.
  unfold finalize_read. rewrite map_lookup_imap. destruct (rows d !! id) as [t|]; [|done]. csimpl.
  destruct (decide _); [|done]. destruct (current_session_id t) as [x|] eqn:Hx; [|done]. csimpl.
  destruct (sessions d !! x) as [se|]; [|done]. destruct (decide _); [|done]. intros [= <- <-].
  split_and!; eauto. unfold final_of. destruct (classify_attempt_outcome _ _) as [[] ?]; try done.
  destruct (Z.leb_spec (max_attempts t) (attempt_count t)); [done|lia].
Qed.

Lemma forget_elem id j l : j ∈ forget id l → j ∈ l.
Proof. unfold forget. rewrite list_elem_of_filter. tauto. Qed.

Lemma done_ids_commit s d : done_ids d ⊆ ever_done (commit s d).
Proof. csimpl. set_solver. Qed.

Lemma step_control s s' : step s s' → control s s'.
Proof.
  intros Hstep. split.
  - intros id c. destruct Hstep; csimpl; try by left.
    all: intros [|(n' & fl' & ?)]%set_tick_spawning; simplify_eq; eauto using claim_some.
  - intros id t0 f. destruct Hstep; csimpl; try by left.
    all: intros [|(fs' & ? & Hf)]%set_tick_finalizing; simplify_eq; try by left.
    right. apply finalize_read_some in Hf as (? & ? & ? & ?). done.
  - intros j. destruct Hstep as [| ? ? o ? Hc | | | | | | | | | | | | ]; csimpl; try by left.
    + destruct o as [c|]; [|by left]. intros [->|]%elem_of_cons; [|by left].
      right. apply claim_some in Hc as (t & ? & ? & -> & ?). eauto.
    + intros ?%forget_elem. by left.
  - destruct Hstep; csimpl; set_solver.
  - destruct Hstep; csimpl; try done; intros _; set_solver.
Qed.
End steps.

(** ** Attempts never exceed their bound, with one tick *)

Definition waits (st : TaskStatus) : Prop := st = todo ∨ st = ready ∨ st = blocked.

(** At most [n] attempts were counted, fewer while the task waits for one. *)
Definition below (t : Task) (n : Z) : Prop := (attempt_count t <= n)%Z ∧ (waits (status t) → attempt_count t < n)%Z.

Definition attempts_inv (s : Sys) : Prop :=
  (∃ k, ticks s = [k]) ∧
  (∀ id t, rows (db s) !! id = Some t → below t (max_attempts t)) ∧
  (∀ id c, spawning_tick s id c →
     (attempt_count c <= max_attempts c)%Z ∧
     ∃ t, rows (db s) !! id = Some t ∧ max_attempts t = max_attempts c ∧ below t (attempt_count c)) ∧
  (∀ id t0, finalizing s id t0 FinalReady →
     (attempt_count t0 < max_attempts t0)%Z ∧
     ∃ t, rows (db s) !! id = Some t ∧ max_attempts t = max_attempts t0 ∧ below t (attempt_count t0)).

(** The steps that are no tick's: the changes of a system without ticks. *)
Definition no_ticks (s : Sys) : Sys := mk_sys (db s) [] (pending s) (spawning s) (ever_done s).

Ltac below_tac := unfold below, waits, claimed, unclaimed, blocked_row, cancelled_row, completed_row in *; csimpl in *;
  intuition (try congruence; try lia).

Lemma calm_change s id t t' :
  change (no_ticks s) id t t' → max_attempts t' = max_attempts t ∧ ∀ n, below t n → below t' n.
Proof.
  destruct 1 as [ | ? | ? | ? | ? | ? ? (? & ? & Hb & _) | ? (? & ? & ? & Hb) | ? ? (? & ? & ? & Hb) | a ? ? | ? | | ];
    csimpl; try done.
  all: split; [try done|intros n Hn; try (below_tac; done)].
  - by destruct a.
  - destruct a; below_tac.
Qed.

Lemma row_change_below s id t t' :
  attempts_inv s → change s id t t' → rows (db s) !! id = Some t → below t' (max_attempts t').
Proof.
  intros (_ & Hrow & Hsp & Hfin) Hch Ht. pose proof (Hrow _ _ Ht) as Hb.
  destruct Hch as [ | ? | ? | ? | ? | t0 f Hf | c Hc Hlt | c why Hc | a ? ? | ? | | ]; try (below_tac; done).
  - destruct f; csimpl; try (below_tac; done).
    destruct (Hfin _ _ Hf) as (? & t1 & ? & ? & ?). simplify_eq. below_tac.
  - destruct (Hsp _ _ Hc) as (? & t1 & ? & ? & ?). simplify_eq. below_tac.
  - destruct a; below_tac.
Qed.
Lemma rtc_preserve {A} (R : relation A) (P : A → Prop) x y :
  (∀ a b, R a b → P a → P b) → rtc R x y → P x → P y.
Proof. intros Hstep. induction 1; eauto. Qed.

Section attempts.
Context (loads : string → option pyval) (py_str : pyval → string).
Implicit Types s : Sys.
Notation step := (step loads py_str).

Lemma calm_step s s' :
  step s s' →
  rows_change (change (no_ticks s)) (db s) (db s') ∨ (∃ id r st, inserts (db s) (db s') id r st) ∨
  ∃ i n fl, is_Some (ticks s !! i) ∧ ticks s' = <[i := Enqueuing n fl]> (ticks s).
Proof.
  assert (Ht : ∀ d', touches (change (no_ticks s)) (db (no_ticks s)) d' →
                     rows_change (change (no_ticks s)) (db s) d').
  { intros d' Hd. by apply touches_rows; [apply change_refl|]. }
  destruct 1; cbn [db set_spawns set_tick commit].
  1: right; left; eauto using insert_inserts.
  5, 7: right; right; eauto.
  all: left.
  3: apply (promote_change (no_ticks s)).
  all: apply Ht; try by apply touches_same.
  - by eapply (claim_touches (no_ticks s)).
  - by eapply (end_eager_touches (no_ticks s)).
  - by eapply (claim_touches (no_ticks s)).
  - apply (unblock_touches _ (no_ticks s)).
  - apply (cancel_touches _ (no_ticks s)).
  - apply (complete_touches _ (no_ticks s)).
  - apply (block_touches _ (no_ticks s)).
Qed.

Lemma inserts_lookup d d' id r st j t :
  inserts d d' id r st → rows d !! j = Some t → rows d' !! j = Some t.
Proof.
  intros (Hid & _ & -> & _) Hj. destruct (decide (j = id)) as [->|]; [congruence|]. by rewrite lookup_insert_ne.
Qed.

(** What is in flight keeps its bound: a tick's own step ends its flight. *)
Lemma flight_below s s' id n m :
  step s s' → (∃ i k, ticks s' !! i = Some k ∧ ∀ n fl, k ≠ Enqueuing n fl) → (∃ k, ticks s = [k]) →
  (∃ t, rows (db s) !! id = Some t ∧ max_attempts t = m ∧ below t n) →
  ∃ t, rows (db s') !! id = Some t ∧ max_attempts t = m ∧ below t n.
Proof.
  intros Hstep (i & k & Hi & Hk) [k0 Hticks] (t & Ht & Hm & Hb).
  destruct (calm_step _ _ Hstep) as [Hrc|[(x & r & st & Hins)|(j & a & fl & [k1 Hj] & Heq)]].
  - specialize (Hrc id). rewrite Ht in Hrc. destruct Hrc as (t' & Ht' & Hch).
    apply calm_change in Hch as [Hmax Hn]. exists t'. rewrite Hmax. eauto.
  - exists t. eauto using inserts_lookup.
  - exfalso. rewrite Hticks in *. destruct j; csimpl in Hj; [|done]. rewrite Heq in Hi.
    destruct i; csimpl in Hi; simplify_eq. by eapply Hk.
Qed.

Lemma step_ticks s s' : step s s' → (∃ k, ticks s = [k]) → ∃ k, ticks s' = [k].
Proof.
  intros Hstep [k Hk]. destruct Hstep as [| | | i| i| i| i| i| i| | | | | ]; csimpl; rewrite ?Hk in *; eauto;
    destruct i; csimpl; eauto.
Qed.

Lemma attempts_inv_step s s' : step s s' → attempts_inv s → attempts_inv s'.
Proof.
  intros Hstep Hinv. pose proof Hinv as (Hone & Hrow & Hsp & Hfin). pose proof (step_control _ _ _ _ Hstep) as Hctl.
  split; [by eapply step_ticks|]. split_and!.
  - intros id t' Ht'. destruct (step_rows _ _ _ _ Hstep) as [[Hrc _]|(x & r & st & Hins)].
    + specialize (Hrc id). destruct (rows (db s) !! id) as [t|] eqn:Ht; [|congruence].
      destruct Hrc as (t2 & ? & Hch). simplify_eq. by eapply row_change_below.
    + destruct Hins as (Hid & Hmax & Hr & _). rewrite Hr in Ht'.
      apply lookup_insert_Some in Ht' as [[<- <-]|[_ Ht']]; [|eauto]. unfold below. csimpl. lia.
  - intros id c Hc. destruct (ctl_spawning_tick _ _ Hctl _ _ Hc) as [Hold|(t & Ht & Hst & -> & Ht')].
    + destruct (Hsp _ _ Hold) as (Hle & Hex). split; [done|]. eapply flight_below; eauto.
      destruct Hc as (i & n & fl & Hi). exists i, (Spawning n fl id c). by split.
    + destruct (Hrow _ _ Ht) as [_ Hlt]. unfold waits in Hlt. unfold claimed. csimpl.
      split; [specialize (Hlt ltac:(tauto)); lia|]. exists (claimed t). split_and!; [done|done|]. below_tac.
  - intros id t0 Hf. destruct (ctl_finalizing _ _ Hctl _ _ _ Hf) as [Hold|(Ht & Hst & _ & Hr & Hlt)].
    + destruct (Hfin _ _ Hold) as (Hle & Hex). split; [done|]. eapply flight_below; eauto.
      destruct Hf as (i & fs & Hi & _). exists i, (Finalizing fs). by split.
    + split; [auto|]. exists t0. rewrite Hr. split_and!; [done|done|]. below_tac.
Qed.

(** C12. With one tick running, however its transactions interleave with eager
    spawns, tools, session ends, failed writes and crashes, no task is given
    more attempts than [max_attempts], and a task on offer has one left. *)
Theorem attempts_bounded s id t :
  reachable loads py_str 1 s → rows (db s) !! id = Some t →
  (attempt_count t <= max_attempts t)%Z ∧ (status t = ready → attempt_count t < max_attempts t)%Z.
Proof.
  intros Hreach Ht. cut (attempts_inv s).
  { intros (_ & Hrow & _). destruct (Hrow _ _ Ht) as [? Hw]. split; [done|]. intros Hst. apply Hw. right. by left. }
  clear id t Ht. eapply rtc_preserve; [|exact Hreach|]; [by intros ? ? ? ?; eapply attempts_inv_step|].
  split; [eauto|]. split_and!; [done| |]; intros id ?.
  - intros ([|i] & ? & ? & Hi); csimpl in Hi; simplify_eq.
  - intros ([|i] & ? & Hi & _); csimpl in Hi; simplify_eq.
Qed.
End attempts.

(** ** Parents first *)

Definition parents_ever (s : Sys) (id : Z) : Prop := ∀ p, (p, id) ∈ links (db s) → p ∈ ever_done s.

Definition started_status (st : TaskStatus) : Prop := st ≠ todo ∧ st ≠ cancelled.

(** In flight: a claim, or a finalize decision, that some process holds. *)
Definition in_flight (s : Sys) (id : Z) : Prop :=
  id ∈ spawning s ∨ (∃ c, spawning_tick s id c) ∨ (∃ t0 f, finalizing s id t0 f).

Definition parents_inv (s : Sys) : Prop :=
  (∀ id t, rows (db s) !! id = Some t → started_status (status t) → parents_ever s id) ∧
  (∀ id, in_flight s id → is_Some (rows (db s) !! id) ∧ parents_ever s id) ∧
  (∀ p id, (p, id) ∈ links (db s) → is_Some (rows (db s) !! p) ∧ is_Some (rows (db s) !! id)) ∧
  done_ids (db s) ⊆ ever_done s.

(** Nothing holds the row. *)
Definition quiet (s : Sys) (id : Z) : Prop := ¬ in_flight s id.

Lemma done_ids_elem d id t : rows d !! id = Some t → status t = done_ → id ∈ done_ids d.
Proof. intros Ht Hs. apply elem_of_dom. exists t. by apply map_lookup_filter_Some. Qed.

Lemma all_parents_done_ever s id :
  all_parents_done (db s) id = true → (∀ p, (p, id) ∈ links (db s) → is_Some (rows (db s) !! p)) →
  done_ids (db s) ⊆ ever_done s → parents_ever s id.
Proof.
  intros Hall Hex Hd p Hp. destruct (Hex p Hp) as [t Ht]. apply Hd. eapply done_ids_elem; [done|].
  unfold all_parents_done in Hall. rewrite forallb_forall in Hall. specialize (Hall p). rewrite Ht in Hall.
  apply (bool_decide_eq_true_1 _). apply Hall, list_elem_of_In. unfold parents_of. apply list_elem_of_omap.
  exists (p, id). csimpl. by rewrite Z.eqb_refl.
Qed.

(** A row that is worked on was in flight or started before, or is promoted. *)
Lemma change_started s id t t' :
  change s id t t' → started_status (status t') →
  started_status (status t) ∨ in_flight s id ∨ all_parents_done (db s) id = true.
Proof.
  unfold started_status, in_flight.
  destruct 1 as [ | ? | ? | ? | ? | t0 f Hf | c Hc ? | c why Hc | a ? ? | ? | | ]; csimpl; intros [H1 H2]; eauto 6.
  all: try (left; split; congruence). eauto 8.
Qed.

Section parents.
Context (loads : string → option pyval) (py_str : pyval → string).
Implicit Types s : Sys.
Notation step := (step loads py_str).

(** A flight of the next state is one of this state, or starts from a row that
    is ready or running with a session. *)
Lemma step_in_flight s s' id :
  step s s' → in_flight s' id →
  in_flight s id ∨
  ∃ t, rows (db s) !! id = Some t ∧ (status t = ready ∨ status t = running ∧ is_Some (current_session_id t)).
Proof.
  intros Hstep%step_control. intros [H|[[c H]|(t0 & f & H)]]; unfold in_flight.
  - apply (ctl_spawning _ _ Hstep) in H as [|(t & ? & ? & _)]; eauto 7.
  - apply (ctl_spawning_tick _ _ Hstep) in H as [|(t & ? & ? & _)]; eauto 7.
  - apply (ctl_finalizing _ _ Hstep) in H as [|(? & ? & ? & _)]; eauto 8.
Qed.

Lemma parents_ever_step s s' id :
  step s s' → is_Some (rows (db s) !! id) → parents_ever s id → parents_ever s' id.
Proof.
  intros Hstep [t Ht] Hp p Hl. apply (ctl_ever _ _ (step_control _ _ _ _ Hstep)), Hp.
  destruct (step_rows _ _ _ _ Hstep) as [[_ <-]|(x & r & st & Hid & _ & _ & Hlinks & _)]; [done|].
  rewrite Hlinks, elem_of_app, list_elem_of_fmap in Hl. destruct Hl as [|(? & ? & _)]; [done|]. simplify_eq.
Qed.

Lemma step_keeps_rows s s' id : step s s' → is_Some (rows (db s) !! id) → is_Some (rows (db s') !! id).
Proof.
  intros Hstep [t Ht]. destruct (step_rows _ _ _ _ Hstep) as [[Hrc _]|(x & r & st & Hins)].
  - specialize (Hrc id). rewrite Ht in Hrc. destruct Hrc as (t' & -> & _). eauto.
  - rewrite (inserts_lookup _ _ _ _ _ _ _ Hins Ht). eauto.
Qed.

Lemma parents_inv_step s s' : step s s' → parents_inv s → parents_inv s'.
Proof.
  intros Hstep (Hrow & Hfl & Hlinks & Hd). pose proof (step_control _ _ _ _ Hstep) as Hctl.
  assert (Hstart : ∀ id t, rows (db s) !! id = Some t → started_status (status t) → parents_ever s' id).
  { intros id t Ht Hst. eapply parents_ever_step; eauto. }
  split_and!.
  - intros id t' Ht' Hst. destruct (step_rows _ _ _ _ Hstep) as [[Hrc _]|(x & r & st & Hins)].
    + specialize (Hrc id). destruct (rows (db s) !! id) as [t|] eqn:Ht; [|congruence].
      destruct Hrc as (t2 & ? & Hch). simplify_eq.
      destruct (change_started _ _ _ _ Hch Hst) as [?|[Hf|Hall]]; [eauto| |];
        (eapply parents_ever_step; [done|eauto|]); [by apply Hfl|].
      apply all_parents_done_ever; try done. intros p ?%Hlinks. tauto.
    + pose proof Hins as (Hid & _ & Hr & Hl & Hps & Hready). rewrite Hr in Ht'.
      apply lookup_insert_Some in Ht' as [[<- <-]|[_ Ht']]; [|eauto].
      destruct Hready as [->|[-> Hready]]; [by destruct Hst|]. intros p Hp.
      rewrite Hl, elem_of_app, list_elem_of_fmap in Hp. destruct Hp as [Hp|(? & ? & Hp)].
      * apply Hlinks in Hp as [_ [??]]. congruence.
      * simplify_eq. destruct (Hps _ Hp) as [tp Htp].
        apply (ctl_ever _ _ Hctl), Hd. eapply done_ids_elem; eauto.
  - intros id Hf. assert (H : is_Some (rows (db s) !! id) ∧ parents_ever s id).
    { destruct (step_in_flight _ _ _ Hstep Hf) as [|(t & Ht & Hst)]; [by apply Hfl|].
      split; [eauto|]. eapply Hrow; [done|]. unfold started_status. intuition congruence. }
    destruct H. split; [by eapply step_keeps_rows|by eapply parents_ever_step].
  - intros p id Hp. destruct (step_rows _ _ _ _ Hstep) as [[_ Hl]|(x & r & st & Hins)].
    + rewrite Hl in Hp. apply Hlinks in Hp as []. split; by eapply step_keeps_rows.
    + pose proof Hins as (_ & _ & Hr & Hl & Hps & _).
      rewrite Hl, elem_of_app, list_elem_of_fmap in Hp. destruct Hp as [Hp|(? & ? & Hp)].
      * apply Hlinks in Hp as []. split; by eapply step_keeps_rows.
      * simplify_eq. split; [by eapply step_keeps_rows; [|apply Hps]|]. rewrite Hr, lookup_insert_eq. eauto.
  - by apply (ctl_done _ _ Hctl).
Qed.

Lemma parents_inv_reachable n s : reachable loads py_str n s → parents_inv s.
Proof.
  intros Hreach. eapply rtc_preserve; [|exact Hreach|]; [by intros ? ? ? ?; eapply parents_inv_step|].
  split_and!; try done.
  - intros id [H|[(c & i & m & fl & H)|(t0 & f & i & fs & H & _)]]; csimpl in H; [by apply elem_of_nil in H| |];
      apply lookup_replicate in H as []; simplify_eq.
  - intros p id H. by apply elem_of_nil in H.
Qed.

(** C13. However many ticks run and whatever interleaves, a task that is neither
    [todo] nor [cancelled], or that some process holds a claim on, has every
    parent it was given done before. *)
Theorem parents_done_first n s id p :
  reachable loads py_str n s → (p, id) ∈ links (db s) →
  (∃ t, rows (db s) !! id = Some t ∧ started_status (status t)) ∨ in_flight s id → p ∈ ever_done s.
Proof.
  intros (Hrow & Hfl & _)%parents_inv_reachable Hp [(t & Ht & Hst)|Hf]; [by eapply Hrow|by apply (Hfl id Hf)].
Qed.

(** ** Rows nothing holds *)

Lemma quiet_step s s' id t :
  step s s' → rows (db s) !! id = Some t → status t ≠ ready → (status t = running → current_session_id t = None) →
  quiet s id → quiet s' id.
Proof.
  intros Hstep Ht Hr Hs Hq Hf. destruct (step_in_flight _ _ _ Hstep Hf) as [|(t2 & ? & [?|[Hrun [x ?]]])]; [done| |];
    simplify_eq. by rewrite (Hs Hrun) in *.
Qed.

Lemma quiet_change s s' id t :
  step s s' → rows (db s) !! id = Some t → quiet s id → status t ≠ ready → status t ≠ todo → status t ≠ blocked →
  (status t = running → current_session_id t = None) →
  rows (db s') !! id = Some t ∨ (is_terminal (status t) = false ∧ rows (db s') !! id = Some (cancelled_row t)).
Proof.
  intros Hstep Ht Hq H1 H2 H3 Hs. destruct (step_rows _ _ _ _ Hstep) as [[Hrc _]|(x & r & st & Hins)];
    [|left; by eapply inserts_lookup].
  specialize (Hrc id). rewrite Ht in Hrc. destruct Hrc as (t' & -> & Hch). unfold quiet, in_flight in Hq.
  destruct Hch as [ | ? | ? | ? | ? | t0 f Hf | c Hc ? | c why Hc | a ? ? | ? | ? ? Hr [? ?] | ? Hr [? ?] ];
    try congruence; eauto; try (exfalso; apply Hq; eauto; fail).
  { exfalso. apply Hq. tauto. }
  all: specialize (Hs Hr); congruence.
Qed.

(** A done, failed or cancelled task that no process holds a claim or a
    decision on keeps its row as it is, for good. *)
Theorem terminal_for_good s s' id t :
  rtc step s s' → rows (db s) !! id = Some t → is_terminal (status t) = true → quiet s id →
  rows (db s') !! id = Some t ∧ quiet s' id.
Proof.
  intros Hrun Ht Hterm Hq.
  assert (Hst : status t ≠ ready ∧ status t ≠ todo ∧ status t ≠ blocked ∧ status t ≠ running)
    by (destruct (status t); split_and!; done).
  destruct Hst as (? & ? & ? & ?).
  apply (rtc_preserve step (λ s, rows (db s) !! id = Some t ∧ quiet s id) s s'); [|done|done].
  intros a b Hab [Ha Hqa]. split; [|by eapply quiet_step].
  edestruct quiet_change as [|[? _]]; [exact Hab|exact Ha|done..|congruence].
Qed.

(** A claim whose first session pointer was never written, by a failed
    write or a crash of its process, is not recovered: whatever ticks and tools
    do, the task stays [running] with no session, until its parent cancels it. *)
Theorem unwired_claim_stuck s s' id t :
  rtc step s s' → rows (db s) !! id = Some t → status t = running → current_session_id t = None → quiet s id →
  rows (db s') !! id = Some t ∨ rows (db s') !! id = Some (cancelled_row t).
Proof.
  intros Hrun Ht Hst Hc Hq.
  cut ((rows (db s') !! id = Some t ∨ rows (db s') !! id = Some (cancelled_row t)) ∧ quiet s' id); [by intros []|].
  apply (rtc_preserve step (λ s, (rows (db s) !! id = Some t ∨ rows (db s) !! id = Some (cancelled_row t)) ∧ quiet s id) s s');
    [|done|by split; [left|]].
  intros a b Hab [[Ha|Ha] Hqa]; (split; [|eapply quiet_step; try done; csimpl; congruence]).
  - edestruct quiet_change as [|[? ?]]; [exact Hab|exact Ha|try done; congruence..| |]; auto.
  - edestruct quiet_change as [|[? _]]; [exact Hab|exact Ha|done..| |done]. auto.
Qed.
End parents.

(** ** What overlapping transactions can undo *)

Lemma rows_spawn_raises d id c why :
  (attempt_count c < max_attempts c)%Z →
  rows (end_claim d id c (SpawnRaises why true)) = alter (λ t, set_status t ready) id (rows d).
Proof. intros Hlt. csimpl. unfold retry_or_block. by rewrite (proj2 (Z.leb_gt _ _) Hlt). Qed.

(** One step from a concrete state, to its value. *)
Ltac taken :=
  first [vm_compute; reflexivity | vm_compute; discriminate | vm_compute; set_solver].
Tactic Notation "run_to" uconstr(c) :=
  eapply rtc_l; [eapply c; taken|];
  match goal with |- rtc _ ?s _ => let v := eval vm_compute in s in replace s with v by (vm_compute; reflexivity) end.

Section races.
Context (loads : string → option pyval) (py_str : pyval → string).
Notation step := (step loads py_str).

(** A cancel accepted while a tick spawns the task's session is undone when
    the spawn raises with attempts left: the rollback writes [ready] whatever
    the row says, and the task is on offer again. *)
Theorem cancel_undone s i n fl id c t arguments why :
  ticks s !! i = Some (Spawning n fl id c) → rows (db s) !! id = Some t → status t = running →
  (attempt_count c < max_attempts c)%Z → arg_task_id py_str arguments = Ok id →
  ∃ s1 s2, step s s1 ∧ step s1 s2 ∧
    (cancel_task py_str (db s) (parent_session_id t) arguments).2 = Ok id ∧
    status <$> rows (db s1) !! id = Some cancelled ∧
    s2 = set_tick (commit s1 (end_claim (db s1) id c (SpawnRaises why true))) i (Enqueuing n (id :: fl)) ∧
    status <$> rows (db s2) !! id = Some ready.
Proof.
  intros Hi Ht Hst Hlt Harg.
  set (s1 := commit s (cancel_task py_str (db s) (parent_session_id t) arguments).1).
  set (s2 := set_tick (commit s1 (end_claim (db s1) id c (SpawnRaises why true))) i (Enqueuing n (id :: fl))).
  assert (Hc : rows (db s1) = alter cancelled_row id (rows (db s)) ∧
               (cancel_task py_str (db s) (parent_session_id t) arguments).2 = Ok id).
  { unfold s1, cancel_task. rewrite Harg, Ht, Z.eqb_refl, Hst. csimpl. by destruct (current_session_id t). }
  destruct Hc as [Hr1 Hans].
  exists s1, s2. split_and!; try done.
  - apply step_cancel.
  - unfold s2. change (id :: fl) with (if spawn_failed (SpawnRaises why true) then id :: fl else fl).
    by apply step_end_claim with (i := i).
  - rewrite Hr1, lookup_alter_eq, Ht. done.
  - unfold s2. cbn [db set_tick commit]. rewrite rows_spawn_raises by done.
    rewrite Hr1, !lookup_alter_eq, Ht. done.
Qed.

(** A run of two ticks: the first attempt's session fails, one tick claims the
    retry, and before it has wired the new session the other finalizes the row
    by the old one. *)
Definition retry_request : SpawnRequest := mk_spawn "work" None None 2 [] 5 1 None.
Definition first_sessions (status : string) : gmap Z Sess := {[ 11%Z := mk_sess (Some 1%Z) status [] ]}.

(** Two ticks that overlap lose a retry: a task with an attempt left over
    is reported failed while the session of that attempt is queued and live,
    and what the session then hands in is refused. *)
Theorem overlapping_ticks_lose_retry :
  ∃ s t, reachable loads py_str 2 s ∧ rows (db s) !! 1%Z = Some t ∧ status t = failed ∧
    current_session_id t = Some 12%Z ∧ session_status <$> sessions (db s) !! 12%Z = Some "active" ∧
    12%Z ∈ queue (db s) ∧ (5%Z, "task.failed", 1%Z) ∈ told (db s) ∧
    (own_task (db s) 12%Z = Raise (WrongStatus failed)).
Proof.
  eexists _, _. split.
  { unfold reachable.
    run_to (step_insert loads py_str _ 1 retry_request true true).
    run_to (step_eager_claim loads py_str _ 1).
    run_to (step_eager_end loads py_str _ 1 (EagerSpawned 11 true)).
    run_to (step_sessions loads py_str _ (first_sessions "failed")).
    run_to (step_promote loads py_str _ 0).
    run_to (step_finalize_read loads py_str _ 0).
    run_to (step_finalize_write loads py_str _ 0).
    run_to (step_claim loads py_str _ 0 9 [] 1).
    run_to (step_promote loads py_str _ 1).
    run_to (step_finalize_read loads py_str _ 1).
    run_to (step_finalize_write loads py_str _ 1).
    run_to (step_end_claim loads py_str _ 0 9 [] 1 _ (Spawned 12 true)).
    apply rtc_refl. }
  split_and!; vm_compute; try reflexivity; set_solver.
Qed.
End races.

(** ** The finalize step *)

(** No event of the log says how the attempt ended. *)
Definition no_outcome (log : list TEvent) : Prop := Forall (λ e, event_outcome e = None) log.

Lemma last_outcome_app l1 l2 : no_outcome l1 → last_outcome (l1 ++ l2) = last_outcome l2.
Proof. induction 1 as [|e l He _ IH]; csimpl; [done|]. by rewrite He. Qed.

Lemma no_outcome_rev l : no_outcome l → no_outcome (rev l).
Proof. unfold no_outcome. rewrite !Forall_forall. intros H e He. apply H. by apply elem_of_rev. Qed.

Lemma classify_last pre e post o st :
  no_outcome post → event_outcome e = Some o → classify_attempt_outcome (pre ++ e :: post) st = (o, Some e).
Proof.
  intros Hpost He. unfold classify_attempt_outcome. rewrite rev_app_distr. csimpl.
  rewrite <- !(assoc_L (++)), last_outcome_app by by apply no_outcome_rev. csimpl. by rewrite He.
Qed.

Lemma classify_none log st :
  no_outcome log →
  classify_attempt_outcome log st = if decide (st = Some "completed") then (COMPLETED, last_llm_response log) else (CRASHED, None).
Proof.
  intros H. unfold classify_attempt_outcome. rewrite <- (app_nil_r (rev log)), last_outcome_app by by apply no_outcome_rev.
  done.
Qed.

Lemma told_notified l d id t :
  (id, (t, FinalFailed)) ∈ l →
  (parent_session_id t, "task.failed", id) ∈
    told (foldl (λ d (p : Z * (Task * final)),
           match p.2.2 with
           | FinalFailed => notify_parent_of_task_event d (parent_session_id p.2.1) "task.failed" p.1
           | _ => d
           end) d l).
Proof.
  assert (Hkeep : ∀ l d x, x ∈ told d → x ∈ told (foldl (λ d (p : Z * (Task * final)),
           match p.2.2 with
           | FinalFailed => notify_parent_of_task_event d (parent_session_id p.2.1) "task.failed" p.1
           | _ => d
           end) d l)).
  { clear. induction l as [|[j [t []]] l IH]; intros d x Hx; csimpl; eauto. apply IH. csimpl. apply elem_of_app. by left. }
  revert d. induction l as [|p l IH]; intros d Hin; [by apply elem_of_nil in Hin|].
  apply elem_of_cons in Hin as [<-|Hin]; csimpl; [|by apply IH].
  apply Hkeep. csimpl. apply elem_of_app. right. by left.
Qed.

Section finalized.
Context (loads : string → option pyval) (py_str : pyval → string).
Notation finalize := (finalize_ended_sessions loads py_str).

Lemma finalize_lookup d id t session se :
  rows d !! id = Some t → status t = running → current_session_id t = Some session → sessions d !! session = Some se →
  session_status se ∈ ENDED_SESSION_STATUSES →
  rows (finalize d) !! id = Some (finalize_row t (final_of loads py_str t se) t) ∧
  (final_of loads py_str t se = FinalFailed → (parent_session_id t, "task.failed", id) ∈ told (finalize d)).
Proof.
  intros Ht Hst Hs Hse Hend. unfold finalize_ended_sessions.
  assert (Hf : finalize_read loads py_str d !! id = Some (t, final_of loads py_str t se)).
  { unfold finalize_read. rewrite map_lookup_imap, Ht. csimpl. rewrite decide_True by done. rewrite Hs. csimpl.
    rewrite Hse. by rewrite decide_True. }
  split.
  - destruct (rows_finalize_write d (finalize_read loads py_str d)) as [-> _]. rewrite map_lookup_imap, Ht. csimpl.
    unfold final_row. by rewrite Hf.
  - intros Hfail. apply told_notified, elem_of_map_to_list. by rewrite Hf, Hfail.
Qed.

(** A finalize pass settles a running task whose session ended by the last
    outcome event of its log: [worker.complete] makes it done with that event's
    result; [task.blocked] leaves it; without one, a session that completed
    makes it done with the last response, and any other is retried while
    attempts remain and else failed, its parent told.  A row that is not running
    or whose session has not ended is left as it is. *)
Theorem finalize_outcome d id t session se :
  rows d !! id = Some t → current_session_id t = Some session → sessions d !! session = Some se →
  let t' := rows (finalize d) !! id in
  let result_of := extract_result_from_completion_event loads py_str in
  let finished r := Some (set_times (set_result (set_status t done_) r (result_metadata t)) (started t) true) in
  if decide (status t = running ∧ session_status se ∈ ENDED_SESSION_STATUSES) then
    (∀ pre e post, log_of se = pre ++ e :: post → no_outcome post →
       (event_outcome e = Some COMPLETED → t' = finished (result_of (Some e))) ∧
       (event_outcome e = Some BLOCKED → t' = Some t)) ∧
    (no_outcome (log_of se) → session_status se = "completed" → t' = finished (result_of (last_llm_response (log_of se)))) ∧
    (no_outcome (log_of se) → session_status se ≠ "completed" →
       if decide (attempt_count t < max_attempts t)%Z then t' = Some (set_status t ready)
       else t' = Some (set_times (set_status t failed) (started t) true) ∧
            (parent_session_id t, "task.failed", id) ∈ told (finalize d))
  else t' = Some t.
Proof.
  intros Ht Hs Hse. csimpl. case_decide as Hd.
  - destruct Hd as [Hst Hend]. destruct (finalize_lookup _ _ _ _ _ Ht Hst Hs Hse Hend) as [-> Htold].
    unfold final_of in *. split_and!.
    + intros pre e post -> Hpost. split; intros He; rewrite (classify_last _ _ _ _ _ Hpost He); [|done].
      csimpl. by case_decide as Hr; rewrite ?Hr.
    + intros Hlog Hc. rewrite (classify_none _ _ Hlog), Hc. csimpl. by case_decide as Hr; rewrite ?Hr.
    + intros Hlog Hc. assert (Hcl : classify_attempt_outcome (log_of se) (Some (session_status se)) = (CRASHED, None)).
      { rewrite (classify_none _ _ Hlog). by rewrite decide_False by congruence. }
      rewrite Hcl in *.
      destruct (Z.leb_spec (max_attempts t) (attempt_count t)); case_decide; try lia; [|done].
      split; [done|]. by apply Htold.
  - unfold finalize_ended_sessions.
    destruct (rows_finalize_write d (finalize_read loads py_str d)) as [-> _]. rewrite map_lookup_imap, Ht. csimpl.
    unfold final_row, finalize_read. rewrite map_lookup_imap, Ht. csimpl. rewrite Hs. csimpl. rewrite Hse.
    case_decide; [|done]. case_decide; [|done]. exfalso. by apply Hd.
Qed.
End finalized.

(** ** Concrete runs *)

Definition no_json (s : string) : option pyval := None.
Definition plain_str (v : pyval) : string := match v with VStr s => s | _ => "?" end.

Lemma attempts_bounded_witness :
  ∃ s t, reachable no_json plain_str 1 s ∧ rows (db s) !! 1%Z = Some t ∧ attempt_count t = 1%Z ∧
    ((attempt_count t <= max_attempts t)%Z ∧ (status t = ready → attempt_count t < max_attempts t)%Z).
Proof.
  assert (H : ∃ s t, reachable no_json plain_str 1 s ∧ rows (db s) !! 1%Z = Some t ∧ attempt_count t = 1%Z).
  { eexists _, _. split; [unfold reachable|].
    { run_to (step_insert no_json plain_str _ 1 retry_request true true).
      run_to (step_eager_claim no_json plain_str _ 1).
      run_to (step_eager_end no_json plain_str _ 1 (EagerSpawned 11 true)).
      run_to (step_sessions no_json plain_str _ (first_sessions "failed")).
      run_to (step_promote no_json plain_str _ 0).
      run_to (step_finalize_read no_json plain_str _ 0).
      run_to (step_finalize_write no_json plain_str _ 0).
      apply rtc_refl. }
    split; vm_compute; reflexivity. }
  destruct H as (s & t & Hr & Ht & Ha). exists s, t. split_and!; [done|done|done| |].
  - by eapply (attempts_bounded no_json plain_str s).
  - by eapply (attempts_bounded no_json plain_str s).
Defined.

Lemma parents_done_first_witness :
  ∃ s, reachable no_json plain_str 3 s ∧ (1%Z, 2%Z) ∈ links (db s) ∧ 1%Z ∈ ever_done s.
Proof.
  assert (H : ∃ s, reachable no_json plain_str 3 s ∧ (1%Z, 2%Z) ∈ links (db s) ∧
                   ∃ t, rows (db s) !! 2%Z = Some t ∧ started_status (status t)).
  { eexists _. split; [unfold reachable|].
    { run_to (step_insert no_json plain_str _ 1 retry_request true true).
      run_to (step_eager_claim no_json plain_str _ 1).
      run_to (step_eager_end no_json plain_str _ 1 (EagerSpawned 11 true)).
      run_to (step_complete no_json plain_str _ 11 (VDict [("summary", VStr "made")])).
      run_to (step_insert no_json plain_str _ 2 (mk_spawn "next" None None 3 [1%Z] 5 1 None) true true).
      apply rtc_refl. }
    split; [vm_compute; set_solver|]. eexists. split; [vm_compute; reflexivity|]. split; vm_compute; discriminate. }
  destruct H as (s & Hr & Hl & Ht). exists s. split_and!; [done|done|].
  apply (parents_done_first no_json plain_str 3 s 2 1); auto.
Defined.

(** A database of one task, with nothing in flight. *)
Definition lone (t : Task) : Sys := mk_sys (mk_db {[ 1%Z := t ]} [] ∅ [] [] []) [Idle] [] [] ∅.

Lemma lone_quiet t id : quiet (lone t) id.
Proof.
  intros [H|[(c & [|i] & n & fl & H)|(t0 & f & [|i] & fs & H & _)]]; csimpl in H; simplify_eq. by apply elem_of_nil in H.
Qed.

Lemma terminal_for_good_witness :
  let t := set_status (new_task retry_request ready) done_ in
  let s' := set_tick (commit (lone t) (promote (db (lone t)))) 0 Promoted in
  rows (db s') !! 1%Z = Some t ∧ quiet s' 1.
Proof.
  intros t s'. apply (terminal_for_good no_json plain_str (lone t) s' 1 t); [|reflexivity|reflexivity|apply lone_quiet].
  apply rtc_once, step_promote. reflexivity.
Defined.

Lemma unwired_claim_stuck_witness :
  let t := claimed (new_task retry_request ready) in
  let s' := set_tick (commit (lone t) (promote (db (lone t)))) 0 Promoted in
  rows (db s') !! 1%Z = Some t ∨ rows (db s') !! 1%Z = Some (cancelled_row t).
Proof.
  intros t s'. apply (unwired_claim_stuck no_json plain_str (lone t) s' 1 t);
    [|reflexivity|reflexivity|reflexivity|apply lone_quiet].
  apply rtc_once, step_promote. reflexivity.
Defined.

Lemma cancel_undone_witness :
  let t := claimed (new_task retry_request ready) in
  let s := set_tick (lone t) 0 (Spawning 9 [] 1 t) in
  ∃ s1 s2, step no_json plain_str s s1 ∧ step no_json plain_str s1 s2 ∧
    status <$> rows (db s1) !! 1%Z = Some cancelled ∧ status <$> rows (db s2) !! 1%Z = Some ready.
Proof.
  intros t s.
  destruct (cancel_undone no_json plain_str s 0 9 [] 1 t t (VDict [("task_id", VStr (uuid_str 1))]) "no disk")
    as (s1 & s2 & ? & ? & _ & ? & _ & ?); try (vm_compute; reflexivity).
  by exists s1, s2.
Defined.

Definition failing_db : DB :=
  mk_db {[ 1%Z := set_session (claimed (new_task retry_request ready)) (Some 11%Z) ]} [] (first_sessions "failed") [] [] [].

Lemma finalize_outcome_witness :
  status <$> rows (finalize_ended_sessions no_json plain_str failing_db) !! 1%Z = Some ready.
Proof.
  pose proof (finalize_outcome no_json plain_str failing_db 1
    (set_session (claimed (new_task retry_request ready)) (Some 11%Z)) 11
    (mk_sess (Some 1%Z) "failed" []) eq_refl eq_refl eq_refl) as H.
  cbv zeta in H. rewrite decide_True in H by (split; [reflexivity|right; left]).
  destruct H as (_ & _ & H). specialize (H ltac:(constructor) ltac:(discriminate)).
  rewrite decide_True in H by (vm_compute; reflexivity). by rewrite H.
Defined.
