(* ===== verification/ToolFilter.v ===== *)
(** * The tools a session is offered (harness/loop.py, orchestrator/worker.py)

    [_tool_filter_for_session], which decides the schemas the model is sent, and
    [_filter_effective_tools], which decides what its prompt says it has; the
    coordinator sets of tools/builtin/coordinator.py, the case gate of
    keel/steps.py, and the config a task's worker is made with (tasks/spawn.py).

    Validation of a case's records is pydantic's, a parameter. *)

From S2P Require Import Prelude.
From S2P Require Import PyStr.
From S2P Require Import Governance.
From S2P Require Import RuntimeGovernance.
From stdpp Require Import options.

(** A session, and its config ([None] where it is [VNone]). *)
Record Session := mk_session {
  config : pyval;
  session_task_id : option Z;
  parent_id : option Z;
  channel : option string
}.

Definition cfg (s : Session) (key : string) : pyval := py_get (config s) key VNone.
Definition cfg_on (s : Session) (key : string) : bool := truthy (cfg s key).

(** [set(value or [])] of a list of names. *)
Definition names_in (v : pyval) : gset string :=
  match v with
  | VList l => list_to_set (omap (λ x, match x with VStr n => Some n | _ => None end) l)
  | _ => ∅
  end.

(** ** What kind of session it is *)

Definition workstream_role (c : pyval) (role : string) : bool :=
  match py_get c "workstream_role" VNone with VStr r => String.eqb r role | _ => false end.
Definition is_project_master (c : pyval) : bool := workstream_role c "coordinator".
Definition is_project_thread (c : pyval) : bool := workstream_role c "thread".

(** [device_of(config) is not None] *)
Definition on_device (c : pyval) : bool :=
  match py_get c "execution" VNone with
  | VDict kvs => match py_get (VDict kvs) "kind" VNone with VStr k => String.eqb k "device" | _ => false end
  | _ => false
  end.

Definition HELPER_CHANNELS : list string := ["delegation"; "worker"; "task"].
Definition ANONYMOUS_CHANNELS : list string := ["website"].

Inductive session_kind := Scheduled | Helper | Person.
#[global] Instance session_kind_eq_dec : EqDecision session_kind.
Proof. solve_decision. Defined.

Definition channel_in (s : Session) (cs : list string) : bool :=
  match channel s with Some c => bool_decide (c ∈ cs) | None => false end.

Definition channel_kind (s : Session) : session_kind :=
  if channel_in s ["scheduled"] || cfg_on s "scheduled_session_id" then Scheduled
  else if channel_in s HELPER_CHANNELS && negb (is_project_thread (config s)) then Helper
  else Person.
Definition is_unattended (s : Session) : bool := negb (bool_decide (channel_kind s = Person)).

(** The server's [memory_boundary] stamp. *)
Definition boundary (s : Session) : string :=
  match cfg s "memory_boundary" with VStr b => strip b | _ => "" end.
Definition is_eval_session (s : Session) : bool := startswith (boundary s) "eval:".
Definition is_case_session (s : Session) : bool := startswith (boundary s) "case:".

Definition is_rerun_session (s : Session) : bool :=
  is_case_session s &&
  match cfg s "case_rerun" with
  | VDict kvs => match py_get (VDict kvs) "kind" VNone with VStr k => bool_decide (k ∈ ["rerun"; "trial"]) | _ => false end
  | _ => false
  end.

Definition effective_channel_platform (s : Session) : string :=
  match channel s with
  | Some c => if String.eqb c "ambient" then "slack" else c
  | None => ""
  end.

(** What a config's case records validate as: a step's contract, a work item's,
    the work tools a scope names, and a case agent's case and subject. *)
Class CaseModels := {
  step_contract : pyval → bool;
  item_contract : pyval → bool;
  scope_tools : pyval → option (list string);
  agent_ref : pyval → option (string * string)
}.

(** ** Sets of tools *)

Definition set_of (l : list string) : gset string := list_to_set l.

Definition WORKER_EXCLUDED_TOOLS : gset string :=
  set_of ["spawn_worker"; "send_worker_message"; "stop_worker"; "spawn_task"; "unblock_task"; "cancel_task"].
Definition COORDINATOR_IMPLEMENTATION_TOOLS : gset string := set_of
  ["read_file"; "write_file"; "patch"; "list_files"; "search_files"; "office_read"; "office_edit"; "terminal"; "process";
   "web_search"; "web_extract"; "browser_click"; "browser_close"; "browser_drag"; "browser_evaluate";
   "browser_get_state"; "browser_navigate"; "browser_press_key"; "browser_screenshot"; "browser_scroll"; "browser_type";
   "browser_upload_file"; "browser_wait"; "vision_analyze"; "kb_list_pages"; "kb_read_page"; "kb_search_pages";
   "create_artifact"; "worker_block"; "worker_complete"; "worker_context"].
Definition PROJECT_MASTER_OWN_TOOLS : gset string := set_of
  ["read_file"; "search_files"; "list_files"; "write_file"; "patch"; "terminal"; "process"; "kb_list_pages";
   "kb_read_page"; "kb_search_pages"].
Definition PROJECT_MASTER_EXCLUDED_TOOLS : gset string := WORKER_EXCLUDED_TOOLS ∪ set_of ["delegate_task"; "run_coding_agent"].
Definition PROJECT_ON_COMPUTER_EXCLUDED_TOOLS : gset string := set_of ["start_thread"].

Definition RESEARCH_SPINE_TOOLS : gset string := set_of ["idea_tree"; "dispatch_experiments"; "merge_experiment"].
Definition KEEL_CASE_TOOLS : gset string :=
  set_of ["case_read"; "case_history"; "case_files"; "case_file_read"; "case_draft_form"].
Definition KEEL_PROCESS_TOOLS : gset string :=
  set_of ["process_read"; "process_history"; "process_waits"; "process_move_check"; "process_draft_form"].
Definition KEEL_DESIGNER_TOOLS : list string :=
  ["draft_files"; "draft_read"; "draft_main"; "draft_save_file"; "draft_save_scenario"; "draft_dry_run";
   "draft_process_read"; "draft_process_save"; "draft_process_edit"; "draft_process_check"; "draft_process_reference"].
Definition CRON_WRITE_TOOLS : gset string :=
  set_of ["cron_create"; "cron_update"; "cron_pause"; "cron_resume"; "cron_run_now"; "cron_delete"].
Definition CRON_OWN_SCHEDULE_TOOLS : gset string := set_of ["cron_update"; "cron_pause"; "cron_delete"].
Definition OFFICE_TOOLS : gset string := set_of ["office_read"; "office_edit"].
Definition WHITEBOARD_TOOL_NAMES : gset string := set_of ["whiteboard_draw"].

Definition CASE_ALLOWED_LIST : list string :=
  ["read_file"; "write_file"; "patch"; "search_files"; "list_files"; "terminal"; "process"; "browser_navigate";
   "browser_get_state"; "browser_evaluate"; "browser_close"; "browser_click"; "browser_type"; "browser_press_key";
   "browser_scroll"; "browser_drag"; "browser_wait"; "browser_screenshot"; "web_search"; "web_extract"; "memory";
   "kb_list_pages"; "kb_read_page"; "kb_search_pages"; "skills_list"; "skill_view"; "skill_step"; "todo";
   "vision_analyze"; "delegate_task"; "spawn_worker"; "send_worker_message"; "stop_worker"].
Definition CASE_ALLOWED_TOOLS : gset string := set_of CASE_ALLOWED_LIST.
Definition CASE_AGENT_REFUSED : gset string := set_of
  ["skills_list"; "skill_view"; "skill_step"; "terminal"; "process"; "write_file"; "patch"; "office_read"; "office_edit";
   "delegate_task"; "spawn_worker"; "send_worker_message"; "stop_worker"].
Definition RERUN_REFUSED : gset string :=
  set_of (["terminal"; "process"] ++ filter (λ n, startswith n "browser_" = true) CASE_ALLOWED_LIST).
Definition ALWAYS_KEPT : gset string := set_of
  ["kb_list_pages"; "kb_read_page"; "kb_search_pages"; "skills_list"; "skill_view"; "memory"; "read_file"; "list_files";
   "search_files"; "todo"].

Definition is_mcp (name : string) : bool := startswith name "mcp__".

(** ** The harness *)

Record Harness := mk_harness {
  registered : gset string;
  mcp_tool_names : gset string;
  composio_tool_names : gset string;
  entitlement_excluded : gset string;
  governance_gate : option Gate;
  intake : bool;
  code_enabled : bool;
  graph_skill : bool
}.

(** A filter: a set of names, or [None] for every registered tool. *)
Notation toolset := (option (gset string)).
Definition spelled (h : Harness) (f : toolset) : gset string := default (registered h) f.

(** [strict_coordinator_excluded] *)
Definition strict_coordinator_excluded (s : Session) : toolset :=
  if cfg_on s "coordinator" && cfg_on s "strict_coordinator" then
    let user_excluded := names_in (cfg s "excluded_tools") in
    let excluded := user_excluded ∪ COORDINATOR_IMPLEMENTATION_TOOLS in
    let excluded :=
      if cfg_on s "active_research_run_id"
      then excluded ∖ (set_of ["read_file"; "search_files"; "list_files"] ∖ user_excluded) else excluded in
    Some (if is_project_master (config s) then
            let excluded := (excluded ∖ (PROJECT_MASTER_OWN_TOOLS ∖ user_excluded)) ∪ PROJECT_MASTER_EXCLUDED_TOOLS in
            if on_device (config s) then excluded ∪ PROJECT_ON_COMPUTER_EXCLUDED_TOOLS else excluded
          else excluded)
  else None.

Definition explicit_allowed (s : Session) : bool := cfg_on s "allowed_tools".

(** The filter the session's config asks for. *)
Definition config_filter (h : Harness) (s : Session) : toolset :=
  if cfg_on s "coordinator" then (λ strict, registered h ∖ strict) <$> strict_coordinator_excluded s
  else if explicit_allowed s then Some (names_in (cfg s "allowed_tools"))
  else Some (registered h ∖ (names_in (cfg s "excluded_tools") ∪ WORKER_EXCLUDED_TOOLS)).

(** Added where the context makes them work, else taken away. *)
Definition gate_group (on : bool) (group r : gset string) : gset string := if on then r ∪ group else r ∖ group.

Definition is_research_coordinator (s : Session) : bool :=
  cfg_on s "active_research_run_id" && bool_decide (session_task_id s = None).

Definition apply_execution_context_gates (h : Harness) (s : Session) (f : toolset) : gset string :=
  let r := spelled h f in
  let r := gate_group (bool_decide (is_Some (session_task_id s))) WORKER_SELF_TOOLS r in
  let r := gate_group (cfg_on s "context_group_id") BOARD_SELF_TOOLS r in
  let r := if is_research_coordinator s then r else r ∖ RESEARCH_SPINE_TOOLS in
  if is_project_master (config s) then r else r ∖ PROJECT_THREAD_TOOLS.

(** The schedule's rules: one of its runs, or not. *)
Definition schedule_gate (h : Harness) (s : Session) (r : gset string) : gset string :=
  if cfg_on s "scheduled_session_id" then
    let r := r ∖ (CRON_WRITE_TOOLS ∖ CRON_OWN_SCHEDULE_TOOLS) in
    let '(on, off) := if cfg_on s "scheduled_dynamic_loop" then ("loop_wait", "loop_complete") else ("loop_complete", "loop_wait") in
    (if decide (on ∈ registered h) then r ∪ {[on]} else r) ∖ {[off]}
  else if explicit_allowed s then r
  else r ∖ set_of ["loop_wait"; "loop_complete"].

Definition apply_mcp_schema_filter (h : Harness) (explicit : bool) (r : gset string) : gset string :=
  if decide (filter (λ t, is_mcp t = true ∧ t ∉ mcp_tool_names h) (registered h) = ∅) then r
  else
    filter (λ t, is_mcp t = false) r ∪
    (if explicit then filter (λ t, is_mcp t = true) r ∩ mcp_tool_names h else mcp_tool_names h ∩ registered h).

Definition drop_project_master_mcp_tools (s : Session) (r : gset string) : gset string :=
  if is_project_master (config s) then filter (λ t, is_mcp t = false) r else r.

(** The part of a name after its last double underscore. *)
Fixpoint after_last_sep (s : string) : option string :=
  match s with
  | EmptyString => None
  | String c s' =>
    match after_last_sep s' with
    | Some r => Some r
    | None =>
      match s with
      | String "_" (String "_" r) => Some r
      | _ => None
      end
    end
  end.
Definition mcp_tool_component (name : string) : string := default name (after_last_sep name).

Definition CHANNEL_NATIVE_COMPOSIO_TOOLKIT : list (string * string) := [("slack", "SLACK")].

Definition drop_native_channel_composio_tools (h : Harness) (s : Session) (r : gset string) : gset string :=
  match dict_get (effective_channel_platform s) CHANNEL_NATIVE_COMPOSIO_TOOLKIT with
  | Some toolkit => r ∖ filter (λ n, startswith (mcp_tool_component n) (toolkit +:+ "_") = true) (composio_tool_names h)
  | None => r
  end.

Definition can_ask_user_question (h : Harness) : bool :=
  bool_decide ("ask_user_question" ∈ registered h) &&
  match governance_gate h with Some g => offers g "ask_user_question" | None => true end.

Definition ensure_always_available_tools (h : Harness) (explicit : bool) (r : gset string) : gset string :=
  if explicit then r else if can_ask_user_question h then r ∪ {["ask_user_question"]} else r.

Definition drop_eval_excluded_tools (s : Session) (r : gset string) : gset string :=
  if is_eval_session s || is_unattended s then r ∖ {["ask_user_question"]} else r.

Definition start_case_gate (h : Harness) (s : Session) (r : gset string) : gset string :=
  if intake h && bool_decide (parent_id s = None) && negb (is_eval_session s) then r else r ∖ {["start_case"]}.

Definition designer_gate (h : Harness) (r : gset string) : gset string :=
  r ∖ (set_of KEEL_DESIGNER_TOOLS ∖
       match governance_gate h with Some g => allow_listed g KEEL_DESIGNER_TOOLS | None => ∅ end).

Section case_gate.
Context `{CaseModels}.

Definition is_case_step (s : Session) : bool := bool_decide (parent_id s = None) && step_contract (config s).
Definition is_case_item (s : Session) : bool := bool_decide (parent_id s = None) && item_contract (config s).
Definition is_case_agent (s : Session) : bool :=
  bool_decide (parent_id s = None) &&
  match agent_ref (config s) with Some (case, _) => String.eqb (boundary s) ("case:" +:+ case) | None => false end.
Definition is_process_agent (s : Session) : bool :=
  is_case_agent s && match agent_ref (config s) with Some (_, subject) => String.eqb subject "process" | None => false end.

Definition case_platform (name : string) : bool :=
  is_mcp name || bool_decide (name ∈ WORKER_SELF_TOOLS) || bool_decide (name ∈ BOARD_SELF_TOOLS).

Definition gate_case_tools (s : Session) (tools : gset string) : gset string :=
  if is_case_session s then
    let kept := filter (λ n, n ∈ CASE_ALLOWED_TOOLS ∨ case_platform n = true) tools in
    let kept := match scope_tools (config s) with
                | Some named => filter (λ n, n ∈ named ∨ n ∈ ALWAYS_KEPT ∨ case_platform n = true) kept
                | None => kept
                end in
    let kept := if is_rerun_session s then kept ∖ RERUN_REFUSED else kept in
    if is_case_agent s then (kept ∖ CASE_AGENT_REFUSED) ∪ (if is_process_agent s then KEEL_PROCESS_TOOLS else KEEL_CASE_TOOLS)
    else
      let kept := if is_case_step s then kept ∪ CASE_STEP_TOOLS ∪ (tools ∩ OFFICE_TOOLS) else kept in
      if is_case_item s then kept ∪ CASE_ITEM_TOOLS else kept
  else tools ∖ CASE_STEP_TOOLS ∖ CASE_ITEM_TOOLS ∖ KEEL_CASE_TOOLS ∖ KEEL_PROCESS_TOOLS.

(** [gate_skill_step], of a spelled filter. *)
Definition gate_skill_step (h : Harness) (r : gset string) : gset string :=
  if bool_decide ("skill_step" ∈ registered h) && graph_skill h then r ∪ {["skill_step"]} else r ∖ {["skill_step"]}.

Definition tool_filter_for_session_impl (h : Harness) (s : Session) : gset string :=
  let explicit := explicit_allowed s in
  let r := apply_execution_context_gates h s (config_filter h s) in
  let r := if code_enabled h then r else r ∖ {["run_coding_agent"]} in
  let r := schedule_gate h s r in
  let r := apply_mcp_schema_filter h explicit r in
  let r := r ∖ entitlement_excluded h in
  let r := drop_project_master_mcp_tools s r in
  let r := drop_native_channel_composio_tools h s r in
  let r := drop_eval_excluded_tools s (ensure_always_available_tools h explicit r) in
  let r := start_case_gate h s r in
  let r := designer_gate h r in
  gate_case_tools s r.

(** The tools whose schemas the model is sent. *)
Definition tool_filter_for_session (h : Harness) (s : Session) : gset string :=
  gate_skill_step h (tool_filter_for_session_impl h s).
(** ** The prompt's tools (orchestrator/worker.py) *)

Definition has_file_pane (s : Session) : bool :=
  channel_in s ["web"; "studio"] || is_project_thread (config s) ||
  (channel_in s ["api"] && match cfg s "file_pane" with VBool true => true | _ => false end).

Definition is_whiteboard_session (s : Session) : bool :=
  match cfg s "surface" with VStr v => String.eqb v "whiteboard" | _ => false end.

(** [_filter_effective_tools]; [principal] is whether the tenant has a user or a
    service account. *)
Definition filter_effective_tools (tools : gset string) (principal use_api whiteboard_enabled intakes : bool)
    (designer : gset string) (s : Session) : gset string :=
  let anonymous := channel_in s ANONYMOUS_CHANNELS in
  let r := if use_api && (principal || anonymous) then tools else tools ∖ {["create_artifact"]} in
  let r := if negb principal && anonymous then r ∖ {["skill_manage"]} else r in
  let r := if is_eval_session s || is_unattended s then r ∖ {["ask_user_question"]} else r in
  let r := gate_group (bool_decide (is_Some (session_task_id s))) WORKER_SELF_TOOLS r in
  let r := gate_group (cfg_on s "context_group_id") BOARD_SELF_TOOLS r in
  let r := gate_group (whiteboard_enabled && is_whiteboard_session s) WHITEBOARD_TOOL_NAMES r in
  let r := if is_research_coordinator s then r else r ∖ RESEARCH_SPINE_TOOLS in
  let r := if has_file_pane s then r else r ∖ OFFICE_TOOLS in
  let r := if intakes && bool_decide (parent_id s = None) && negb (is_eval_session s) then r else r ∖ {["start_case"]} in
  let r := r ∖ (set_of KEEL_DESIGNER_TOOLS ∖ designer) in
  gate_case_tools s r.
End case_gate.

(** ** The config of a task's worker (tasks/spawn.py) *)

Record AgentDef := mk_agent_def {
  def_tools : option (list string);
  def_disallowed : option (list string);
  def_max_iterations : option Z;
  def_preloaded : option (list string)
}.

Definition WORKER_MAX_ITERATIONS : Z := 30.

(** [if x:] of an optional list. *)
Definition given (o : option (list string)) : option (list string) :=
  match o with Some (x :: l) => Some (x :: l) | _ => None end.

Definition str_list (l : list string) : pyval := VList (VStr <$> l).

(** [_build_task_worker_config]; a set made a list is its elements. *)
Definition build_task_worker_config (agent_def : option AgentDef) (agent_def_name : option string) : list (string * pyval) :=
  let iterations := match agent_def ≫= def_max_iterations with
                    | Some n => Z.min WORKER_MAX_ITERATIONS n
                    | None => WORKER_MAX_ITERATIONS
                    end in
  let c := [("max_iterations", VInt iterations); ("streaming", VBool false)] in
  let c := match agent_def_name with
           | Some n => if str_truthy n then dict_set "agent_type" (VStr n) c else c
           | None => c
           end in
  let c := match agent_def ≫= (given ∘ def_tools) with
           | Some tools =>
             dict_set "allowed_tools" (str_list (filter (λ t, t ∉ WORKER_EXCLUDED_TOOLS) tools)) c
           | None =>
             let excluded := match agent_def ≫= (given ∘ def_disallowed) with
                             | Some disallowed => elements (WORKER_EXCLUDED_TOOLS ∪ set_of disallowed)
                             | None => elements WORKER_EXCLUDED_TOOLS
                             end in
             dict_set "excluded_tools" (str_list excluded) c
           end in
  let preloaded := fromkeys [] (default [] (agent_def ≫= (given ∘ def_preloaded))) in
  dict_set "preloaded_skills"
    (str_list (if bool_decide ("subagent-task-worker" ∈ preloaded) then preloaded else preloaded ++ ["subagent-task-worker"])) c.

(** The first message of a worker: the goal, its context, and the earlier
    attempts; [prior] is their rendering, where the task had one. *)
Definition worker_message (goal : string) (context prior : option string) : string :=
  let nl := String "010" "" in
  let msg := match context with
             | Some c => if str_truthy c then goal +:+ nl +:+ nl +:+ "## Context" +:+ nl +:+ c else goal
             | None => goal
             end in
  match prior with
  | Some body =>
    if str_truthy body then
      msg +:+ nl +:+ nl +:+ "## Prior attempts on this task" +:+ nl +:+
      "Earlier worker sessions for this task and what they produced or why they ended. Use ``worker_context`` for full detail; don't repeat the paths that failed." +:+
      nl +:+ nl +:+ body
    else msg
  | None => msg
  end.

(** ** What the gates add *)

(** Every name some gate may add; the rest only take away. *)
Definition ADDED_TOOLS : gset string :=
  WORKER_SELF_TOOLS ∪ BOARD_SELF_TOOLS ∪ CASE_STEP_TOOLS ∪ CASE_ITEM_TOOLS ∪ KEEL_CASE_TOOLS ∪ KEEL_PROCESS_TOOLS ∪
  set_of ["loop_wait"; "loop_complete"; "ask_user_question"; "skill_step"].

(** Of them, those added after the purchased package's exclusions. *)
Definition LATE_TOOLS : gset string :=
  CASE_STEP_TOOLS ∪ CASE_ITEM_TOOLS ∪ KEEL_CASE_TOOLS ∪ KEEL_PROCESS_TOOLS ∪ set_of ["ask_user_question"; "skill_step"].

Lemma late_added t : t ∈ LATE_TOOLS → t ∈ ADDED_TOOLS.
Proof.
  unfold LATE_TOOLS, ADDED_TOOLS. rewrite !elem_of_union. unfold set_of. rewrite !elem_of_list_to_set, !elem_of_cons.
  tauto.
Qed.

Lemma late_by_name t : t ∈ ["ask_user_question"; "skill_step"] → t ∈ LATE_TOOLS.
Proof. intros Ht. apply elem_of_union_r, elem_of_list_to_set. done. Qed.

Lemma added_by_name t : t ∈ ["loop_wait"; "loop_complete"; "ask_user_question"; "skill_step"] → t ∈ ADDED_TOOLS.
Proof. intros Ht. apply elem_of_union_r, elem_of_list_to_set. done. Qed.

Lemma all_computed (P : string → bool) (A : gset string) t : forallb P (elements A) = true → t ∈ A → P t = true.
Proof. rewrite forallb_forall. intros H Ht. apply H, list_elem_of_In, elem_of_elements, Ht. Qed.

Lemma not_in_computed t (A : gset string) : bool_decide (t ∈ A) = false → t ∉ A.
Proof. apply bool_decide_eq_false_1. Qed.

Lemma in_computed t (A : gset string) : bool_decide (t ∈ A) = true → t ∈ A.
Proof. apply bool_decide_eq_true_1. Qed.

Lemma disjoint_computed (A B : gset string) t :
  forallb (λ x, negb (bool_decide (x ∈ B))) (elements A) = true → t ∈ A → t ∉ B.
Proof. intros H Ht. apply (all_computed _ _ _ H), negb_true_iff, bool_decide_eq_false_1 in Ht. exact Ht. Qed.

Lemma excluded_not_added t : t ∈ WORKER_EXCLUDED_TOOLS → t ∉ ADDED_TOOLS.
Proof. apply disjoint_computed. vm_compute. reflexivity. Qed.

Lemma excluded_not_mcp t : t ∈ WORKER_EXCLUDED_TOOLS → is_mcp t = false.
Proof. intros H. apply negb_true_iff. apply (all_computed (λ t, negb (is_mcp t)) WORKER_EXCLUDED_TOOLS); [vm_compute; reflexivity|exact H]. Qed.

Lemma added_not_mcp t : t ∈ ADDED_TOOLS → is_mcp t = false.
Proof. intros H. apply negb_true_iff. apply (all_computed (λ t, negb (is_mcp t)) ADDED_TOOLS); [vm_compute; reflexivity|exact H]. Qed.

#[local] Opaque WORKER_SELF_TOOLS BOARD_SELF_TOOLS CASE_STEP_TOOLS CASE_ITEM_TOOLS KEEL_CASE_TOOLS KEEL_PROCESS_TOOLS
  RESEARCH_SPINE_TOOLS PROJECT_THREAD_TOOLS OFFICE_TOOLS WHITEBOARD_TOOL_NAMES CASE_ALLOWED_TOOLS CASE_AGENT_REFUSED
  RERUN_REFUSED ALWAYS_KEPT CRON_WRITE_TOOLS CRON_OWN_SCHEDULE_TOOLS WORKER_EXCLUDED_TOOLS set_of.

Lemma added_sets t :
  t ∈ WORKER_SELF_TOOLS ∨ t ∈ BOARD_SELF_TOOLS ∨ t ∈ CASE_STEP_TOOLS ∨ t ∈ CASE_ITEM_TOOLS ∨ t ∈ KEEL_CASE_TOOLS ∨
  t ∈ KEEL_PROCESS_TOOLS → t ∈ ADDED_TOOLS.
Proof. unfold ADDED_TOOLS. rewrite !elem_of_union. tauto. Qed.

Lemma late_sets t :
  t ∈ CASE_STEP_TOOLS ∨ t ∈ CASE_ITEM_TOOLS ∨ t ∈ KEEL_CASE_TOOLS ∨ t ∈ KEEL_PROCESS_TOOLS → t ∈ LATE_TOOLS.
Proof. unfold LATE_TOOLS. rewrite !elem_of_union. tauto. Qed.
#[local] Opaque ADDED_TOOLS LATE_TOOLS.

(** The stages of the filter, one element at a time. *)
Ltac elems :=
  repeat first [rewrite elem_of_union in * | rewrite elem_of_difference in * | rewrite elem_of_intersection in * |
                rewrite elem_of_filter in * | rewrite elem_of_singleton in *].

Lemma in_difference (X r : gset string) t : t ∉ X → t ∈ r ∖ X ↔ t ∈ r.
Proof. rewrite elem_of_difference. tauto. Qed.
Lemma in_union (X r : gset string) t : t ∉ X → t ∈ r ∪ X ↔ t ∈ r.
Proof. rewrite elem_of_union. tauto. Qed.
Lemma in_filter (P : string → Prop) `{!∀ x, Decision (P x)} (r : gset string) t : P t → t ∈ filter P r ↔ t ∈ r.
Proof. rewrite elem_of_filter. tauto. Qed.

Section grows.
Context `{CaseModels}.
Implicit Types (h : Harness) (s : Session) (r : gset string) (t : string).

Lemma gate_group_grows on group r t : t ∈ gate_group on group r → t ∈ r ∨ t ∈ group.
Proof. unfold gate_group. destruct on; elems; tauto. Qed.

Lemma context_gates_grow h s f t : t ∈ apply_execution_context_gates h s f → t ∈ spelled h f ∨ t ∈ ADDED_TOOLS.
Proof.
  unfold apply_execution_context_gates. intros Ht.
  assert (t ∈ gate_group (cfg_on s "context_group_id") BOARD_SELF_TOOLS
                (gate_group (bool_decide (is_Some (session_task_id s))) WORKER_SELF_TOOLS (spelled h f))) as Hg.
  { destruct (is_project_master _), (is_research_coordinator s); elems; tauto. }
  apply gate_group_grows in Hg as [Hg|?]; [apply gate_group_grows in Hg as [?|?]|]; auto using added_sets.
Qed.

Lemma toggle_grows (b : bool) x y r t :
  t ∈ (if b then r ∪ {[x]} else r) ∖ ({[y]} : gset string) → x ∈ ["loop_wait"; "loop_complete"] →
  t ∈ r ∨ t ∈ ["loop_wait"; "loop_complete"].
Proof. intros Ht Hx. assert (t ∈ r ∨ t = x) as [|Heq] by (destruct b; elems; tauto); [auto|]. subst t. auto. Qed.

Lemma schedule_gate_cases h s r t :
  t ∈ schedule_gate h s r →
  t ∈ r ∧ (cfg_on s "scheduled_session_id" = true → t ∉ CRON_WRITE_TOOLS ∖ CRON_OWN_SCHEDULE_TOOLS) ∨
  t ∈ ["loop_wait"; "loop_complete"].
Proof.
  unfold schedule_gate. destruct (cfg_on s "scheduled_session_id").
  - intros Ht. cut (t ∈ r ∖ (CRON_WRITE_TOOLS ∖ CRON_OWN_SCHEDULE_TOOLS) ∨ t ∈ ["loop_wait"; "loop_complete"]); [elems; tauto|].
    destruct (cfg_on s "scheduled_dynamic_loop"); csimpl in Ht.
    + apply (toggle_grows (bool_decide ("loop_wait" ∈ registered h)) "loop_wait" "loop_complete"); [|left].
      by rewrite <- decide_bool_decide.
    + apply (toggle_grows (bool_decide ("loop_complete" ∈ registered h)) "loop_complete" "loop_wait"); [|right; left].
      by rewrite <- decide_bool_decide.
  - intros Ht. left. split; [|done]. destruct (explicit_allowed s); elems; tauto.
Qed.

Lemma schedule_gate_grows h s r t : t ∈ schedule_gate h s r → t ∈ r ∨ t ∈ ADDED_TOOLS.
Proof.
  intros Ht. apply schedule_gate_cases in Ht as [[? _]|Ht]; [auto|]. right. apply added_by_name.
  rewrite !elem_of_cons in *. tauto.
Qed.

Lemma mcp_filter_grows h explicit r t :
  t ∈ apply_mcp_schema_filter h explicit r → t ∈ r ∨ t ∈ mcp_tool_names h.
Proof. unfold apply_mcp_schema_filter. case_decide; [tauto|]. destruct explicit; elems; tauto. Qed.

Lemma late_gates_grow h s explicit r t :
  t ∈ designer_gate h (start_case_gate h s (drop_eval_excluded_tools s (ensure_always_available_tools h explicit
        (drop_native_channel_composio_tools h s (drop_project_master_mcp_tools s r))))) →
  t ∈ r ∨ t = "ask_user_question" ∧ is_eval_session s || is_unattended s = false.
Proof.
  unfold designer_gate. rewrite elem_of_difference. intros [Ht _].
  assert (t ∈ drop_eval_excluded_tools s (ensure_always_available_tools h explicit
                (drop_native_channel_composio_tools h s (drop_project_master_mcp_tools s r)))) as Hd.
  { unfold start_case_gate in Ht. case_match; elems; tauto. }
  assert (t ∈ ensure_always_available_tools h explicit
                (drop_native_channel_composio_tools h s (drop_project_master_mcp_tools s r)) ∧
          (t = "ask_user_question" → is_eval_session s || is_unattended s = false)) as [He Hask].
  { unfold drop_eval_excluded_tools in Hd. destruct (is_eval_session s || is_unattended s); elems; tauto. }
  unfold ensure_always_available_tools, drop_native_channel_composio_tools, drop_project_master_mcp_tools in He.
  assert (t ∈ r ∨ t = "ask_user_question") as [|Heq] by (repeat case_match; elems; tauto); auto.
Qed.

Lemma if_sub (b : bool) (A B C : gset string) t : (t ∈ A → t ∈ C) → (t ∈ B → t ∈ C) → t ∈ (if b then A else B) → t ∈ C.
Proof. by destruct b. Qed.

(** What a case keeps before anything is added, of tools it was given. *)
Definition case_kept s r : gset string :=
  let kept := filter (λ n, n ∈ CASE_ALLOWED_TOOLS ∨ case_platform n = true) r in
  let kept := match scope_tools (config s) with
              | Some named => filter (λ n, n ∈ named ∨ n ∈ ALWAYS_KEPT ∨ case_platform n = true) kept
              | None => kept
              end in
  if is_rerun_session s then kept ∖ RERUN_REFUSED else kept.

Lemma case_kept_sub s r t : t ∈ case_kept s r → t ∈ r ∧ (t ∈ CASE_ALLOWED_TOOLS ∨ case_platform t = true).
Proof.
  intros Ht. assert (t ∈ filter (λ n, n ∈ CASE_ALLOWED_TOOLS ∨ case_platform n = true) r) as Hf.
  { revert Ht. unfold case_kept. apply if_sub; [intros [Ht _]%elem_of_difference; revert Ht|];
      (destruct (scope_tools _); [intros [_ Ht]%elem_of_filter; exact Ht|done]). }
  apply elem_of_filter in Hf as [? ?]. auto.
Qed.

Lemma gate_case_tools_case s r t :
  is_case_session s = true → t ∈ gate_case_tools s r →
  t ∈ case_kept s r ∨ t ∈ r ∧ t ∈ OFFICE_TOOLS ∨
  t ∈ CASE_STEP_TOOLS ∨ t ∈ CASE_ITEM_TOOLS ∨ t ∈ KEEL_CASE_TOOLS ∨ t ∈ KEEL_PROCESS_TOOLS.
Proof.
  intros Hs. unfold gate_case_tools. rewrite Hs. fold (case_kept s r). destruct (is_case_agent s).
  - rewrite elem_of_union. intros [[? _]%elem_of_difference|Hk]; [auto|]. destruct (is_process_agent s); auto 6.
  - destruct (is_case_item s); [rewrite elem_of_union; intros [Ht|?]; [|by auto 6]; revert Ht|];
      (destruct (is_case_step s); [rewrite !elem_of_union, elem_of_intersection; tauto|auto]).
Qed.

Lemma gate_case_tools_grow s r t : t ∈ gate_case_tools s r → t ∉ LATE_TOOLS → t ∈ r.
Proof.
  intros Ht Hl. cut (t ∈ r ∨ t ∈ LATE_TOOLS); [intros [Hr|Hc]; [exact Hr|destruct (Hl Hc)]|]. revert Ht.
  destruct (is_case_session s) eqn:Hs.
  - intros Ht. apply (gate_case_tools_case s r t Hs) in Ht as [Ht|[[? _]|Ht]]; [|by left|right; by apply late_sets].
    left. apply (case_kept_sub s r t Ht).
  - unfold gate_case_tools. rewrite Hs, !elem_of_difference. tauto.
Qed.

(** The set the late gates start from. *)
Definition sold h s : gset string :=
  apply_mcp_schema_filter h (explicit_allowed s)
    (schedule_gate h s
       (let r := apply_execution_context_gates h s (config_filter h s) in
        if code_enabled h then r else r ∖ {["run_coding_agent"]})) ∖ entitlement_excluded h.

Lemma filter_late h s t :
  t ∈ tool_filter_for_session h s → t ∉ LATE_TOOLS → t ∈ sold h s.
Proof.
  unfold tool_filter_for_session, gate_skill_step. intros Ht Hl.
  assert (t ∈ tool_filter_for_session_impl h s ∨ t = "skill_step") as [Hi|Heq] by (case_match; elems; tauto).
  2: { exfalso. apply Hl. subst t. apply late_by_name. rewrite !elem_of_cons. tauto. }
  apply gate_case_tools_grow in Hi; [|done]. apply late_gates_grow in Hi as [Hi|[Heq _]]; [exact Hi|].
  exfalso. apply Hl. subst t. apply late_by_name. rewrite !elem_of_cons. tauto.
Qed.

Lemma filter_scheduled h s t :
  t ∈ tool_filter_for_session h s → t ∉ LATE_TOOLS → t ∉ mcp_tool_names h →
  t ∈ schedule_gate h s
       (let r := apply_execution_context_gates h s (config_filter h s) in
        if code_enabled h then r else r ∖ {["run_coding_agent"]}).
Proof.
  intros Ht Hl Hm. apply filter_late in Ht; [|done]. unfold sold in Ht. apply elem_of_difference in Ht as [Ht _].
  by apply mcp_filter_grows in Ht as [].
Qed.

Lemma filter_context h s t :
  t ∈ tool_filter_for_session h s → t ∉ ADDED_TOOLS → t ∉ mcp_tool_names h →
  t ∈ apply_execution_context_gates h s (config_filter h s).
Proof.
  intros Ht Ha Hm. apply filter_scheduled in Ht; [|intros Hl; exact (Ha (late_added t Hl))|exact Hm].
  apply schedule_gate_grows in Ht as [Ht|Hc]; [|destruct (Ha Hc)]. csimpl in Ht. destruct (code_enabled h); elems; tauto.
Qed.

Lemma filter_grows h s t :
  t ∈ tool_filter_for_session h s → t ∉ ADDED_TOOLS → t ∉ mcp_tool_names h → t ∈ spelled h (config_filter h s).
Proof.
  intros Ht Ha Hm. apply filter_context in Ht; [|exact Ha|exact Hm].
  apply context_gates_grow in Ht as [Ht|Hc]; [exact Ht|destruct (Ha Hc)].
Qed.
End grows.

(** ** What no session is offered *)

Lemma mcp_names_disjoint h t :
  (∀ n, n ∈ mcp_tool_names h → is_mcp n = true) → is_mcp t = false → t ∉ mcp_tool_names h.
Proof. intros Hm Ht Hin. rewrite (Hm t Hin) in Ht. done. Qed.

Lemma assoc_app k l1 l2 : assoc k (l1 ++ l2) = match assoc k l1 with Some v => Some v | None => assoc k l2 end.
Proof. induction l1 as [|[k' v] l1 IH]; csimpl; [done|]. by destruct (String.eqb k' k). Qed.

Lemma spelled_Some h r : spelled h (Some r) = r.
Proof. reflexivity. Qed.

Lemma names_in_str_list l : names_in (str_list l) = list_to_set l.
Proof. unfold names_in, str_list. f_equal. induction l; csimpl; [done|]. by f_equal. Qed.

Lemma cfg_app s l1 l2 k :
  config s = VDict (l1 ++ l2) →
  cfg s k = match assoc k l1 with Some v => v | None => default VNone (assoc k l2) end.
Proof. intros Hc. unfold cfg, py_get. rewrite Hc, assoc_app. destruct (assoc k l1); [done|]. by destruct (assoc k l2). Qed.

Lemma assoc_dict_set k k' v d : assoc k (dict_set k' v d) = if String.eqb k' k then Some v else assoc k d.
Proof.
  induction d as [|[k2 v2] d IH]; csimpl; [done|]. case_decide as Hd; csimpl.
  - subst. by destruct (String.eqb _ k).
  - rewrite IH. destruct (String.eqb_spec k2 k), (String.eqb_spec k' k); congruence.
Qed.

(** What a worker's config says of its tools, and of being a coordinator. *)
Lemma worker_config_keys def name :
  let c := build_task_worker_config def name in
  assoc "coordinator" c = None ∧
  match def ≫= (given ∘ def_tools) with
  | Some tools => assoc "allowed_tools" c = Some (str_list (filter (λ t, t ∉ WORKER_EXCLUDED_TOOLS) tools)) ∧
                  assoc "excluded_tools" c = None
  | None => assoc "allowed_tools" c = None
  end.
Proof.
  unfold build_task_worker_config. cbv zeta. rewrite !assoc_dict_set.
  cbn [String.eqb Ascii.eqb Bool.eqb].
  destruct (def ≫= (given ∘ def_tools)) as [tools|]; rewrite !assoc_dict_set; cbn [String.eqb Ascii.eqb Bool.eqb];
    (destruct name as [n|]; [destruct (str_truthy n)|]; rewrite ?assoc_dict_set; split_and!; reflexivity).
Qed.

Section offered.
Context `{CaseModels}.

(** No worker made for a task is offered a tool that makes, messages, stops,
    unblocks or cancels other workers and tasks: whatever its agent definition
    lists, whatever else its config holds, on every agent and in every kind of
    session. *)
Theorem task_worker_never_spawns h s def name extra t :
  (∀ n, n ∈ mcp_tool_names h → is_mcp n = true) →
  config s = VDict (build_task_worker_config def name ++ extra) →
  assoc "allowed_tools" extra = None → assoc "coordinator" extra = None →
  t ∈ WORKER_EXCLUDED_TOOLS → t ∉ tool_filter_for_session h s.
Proof.
  intros Hm Hc Ha Hco Ht Hin.
  apply filter_grows in Hin; [|by apply excluded_not_added|by apply mcp_names_disjoint, excluded_not_mcp].
  destruct (worker_config_keys def name) as [Hk1 Hk2].
  pose proof (cfg_app s _ _ "coordinator" Hc) as Hcoord. pose proof (cfg_app s _ _ "allowed_tools" Hc) as Hallow.
  rewrite Hk1, Hco in Hcoord. unfold config_filter, explicit_allowed, cfg_on in Hin.
  rewrite Hcoord in Hin. change (truthy (default VNone None)) with false in Hin. cbv iota in Hin.
  destruct (def ≫= (given ∘ def_tools)) as [tools|].
  - destruct Hk2 as [Hal _]. rewrite Hal in Hallow. rewrite Hallow in Hin.
    destruct (truthy _); rewrite spelled_Some in Hin; [|elems; tauto].
    rewrite names_in_str_list in Hin. apply elem_of_list_to_set, list_elem_of_filter in Hin as [Hn _]. exact (Hn Ht).
  - rewrite Hk2, Ha in Hallow. rewrite Hallow in Hin. change (truthy (default VNone None)) with false in Hin. cbv iota in Hin.
    rewrite spelled_Some in Hin. elems. tauto.
Qed.
Lemma ask_not_added_by_case t :
  t ∈ ["ask_user_question"; "skill_step"; "run_coding_agent"] →
  t ∉ CASE_STEP_TOOLS ∧ t ∉ CASE_ITEM_TOOLS ∧ t ∉ KEEL_CASE_TOOLS ∧ t ∉ KEEL_PROCESS_TOOLS.
Proof.
  rewrite !elem_of_cons, elem_of_nil. intros [->|[->|[->|[]]]]; (split_and!; apply not_in_computed; vm_compute; reflexivity).
Qed.

(** Through the gates of the case and of the skills. *)
Lemma final_gates h s t :
  t ∈ tool_filter_for_session h s → t ≠ "skill_step" → t ∈ tool_filter_for_session_impl h s.
Proof. unfold tool_filter_for_session, gate_skill_step. intros Ht Hn. case_match; elems; tauto. Qed.

Lemma unattended_never_asked h s :
  is_eval_session s = true ∨ is_unattended s = true → "ask_user_question" ∉ tool_filter_for_session h s.
Proof.
  intros Hs Ht. apply final_gates in Ht; [|discriminate].
  assert (Hb : is_eval_session s || is_unattended s = true) by (apply orb_true_iff; exact Hs).
  assert (Hl : ∀ r, "ask_user_question" ∉ designer_gate h (start_case_gate h s (drop_eval_excluded_tools s r))).
  { intros r Hr. unfold designer_gate in Hr. apply elem_of_difference in Hr as [Hr _].
    assert ("ask_user_question" ∈ drop_eval_excluded_tools s r) as Hd
      by (unfold start_case_gate in Hr; case_match; elems; tauto).
    unfold drop_eval_excluded_tools in Hd. rewrite Hb in Hd. elems. tauto. }
  unfold tool_filter_for_session_impl in Ht. cbv zeta in Ht.
  match type of Ht with _ ∈ gate_case_tools s ?r => set (late := r) in Ht; apply (Hl _ : "ask_user_question" ∉ late) end.
  destruct (ask_not_added_by_case "ask_user_question") as (H1 & H2 & H3 & H4); [left|].
  destruct (is_case_session s) eqn:Hcs.
  - apply (gate_case_tools_case s _ _ Hcs) in Ht as [Ht|[[? _]|[?|[?|[?|?]]]]]; try tauto.
    apply (case_kept_sub s _ _ Ht).
  - unfold gate_case_tools in Ht. rewrite Hcs, !elem_of_difference in Ht. tauto.
Qed.

(** The rules of a session's schemas, in whatever order its other gates run:
    no one who cannot answer is asked; a schedule's run makes no schedule and
    starts none; the research spine is its coordinator's, the thread tools a
    project master's; and outside a case no session holds a case's tools. *)
Theorem session_gates h s t :
  (∀ n, n ∈ mcp_tool_names h → is_mcp n = true) → t ∈ tool_filter_for_session h s →
  (is_eval_session s = true ∨ is_unattended s = true → t ≠ "ask_user_question") ∧
  (cfg_on s "scheduled_session_id" = true → t ∉ CRON_WRITE_TOOLS ∖ CRON_OWN_SCHEDULE_TOOLS) ∧
  (is_research_coordinator s = false → t ∉ RESEARCH_SPINE_TOOLS) ∧
  (is_project_master (config s) = false → t ∉ PROJECT_THREAD_TOOLS) ∧
  (is_case_session s = false →
     t ∉ CASE_STEP_TOOLS ∧ t ∉ CASE_ITEM_TOOLS ∧ t ∉ KEEL_CASE_TOOLS ∧ t ∉ KEEL_PROCESS_TOOLS).
Proof.
  intros Hm Ht.
  assert (Hplain : t ∈ CRON_WRITE_TOOLS ∪ RESEARCH_SPINE_TOOLS ∪ PROJECT_THREAD_TOOLS → t ∉ ADDED_TOOLS ∧ is_mcp t = false).
  { clear. intros Ht. split; revert Ht.
    - apply disjoint_computed. vm_compute. reflexivity.
    - intros Ht. apply negb_true_iff. revert Ht. apply (all_computed (λ t, negb (is_mcp t))). vm_compute. reflexivity. }
  assert (Hctx : t ∈ CRON_WRITE_TOOLS ∪ RESEARCH_SPINE_TOOLS ∪ PROJECT_THREAD_TOOLS →
                 t ∈ apply_execution_context_gates h s (config_filter h s)).
  { intros Hp. destruct (Hplain Hp). apply filter_context; auto using mcp_names_disjoint. }
  split_and!.
  - intros Hs ->. by apply (unattended_never_asked h s).
  - intros Hs Hc. assert (t ∈ CRON_WRITE_TOOLS) as Hcw by (elems; tauto).
    destruct Hplain as [Ha Hp]; [elems; tauto|].
    apply filter_scheduled in Ht; [|intros Hl; exact (Ha (late_added t Hl))|by apply mcp_names_disjoint].
    apply schedule_gate_cases in Ht as [[_ Hn]|Hl]; [exact (Hn Hs Hc)|].
    apply Ha, added_by_name. rewrite !elem_of_cons in *. tauto.
  - intros Hs Hin. specialize (Hctx ltac:(elems; tauto)). unfold apply_execution_context_gates in Hctx. rewrite Hs in Hctx.
    destruct (is_project_master _); elems; tauto.
  - intros Hs Hin. specialize (Hctx ltac:(elems; tauto)). unfold apply_execution_context_gates in Hctx. rewrite Hs in Hctx.
    elems; tauto.
  - intros Hs. assert (t = "skill_step" ∨ t ∈ tool_filter_for_session_impl h s) as [Heq|Hi].
    { destruct (decide (t = "skill_step")); [auto|right; by apply final_gates]. }
    + rewrite Heq. apply ask_not_added_by_case. rewrite !elem_of_cons. tauto.
    + unfold tool_filter_for_session_impl, gate_case_tools in Hi. rewrite Hs, !elem_of_difference in Hi. tauto.
Qed.

(** A tool a package excludes is never offered, unless it is one a later gate
    adds: the question tool, the skill step and a case's own tools. *)
Theorem entitlements_hold h s t :
  t ∈ entitlement_excluded h → t ∉ LATE_TOOLS → t ∉ tool_filter_for_session h s.
Proof. intros He Hl Ht. apply filter_late in Ht; [|exact Hl]. unfold sold in Ht. elems. tauto. Qed.
(** ** The self-tools, on both surfaces *)

Definition SELF_TOOLS : gset string := WORKER_SELF_TOOLS ∪ BOARD_SELF_TOOLS.
Definition self_group (s : Session) (t : string) : bool :=
  if bool_decide (t ∈ WORKER_SELF_TOOLS) then bool_decide (is_Some (session_task_id s)) else cfg_on s "context_group_id".

(** What every other gate leaves of them: it takes none away and adds none. *)
Definition left_alone (t : string) : bool :=
  negb (is_mcp t) && negb (startswith (mcp_tool_component t) "SLACK_") &&
  negb (bool_decide (t ∈ RESEARCH_SPINE_TOOLS ∪ PROJECT_THREAD_TOOLS ∪ CRON_WRITE_TOOLS ∪ CASE_AGENT_REFUSED ∪
    RERUN_REFUSED ∪ CASE_STEP_TOOLS ∪ CASE_ITEM_TOOLS ∪ KEEL_CASE_TOOLS ∪ KEEL_PROCESS_TOOLS ∪ OFFICE_TOOLS ∪
    WHITEBOARD_TOOL_NAMES ∪ set_of KEEL_DESIGNER_TOOLS ∪ set_of ["loop_wait"; "loop_complete"; "run_coding_agent";
    "ask_user_question"; "start_case"; "skill_step"; "create_artifact"; "skill_manage"])) &&
  negb (bool_decide (t ∈ WORKER_SELF_TOOLS ∩ BOARD_SELF_TOOLS)).

Lemma self_left_alone t : t ∈ SELF_TOOLS → left_alone t = true.
Proof. apply all_computed. vm_compute. reflexivity. Qed.

Record untouched (t : string) : Prop := mk_untouched {
  un_mcp : is_mcp t = false;
  un_slack : startswith (mcp_tool_component t) "SLACK_" = false;
  un_sets : t ∉ RESEARCH_SPINE_TOOLS ∧ t ∉ PROJECT_THREAD_TOOLS ∧ t ∉ CRON_WRITE_TOOLS ∧ t ∉ CASE_AGENT_REFUSED ∧
    t ∉ RERUN_REFUSED ∧ t ∉ CASE_STEP_TOOLS ∧ t ∉ CASE_ITEM_TOOLS ∧ t ∉ KEEL_CASE_TOOLS ∧ t ∉ KEEL_PROCESS_TOOLS ∧
    t ∉ OFFICE_TOOLS ∧ t ∉ WHITEBOARD_TOOL_NAMES ∧ t ∉ set_of KEEL_DESIGNER_TOOLS;
  un_names : t ≠ "loop_wait" ∧ t ≠ "loop_complete" ∧ t ≠ "run_coding_agent" ∧ t ≠ "ask_user_question" ∧
    t ≠ "start_case" ∧ t ≠ "skill_step" ∧ t ≠ "create_artifact" ∧ t ≠ "skill_manage";
  un_both : ¬ (t ∈ WORKER_SELF_TOOLS ∧ t ∈ BOARD_SELF_TOOLS)
}.

Lemma self_untouched t : t ∈ SELF_TOOLS → untouched t.
Proof.
  intros Ht%self_left_alone. unfold left_alone in Ht. rewrite !andb_true_iff, !negb_true_iff in Ht.
  destruct Ht as [[[Hm Hs] Hn] Hb]. apply bool_decide_eq_false_1 in Hn, Hb.
  rewrite !not_elem_of_union in Hn. rewrite elem_of_intersection in Hb.
  destruct Hn as [Hn Hnames]. with_strategy transparent [set_of] unfold set_of at 1 in Hnames.
  rewrite elem_of_list_to_set, !elem_of_cons in Hnames.
  repeat match goal with Hn : ¬ (_ ∨ _) |- _ => apply Decidable.not_or in Hn as [? ?] end.
  split; [exact Hm|exact Hs| | |exact Hb].
  - repeat match goal with Hn : _ ∧ _ |- _ => destruct Hn end. split_and!; assumption.
  - split_and!; assumption.
Qed.

Section kept.
Context (t : string) (Ht : t ∈ SELF_TOOLS) (Hu : untouched t).
Implicit Types (h : Harness) (s : Session) (r : gset string).

Lemma schedule_gate_keeps h s r : t ∈ schedule_gate h s r ↔ t ∈ r.
Proof using Hu.
  destruct Hu as [_ _ (_ & _ & ? & _) (? & ? & _) _]. unfold schedule_gate.
  destruct (cfg_on s "scheduled_session_id").
  - destruct (cfg_on s "scheduled_dynamic_loop"); cbv iota zeta; case_decide; elems; tauto.
  - destruct (explicit_allowed s); [done|]. with_strategy transparent [set_of] unfold set_of.
    rewrite elem_of_difference, elem_of_list_to_set, !elem_of_cons, elem_of_nil. tauto.
Qed.

Lemma mcp_filter_keeps h explicit r :
  (∀ n, n ∈ mcp_tool_names h → is_mcp n = true) → t ∈ apply_mcp_schema_filter h explicit r ↔ t ∈ r.
Proof using Hu.
  destruct Hu as [Hmcp _ _ _ _]. intros Hm. pose proof (mcp_names_disjoint h t Hm Hmcp) as Hn.
  unfold apply_mcp_schema_filter. case_decide; [done|]. destruct explicit; elems; rewrite Hmcp; intuition congruence.
Qed.

Lemma late_gates_keep h s explicit r :
  t ∈ designer_gate h (start_case_gate h s (drop_eval_excluded_tools s (ensure_always_available_tools h explicit
        (drop_native_channel_composio_tools h s (drop_project_master_mcp_tools s r))))) ↔ t ∈ r.
Proof using Hu.
  destruct Hu as [Hmcp Hslack Hsets (_ & _ & _ & Hask & Hcase & _) _].
  assert (Hd : t ∉ set_of KEEL_DESIGNER_TOOLS) by apply Hsets. clear Hsets.
  unfold designer_gate. rewrite elem_of_difference, elem_of_difference.
  assert (H1 : ∀ r, t ∈ start_case_gate h s r ↔ t ∈ r) by (intros r1; unfold start_case_gate; case_match; elems; tauto).
  assert (H2 : ∀ r, t ∈ drop_eval_excluded_tools s r ↔ t ∈ r)
    by (intros r1; unfold drop_eval_excluded_tools; destruct (_ || _); elems; tauto).
  assert (H3 : ∀ r, t ∈ ensure_always_available_tools h explicit r ↔ t ∈ r)
    by (intros r1; unfold ensure_always_available_tools; destruct explicit, (can_ask_user_question h); elems; tauto).
  assert (H4 : ∀ r, t ∈ drop_native_channel_composio_tools h s r ↔ t ∈ r).
  { intros r1. unfold drop_native_channel_composio_tools.
    destruct (dict_get _ _) as [toolkit|] eqn:E; [|done]. assert (toolkit = "SLACK") as ->.
    { unfold CHANNEL_NATIVE_COMPOSIO_TOOLKIT in E. csimpl in E. case_decide; congruence. }
    change ("SLACK" +:+ "_") with "SLACK_". elems. rewrite Hslack. intuition congruence. }
  assert (H5 : t ∈ drop_project_master_mcp_tools s r ↔ t ∈ r).
  { unfold drop_project_master_mcp_tools. destruct (is_project_master _); elems; tauto. }
  rewrite H1, H2, H3, H4, H5. tauto.
Qed.

Lemma gate_case_tools_keeps s r : t ∈ gate_case_tools s r ↔ t ∈ r.
Proof using Ht Hu.
  destruct Hu as [_ _ (_ & _ & _ & Hag & Hre & Hst & Hit & Hke & Hpr & Hof & _) _ _].
  assert (Hp : case_platform t = true).
  { unfold case_platform. unfold SELF_TOOLS in Ht. apply elem_of_union in Ht as [?|?].
    - rewrite (bool_decide_eq_true_2 (t ∈ WORKER_SELF_TOOLS)) by assumption. by rewrite orb_true_r.
    - rewrite (bool_decide_eq_true_2 (t ∈ BOARD_SELF_TOOLS)) by assumption. by rewrite orb_true_r. }
  destruct (is_case_session s) eqn:Hs.
  - assert (Hk : t ∈ case_kept s r ↔ t ∈ r).
    { unfold case_kept. destruct (is_rerun_session s); [rewrite in_difference by exact Hre|];
        (destruct (scope_tools (config s)); [rewrite in_filter by auto|]; rewrite in_filter by auto; reflexivity). }
    split.
    + intros Hin. apply (gate_case_tools_case s r t Hs) in Hin as [Hin|[[Hin _]|[Hin|[Hin|[Hin|Hin]]]]];
        [apply Hk; exact Hin|exact Hin|contradiction..].
    + rewrite <- Hk. unfold gate_case_tools. rewrite Hs. fold (case_kept s r). intros Hin.
      destruct (is_case_agent s); [apply elem_of_union_l, elem_of_difference; split; [exact Hin|exact Hag]|].
      destruct (is_case_item s); [apply elem_of_union_l|];
        (destruct (is_case_step s); [apply elem_of_union_l, elem_of_union_l|]; exact Hin).
  - unfold gate_case_tools. rewrite Hs, !in_difference by assumption. reflexivity.
Qed.

Lemma context_gates_keep h s f :
  (self_group s t = true → t ∈ apply_execution_context_gates h s f) ∧
  (self_group s t = false → t ∉ apply_execution_context_gates h s f).
Proof using Ht Hu.
  destruct Hu as [_ _ (Hr & Hp & _) _ Hboth]. unfold SELF_TOOLS in Ht. apply elem_of_union in Ht.
  assert (Hg : t ∈ apply_execution_context_gates h s f ↔
    t ∈ gate_group (cfg_on s "context_group_id") BOARD_SELF_TOOLS
      (gate_group (bool_decide (is_Some (session_task_id s))) WORKER_SELF_TOOLS (spelled h f))).
  { unfold apply_execution_context_gates. destruct (is_project_master _); [|rewrite in_difference by exact Hp];
      (destruct (is_research_coordinator s); [|rewrite in_difference by exact Hr]; reflexivity). }
  rewrite Hg. clear Hg Hr Hp Hu. unfold self_group, gate_group.
  destruct (decide (t ∈ WORKER_SELF_TOOLS)) as [Hw|Hw];
    [rewrite (bool_decide_eq_true_2 (t ∈ WORKER_SELF_TOOLS)) by exact Hw
    |rewrite (bool_decide_eq_false_2 (t ∈ WORKER_SELF_TOOLS)) by exact Hw];
    destruct (bool_decide _), (cfg_on s "context_group_id"); split; intros Hb; try discriminate Hb; clear Hb;
    rewrite ?elem_of_union, ?elem_of_difference, ?elem_of_union, ?elem_of_difference; tauto.
Qed.

Lemma schema_self_tool h s :
  (∀ n, n ∈ mcp_tool_names h → is_mcp n = true) → t ∉ entitlement_excluded h →
  t ∈ tool_filter_for_session h s ↔ self_group s t = true.
Proof using Ht Hu.
  intros Hm He. destruct (un_names _ Hu) as (_ & _ & Hcode & _ & _ & Hskill & _).
  unfold tool_filter_for_session, gate_skill_step.
  transitivity (t ∈ tool_filter_for_session_impl h s).
  { case_match; [rewrite in_union|rewrite in_difference]; try reflexivity; by rewrite elem_of_singleton. }
  unfold tool_filter_for_session_impl. cbv zeta.
  rewrite gate_case_tools_keeps, late_gates_keep, in_difference, mcp_filter_keeps, schedule_gate_keeps by assumption.
  transitivity (t ∈ apply_execution_context_gates h s (config_filter h s)).
  { destruct (code_enabled h); [reflexivity|]. rewrite in_difference; [reflexivity|]. by rewrite elem_of_singleton. }
  destruct (context_gates_keep h s (config_filter h s)) as [H1 H2]. split; [|exact H1].
  intros Hin. destruct (self_group s t); [reflexivity|destruct (H2 eq_refl Hin)].
Qed.

Lemma prompt_self_tool tools principal use_api whiteboard intakes designer s :
  t ∈ filter_effective_tools tools principal use_api whiteboard intakes designer s ↔ self_group s t = true.
Proof using Ht Hu.
  destruct Hu as [_ _ (Hr & _ & _ & _ & _ & _ & _ & _ & _ & Hof & Hwb & Hds) (_ & _ & _ & Hask & Hcase & _ & Hart & Hsk) Hboth].
  unfold filter_effective_tools. cbv zeta. rewrite gate_case_tools_keeps.
  rewrite in_difference by (rewrite elem_of_difference; tauto).
  match goal with |- t ∈ (if _ then ?r else _) ↔ _ => transitivity (t ∈ r) end.
  { case_match; [reflexivity|]. rewrite in_difference; [reflexivity|]. by rewrite elem_of_singleton. }
  match goal with |- t ∈ (if _ then ?r else _) ↔ _ => transitivity (t ∈ r) end.
  { case_match; [reflexivity|]. rewrite in_difference by exact Hof. reflexivity. }
  match goal with |- t ∈ (if _ then ?r else _) ↔ _ => transitivity (t ∈ r) end.
  { case_match; [reflexivity|]. rewrite in_difference by exact Hr. reflexivity. }
  unfold gate_group at 1. match goal with |- t ∈ (if _ then ?r ∪ _ else _) ↔ _ => transitivity (t ∈ r) end.
  { case_match; [rewrite in_union by exact Hwb|rewrite in_difference by exact Hwb]; reflexivity. }
  match goal with |- t ∈ gate_group _ _ (gate_group _ _ ?r) ↔ _ => generalize r end. intros r.
  clear Hr Hof Hwb Hds Hask Hcase Hart Hsk Hu. unfold SELF_TOOLS in Ht. apply elem_of_union in Ht.
  unfold self_group, gate_group.
  destruct (decide (t ∈ WORKER_SELF_TOOLS)) as [Hw|Hw];
    [rewrite (bool_decide_eq_true_2 (t ∈ WORKER_SELF_TOOLS)) by exact Hw
    |rewrite (bool_decide_eq_false_2 (t ∈ WORKER_SELF_TOOLS)) by exact Hw];
    destruct (bool_decide _), (cfg_on s "context_group_id");
    rewrite ?elem_of_union, ?elem_of_difference, ?elem_of_union, ?elem_of_difference; intuition congruence.
Qed.
End kept.
(** The prompt and the schemas agree on the self-tools: whatever the agent,
    the tenant, the session and the registry, a worker or board tool the package
    does not exclude is in both exactly when the session's context makes it
    work, a case's sessions and restrictive allowlists included. *)
Theorem surfaces_agree h s t tools principal use_api whiteboard intakes designer :
  (∀ n, n ∈ mcp_tool_names h → is_mcp n = true) → t ∈ SELF_TOOLS → t ∉ entitlement_excluded h →
  (t ∈ filter_effective_tools tools principal use_api whiteboard intakes designer s ↔ t ∈ tool_filter_for_session h s) ∧
  (t ∈ tool_filter_for_session h s ↔ self_group s t = true).
Proof.
  intros Hm Ht He. pose proof (self_untouched t Ht) as Hu.
  rewrite (prompt_self_tool t Ht Hu), (schema_self_tool t Ht Hu h s Hm He). split; reflexivity.
Qed.

(** The keys a worker's config sets. *)
Definition worker_key (k : string) : bool :=
  existsb (String.eqb k)
    ["allowed_tools"; "excluded_tools"; "max_iterations"; "streaming"; "agent_type"; "preloaded_skills"].

(** Two sessions of no case that differ only in the tools their configs name. *)
Definition differ_in_tools (s1 s2 : Session) : Prop :=
  session_task_id s1 = session_task_id s2 ∧ parent_id s1 = parent_id s2 ∧ channel s1 = channel s2 ∧
  is_case_session s1 = false ∧
  ∀ k, worker_key k = false → py_get (config s1) k VNone = py_get (config s2) k VNone.

Lemma filter_depends h s1 s2 :
  differ_in_tools s1 s2 → explicit_allowed s1 = explicit_allowed s2 → config_filter h s1 = config_filter h s2 →
  tool_filter_for_session h s1 = tool_filter_for_session h s2.
Proof.
  intros (Ht & Hp & Hch & Hcase & Hk) He Hf.
  assert (Hkey : ∀ k, worker_key k = false → cfg s1 k = cfg s2 k) by (intros k Hd; by apply Hk).
  assert (Hon : ∀ k, worker_key k = false → cfg_on s1 k = cfg_on s2 k) by (intros k Hd; unfold cfg_on; by rewrite Hkey).
  assert (Hrole : ∀ r, workstream_role (config s1) r = workstream_role (config s2) r).
  { intros r. unfold workstream_role. by rewrite (Hk "workstream_role"). }
  assert (Hb : boundary s1 = boundary s2) by (unfold boundary; by rewrite Hkey).
  assert (Hm : is_project_master (config s1) = is_project_master (config s2)) by apply Hrole.
  assert (Hev : is_eval_session s1 = is_eval_session s2) by (unfold is_eval_session; by rewrite Hb).
  assert (Hcs : is_case_session s2 = false) by (unfold is_case_session; by rewrite <- Hb).
  assert (Hun : is_unattended s1 = is_unattended s2).
  { unfold is_unattended, channel_kind, channel_in, is_project_thread. by rewrite Hch, Hrole, Hon. }
  assert (Hctx : apply_execution_context_gates h s1 (config_filter h s1) = apply_execution_context_gates h s2 (config_filter h s2)).
  { unfold apply_execution_context_gates, is_research_coordinator. by rewrite Hf, Ht, Hm, !Hon. }
  unfold tool_filter_for_session, tool_filter_for_session_impl, gate_case_tools. rewrite Hcase, Hcs, Hctx. cbv zeta.
  unfold schedule_gate, drop_project_master_mcp_tools, drop_native_channel_composio_tools, effective_channel_platform,
    drop_eval_excluded_tools, start_case_gate.
  by rewrite Hm, Hev, Hun, Hp, Hch, He, !Hon.
Qed.
Lemma worker_config_other def name k :
  worker_key k = false → assoc k (build_task_worker_config def name) = None.
Proof.
  unfold worker_key. cbn [existsb]. rewrite !orb_false_iff. intros (H1 & H2 & H3 & H4 & H5 & H6 & _).
  unfold build_task_worker_config. cbv zeta. rewrite !assoc_dict_set, (String.eqb_sym _ k), H6.
  destruct (def ≫= (given ∘ def_tools)) as [tools|]; rewrite !assoc_dict_set, !(String.eqb_sym _ k), ?H1, ?H2;
    (destruct name as [n|]; [destruct (str_truthy n)|]; rewrite ?assoc_dict_set, ?(String.eqb_sym _ k), ?H5;
     cbn [assoc]; rewrite !(String.eqb_sym _ k), H3, H4; reflexivity).
Qed.

Lemma worker_config_plain :
  assoc "excluded_tools" (build_task_worker_config None None) = Some (str_list (elements WORKER_EXCLUDED_TOOLS)).
Proof.
  unfold build_task_worker_config. cbv zeta. cbn [mbind option_bind]. rewrite !assoc_dict_set.
  cbn [String.eqb Ascii.eqb Bool.eqb]. reflexivity.
Qed.

(** An agent definition whose allowlist names only tools no worker may have
    restricts nothing: the allowlist is left empty, an empty one is read as none,
    and the worker is offered exactly what a worker without a definition is, the
    tools the definition disallows among them. *)
Theorem emptied_allowlist_widens h s1 s2 def name t0 ts extra :
  def_tools def = Some (t0 :: ts) → Forall (λ t, t ∈ WORKER_EXCLUDED_TOOLS) (t0 :: ts) →
  config s1 = VDict (build_task_worker_config (Some def) name ++ extra) →
  config s2 = VDict (build_task_worker_config None None ++ extra) →
  (∀ k, worker_key k = true ∨ k = "coordinator" → assoc k extra = None) →
  session_task_id s1 = session_task_id s2 → parent_id s1 = parent_id s2 → channel s1 = channel s2 →
  is_case_session s1 = false → tool_filter_for_session h s1 = tool_filter_for_session h s2.
Proof.
  intros Hdef Hall Hc1 Hc2 Hextra Hti Hpi Hch Hcase.
  assert (Hgiven : Some def ≫= (given ∘ def_tools) = Some (t0 :: ts)) by (csimpl; by rewrite Hdef).
  destruct (worker_config_keys (Some def) name) as [_ Hk]. rewrite Hgiven in Hk. destruct Hk as [Hal Hex].
  assert (filter (λ t, t ∉ WORKER_EXCLUDED_TOOLS) (t0 :: ts) = []) as Hnone.
  { clear -Hall. induction Hall as [|x l Hx _ IH]; [done|]. rewrite filter_cons_False; [done|]. tauto. }
  rewrite Hnone in Hal.
  assert (Ha1 : cfg s1 "allowed_tools" = VList []) by (rewrite (cfg_app _ _ _ _ Hc1), Hal; done).
  assert (Ha2 : cfg s2 "allowed_tools" = VNone).
  { rewrite (cfg_app _ _ _ _ Hc2). destruct (worker_config_keys None None) as [_ ->]. by rewrite Hextra by auto. }
  assert (He1 : cfg s1 "excluded_tools" = VNone) by (rewrite (cfg_app _ _ _ _ Hc1), Hex, Hextra; auto).
  assert (He2 : cfg s2 "excluded_tools" = str_list (elements WORKER_EXCLUDED_TOOLS))
    by (by rewrite (cfg_app _ _ _ _ Hc2), worker_config_plain).
  assert (Hco : ∀ s c, config s = VDict (c ++ extra) → assoc "coordinator" c = None → cfg_on s "coordinator" = false).
  { intros s c Hc Hnil. unfold cfg_on. by rewrite (cfg_app _ _ _ _ Hc), Hnil, Hextra by auto. }
  apply filter_depends.
  - split_and!; try assumption. intros k Hkey. fold (cfg s1 k) (cfg s2 k).
    by rewrite (cfg_app _ _ _ _ Hc1), (cfg_app _ _ _ _ Hc2), !worker_config_other.
  - unfold explicit_allowed, cfg_on. by rewrite Ha1, Ha2.
  - unfold config_filter, explicit_allowed.
    rewrite (Hco _ _ Hc1), (Hco _ _ Hc2) by (by apply worker_config_other).
    unfold cfg_on. rewrite Ha1, Ha2, He1, He2, names_in_str_list, list_to_set_elements_L. cbn [truthy names_in].
    by rewrite union_empty_l_L, union_idemp_L.
Qed.
End offered.

(** ** Concrete sessions *)

Definition no_case : CaseModels := {|
  step_contract _ := false; item_contract _ := false; scope_tools _ := None; agent_ref _ := None
|}.

(** A worker process with an MCP server, a paywalled tool and an open gate. *)
Definition sample_harness : Harness := mk_harness
  (set_of ["read_file"; "terminal"; "spawn_worker"; "ask_user_question"; "cron_create"; "idea_tree"; "mcp__crm__find";
           "browser_navigate"; "worker_complete"])
  (set_of ["mcp__crm__find"]) ∅ (set_of ["browser_navigate"; "ask_user_question"]) None false true false.

Lemma sample_mcp n : n ∈ mcp_tool_names sample_harness → is_mcp n = true.
Proof. apply (all_computed is_mcp). vm_compute. reflexivity. Qed.

Definition stripped_def : AgentDef := mk_agent_def (Some ["spawn_worker"]) (Some ["terminal"]) None None.
Definition task_session (def : option AgentDef) (name : option string) : Session :=
  mk_session (VDict (build_task_worker_config def name ++ [("workspace_path", VStr "/w")])) (Some 7%Z) (Some 1%Z) (Some "task").
Definition chat_session : Session := mk_session (VDict [("scheduled_session_id", VStr "r1")]) None None (Some "web").

Lemma task_worker_never_spawns_witness :
  "spawn_worker" ∉ @tool_filter_for_session no_case sample_harness (task_session (Some stripped_def) (Some "scout")).
Proof.
  apply (@task_worker_never_spawns no_case sample_harness (task_session (Some stripped_def) (Some "scout"))
    (Some stripped_def) (Some "scout") [("workspace_path", VStr "/w")]); [exact sample_mcp|reflexivity|reflexivity|reflexivity|].
  apply in_computed. vm_compute. reflexivity.
Defined.

Lemma session_gates_witness :
  let t := "read_file" in
  t ∈ @tool_filter_for_session no_case sample_harness chat_session ∧ t ∉ RESEARCH_SPINE_TOOLS.
Proof.
  intros t. assert (Ht : t ∈ @tool_filter_for_session no_case sample_harness chat_session).
  { apply in_computed. vm_compute. reflexivity. }
  split; [exact Ht|]. by apply (@session_gates no_case sample_harness chat_session t sample_mcp Ht).
Defined.

Lemma entitlements_hold_witness :
  "browser_navigate" ∉ @tool_filter_for_session no_case sample_harness (task_session None None).
Proof.
  apply (@entitlements_hold no_case sample_harness (task_session None None) "browser_navigate").
  - apply in_computed. vm_compute. reflexivity.
  - apply not_in_computed. vm_compute. reflexivity.
Defined.

(** The question tool is added back after a package excluded it. *)
Example excluded_question_offered :
  let chat := mk_session VNone None None (Some "web") in
  "ask_user_question" ∈ entitlement_excluded sample_harness ∧
  "ask_user_question" ∈ @tool_filter_for_session no_case sample_harness chat.
Proof. split; apply in_computed; vm_compute; reflexivity. Qed.

Lemma surfaces_agree_witness :
  "worker_complete" ∈ @tool_filter_for_session no_case sample_harness (task_session (Some stripped_def) (Some "scout")).
Proof.
  apply (@surfaces_agree no_case sample_harness (task_session (Some stripped_def) (Some "scout")) "worker_complete"
    ∅ true true false false ∅ sample_mcp).
  - apply in_computed. vm_compute. reflexivity.
  - apply not_in_computed. vm_compute. reflexivity.
  - reflexivity.
Defined.

Lemma emptied_allowlist_widens_witness :
  @tool_filter_for_session no_case sample_harness (task_session (Some stripped_def) (Some "scout")) =
    @tool_filter_for_session no_case sample_harness (task_session None None) ∧
  "terminal" ∈ @tool_filter_for_session no_case sample_harness (task_session None None).
Proof.
  split; [|apply in_computed; vm_compute; reflexivity].
  apply (@emptied_allowlist_widens no_case sample_harness (task_session (Some stripped_def) (Some "scout"))
    (task_session None None) stripped_def (Some "scout") "spawn_worker" [] [("workspace_path", VStr "/w")]); try reflexivity.
  - constructor; [|constructor]. apply in_computed. vm_compute. reflexivity.
  - intros k Hk. cbn [assoc]. destruct (String.eqb_spec "workspace_path" k) as [<-|]; [|reflexivity].
    destruct Hk as [Hk|Hk]; discriminate Hk.
Defined.
