(* ===== verification/Guardrails.v ===== *)
(** * Tool-loop guardrails (harness/tool_guardrails.py)

    The per-turn controller that warns of and blocks repeated tool calls: its
    configuration, its counters, the decisions before and after a call, and the
    rebuilding of its chain from a conversation.

    JSON and SHA-256 are parameters. *)

From S2P Require Import Prelude.
From S2P Require Import PyStr.
From stdpp Require Import options.

Definition IDEMPOTENT_TOOL_NAMES : list string :=
  ["file_read"; "read_file"; "search_files"; "list_files"; "web_search"; "web_extract"; "web_crawl"; "session_search";
   "skills_list"; "skill_view"].
Definition WORKSPACE_EDIT_TOOL_NAMES : list string := ["write_file"; "patch"].
Definition MUTATING_TOOL_NAMES : list string :=
  ["terminal"; "execute_code"; "write_file"; "patch"; "memory"; "skill_manage"; "browser_click"; "browser_type";
   "browser_press_key"; "browser_scroll"; "browser_navigate"; "browser_evaluate"; "send_message"; "delegate_task"].

Record ToolGuardrailConfig := mk_guard_config {
  warnings_enabled : bool;
  hard_stop_enabled : bool;
  exact_failure_warn_after : Z;
  exact_failure_block_after : Z;
  same_tool_failure_warn_after : Z;
  same_tool_failure_halt_after : Z;
  no_progress_warn_after : Z;
  no_progress_block_after : Z;
  consecutive_no_progress_enabled : bool;
  consecutive_no_progress_warn_after : Z;
  consecutive_no_progress_block_after : Z;
  idempotent_tools : list string;
  mutating_tools : list string
}.

Definition default_config : ToolGuardrailConfig :=
  mk_guard_config true false 2 5 3 8 2 5 true 2 3 IDEMPOTENT_TOOL_NAMES MUTATING_TOOL_NAMES.

(** [_as_bool] *)
Definition lower_char (a : ascii) : ascii :=
  let n := nat_of_ascii a in if (65 <=? n)%nat && (n <=? 90)%nat then ascii_of_nat (n + 32) else a.
Fixpoint lower (s : string) : string :=
  match s with EmptyString => EmptyString | String a r => String (lower_char a) (lower r) end.

Definition as_bool (value : pyval) (dflt : bool) : bool :=
  match value with
  | VBool b => b
  | VInt z => negb (z =? 0)%Z
  | VStr s =>
    let l := lower (strip s) in
    if bool_decide (l ∈ ["1"; "true"; "yes"; "on"; "enabled"]) then true
    else if bool_decide (l ∈ ["0"; "false"; "no"; "off"; "disabled"]) then false else dflt
  | _ => dflt
  end.

(** [_positive_int] *)
Definition positive_int (value : pyval) (dflt : Z) : Z :=
  match py_int value with
  | Some parsed => if (1 <=? parsed)%Z then parsed else dflt
  | None => dflt
  end.

Definition from_mapping (data : pyval) : ToolGuardrailConfig :=
  match data with
  | VDict _ =>
    let warn_after := match py_get data "warn_after" VNone with VDict d => VDict d | _ => VDict [] end in
    let hard_stop_after := match py_get data "hard_stop_after" VNone with VDict d => VDict d | _ => VDict [] end in
    let warn key flat dflt := positive_int (py_get warn_after key (py_get data flat VNone)) dflt in
    let stop key flat dflt := positive_int (py_get hard_stop_after key (py_get data flat VNone)) dflt in
    let d := default_config in
    mk_guard_config
      (as_bool (py_get data "warnings_enabled" VNone) (warnings_enabled d))
      (as_bool (py_get data "hard_stop_enabled" VNone) (hard_stop_enabled d))
      (warn "exact_failure" "exact_failure_warn_after" (exact_failure_warn_after d))
      (stop "exact_failure" "exact_failure_block_after" (exact_failure_block_after d))
      (warn "same_tool_failure" "same_tool_failure_warn_after" (same_tool_failure_warn_after d))
      (stop "same_tool_failure" "same_tool_failure_halt_after" (same_tool_failure_halt_after d))
      (warn "idempotent_no_progress" "no_progress_warn_after" (no_progress_warn_after d))
      (stop "idempotent_no_progress" "no_progress_block_after" (no_progress_block_after d))
      (as_bool (py_get data "consecutive_no_progress_enabled" VNone) (consecutive_no_progress_enabled d))
      (warn "consecutive_no_progress" "consecutive_no_progress_warn_after" (consecutive_no_progress_warn_after d))
      (stop "consecutive_no_progress" "consecutive_no_progress_block_after" (consecutive_no_progress_block_after d))
      IDEMPOTENT_TOOL_NAMES MUTATING_TOOL_NAMES
  | _ => default_config
  end.

(** A tool's name and the hash of its arguments. *)
Notation signature := (string * string)%type.

Inductive guard_action := Allow | Warn | Block | Halt.
#[global] Instance guard_action_eq_dec : EqDecision guard_action.
Proof. solve_decision. Defined.

Record ToolGuardrailDecision := mk_guard_decision {
  decision_action : guard_action;
  decision_code : string;
  decision_message : string;
  decision_tool : string;
  decision_count : Z;
  decision_signature : option signature
}.

Definition allow_decision (tool : string) (count : Z) (sig : signature) : ToolGuardrailDecision :=
  mk_guard_decision Allow "allow" "" tool count (Some sig).
Definition allows_execution (d : ToolGuardrailDecision) : bool :=
  match decision_action d with Allow | Warn => true | _ => false end.
Definition should_halt (d : ToolGuardrailDecision) : bool := negb (allows_execution d).

Definition action_str (a : guard_action) : string :=
  match a with Allow => "allow" | Warn => "warn" | Block => "block" | Halt => "halt" end.
Definition signature_metadata (sig : signature) : pyval := VDict [("tool_name", VStr sig.1); ("args_hash", VStr sig.2)].
Definition to_metadata (d : ToolGuardrailDecision) : pyval :=
  VDict ([("action", VStr (action_str (decision_action d))); ("code", VStr (decision_code d));
          ("message", VStr (decision_message d)); ("tool_name", VStr (decision_tool d)); ("count", VInt (decision_count d))] ++
         match decision_signature d with Some sig => [("signature", signature_metadata sig)] | None => [] end).

(** The result a blocked call is given; [json] is [json.dumps] as it is used here. *)
Definition synthetic_value (d : ToolGuardrailDecision) (tool : string) : pyval :=
  VDict [("error", VStr (decision_message d)); ("tool", VStr tool); ("guardrail", to_metadata d)].
Definition toolguard_synthetic_result (json : pyval → string) (d : ToolGuardrailDecision) (tool : string) : string :=
  json (synthetic_value d tool).

Definition newline : string := String "010" "".
Definition append_toolguard_guidance (result : string) (d : ToolGuardrailDecision) : string :=
  let said label := result +:+ newline +:+ newline +:+ "[" +:+ label +:+ ": " +:+ decision_code d +:+ "; count=" +:+
                    str_of_int (decision_count d) +:+ "; " +:+ decision_message d +:+ "]" in
  if str_truthy (decision_message d) then
    match decision_action d with
    | Halt => said "Tool loop hard stop"
    | Warn => said "Tool loop warning"
    | _ => result
    end
  else result.

Record ToolGuardrails := mk_guard {
  exact_failure_counts : gmap signature Z;
  same_tool_failure_counts : gmap string Z;
  no_progress : gmap signature (string * Z);
  halt_decision : option ToolGuardrailDecision;
  consecutive_signature : option signature;
  consecutive_result_hash : option string;
  consecutive_count : Z
}.

Definition new_guard : ToolGuardrails := mk_guard ∅ ∅ ∅ None None None 0.

Definition set_halt (g : ToolGuardrails) (d : ToolGuardrailDecision) : ToolGuardrails :=
  mk_guard (exact_failure_counts g) (same_tool_failure_counts g) (no_progress g) (Some d) (consecutive_signature g)
    (consecutive_result_hash g) (consecutive_count g).
Definition set_chain (g : ToolGuardrails) (sig : option signature) (hash : option string) (n : Z) : ToolGuardrails :=
  mk_guard (exact_failure_counts g) (same_tool_failure_counts g) (no_progress g) (halt_decision g) sig hash n.
Definition set_counts (g : ToolGuardrails) (exact : gmap signature Z) (same : gmap string Z)
    (np : gmap signature (string * Z)) : ToolGuardrails :=
  mk_guard exact same np (halt_decision g) (consecutive_signature g) (consecutive_result_hash g) (consecutive_count g).

Definition is_idempotent (c : ToolGuardrailConfig) (tool : string) : bool :=
  if bool_decide (tool ∈ mutating_tools c) then false else bool_decide (tool ∈ idempotent_tools c).

Section guards.
Context (sha256 : string → string) (dumps : pyval → string) (loads : string → option pyval).

(** [json.loads], None where it raises; [null] is None too. *)
Definition safe_json_loads (s : string) : pyval := default VNone (loads s).

(** [ToolCallSignature.from_call(name, _coerce_args(args))] *)
Definition from_call (tool : string) (args : pyval) : signature :=
  (tool, sha256 (dumps (match args with VDict d => VDict d | _ => VDict [] end))).

Definition result_hash (result : option string) : string :=
  let text := default "" result in
  sha256 (match safe_json_loads text with VNone => text | parsed => dumps parsed end).

Definition eq_zero (v : pyval) : bool :=
  match v with VNone => true | VInt z => (z =? 0)%Z | VBool b => negb b | _ => false end.

Definition classify_tool_failure (tool : string) (result : option string) : bool :=
  match result with
  | None => false
  | Some r =>
    match safe_json_loads r with
    | VDict d =>
      if String.eqb tool "terminal" then
        if eq_zero (py_get (VDict d) "exit_code" VNone) then false
        else negb (truthy (py_get (VDict d) "exit_code_meaning" VNone))
      else truthy (py_get (VDict d) "error" VNone) ||
           match py_get (VDict d) "failed" VNone with VBool true => true | _ => false end
    | _ =>
      let l := lower (String.substring 0 500 r) in
      str_contains (String "034" "error" +:+ String "034" "") l || str_contains (String "034" "failed" +:+ String "034" "") l ||
      startswith r "Error"
    end
  end.

Context (c : ToolGuardrailConfig).

Definition consecutive_block (tool : string) (n : Z) (sig : signature) : ToolGuardrailDecision :=
  mk_guard_decision Block "consecutive_no_progress_block"
    ("Blocked " +:+ tool +:+ ": this exact call already ran " +:+ str_of_int n +:+
     " times in a row with the same result. Repeating it cannot make progress and model providers reject conversations with repeated identical tool calls. Change the arguments, use a different tool, or explain the blocker.")
    tool n (Some sig).
Definition exact_block (tool : string) (n : Z) (sig : signature) : ToolGuardrailDecision :=
  mk_guard_decision Block "repeated_exact_failure_block"
    ("Blocked " +:+ tool +:+ ": the same tool call failed " +:+ str_of_int n +:+
     " times with identical arguments. Change strategy or explain the blocker.") tool n (Some sig).
Definition no_progress_block (tool : string) (n : Z) (sig : signature) : ToolGuardrailDecision :=
  mk_guard_decision Block "idempotent_no_progress_block"
    ("Blocked " +:+ tool +:+ ": this read-only call returned the same result " +:+ str_of_int n +:+
     " times. Use the existing result or try a different query.") tool n (Some sig).

(** The hard stops of [before_call]. *)
Definition hard_stop_before (g : ToolGuardrails) (tool : string) (sig : signature) : option ToolGuardrailDecision :=
  let exact := default 0%Z (exact_failure_counts g !! sig) in
  if (exact_failure_block_after c <=? exact)%Z then Some (exact_block tool exact sig)
  else if is_idempotent c tool then
    match no_progress g !! sig with
    | Some (_, n) => if (no_progress_block_after c <=? n)%Z then Some (no_progress_block tool n sig) else None
    | None => None
    end
  else None.

Definition before_call (g : ToolGuardrails) (tool : string) (args : pyval) : ToolGuardrails * ToolGuardrailDecision :=
  let sig := from_call tool args in
  let rest g :=
    if hard_stop_enabled c then
      match hard_stop_before g tool sig with
      | Some d => (set_halt g d, d)
      | None => (g, allow_decision tool 0 sig)
      end
    else (g, allow_decision tool 0 sig) in
  if consecutive_no_progress_enabled c then
    if decide (Some sig = consecutive_signature g) then
      if (consecutive_no_progress_block_after c <=? consecutive_count g)%Z then
        let d := consecutive_block tool (consecutive_count g) sig in (set_halt g d, d)
      else rest g
    else rest (set_chain g (Some sig) None 0)
  else rest g.

(** [_update_consecutive_no_progress] *)
Definition update_consecutive (g : ToolGuardrails) (tool : string) (sig : signature) (result : option string)
    : ToolGuardrails * option ToolGuardrailDecision :=
  if consecutive_no_progress_enabled c then
    let h := result_hash result in
    if decide (Some sig = consecutive_signature g) then
      if (consecutive_count g =? 0)%Z || negb (bool_decide (Some h = consecutive_result_hash g)) then
        (set_chain g (consecutive_signature g) (Some h) 1, None)
      else
        let n := (consecutive_count g + 1)%Z in
        (set_chain g (consecutive_signature g) (consecutive_result_hash g) n,
         if warnings_enabled c && (consecutive_no_progress_warn_after c <=? n)%Z then
           Some (mk_guard_decision Warn "consecutive_no_progress_warning"
             (tool +:+ " ran " +:+ str_of_int n +:+
              " times in a row with identical arguments and an identical result. Repeating it again will be blocked — change approach.")
             tool n (Some sig))
         else None)
    else (set_chain g (Some sig) (Some h) 1, None)
  else (g, None).

(** What is said of a failure, by its counts. *)
Definition failure_decision (tool : string) (exact same : Z) (sig : signature) : ToolGuardrailDecision :=
  if hard_stop_enabled c && (same_tool_failure_halt_after c <=? same)%Z then
    mk_guard_decision Halt "same_tool_failure_halt"
      ("Stopped " +:+ tool +:+ ": it failed " +:+ str_of_int same +:+
       " times this turn. Stop retrying the same failing tool path and choose a different approach.") tool same (Some sig)
  else if warnings_enabled c && (exact_failure_warn_after c <=? exact)%Z then
    mk_guard_decision Warn "repeated_exact_failure_warning"
      (tool +:+ " has failed " +:+ str_of_int exact +:+
       " times with identical arguments. Inspect the error and change strategy instead of retrying unchanged.") tool exact (Some sig)
  else if warnings_enabled c && (same_tool_failure_warn_after c <=? same)%Z then
    mk_guard_decision Warn "same_tool_failure_warning"
      (tool +:+ " has failed " +:+ str_of_int same +:+ " times this turn. Change approach before retrying.") tool same (Some sig)
  else allow_decision tool exact sig.

(** [_after_call_inner] *)
Definition after_call_inner (g : ToolGuardrails) (tool : string) (sig : signature) (result : option string)
    (failed : option bool) : ToolGuardrails * ToolGuardrailDecision :=
  if default (classify_tool_failure tool result) failed then
    let exact := (default 0 (exact_failure_counts g !! sig) + 1)%Z in
    let same := (default 0 (same_tool_failure_counts g !! tool) + 1)%Z in
    let g := set_counts g (<[sig := exact]> (exact_failure_counts g)) (<[tool := same]> (same_tool_failure_counts g))
               (delete sig (no_progress g)) in
    let d := failure_decision tool exact same sig in
    ((match decision_action d with Halt => set_halt g d | _ => g end), d)
  else
    let edited := bool_decide (tool ∈ WORKSPACE_EDIT_TOOL_NAMES) in
    let exact := if edited then ∅ else delete sig (exact_failure_counts g) in
    let same := if edited then ∅ else delete tool (same_tool_failure_counts g) in
    if negb (is_idempotent c tool) then (set_counts g exact same (delete sig (no_progress g)), allow_decision tool 0 sig)
    else
      let h := result_hash result in
      let n := match no_progress g !! sig with
               | Some (h', n) => if String.eqb h' h then (n + 1)%Z else 1%Z
               | None => 1%Z
               end in
      (set_counts g exact same (<[sig := (h, n)]> (no_progress g)),
       if warnings_enabled c && (no_progress_warn_after c <=? n)%Z then
         mk_guard_decision Warn "idempotent_no_progress_warning"
           (tool +:+ " returned the same result " +:+ str_of_int n +:+
            " times. Use the result already provided or change the query.") tool n (Some sig)
       else allow_decision tool n sig).

Definition after_call (g : ToolGuardrails) (tool : string) (args : pyval) (result : option string) (failed : option bool)
    : ToolGuardrails * ToolGuardrailDecision :=
  let sig := from_call tool args in
  let '(g, warn) := update_consecutive g tool sig result in
  let '(g, base) := after_call_inner g tool sig result failed in
  (g, match warn with
      | Some w => if decide (decision_action base = Allow) then w else base
      | None => base
      end).

(** ** [seed_from_messages] *)

Definition dict_or_empty (v : pyval) : pyval := match v with VDict d => VDict d | _ => VDict [] end.
Definition text_or (v : pyval) : string := match v with VStr s => s | _ => "" end.

(** The arguments of a call as its signature reads them. *)
Definition call_args (raw : pyval) : pyval :=
  dict_or_empty (match raw with VStr s => safe_json_loads s | v => v end).

(** The walk over the reversed messages, with the results met, by call id. *)
Fixpoint seed_walk (messages : list pyval) (results : list (string * string)) (sig : option signature)
    (hash : option string) (n : Z) : option signature * option string * Z :=
  match messages with
  | [] => (sig, hash, n)
  | m :: messages =>
    match py_get m "role" VNone with
    | VStr role =>
      if String.eqb role "tool" then
        match py_get m "tool_call_id" VNone with
        | VStr id =>
          seed_walk messages (if str_truthy id then dict_set id (text_or (py_get m "content" VNone)) results else results)
            sig hash n
        | _ => seed_walk messages results sig hash n
        end
      else if negb (String.eqb role "assistant") then (sig, hash, n)
      else
        match py_get m "tool_calls" VNone with
        | VList [call] =>
          let function := dict_or_empty (py_get call "function" VNone) in
          let this := from_call (text_or (py_get function "name" (VStr "")))
                        (call_args (py_get function "arguments" (VStr ""))) in
          if decide (sig = None ∨ sig = Some this) then
            let content := default "" (dict_get (text_or (py_get call "id" (VStr ""))) results) in
            match safe_json_loads content with
            | VDict d =>
              match assoc "guardrail" d with
              | Some _ => seed_walk messages results (Some this) hash (n + 1)
              | None =>
                let h := result_hash (Some content) in
                if decide (hash = None ∨ hash = Some h) then seed_walk messages results (Some this) (Some h) (n + 1)
                else (Some this, hash, n)
              end
            | _ =>
              let h := result_hash (Some content) in
              if decide (hash = None ∨ hash = Some h) then seed_walk messages results (Some this) (Some h) (n + 1)
              else (Some this, hash, n)
            end
          else (sig, hash, n)
        | _ => (sig, hash, n)
        end
    | _ => (sig, hash, n)
    end
  end.

Definition seed_from_messages (g : ToolGuardrails) (messages : list pyval) : ToolGuardrails :=
  if consecutive_no_progress_enabled c then
    match seed_walk (rev messages) [] None None 0 with
    | (Some sig, hash, n) => if (0 <? n)%Z then set_chain g (Some sig) hash n else g
    | _ => g
    end
  else g.
End guards.

(** ** Runs of a turn *)

(** A call the model makes, and what it would give. *)
Record Round := mk_round { tool : string; args : pyval; given : option string; told_failed : option bool }.

(** What became of a call: the hash of its result and whether it failed, or
    nothing where it was blocked. *)
Record Attempt := mk_attempt { attempted : signature; outcome : option (string * bool) }.

Section runs.
Context (sha256 : string → string) (dumps : pyval → string) (loads : string → option pyval) (c : ToolGuardrailConfig).

Definition play (g : ToolGuardrails) (r : Round) : ToolGuardrails * Attempt :=
  let sig := from_call sha256 dumps (tool r) (args r) in
  let '(g, d) := before_call sha256 dumps c g (tool r) (args r) in
  if allows_execution d then
    ((after_call sha256 dumps loads c g (tool r) (args r) (given r) (told_failed r)).1,
     mk_attempt sig (Some (result_hash sha256 dumps loads (given r),
                           default (classify_tool_failure loads (tool r) (given r)) (told_failed r))))
  else (g, mk_attempt sig None).

(** The turn so far: the controller, and the attempts, the latest first. *)
Definition play_on (st : ToolGuardrails * list Attempt) (r : Round) : ToolGuardrails * list Attempt :=
  let '(g, a) := play st.1 r in (g, a :: st.2).
Definition turn (rs : list Round) : ToolGuardrails * list Attempt := foldl play_on (new_guard, []) rs.

(** A round as the conversation shows it: the identifier of its call, and the
    text of the arguments. *)
Record Spoken := mk_spoken { call_id : string; raw_args : string; spoken_round : Round }.

Definition assistant_message (u : Spoken) : pyval :=
  VDict [("role", VStr "assistant");
         ("tool_calls", VList [VDict [("id", VStr (call_id u)); ("type", VStr "function");
           ("function", VDict [("name", VStr (tool (spoken_round u))); ("arguments", VStr (raw_args u))])]])].
Definition tool_message (id content : string) : pyval :=
  VDict [("role", VStr "tool"); ("tool_call_id", VStr id); ("content", VStr content)].

Context (json : pyval → string).
Definition shown_result (g : ToolGuardrails) (r : Round) : string :=
  let d := (before_call sha256 dumps c g (tool r) (args r)).2 in
  if allows_execution d then default "" (given r) else toolguard_synthetic_result json d (tool r).
Definition talk_on (st : ToolGuardrails * list Attempt * list pyval) (u : Spoken) : ToolGuardrails * list Attempt * list pyval :=
  (play_on st.1 (spoken_round u),
   st.2 ++ [assistant_message u; tool_message (call_id u) (shown_result st.1.1 (spoken_round u))]).
Definition talk (us : list Spoken) : ToolGuardrails * list Attempt * list pyval := foldl talk_on (new_guard, [], []) us.
End runs.

(** How many calls at the end ran [sig] with the result [h] and nothing else. *)
Fixpoint tail_run (sig : signature) (h : string) (attempts : list Attempt) : Z :=
  match attempts with
  | [] => 0
  | a :: attempts =>
    if decide (attempted a = sig) then
      match outcome a with
      | None => tail_run sig h attempts
      | Some (h', _) => if decide (h' = h) then tail_run sig h attempts + 1 else 0
      end
    else 0
  end.

(** How often [sig] failed since it, or a workspace edit, last succeeded. *)
Fixpoint failures (sig : signature) (attempts : list Attempt) : Z :=
  match attempts with
  | [] => 0
  | a :: attempts =>
    match outcome a with
    | None => failures sig attempts
    | Some (_, true) => if decide (attempted a = sig) then failures sig attempts + 1 else failures sig attempts
    | Some (_, false) =>
      if bool_decide (attempted a = sig) || bool_decide ((attempted a).1 ∈ WORKSPACE_EDIT_TOOL_NAMES) then 0
      else failures sig attempts
    end
  end.

(** How often in a row [sig] was run with the result [h], other calls aside. *)
Fixpoint same_reads (sig : signature) (h : string) (attempts : list Attempt) : Z :=
  match attempts with
  | [] => 0
  | a :: attempts =>
    if decide (attempted a = sig) then
      match outcome a with
      | None => same_reads sig h attempts
      | Some (h', false) => if decide (h' = h) then same_reads sig h attempts + 1 else 0
      | Some (_, true) => 0
      end
    else same_reads sig h attempts
  end.

Section bounded.
Context (sha256 : string → string) (dumps : pyval → string) (loads : string → option pyval) (c : ToolGuardrailConfig).
Notation turn := (turn sha256 dumps loads c).
Notation play := (play sha256 dumps loads c).

Lemma turn_snoc rs r : turn (rs ++ [r]) = play_on sha256 dumps loads c (turn rs) r.
Proof. unfold Guardrails.turn. by rewrite foldl_app. Qed.

(** The chain a guard holds. *)
Definition chain (g : ToolGuardrails) : option signature * option string * Z :=
  (consecutive_signature g, consecutive_result_hash g, consecutive_count g).

(** The chain before an executed call of [sig], and after its result. *)
Definition chain_begin (sig : signature) (ch : option signature * option string * Z) : option signature * option string * Z :=
  if decide (Some sig = ch.1.1) then ch else (Some sig, None, 0%Z).
Definition chain_result (h : string) (ch : option signature * option string * Z) : option signature * option string * Z :=
  if (ch.2 =? 0)%Z || negb (bool_decide (Some h = ch.1.2)) then (ch.1.1, Some h, 1%Z) else (ch.1.1, ch.1.2, (ch.2 + 1)%Z).

Lemma chain_set_halt g d : chain (set_halt g d) = chain g.
Proof. reflexivity. Qed.

Lemma after_call_inner_chain g t sig result failed :
  chain (after_call_inner sha256 dumps loads c g t sig result failed).1 = chain g.
Proof.
  unfold after_call_inner. destruct (default _ _); [|by destruct (negb (is_idempotent _ _))].
  cbn [fst]. by destruct (decision_action _).
Qed.

Lemma after_call_chain g t a result failed :
  consecutive_no_progress_enabled c = true →
  consecutive_signature g = Some (from_call sha256 dumps t a) →
  chain (after_call sha256 dumps loads c g t a result failed).1 =
  chain_result (result_hash sha256 dumps loads result) (chain g).
Proof.
  intros Hon Hg. unfold after_call. set (sig := from_call _ _ _ _) in *. unfold update_consecutive.
  rewrite Hon, decide_True by done. set (h := result_hash _ _ _ _). unfold chain_result, chain at 2 3 4 5 6. cbn [fst snd].
  destruct ((consecutive_count g =? 0)%Z || negb _);
    match goal with |- context [after_call_inner _ _ _ _ ?g1 _ _ _ _] =>
      pose proof (after_call_inner_chain g1 t sig result failed) as Hin end;
    destruct (after_call_inner _ _ _ _ _ _ _ _ _) as [g2 base]; csimpl in *; rewrite Hin; done.
Qed.

(** What a round does to the chain. *)
Lemma play_chain g r :
  consecutive_no_progress_enabled c = true →
  let sig := from_call sha256 dumps (tool r) (args r) in
  let ch := chain_begin sig (chain g) in
  attempted (play g r).2 = sig ∧
  match outcome (play g r).2 with
  | None => chain (play g r).1 = ch
  | Some (h, _) => (ch.2 < consecutive_no_progress_block_after c ∨ ch.2 = 0)%Z ∧ chain (play g r).1 = chain_result h ch
  end.
Proof.
  intros Hon. cbv zeta. set (sig := from_call _ _ _ _).
  assert (Hrest : ∀ g1, consecutive_signature g1 = Some sig →
    let p := if hard_stop_enabled c then
               match hard_stop_before c g1 (tool r) sig with
               | Some d => (set_halt g1 d, d)
               | None => (g1, allow_decision (tool r) 0 sig)
               end
             else (g1, allow_decision (tool r) 0 sig) in
    chain p.1 = chain g1 ∧ consecutive_signature p.1 = Some sig).
  { intros g1 Hg1. repeat case_match; done. }
  unfold Guardrails.play. fold sig. unfold before_call. fold sig. rewrite Hon.
  unfold chain_begin. change (chain g).1.1 with (consecutive_signature g). case_decide as Hs.
  - destruct (Z.leb_spec (consecutive_no_progress_block_after c) (consecutive_count g)) as [Hle|Hlt].
    + csimpl. done.
    + specialize (Hrest g (eq_sym Hs)). destruct (if hard_stop_enabled c then _ else _) as [g1 d]. csimpl in Hrest.
      destruct Hrest as [Hch Hsig]. destruct (allows_execution d); csimpl; [|done].
      split; [done|]. split; [by left|]. by rewrite after_call_chain, Hch.
  - specialize (Hrest (set_chain g (Some sig) None 0) eq_refl).
    destruct (if hard_stop_enabled c then _ else _) as [g1 d]. csimpl in Hrest.
    destruct Hrest as [Hch Hsig]. destruct (allows_execution d); csimpl; [|done].
    split; [done|]. split; [by right|]. by rewrite after_call_chain, Hch.
Qed.
(** The chain counts at least the calls that end the turn so far. *)
Definition covers (ch : option signature * option string * Z) (sig : signature) (h : string) : Z :=
  if decide (ch.1 = (Some sig, Some h)) then ch.2 else 0%Z.

Definition chain_inv (st : ToolGuardrails * list Attempt) : Prop :=
  (0 <= consecutive_count st.1 <= consecutive_no_progress_block_after c)%Z ∧
  ∀ sig h, (tail_run sig h st.2 <= covers (chain st.1) sig h)%Z.

Lemma covers_begin sig0 ch sig h : (0 <= ch.2)%Z →
  (covers ch sig h <= covers (chain_begin sig0 ch) sig h)%Z ∨ sig0 ≠ sig.
Proof.
  intros H0. unfold chain_begin. case_decide as Hs; [left; lia|]. destruct (decide (sig0 = sig)) as [->|]; [left|by right].
  destruct ch as [[o1 o2] n]. csimpl in *. unfold covers. csimpl. repeat case_decide; simplify_eq; lia.
Qed.

Lemma covers_result h0 ch sig h :
  ch.1.1 = Some sig → (covers ch sig h + 1 <= covers (chain_result h0 ch) sig h)%Z ∨ h0 ≠ h.
Proof.
  intros Hs. destruct (decide (h0 = h)) as [->|]; [left|by right]. destruct ch as [[o1 o2] n]. csimpl in Hs. subst o1.
  unfold chain_result, covers. csimpl. destruct (Z.eqb_spec n 0) as [->|Hn]; csimpl.
  - rewrite (decide_True (P := (Some sig, Some h) = _)) by done. case_decide; lia.
  - case_bool_decide as Hh; csimpl.
    + subst o2. rewrite !decide_True by done. lia.
    + rewrite (decide_True (P := (Some sig, Some h) = _)) by done. rewrite decide_False by congruence. lia.
Qed.

Lemma chain_inv_step st r :
  consecutive_no_progress_enabled c = true → (1 <= consecutive_no_progress_block_after c)%Z →
  chain_inv st → chain_inv (play_on sha256 dumps loads c st r).
Proof.
  intros Hon HN [[H0 Hle] Hcov]. destruct st as [g tr]. csimpl in *.
  pose proof (play_chain g r Hon) as Hp. cbv zeta in Hp. set (sig0 := from_call _ _ _ _) in *.
  set (ch := chain_begin sig0 (chain g)) in *. unfold play_on. csimpl.
  destruct (play g r) as [g' a]. csimpl in Hp. destruct Hp as [Ha Hp].
  assert (Hch : (0 <= ch.2 <= consecutive_no_progress_block_after c)%Z ∧ ch.1.1 = Some sig0).
  { unfold ch, chain_begin. case_decide as Hs; csimpl; [|split; [lia|done]]. split; [lia|]. exact (eq_sym Hs). }
  destruct Hch as [Hch2 Hch1].
  assert (Hcov' : ∀ h, (tail_run sig0 h tr <= covers ch sig0 h)%Z).
  { intros h. etrans; [apply Hcov|]. destruct (covers_begin sig0 (chain g) sig0 h); [done|done|done]. }
  destruct (outcome a) as [[h0 f]|] eqn:Ho.
  - destruct Hp as [Hlt Hg']. split; csimpl.
    + change (consecutive_count g') with (chain g').2. rewrite Hg'. unfold chain_result.
      destruct (Z.eqb_spec ch.2 0); csimpl; [|case_match; csimpl]; lia.
    + intros sig h. rewrite Ha, Ho, Hg'. assert (0 <= covers (chain_result h0 ch) sig h)%Z.
      { unfold covers, chain_result. repeat case_match; csimpl; lia. }
      case_decide as Hs; [|done]. subst sig. case_decide as Hh; [|done]. subst h0.
      destruct (covers_result h ch sig0 h Hch1); [|done]. specialize (Hcov' h). lia.
  - split; csimpl.
    + change (consecutive_count g') with (chain g').2. by rewrite Hp.
    + intros sig h. rewrite Ha, Ho, Hp. case_decide as Hs; [by subst|]. unfold covers. case_decide; lia.
Qed.

Lemma chain_inv_turn rs :
  consecutive_no_progress_enabled c = true → (1 <= consecutive_no_progress_block_after c)%Z → chain_inv (turn rs).
Proof.
  intros Hon HN. induction rs as [|r rs IH] using rev_ind; [|rewrite turn_snoc; by apply chain_inv_step].
  split; csimpl; [lia|]. intros sig h. unfold covers. by rewrite decide_False by done.
Qed.

(** ** The hard stops' counters *)

Definition bound_inv (st : ToolGuardrails * list Attempt) : Prop :=
  (∀ sig, default 0%Z (exact_failure_counts st.1 !! sig) = failures sig st.2 ∧
          (0 <= failures sig st.2 <= exact_failure_block_after c)%Z) ∧
  (∀ sig h, is_idempotent c sig.1 = true →
     same_reads sig h st.2 = match no_progress st.1 !! sig with
                             | Some (h', n) => if decide (h' = h) then n else 0%Z
                             | None => 0%Z
                             end ∧
     (0 <= same_reads sig h st.2 <= no_progress_block_after c)%Z).

Lemma before_call_counts g t a :
  let sig := from_call sha256 dumps t a in
  let p := before_call sha256 dumps c g t a in
  exact_failure_counts p.1 = exact_failure_counts g ∧ no_progress p.1 = no_progress g ∧
  (hard_stop_enabled c = true → allows_execution p.2 = true → hard_stop_before c g t sig = None).
Proof.
  cbv zeta. unfold before_call. set (sig := from_call _ _ _ _).
  assert (Hsame : ∀ o h n, hard_stop_before c (set_chain g o h n) t sig = hard_stop_before c g t sig) by done.
  repeat (case_match || case_decide); csimpl; try done; rewrite ?Hsame in *; split_and!; try done; intros; simplify_eq.
  all: unfold hard_stop_before in *; repeat case_match; simplify_eq; done.
Qed.

Lemma update_consecutive_counts g t sig result :
  exact_failure_counts (update_consecutive sha256 dumps loads c g t sig result).1 = exact_failure_counts g ∧
  no_progress (update_consecutive sha256 dumps loads c g t sig result).1 = no_progress g.
Proof. unfold update_consecutive. repeat case_match; done. Qed.

(** What an executed call does to the counters of the hard stops. *)
Lemma after_call_counts g t a result failed :
  let sig := from_call sha256 dumps t a in
  let h := result_hash sha256 dumps loads result in
  let g' := (after_call sha256 dumps loads c g t a result failed).1 in
  if default (classify_tool_failure loads t result) failed then
    exact_failure_counts g' = <[sig := (default 0 (exact_failure_counts g !! sig) + 1)%Z]> (exact_failure_counts g) ∧
    no_progress g' = delete sig (no_progress g)
  else
    exact_failure_counts g' =
      (if bool_decide (t ∈ WORKSPACE_EDIT_TOOL_NAMES) then ∅ else delete sig (exact_failure_counts g)) ∧
    no_progress g' =
      (if is_idempotent c t then
         <[sig := (h, match no_progress g !! sig with
                      | Some (h', n) => if String.eqb h' h then (n + 1)%Z else 1%Z
                      | None => 1%Z
                      end)]> (no_progress g)
       else delete sig (no_progress g)).
Proof.
  cbv zeta. unfold after_call. set (sig := from_call _ _ _ _). set (h := result_hash _ _ _ _).
  pose proof (update_consecutive_counts g t sig result) as [He Hn].
  destruct (update_consecutive _ _ _ _ _ _ _ _) as [g1 w]. csimpl in *. unfold after_call_inner. fold h. rewrite He, Hn.
  destruct (default _ _); csimpl.
  - by destruct (decision_action _).
  - destruct (is_idempotent c t); csimpl; done.
Qed.

Lemma hard_stop_before_none g t sig :
  hard_stop_before c g t sig = None →
  (default 0 (exact_failure_counts g !! sig) < exact_failure_block_after c)%Z ∧
  (is_idempotent c t = true → ∀ h n, no_progress g !! sig = Some (h, n) → (n < no_progress_block_after c)%Z).
Proof.
  unfold hard_stop_before. destruct (Z.leb_spec (exact_failure_block_after c) (default 0%Z (exact_failure_counts g !! sig)));
    [done|]. intros Hs. split; [done|]. intros Hi h n Hn. rewrite Hi, Hn in Hs.
  destruct (Z.leb_spec (no_progress_block_after c) n); [done|lia].
Qed.

(** What a round does to the counters of the hard stops. *)
Lemma play_counts g r :
  hard_stop_enabled c = true →
  let sig := from_call sha256 dumps (tool r) (args r) in
  let g' := (play g r).1 in
  attempted (play g r).2 = sig ∧
  match outcome (play g r).2 with
  | None => exact_failure_counts g' = exact_failure_counts g ∧ no_progress g' = no_progress g
  | Some (h, f) =>
    hard_stop_before c g (tool r) sig = None ∧
    if f then
      exact_failure_counts g' = <[sig := (default 0 (exact_failure_counts g !! sig) + 1)%Z]> (exact_failure_counts g) ∧
      no_progress g' = delete sig (no_progress g)
    else
      exact_failure_counts g' =
        (if bool_decide (tool r ∈ WORKSPACE_EDIT_TOOL_NAMES) then ∅ else delete sig (exact_failure_counts g)) ∧
      no_progress g' =
        (if is_idempotent c (tool r) then
           <[sig := (h, match no_progress g !! sig with
                        | Some (h', n) => if String.eqb h' h then (n + 1)%Z else 1%Z
                        | None => 1%Z
                        end)]> (no_progress g)
         else delete sig (no_progress g))
  end.
Proof.
  intros Hon. cbv zeta. unfold Guardrails.play. set (sig := from_call _ _ _ _).
  pose proof (before_call_counts g (tool r) (args r)) as (He & Hn & Hb). fold sig in Hb.
  destruct (before_call _ _ _ _ _ _) as [g1 d]. csimpl in *. destruct (allows_execution d); csimpl; [|done].
  split; [done|]. split; [by apply Hb|].
  pose proof (after_call_counts g1 (tool r) (args r) (given r) (told_failed r)) as Ha. cbv zeta in Ha. fold sig in Ha.
  rewrite He, Hn in Ha. destruct (default (classify_tool_failure _ _ _) _); exact Ha.
Qed.

Lemma bound_inv_step st r :
  hard_stop_enabled c = true → (1 <= exact_failure_block_after c)%Z → (1 <= no_progress_block_after c)%Z →
  bound_inv st → bound_inv (play_on sha256 dumps loads c st r).
Proof.
  intros Hon HE HN [Hf Hr]. destruct st as [g tr]. csimpl in *.
  pose proof (play_counts g r Hon) as Hp. cbv zeta in Hp. set (sig0 := from_call _ _ _ _) in *. unfold play_on. csimpl.
  destruct (play g r) as [g' a]. csimpl in Hp. destruct Hp as [Ha Hp].
  assert (Ht : sig0.1 = tool r) by done. clearbody sig0. destruct (outcome a) as [[h0 f]|] eqn:Ho.
  - destruct Hp as [Hb Hp]. apply hard_stop_before_none in Hb as [Hbe Hbn].
    destruct f, Hp as [He Hn]; (split; [intros sig; specialize (Hf sig) | intros sig h Hi; specialize (Hr sig h Hi)]);
      csimpl in *; rewrite ?He, ?Hn, ?Ho, ?Ha; csimpl.
    + case_decide as Hs; [subst; rewrite lookup_insert, decide_True by done | rewrite lookup_insert_ne by done]; csimpl; lia.
    + case_decide as Hs; [subst; rewrite lookup_delete, decide_True by done | rewrite lookup_delete_ne by done]; csimpl; lia.
    + rewrite Ht. destruct (bool_decide (tool r ∈ _)); [rewrite orb_true_r, lookup_empty; csimpl; lia|].
      rewrite orb_false_r. case_bool_decide as Hs;
        [subst; rewrite lookup_delete, decide_True by done | rewrite lookup_delete_ne by done]; csimpl; lia.
    + destruct (decide (sig0 = sig)) as [Hs|Hs].
      * subst sig. rewrite Ht in Hi. rewrite Hi, lookup_insert_eq. specialize (Hbn Hi).
        destruct (no_progress g !! sig0) as [[h' n]|] eqn:Hg; [specialize (Hbn _ _ eq_refl)|];
          [destruct (String.eqb_spec h' h0)|]; subst; repeat case_decide; simplify_eq; lia.
      * destruct (is_idempotent c (tool r)); [rewrite lookup_insert_ne by done|rewrite lookup_delete_ne by done]; done.
  - destruct Hp as [He Hn]. split; [intros sig; specialize (Hf sig) | intros sig h Hi; specialize (Hr sig h Hi)];
      csimpl in *; rewrite ?He, ?Hn, ?Ho, ?Ha; csimpl; [done|]. by case_decide.
Qed.

Lemma bound_inv_turn rs :
  hard_stop_enabled c = true → (1 <= exact_failure_block_after c)%Z → (1 <= no_progress_block_after c)%Z →
  bound_inv (turn rs).
Proof.
  intros Hon HE HN. induction rs as [|r rs IH] using rev_ind; [|rewrite turn_snoc; by apply bound_inv_step].
  split; csimpl; intros; rewrite lookup_empty; csimpl; lia.
Qed.
End bounded.

(** ** Waking up *)

#[local] Notation state_chain := (option signature * option string * Z)%type.

(** The walk of [seed_from_messages] over the attempts themselves. *)
Fixpoint walk (attempts : list Attempt) (ch : state_chain) : state_chain :=
  match attempts with
  | [] => ch
  | a :: attempts =>
    if decide (ch.1.1 = None ∨ ch.1.1 = Some (attempted a)) then
      match outcome a with
      | None => walk attempts (Some (attempted a), ch.1.2, ch.2 + 1)%Z
      | Some (h, _) =>
        if decide (ch.1.2 = None ∨ ch.1.2 = Some h) then walk attempts (Some (attempted a), Some h, ch.2 + 1)%Z
        else (Some (attempted a), ch.1.2, ch.2)
      end
    else ch
  end.

(** A walk that has a signature, and one that has a result too, keep them. *)
Lemma walk_sig tr s oh k :
  ∃ oh' n, walk tr (Some s, oh, k) = (Some s, oh', n) ∧ (k <= n)%Z ∧ (is_Some oh → oh' = oh).
Proof.
  revert oh k. induction tr as [|a tr IH]; intros oh k; csimpl; [by eauto 10 with lia|].
  case_decide as Hs; [|by eauto 10 with lia]. destruct Hs as [|[= ->]]; [done|].
  destruct (outcome a) as [[h f]|].
  - case_decide as Hh; [|by eauto 10 with lia].
    destruct (IH (Some h) (k + 1)%Z) as (oh' & n & -> & Hn & Ho). exists oh', n. split; [done|]. split; [lia|].
    intros [h' ->]. rewrite Ho by done. by destruct Hh as [|[= ->]].
  - destruct (IH oh (k + 1)%Z) as (oh' & n & -> & Hn & Ho). exists oh', n. split; [done|]. split; [lia|done].
Qed.

Definition all_executed (tr : list Attempt) : Prop := Forall (λ a, outcome a ≠ None) tr.

(** What the chain held while the turn ran says of the walk. *)
Definition walk_inv (ch : state_chain) (tr : list Attempt) : Prop :=
  ch.1.1 = attempted <$> head tr ∧ (0 <= ch.2)%Z ∧
  (∀ a h f, head tr = Some a → outcome a = Some (h, f) → ch.1.2 = Some h ∧ (0 < ch.2)%Z) ∧
  ((0 < ch.2)%Z → ∃ s lh, ch.1 = (Some s, Some lh) ∧
    ∀ oh k, oh = None ∨ oh = Some lh → ∃ n, walk tr (Some s, oh, k) = (Some s, Some lh, k + n)%Z ∧ (ch.2 <= n)%Z ∧
      (all_executed tr → n = ch.2)).

Lemma walk_inv_blocked ch a tr :
  outcome a = None → walk_inv ch tr → walk_inv (chain_begin (attempted a) ch) (a :: tr).
Proof.
  intros Ho (Hs & H0 & Hh & Hw). unfold chain_begin. case_decide as Heq.
  - split; [by rewrite <- Heq|]. split; [done|]. split; [intros ??? [= <-]; congruence|].
    intros Hn. destruct (Hw Hn) as (s & lh & Hch & Hk). exists s, lh. split; [done|]. intros oh k Hoh. csimpl.
    rewrite Hch in Heq. injection Heq as <-. rewrite decide_True by (by right). rewrite Ho.
    destruct (Hk oh (k + 1)%Z Hoh) as (n & -> & Hn' & _). exists (1 + n)%Z. split; [f_equal; lia|]. split; [lia|].
    intros Hall. apply Forall_cons in Hall as [? _]. done.
  - split; [done|]. split; [done|]. split; [intros ??? [= <-]; congruence|]. csimpl. lia.
Qed.

(** Where the attempts before it were of another call or had another result,
    the walk stops at this one. *)
Lemma walk_inv_fresh a h f tr :
  outcome a = Some (h, f) →
  (∀ b h' f', head tr = Some b → outcome b = Some (h', f') → attempted b ≠ attempted a ∨ h' ≠ h) →
  walk_inv (Some (attempted a), Some h, 1%Z) (a :: tr).
Proof.
  intros Ho Hfresh. split; [done|]. split; [done|]. split; [intros ??? [= <-]; rewrite Ho; by intros [= -> ->]|].
  intros _. exists (attempted a), h. split; [done|]. intros oh k Hoh. csimpl.
  rewrite decide_True by (by right). rewrite Ho, decide_True by done.
  destruct (walk_sig tr (attempted a) (Some h) (k + 1)) as (oh' & n & Hwk & Hn & Hoh').
  exists (n - k)%Z. rewrite Hwk, Hoh' by done. split; [f_equal; lia|]. split; [lia|].
  intros Hex. apply Forall_cons in Hex as [_ Hex]. destruct tr as [|b tr]; csimpl in Hwk; [injection Hwk; lia|].
  apply Forall_cons in Hex as [Hb _]. destruct (outcome b) as [[h' f']|] eqn:Hob; [|done].
  destruct (Hfresh b h' f' eq_refl Hob) as [Hne|Hne].
  - rewrite decide_False in Hwk by naive_solver. injection Hwk. lia.
  - rewrite (decide_False (P := _ = None ∨ Some h = _)) in Hwk by naive_solver.
    case_decide; injection Hwk; intros; subst; lia.
Qed.

Lemma walk_inv_executed ch a h f tr :
  outcome a = Some (h, f) → walk_inv ch tr → walk_inv (chain_result h (chain_begin (attempted a) ch)) (a :: tr).
Proof.
  intros Ho (Hs & H0 & Hh & Hw). destruct ch as [[o1 o2] n]. unfold chain_begin. csimpl in *. case_decide as Heq; [destruct Heq|].
  - unfold chain_result. csimpl. destruct (Z.eqb_spec n 0) as [Hz|Hz]; csimpl.
    + apply (walk_inv_fresh _ _ _ _ Ho). intros b h' f' Hb Hob. destruct (Hh b h' f' Hb Hob). lia.
    + case_bool_decide as Hhh; csimpl.
      * destruct Hw as (s & lh & Hch & Hk); [lia|]. simplify_eq.
        unfold walk_inv. csimpl. split; [done|]. split; [lia|]. split; [intros ??? [= <-]; rewrite Ho; intros [= -> ->]; split; [done|lia]|].
        intros _. eexists _, _. split; [done|]. intros oh k Hoh. csimpl. rewrite decide_True by (by right).
        rewrite Ho, decide_True by done. destruct (Hk (Some lh) (k + 1)%Z) as (m & -> & Hm & Hex); [by right|].
        exists (1 + m)%Z. split; [f_equal; lia|]. split; [lia|]. intros Hall. apply Forall_cons in Hall as [_ Hall].
        specialize (Hex Hall). lia.
      * apply (walk_inv_fresh _ _ _ _ Ho). intros b h' f' Hb Hob. right. destruct (Hh b h' f' Hb Hob). congruence.
  - unfold chain_result. csimpl. apply (walk_inv_fresh _ _ _ _ Ho). intros b h' f' Hb _. left.
    rewrite Hs, Hb in Heq. csimpl in Heq. congruence.
Qed.

Section seeding.
Context (sha256 : string → string) (dumps json : pyval → string) (loads : string → option pyval) (c : ToolGuardrailConfig).
Notation turn := (turn sha256 dumps loads c).
Notation play := (play sha256 dumps loads c).
Notation talk := (talk sha256 dumps loads c json).

Lemma walk_inv_turn rs : consecutive_no_progress_enabled c = true → walk_inv (chain (turn rs).1) (turn rs).2.
Proof.
  intros Hon. induction rs as [|r rs IH] using rev_ind; [repeat split; csimpl; lia || done|].
  rewrite turn_snoc. destruct (turn rs) as [g tr]. unfold play_on. csimpl in *.
  pose proof (play_chain sha256 dumps loads c g r Hon) as Hp. cbv zeta in Hp.
  destruct (play g r) as [g' a]. csimpl in *. destruct Hp as [Ha Hp]. rewrite <- Ha in Hp.
  destruct (outcome a) as [[h f]|] eqn:Ho.
  - destruct Hp as [_ ->]. by eapply walk_inv_executed.
  - rewrite Hp. by apply walk_inv_blocked.
Qed.

Lemma talk_snoc us u : talk (us ++ [u]) = talk_on sha256 dumps loads c json (talk us) u.
Proof. unfold Guardrails.talk. by rewrite foldl_app. Qed.

Lemma talk_turn us : (talk us).1 = turn (spoken_round <$> us).
Proof.
  induction us as [|u us IH] using rev_ind; [done|]. rewrite talk_snoc, fmap_app. csimpl. rewrite turn_snoc, <- IH. done.
Qed.

(** A round is shown as it is played: its call has an identifier, the text of
    its arguments reads as them, and its result is not one a blocked call has. *)
Definition guard_text (s : string) : bool :=
  match safe_json_loads loads s with
  | VDict d => match assoc "guardrail" d with Some _ => true | None => false end
  | _ => false
  end.
Definition shown_as_played (u : Spoken) : Prop :=
  call_id u ≠ "" ∧
  dict_or_empty (safe_json_loads loads (raw_args u)) = dict_or_empty (args (spoken_round u)) ∧
  guard_text (default "" (given (spoken_round u))) = false.

(** A blocked call's result reads as one. *)
Definition blocked_readable : Prop := ∀ d t, guard_text (toolguard_synthetic_result json d t) = true.

(** One step of the walk over the messages, where they are a round's. *)
Lemma seed_walk_round u content older results ch :
  call_id u ≠ "" →
  seed_walk sha256 dumps loads (tool_message (call_id u) content :: assistant_message u :: older) results ch.1.1 ch.1.2 ch.2 =
  let this := from_call sha256 dumps (tool (spoken_round u)) (call_args loads (VStr (raw_args u))) in
  let results := dict_set (call_id u) content results in
  if decide (ch.1.1 = None ∨ ch.1.1 = Some this) then
    if guard_text content then seed_walk sha256 dumps loads older results (Some this) ch.1.2 (ch.2 + 1)
    else
      let h := result_hash sha256 dumps loads (Some content) in
      if decide (ch.1.2 = None ∨ ch.1.2 = Some h) then
        seed_walk sha256 dumps loads older results (Some this) (Some h) (ch.2 + 1)
      else (Some this, ch.1.2, ch.2)
  else ch.
Proof.
  intros Hid. destruct ch as [[o1 o2] n]. csimpl. unfold str_truthy. destruct (String.eqb_spec (call_id u) ""); [done|].
  csimpl. rewrite dict_get_set_eq. csimpl. case_decide; [|done]. unfold guard_text.
  destruct (safe_json_loads loads content); try done. by destruct (assoc "guardrail" kvs).
Qed.

Lemma seed_walk_talk us older results ch :
  blocked_readable → Forall shown_as_played us →
  (∀ results ch, seed_walk sha256 dumps loads older results ch.1.1 ch.1.2 ch.2 = ch) →
  seed_walk sha256 dumps loads (rev (talk us).2 ++ older) results ch.1.1 ch.1.2 ch.2 = walk (talk us).1.2 ch.
Proof.
  intros Hjson Hus Holder. revert results ch.
  induction us as [|u us IH] using rev_ind; intros results ch; [apply Holder|].
  apply Forall_app in Hus as [Hus (Hid & Hargs & Hgiven)%Forall_singleton]. specialize (IH Hus). rewrite talk_snoc.
  destruct (talk us) as [[g tr] msgs]. unfold talk_on, play_on, Guardrails.play. csimpl in *.
  rewrite rev_app_distr. cbn [rev app]. rewrite seed_walk_round by done. cbv zeta.
  assert (Hthis : from_call sha256 dumps (tool (spoken_round u)) (call_args loads (VStr (raw_args u))) =
                  from_call sha256 dumps (tool (spoken_round u)) (args (spoken_round u))).
  { unfold call_args, from_call. rewrite Hargs. by destruct (args _). }
  rewrite Hthis. set (this := from_call sha256 dumps (tool (spoken_round u)) (args (spoken_round u))).
  unfold shown_result. destruct (before_call _ _ _ _ _ _) as [g1 d]. cbn [fst snd].
  destruct (allows_execution d); csimpl.
  - rewrite Hgiven. case_decide; [|done].
    change (result_hash sha256 dumps loads (Some (default "" (given (spoken_round u)))))
      with (result_hash sha256 dumps loads (given (spoken_round u))).
    case_decide; [|done]. apply (IH _ (_, _, _)).
  - rewrite Hjson. case_decide; [|done]. apply (IH _ (_, _, _)).
Qed.
End seeding.

Section woken.
Context (sha256 : string → string) (dumps : pyval → string) (loads : string → option pyval) (c : ToolGuardrailConfig).

Lemma walk_start a tr :
  walk (a :: tr) (None, None, 0%Z) = walk (a :: tr) (Some (attempted a), None, 0%Z) ∧
  ∃ oh n, walk (a :: tr) (None, None, 0%Z) = (Some (attempted a), oh, n) ∧ (0 < n)%Z.
Proof using.
  cbn [walk fst snd]. rewrite (decide_True (P := Some _ = None ∨ _)) by auto. rewrite (decide_True (P := None = None ∨ _)) by auto.
  destruct (outcome a) as [[h f]|].
  - rewrite decide_True by auto. split; [done|].
    destruct (walk_sig tr (attempted a) (Some h) (0 + 1)) as (oh' & n & -> & Hn & _). exists oh', n. split; [done|lia].
  - split; [done|]. destruct (walk_sig tr (attempted a) None (0 + 1)) as (oh' & n & -> & Hn & _). exists oh', n.
    split; [done|lia].
Qed.

(** A chain the walk agrees with is kept by a walk from nothing. *)
Lemma walk_inv_start ch tr :
  walk_inv ch tr →
  let w := walk tr (None, None, 0%Z) in
  w.1.1 = ch.1.1 ∧ (ch.2 <= w.2)%Z ∧ ((0 < ch.2)%Z → w.1.2 = ch.1.2) ∧
  (w.1.1 ≠ None → (0 < w.2)%Z) ∧ (all_executed tr → (0 < ch.2)%Z → w = ch).
Proof using.
  intros (Hs & H0 & Hh & Hw). destruct ch as [[o1 o2] n]. csimpl in *. subst o1. destruct tr as [|a tr].
  - cbn [walk]. csimpl. destruct (decide (0 < n)%Z) as [Hn|]; [|split_and!; [done|lia|done|done|done]].
    destruct (Hw Hn) as (s & lh & ? & _). done.
  - destruct (walk_start a tr) as [Heq (oh & m & Hwk & Hm)]. cbv zeta. rewrite Hwk. rewrite Heq in Hwk. cbn [fst snd head fmap option_fmap option_map] in *.
    destruct (decide (0 < n)%Z) as [Hn|]; [|split_and!; [done|lia|done|done|done]].
    destruct (Hw Hn) as (s & lh & [= <- ->] & Hk). destruct (Hk None 0%Z) as (k & Hk' & Hle & Hex); [by left|].
    rewrite Hk' in Hwk. injection Hwk as <- <-. split_and!; [done|lia|done|done|]. intros He _. rewrite (Hex He). f_equal.
Qed.

Lemma consecutive_blocked_iff g t a :
  decision_code (before_call sha256 dumps c g t a).2 = "consecutive_no_progress_block" ↔
  consecutive_no_progress_enabled c = true ∧ Some (from_call sha256 dumps t a) = consecutive_signature g ∧
  (consecutive_no_progress_block_after c <= consecutive_count g)%Z.
Proof using.
  unfold before_call. set (sig := from_call _ _ _ _).
  assert (Hrest : ∀ g', decision_code
    (if hard_stop_enabled c then
       match hard_stop_before c g' t sig with Some d => (set_halt g' d, d) | None => (g', allow_decision t 0 sig) end
     else (g', allow_decision t 0 sig)).2 ≠ "consecutive_no_progress_block").
  { intros g'. destruct (hard_stop_enabled c); [|done]. unfold hard_stop_before. repeat case_match; simplify_eq; done. }
  destruct (consecutive_no_progress_enabled c); [|split; [by intros ?%Hrest | by intros [? _]]].
  case_decide as Hs; [|split; [by intros ?%Hrest | by intros (_ & ? & _)]].
  destruct (Z.leb_spec (consecutive_no_progress_block_after c) (consecutive_count g)); csimpl; [done|].
  split; [by intros ?%Hrest | intros (_ & _ & ?); lia].
Qed.

Lemma seed_chain messages w :
  consecutive_no_progress_enabled c = true →
  seed_walk sha256 dumps loads (rev messages) [] None None 0 = w →
  (w.1.1 = None → w = (None, None, 0%Z)) → (w.1.1 ≠ None → (0 < w.2)%Z) →
  chain (seed_from_messages sha256 dumps loads c new_guard messages) = w.
Proof using.
  intros Hon Hw Hnone Hsome. unfold seed_from_messages. rewrite Hon, Hw. destruct w as [[[s|] h] n]; csimpl in *.
  - destruct (Z.ltb_spec 0 n); [done|]. by specialize (Hsome ltac:(done)); lia.
  - by rewrite Hnone.
Qed.
End woken.

Lemma positive_int_pos v dflt : (1 <= dflt)%Z → (1 <= positive_int v dflt)%Z.
Proof. intros ?. unfold positive_int. case_match; [|done]. by destruct (Z.leb_spec 1 z). Qed.

Lemma from_mapping_thresholds data :
  (1 <= consecutive_no_progress_block_after (from_mapping data))%Z ∧
  (1 <= exact_failure_block_after (from_mapping data))%Z ∧ (1 <= no_progress_block_after (from_mapping data))%Z.
Proof. destruct data; csimpl; split_and!; try lia; by apply positive_int_pos. Qed.

(** ** What the guardrails promise *)

Section promises.
Context (sha256 : string → string) (dumps json : pyval → string) (loads : string → option pyval).

(** C14. With the consecutive guard on, whatever a session's configuration says
    of the thresholds and whatever calls the model makes, a turn never ends in
    more executed rounds of one call with one result than the threshold, blocked
    attempts in between or not. *)
Theorem identical_calls_bounded data rs sig h :
  consecutive_no_progress_enabled (from_mapping data) = true →
  (tail_run sig h (turn sha256 dumps loads (from_mapping data) rs).2 <=
   consecutive_no_progress_block_after (from_mapping data))%Z.
Proof.
  intros Hon. destruct (chain_inv_turn sha256 dumps loads _ rs Hon) as [Hb Hc]; [apply from_mapping_thresholds|].
  etrans; [apply Hc|]. unfold covers. case_decide; csimpl; lia.
Qed.

(** With the hard stops on, a turn never runs a call that has failed
    [exact_failure_block_after] times with no success of its own and no
    workspace edit since, nor a read that gave the same result
    [no_progress_block_after] times in a row, other calls aside: neither count
    ever passes its threshold. *)
Theorem hard_stops_bound data rs sig :
  hard_stop_enabled (from_mapping data) = true →
  let c := from_mapping data in
  let attempts := (turn sha256 dumps loads c rs).2 in
  (failures sig attempts <= exact_failure_block_after c)%Z ∧
  (is_idempotent c sig.1 = true → ∀ h, (same_reads sig h attempts <= no_progress_block_after c)%Z).
Proof.
  intros Hon. cbv zeta. destruct (bound_inv_turn sha256 dumps loads _ rs Hon) as [Hf Hr]; try apply from_mapping_thresholds.
  split; [apply Hf|]. intros Hi h. by apply Hr.
Qed.

(** Waking up does not reset the consecutive guard: seeded from a
    conversation whose last user message the turn's rounds follow, a fresh
    controller holds the turn's signature and at least its count, on the same
    result, so a repeated call the turn would block is blocked again; where no
    round was blocked, it holds exactly the turn's chain. *)
Theorem seeding_keeps_the_chain c older us text :
  consecutive_no_progress_enabled c = true →
  blocked_readable json loads → Forall (shown_as_played loads) us →
  let '(g, attempts, messages) := talk sha256 dumps loads c json us in
  let s := seed_from_messages sha256 dumps loads c new_guard
             (older ++ [VDict [("role", VStr "user"); ("content", VStr text)]] ++ messages) in
  consecutive_signature s = consecutive_signature g ∧ (consecutive_count g <= consecutive_count s)%Z ∧
  ((0 < consecutive_count g)%Z → consecutive_result_hash s = consecutive_result_hash g) ∧
  (all_executed attempts → chain s = chain g) ∧
  ∀ t a, decision_code (before_call sha256 dumps c g t a).2 = "consecutive_no_progress_block" →
    decision_code (before_call sha256 dumps c s t a).2 = "consecutive_no_progress_block".
Proof.
  intros Hon Hjson Hus. destruct (talk sha256 dumps loads c json us) as [[g tr] msgs] eqn:Htalk. cbv zeta.
  assert (Hinv : walk_inv (chain g) tr).
  { pose proof (walk_inv_turn sha256 dumps loads c (spoken_round <$> us) Hon) as Hinv.
    by rewrite <- (talk_turn sha256 dumps json loads c us), Htalk in Hinv. }
  destruct (walk_inv_start _ _ Hinv) as (Hsig & Hle & Hhash & Hpos & Hex). set (w := walk tr (None, None, 0%Z)) in *.
  assert (Hs : chain (seed_from_messages sha256 dumps loads c new_guard
             (older ++ [VDict [("role", VStr "user"); ("content", VStr text)]] ++ msgs)) = w).
  { apply seed_chain; [done| | |done].
    - rewrite !rev_app_distr, <- app_assoc.
      pose proof (seed_walk_talk sha256 dumps json loads c us ([VDict [("role", VStr "user"); ("content", VStr text)]] ++ rev older)
                    [] (None, None, 0%Z) Hjson Hus) as Hwalk.
      rewrite Htalk in Hwalk. apply Hwalk. by intros results [[o1 o2] n].
    - unfold w. destruct tr as [|a tr]; [done|]. destruct (walk_start a tr) as [_ (oh & n & -> & _)]. done. }
  assert (Hnone : all_executed tr → ¬ (0 < consecutive_count g)%Z → w = chain g).
  { intros Hall Hn. destruct Hinv as (_ & _ & Hhead & _). destruct us as [|u us] using rev_ind; [by injection Htalk as <- <- <-|].
    rewrite talk_snoc in Htalk. unfold talk_on, play_on in Htalk. destruct (Guardrails.play _ _ _ _ _ _) as [g' a].
    injection Htalk as _ <- _. apply Forall_cons in Hall as [Ha _].
    destruct (outcome _) as [[h f]|] eqn:Ho; [|done]. by destruct (Hhead _ h f eq_refl Ho). }
  set (s := seed_from_messages _ _ _ _ _ _) in *. rewrite <- Hs in *. clearbody s w. csimpl in *.
  split_and!; [done|done|done| |].
  - intros Hall. destruct (decide (0 < consecutive_count g)%Z) as [Hn|Hn]; [by apply Hex|].
    by rewrite Hnone.
  - intros t a (_ & Heq & Hb)%consecutive_blocked_iff. apply consecutive_blocked_iff. rewrite Hsig. split_and!; [done|done|lia].
Qed.
End promises.

(** ** On concrete calls *)

Definition ex_dumps (v : pyval) : string :=
  match v with VDict [] => "{}" | VDict ((k, VStr s) :: _) => "{" +:+ k +:+ ":" +:+ s +:+ "}" | _ => "?" end.
Definition ex_json (v : pyval) : string := "blocked".
Definition ex_loads (s : string) : option pyval :=
  if String.eqb s "blocked" then Some (VDict [("guardrail", VDict [])])
  else if String.eqb s "{}" then Some (VDict []) else None.
Definition ex_round (t result : string) : Round := mk_round t (VDict []) (Some result) None.
Definition ex_config : pyval :=
  VDict [("hard_stop_enabled", VStr " Yes "); ("warn_after", VNone); ("hard_stop_after", VDict [("exact_failure", VStr "2")]);
         ("consecutive_no_progress_block_after", VInt 2)].

Example ex_blocked :
  (λ a, outcome a) <$> (turn id ex_dumps ex_loads (from_mapping ex_config) (repeat (ex_round "terminal" "same") 4)).2 =
  [None; None; Some ("same", false); Some ("same", false)].
Proof. vm_compute. reflexivity. Qed.

Lemma identical_calls_bounded_witness :
  tail_run ("terminal", "{}") "same"
    (turn id ex_dumps ex_loads (from_mapping ex_config) (repeat (ex_round "terminal" "same") 4)).2 = 2%Z ∧
  (tail_run ("terminal", "{}") "same"
     (turn id ex_dumps ex_loads (from_mapping ex_config) (repeat (ex_round "terminal" "same") 4)).2 <=
   consecutive_no_progress_block_after (from_mapping ex_config))%Z.
Proof. split; [vm_compute; reflexivity | apply identical_calls_bounded; vm_compute; reflexivity]. Defined.

(** Failures of one call with another in between; a read that never changes. *)
Definition ex_failing : list Round :=
  [ex_round "terminal" "Error: no"; ex_round "read_file" "text"; ex_round "terminal" "Error: no";
   ex_round "read_file" "text"; ex_round "terminal" "Error: no"; ex_round "read_file" "text"].

Lemma hard_stops_bound_witness :
  failures ("terminal", "{}") (turn id ex_dumps ex_loads (from_mapping ex_config) ex_failing).2 = 2%Z ∧
  same_reads ("read_file", "{}") "text" (turn id ex_dumps ex_loads (from_mapping ex_config) ex_failing).2 = 3%Z ∧
  (failures ("terminal", "{}") (turn id ex_dumps ex_loads (from_mapping ex_config) ex_failing).2 <= 2)%Z ∧
  (same_reads ("read_file", "{}") "text" (turn id ex_dumps ex_loads (from_mapping ex_config) ex_failing).2 <= 5)%Z.
Proof.
  split; [vm_compute; reflexivity|]. split; [vm_compute; reflexivity|]. split.
  - exact (proj1 (hard_stops_bound id ex_dumps ex_loads ex_config ex_failing ("terminal", "{}") eq_refl)).
  - exact (proj2 (hard_stops_bound id ex_dumps ex_loads ex_config ex_failing ("read_file", "{}") eq_refl) eq_refl "text").
Defined.

Definition ex_spoken (id : string) : Spoken := mk_spoken id "{}" (ex_round "terminal" "same").

Lemma seeding_keeps_the_chain_witness :
  let '(g, attempts, messages) :=
    talk id ex_dumps ex_loads (from_mapping ex_config) ex_json [ex_spoken "a"; ex_spoken "b"; ex_spoken "c"] in
  let s := seed_from_messages id ex_dumps ex_loads (from_mapping ex_config) new_guard
             ([] ++ [VDict [("role", VStr "user"); ("content", VStr "go")]] ++ messages) in
  consecutive_count g = 2%Z ∧ consecutive_count s = 3%Z ∧ consecutive_signature s = consecutive_signature g ∧
  decision_code (before_call id ex_dumps (from_mapping ex_config) s "terminal" (VDict [])).2 = "consecutive_no_progress_block".
Proof.
  pose proof (seeding_keeps_the_chain id ex_dumps ex_json ex_loads (from_mapping ex_config) []
    [ex_spoken "a"; ex_spoken "b"; ex_spoken "c"] "go" eq_refl) as H.
  destruct (talk _ _ _ _ _ _) as [[g tr] ms] eqn:Ht. vm_compute in Ht. injection Ht as <- <- <-.
  assert (Hwf : Forall (shown_as_played ex_loads) [ex_spoken "a"; ex_spoken "b"; ex_spoken "c"]).
  { repeat constructor; try discriminate; reflexivity. }
  specialize (H ltac:(intros d t; reflexivity) Hwf). cbv zeta in H. destruct H as (Hsig & _ & _ & _ & Hb).
  split; [reflexivity|]. split; [vm_compute; reflexivity|]. split; [exact Hsig|]. apply Hb. vm_compute. reflexivity.
Defined.
