(* ===== verification/Missions.v ===== *)
(** * Missions (missions/store.py, commands.py, evaluator.py, verdict_policy.py)

    Mission rows and every operation of their store, the slash commands and
    routes that drive them, the evaluator before and after its judge, and the
    tick that nudges a quiet coordinator, as steps of one world. The judge's
    call is outside: it may be in flight while anything else happens. What the
    evaluator does with the answer is one step per transaction: the worker may
    be lost, and anything else happen, between any two. A command of the user
    and a tick of the nudges are one step each, but for an accept, whose worker
    may be lost between its record and the amendment.

    The texts sent to the coordinator are left out, but for which one it is.
    Research missions are not modelled. *)

From S2P Require Import Prelude.
From S2P Require Import PyStr.
From S2P Require Import Tasks.
From stdpp Require Import options.

Inductive MissionStatus :=
| m_active | m_paused | m_satisfied | m_blocked | m_failed | m_cancelled | m_max_iterations_reached.
#[global] Instance mission_status_eq_dec : EqDecision MissionStatus.
Proof. solve_decision. Defined.

Definition is_active_or_paused (s : MissionStatus) : bool :=
  match s with m_active | m_paused => true | _ => false end.

Record Mission := mk_mission {
  mission_session : Z;
  mission_agent : string;
  description : string;
  rubric : string;
  mission_status : MissionStatus;
  iteration : Z;
  max_iterations : Z;
  budget_tokens : option Z;
  last_evaluation_result : option string;
  last_evaluation_explanation : option string;
  last_evaluation_feedback : option string;
  last_evaluation_at : option Z;
  evaluator_parse_failures : Z;
  stagnant_evaluations : Z;
  paused_reason : option string;
  cancelled_reason : option string;
  created_at : Z;
  updated_at : Z
}.

(** What a mission's update writes; its columns. *)
Definition with_status (m : Mission) (s : MissionStatus) (p c : option string) : Mission :=
  mk_mission (mission_session m) (mission_agent m) (description m) (rubric m) s (iteration m) (max_iterations m)
    (budget_tokens m) (last_evaluation_result m) (last_evaluation_explanation m) (last_evaluation_feedback m)
    (last_evaluation_at m) (evaluator_parse_failures m) (stagnant_evaluations m) p c (created_at m) (updated_at m).
Definition with_evaluation (m : Mission) (result explanation feedback : string) (at_ stagnant : Z) : Mission :=
  mk_mission (mission_session m) (mission_agent m) (description m) (rubric m) (mission_status m) (iteration m)
    (max_iterations m) (budget_tokens m) (Some result) (Some explanation) (Some feedback) (Some at_) 0 stagnant
    (paused_reason m) (cancelled_reason m) (created_at m) (updated_at m).
Definition with_counters (m : Mission) (it failures stagnant : Z) : Mission :=
  mk_mission (mission_session m) (mission_agent m) (description m) (rubric m) (mission_status m) it
    (max_iterations m) (budget_tokens m) (last_evaluation_result m) (last_evaluation_explanation m)
    (last_evaluation_feedback m) (last_evaluation_at m) failures stagnant (paused_reason m) (cancelled_reason m)
    (created_at m) (updated_at m).
Definition with_target (m : Mission) (r : string) (b : option Z) : Mission :=
  mk_mission (mission_session m) (mission_agent m) (description m) r (mission_status m) (iteration m)
    (max_iterations m) b (last_evaluation_result m) (last_evaluation_explanation m)
    (last_evaluation_feedback m) (last_evaluation_at m) (evaluator_parse_failures m) (stagnant_evaluations m)
    (paused_reason m) (cancelled_reason m) (created_at m) (updated_at m).
Definition touch (m : Mission) (now : Z) : Mission :=
  mk_mission (mission_session m) (mission_agent m) (description m) (rubric m) (mission_status m) (iteration m)
    (max_iterations m) (budget_tokens m) (last_evaluation_result m) (last_evaluation_explanation m)
    (last_evaluation_feedback m) (last_evaluation_at m) (evaluator_parse_failures m) (stagnant_evaluations m)
    (paused_reason m) (cancelled_reason m) (created_at m) now.

(** The events missions write to a session's log. *)
Inductive MEvent :=
| MissionDefined (mission : Z)
| EvaluationStart (mission iteration : Z) (trigger : string)
| EvaluationEnd (mission : Z) (trigger result explanation feedback : string)
| ParseFailed (mission : Z) (trigger feedback : string) (failures : Z)
| TransportFailed (mission : Z) (trigger : string)
| RefinementProposed (mission : Z) (old_rubric proposed_rubric evidence held_verdict explanation : string)
| Amended (mission : Z) (old_rubric new_rubric evidence : string) (typed_at : option Z)
| Continuation (mission iteration : Z)
| MissionPaused (mission : Z) (reason : option string)
| MissionResumed (mission : Z)
| MissionCancelled (mission : Z) (reason : option string) (cascade : bool)
| UserMessage (synthetic : string).

(** A line of the log: its session, when it was written, and the event; its id
    is its place. *)
Record Line := mk_line { line_session : Z; line_at : Z; line_event : MEvent }.

(** What missions read of a task row and of a session row. *)
Record MTask := mk_mtask {
  task_mission : option Z; task_status : TaskStatus; task_completed_at : option Z; task_session : option Z
}.
Record MSession := mk_msession {
  session_task : option Z;
  input_tokens : option Z;
  output_tokens : option Z;
  outcome_status : option string;
  active_mission_id : option Z;
  coordinator : bool;
  strict_coordinator : bool;
  preloaded_skills : list string;
  leased : bool
}.

Record Verdict := mk_verdict {
  v_result : string; v_explanation : string; v_feedback : string; v_proposed_rubric : string; v_evidence : string
}.

(** What is next of an evaluation in flight: the judge's answer; the verdict
    once it is recorded; the pause, once a refinement was proposed; what the
    verdict ends or counts, once it was announced; the check of the limit, once
    the evaluation was counted ([new_iter]); the session's key, once the mission
    is over; or the events still to write. *)
Inductive Stage :=
| AtJudge (trigger : string)
| AtVerdict (trigger : string) (v : Verdict)
| AtPause
| AtOutcome (result : string)
| AtLimit (new_iter : Z)
| AtClear
| AtEmits (events : list MEvent).

(** [pending] is the evaluation in flight of each session. [unchecked] is kept
    for the statements alone: how many evaluations of a mission were counted
    and their check of the limit not made, as it is still to come or their
    worker was lost there. *)
Record World := mk_world {
  missions : gmap Z Mission;
  msessions : gmap Z MSession;
  mlog : list Line;
  mqueue : list Z;
  minterrupts : list Z;
  mtasks : gmap Z MTask;
  mparents : gmap Z (list Z);
  clock : Z;
  pending : gmap Z (Z * Stage);
  unchecked : gmap Z Z
}.

Definition set_missions (w : World) (ms : gmap Z Mission) : World :=
  mk_world ms (msessions w) (mlog w) (mqueue w) (minterrupts w) (mtasks w) (mparents w) (clock w) (pending w) (unchecked w).
Definition set_msessions (w : World) (ss : gmap Z MSession) : World :=
  mk_world (missions w) ss (mlog w) (mqueue w) (minterrupts w) (mtasks w) (mparents w) (clock w) (pending w) (unchecked w).
Definition emit (w : World) (session : Z) (e : MEvent) : World :=
  mk_world (missions w) (msessions w) (mlog w ++ [mk_line session (clock w) e]) (mqueue w) (minterrupts w) (mtasks w)
    (mparents w) (clock w) (pending w) (unchecked w).
Definition menqueue (w : World) (session : Z) : World :=
  mk_world (missions w) (msessions w) (mlog w) (mqueue w ++ [session]) (minterrupts w) (mtasks w) (mparents w) (clock w)
    (pending w) (unchecked w).
Definition set_pending (w : World) (p : gmap Z (Z * Stage)) : World :=
  mk_world (missions w) (msessions w) (mlog w) (mqueue w) (minterrupts w) (mtasks w) (mparents w) (clock w) p
    (unchecked w).
Definition unchecked_of (w : World) (id : Z) : Z := default 0%Z (unchecked w !! id).
Definition add_unchecked (w : World) (id n : Z) : World :=
  mk_world (missions w) (msessions w) (mlog w) (mqueue w) (minterrupts w) (mtasks w) (mparents w) (clock w) (pending w)
    (<[id := (unchecked_of w id + n)%Z]> (unchecked w)).

(** ** The store *)

Inductive MError := MissionNotFoundError (id : Z) | ActiveMissionConflictError (session : Z) | MValueError.

Definition STAGNANT_EVALUATION_LIMIT : Z := 3.

(** A round of [any_task_in_flight]: a waiting task with a parent that neither
    moves nor is done. *)
Definition stuck_in (statuses : gmap Z TaskStatus) (parents : gmap Z (list Z)) (moving : gset Z) (t : Z) : bool :=
  bool_decide (statuses !! t = Some todo) &&
  existsb (λ p, negb (bool_decide (p ∈ moving)) && negb (bool_decide (statuses !! p = Some done_)))
    (default [] (parents !! t)).
Definition first_moving (statuses : gmap Z TaskStatus) : gset Z :=
  dom (filter (λ p, bool_decide (p.2 ∈ [todo; ready; running])) statuses).
Fixpoint moving_loop (fuel : nat) (statuses : gmap Z TaskStatus) (parents : gmap Z (list Z)) (moving : gset Z)
    : option (gset Z) :=
  match fuel with
  | O => None
  | S fuel =>
    let stuck := filter (λ t, stuck_in statuses parents moving t) moving in
    if decide (stuck = ∅) then Some moving else moving_loop fuel statuses parents (moving ∖ stuck)
  end.
Definition any_task_in_flight (statuses : gmap Z TaskStatus) (parents : gmap Z (list Z)) : bool :=
  let moving := first_moving statuses in
  match moving_loop (S (size moving)) statuses parents moving with
  | Some moving => negb (bool_decide (moving = ∅))
  | None => false
  end.

(** [UPDATE missions SET ... WHERE id = ...], which stamps [updated_at]. *)
Definition update_mission (w : World) (id : Z) (f : Mission → Mission) : pyres MError World :=
  match missions w !! id with
  | Some m => Ok (set_missions w (<[id := touch (f m) (clock w)]> (missions w)))
  | None => Raise (MissionNotFoundError id)
  end.

Definition get_active_for_session (w : World) (session : Z) : option (Z * Mission) :=
  head (filter (λ p, bool_decide (mission_session p.2 = session) && is_active_or_paused (mission_status p.2))
          (map_to_list (missions w))).

Definition fresh_mission (w : World) : Z := fresh (dom (missions w) : gset Z).
Definition create (w : World) (session : Z) (agent description rubric : string) (user service_account : option Z)
    (max_iterations : Z) (budget : option Z) : pyres MError (World * Z) :=
  if Bool.eqb (bool_decide (user = None)) (bool_decide (service_account = None)) then Raise MValueError
  else if get_active_for_session w session then Raise (ActiveMissionConflictError session)
  else
    let id := fresh_mission w in
    Ok (set_missions w (<[id := mk_mission session agent description rubric m_active 0 max_iterations budget None None None
          None 0 0 None None (clock w) (clock w)]> (missions w)), id).

Definition set_status (w : World) (id : Z) (s : MissionStatus) (paused cancelled : option string) : pyres MError World :=
  update_mission w id (λ m,
    with_status m s
      (match paused with Some r => Some r | None => if decide (s = m_active) then None else paused_reason m end)
      (match cancelled with Some r => Some r | None => cancelled_reason m end)).

Definition record_evaluation (w : World) (id : Z) (result explanation feedback : string) : pyres MError World :=
  update_mission w id (λ m,
    with_evaluation m result explanation feedback (clock w)
      (if String.eqb result "satisfied" then 0 else stagnant_evaluations m + 1)).

Definition increment_iteration (w : World) (id : Z) : pyres MError World :=
  update_mission w id (λ m, with_counters m (iteration m + 1) (evaluator_parse_failures m) (stagnant_evaluations m)).

Definition record_parse_failure (w : World) (id : Z) : pyres MError World :=
  update_mission w id (λ m,
    let n := (evaluator_parse_failures m + 1)%Z in
    let m' := with_counters m (iteration m) n (stagnant_evaluations m) in
    if (3 <=? n)%Z then with_status m' m_paused (Some "evaluator parse failure") (cancelled_reason m) else m').

Definition recently_evaluated (w : World) (m : Mission) (window : Z) : bool :=
  match last_evaluation_at m with Some at_ => (clock w - at_ <? window)%Z | None => false end.

Definition set_budget (w : World) (id : Z) (budget : option Z) : pyres MError World :=
  update_mission w id (λ m, with_target m (rubric m) budget).

Definition amend_rubric (w : World) (id : Z) (new_rubric : string) : pyres MError World :=
  let cleaned := strip new_rubric in
  if str_truthy cleaned then
    update_mission w id (λ m,
      with_counters (with_status (with_target m cleaned (budget_tokens m)) m_active None (cancelled_reason m))
        (iteration m) (evaluator_parse_failures m) 0)
  else Raise MValueError.

Definition is_stagnant (w : World) (id : Z) : bool :=
  match missions w !! id with Some m => (STAGNANT_EVALUATION_LIMIT <=? stagnant_evaluations m)%Z | None => false end.

(** The mission's tasks, and those of the links of the waiting ones. *)
Definition mission_tasks (w : World) (id : Z) : gmap Z MTask := filter (λ p, task_mission p.2 = Some id) (mtasks w).
Definition statuses_read (w : World) (id : Z) : gmap Z TaskStatus :=
  let own := task_status <$> mission_tasks w id in
  let waiting := filter (λ t, own !! t = Some todo) (elements (dom own)) in
  let linked : list Z := waiting ≫= λ t, default [] (mparents w !! t) in
  own ∪ (task_status <$> filter (λ p, p.1 ∈ linked) (mtasks w)).
Definition has_tasks_in_flight (w : World) (id : Z) : bool := any_task_in_flight (statuses_read w id) (mparents w).

Definition spend (s : MSession) : Z := (default 0 (input_tokens s) + default 0 (output_tokens s))%Z.
Definition works_for (w : World) (id : Z) (s : MSession) : bool :=
  match session_task s ≫= λ t, mtasks w !! t with
  | Some task => bool_decide (task_mission task = Some id)
  | None => false
  end.
Definition tokens_spent (w : World) (id : Z) : Z :=
  let own := match missions w !! id ≫= λ m, msessions w !! mission_session m with Some s => spend s | None => 0%Z end in
  let workers := filter (λ p, works_for w id p.2) (map_to_list (msessions w)) in
  (own + foldr (λ p acc, spend p.2 + acc) 0 workers)%Z.

Definition budget_exhausted (w : World) (id : Z) : bool :=
  match missions w !! id ≫= budget_tokens with
  | Some b => negb (b =? 0)%Z && (b <=? tokens_spent w id)%Z
  | None => false
  end.

Definition pause_if_budget_exhausted (w : World) (id : Z) : World * bool :=
  if budget_exhausted w id then
    match missions w !! id with
    | Some m =>
      if decide (mission_status m = m_active) then
        (set_missions w (<[id := touch (with_status m m_paused (Some "budget_exhausted") (cancelled_reason m)) (clock w)]>
                           (missions w)), true)
      else (w, false)
    | None => (w, false)
    end
  else (w, false).

(** ** The evaluator *)

(** The completion marker alone on a line, as [_COMPLETION_MARKER_RE] finds it:
    the blanks around it may hold line ends. *)
Definition is_newline (a : ascii) : bool := Ascii.eqb a "010".
Fixpoint blank_line (s : string) : bool :=
  match s with
  | EmptyString => true
  | String a r => is_newline a || (is_space a && blank_line r)
  end.
Definition drop_prefix (p s : string) : option string :=
  if startswith s p then Some (String.substring (String.length p) (String.length s - String.length p) s) else None.
Definition marker_here (s : string) : bool :=
  match drop_prefix "[[" s ≫= λ r, drop_prefix "mission-complete" (lstrip r) ≫= λ r, drop_prefix "]]" (lstrip r) with
  | Some rest => blank_line rest
  | None => false
  end.
Fixpoint marker_search (s : string) (at_line_start : bool) : bool :=
  match s with
  | EmptyString => false
  | String a r => (at_line_start && marker_here s) || marker_search r (is_newline a || (at_line_start && is_space a))
  end.
Definition response_claims_completion (response : option string) : bool :=
  match response with Some s => marker_search s true | None => false end.

Definition has_recent_terminal_task (w : World) (id since : Z) : bool :=
  existsb (λ p, bool_decide (task_mission p.2 = Some id) && bool_decide (task_status p.2 ∈ [done_; failed; cancelled]) &&
                match task_completed_at p.2 with Some at_ => (since <? at_)%Z | None => false end)
    (map_to_list (mtasks w)).

(** [should_evaluate]: what it decides and why; it may pause the mission. *)
Definition should_evaluate (w : World) (id : Z) (response : option string) : World * pyres MError (bool * string) :=
  match missions w !! id with
  | None => (w, Raise (MissionNotFoundError id))
  | Some m =>
    if recently_evaluated w m 30 then (w, Ok (false, "rate_limited"))
    else
      let '(w, paused) := pause_if_budget_exhausted w id in
      if paused then (w, Ok (false, "budget_exhausted"))
      else if negb (bool_decide (mission_status m = m_active)) then
        (w, Ok (false, if decide (paused_reason m = Some "budget_exhausted") then "budget_exhausted" else "not_active"))
      else if has_tasks_in_flight w id then (w, Ok (false, "tasks_in_flight"))
      else if has_recent_terminal_task w id (default (created_at m) (last_evaluation_at m)) then (w, Ok (true, "task_terminal"))
      else if response_claims_completion response then (w, Ok (true, "completion_claim"))
      else (w, Ok (false, "no_trigger"))
  end.

(** The first half of [_maybe_run_mission_evaluator]: up to the judge's call. *)
Definition begin_evaluation (w : World) (session : Z) (response : option string) : pyres MError World :=
  match get_active_for_session w session with
  | Some (id, m) =>
    if decide (mission_status m = m_active) then
      match should_evaluate w id response with
      | (_, Raise e) => Raise e
      | (w, Ok (false, _)) => Ok w
      | (w, Ok (true, trigger)) =>
        let w := emit w session (EvaluationStart id (iteration m) trigger) in
        Ok (set_pending w (<[session := (id, AtJudge trigger)]> (pending w)))
      end
    else Ok w
  | None => Ok w
  end.

Inductive JudgeAnswer := Judged (v : Verdict) | MissionJudgeParseError (why : string) | JudgeUnreachable.

Definition demotion_feedback : string :=
  "A mission is not satisfied while none of its tasks completed. Either finish the outstanding work, or — if the objective genuinely needs no further tasks — say so explicitly and explain what evidence supports that.".

Definition adjust_mission_verdict (v : Verdict) (completed_tasks total_tasks : Z) : Verdict :=
  if negb (String.eqb (v_result v) "satisfied") then v
  else if (0 <? completed_tasks)%Z then v
  else if (total_tasks =? 0)%Z then v
  else mk_verdict "needs_revision"
         "satisfied rejected: no mission task completed, so nothing corroborates the claim" demotion_feedback "" "".

Definition mission_task_counts (w : World) (id : Z) : Z * Z :=
  let own := map_to_list (mission_tasks w id) in
  (Z.of_nat (length (filter (λ p, task_status p.2 = done_) own)), Z.of_nat (length own)).

Definition MAX_MISSION_AMENDMENTS : Z := 2.

(** The lines of a session that say something of a mission. *)
Definition is_amendment (session mission : Z) (l : Line) : bool :=
  bool_decide (line_session l = session) &&
  match line_event l with Amended m _ _ _ _ => bool_decide (m = mission) | _ => false end.
Definition is_proposal (session mission : Z) (l : Line) : bool :=
  bool_decide (line_session l = session) &&
  match line_event l with RefinementProposed m _ _ _ _ _ => bool_decide (m = mission) | _ => false end.
Definition count_mission_amendments (w : World) (session mission : Z) : Z :=
  Z.of_nat (length (filter (λ l, is_amendment session mission l) (mlog w))).

(** [_propose_refinement], up to its record of the proposal: None where the
    mission is to end as judged. Its pause and its message are steps of their
    own ([AtPause], [AtEmits]). *)
Definition propose_refinement (w : World) (id : Z) (v : Verdict) (session : Z) : pyres MError (option World) :=
  let proposed := strip (v_proposed_rubric v) in
  if negb (str_truthy proposed) then Ok None
  else
    match missions w !! id with
    | None => Raise (MissionNotFoundError id)
    | Some m =>
      if String.eqb proposed (strip (rubric m)) then Ok None
      else if (MAX_MISSION_AMENDMENTS <=? count_mission_amendments w session id)%Z then Ok None
      else
        let w := emit w session (RefinementProposed id (rubric m) proposed (v_evidence v)
                   (if str_truthy (v_result v) then v_result v else "blocked") (v_explanation v)) in
        Ok (Some w)
    end.

Definition clear_active (w : World) (session : Z) : World :=
  set_msessions w (alter (λ s, mk_msession (session_task s) (input_tokens s) (output_tokens s) (outcome_status s) None
                                  (coordinator s) (strict_coordinator s) (preloaded_skills s) (leased s)) session (msessions w)).

Definition terminal_verdict (result : string) : option MissionStatus :=
  if String.eqb result "satisfied" then Some m_satisfied
  else if String.eqb result "blocked" then Some m_blocked
  else if String.eqb result "failed" then Some m_failed
  else None.

Open Scope py_scope.

(** What is done with a verdict, one transaction at a time: [apply_verdict],
    [_propose_refinement] and the end of [_maybe_run_mission_evaluator]. *)
Section evaluation.
Context (w : World) (id session : Z).

Definition goes_on (st : Stage) (w : World) : World := set_pending w (<[session := (id, st)]> (pending w)).
Definition evaluated (w : World) : World := set_pending w (delete session (pending w)).

(** [record_evaluation], its first. *)
Definition record_verdict (v : Verdict) (trigger : string) : pyres MError World :=
  let! w := record_evaluation w id (v_result v) (v_explanation v) (v_feedback v) in Ok (goes_on (AtVerdict trigger v) w).

(** The proposal where there is one to make, or else the announcement. *)
Definition announce (v : Verdict) (trigger : string) : pyres MError World :=
  let result := v_result v in
  let! held := (if String.eqb result "blocked" || String.eqb result "failed" then propose_refinement w id v session
                else Ok None) in
  match held with
  | Some w => Ok (goes_on AtPause w)
  | None =>
    Ok (goes_on (AtOutcome result)
          (emit w session (EvaluationEnd id trigger result (v_explanation v) (v_feedback v))))
  end.

Definition pause_for_refinement : pyres MError World :=
  let! w := set_status w id m_paused (Some "awaiting_refinement") None in
  Ok (goes_on (AtEmits [UserMessage "mission_refinement_proposed"]) w).

(** A terminal verdict ends the mission; any other counts the evaluation. *)
Definition outcome (result : string) : pyres MError World :=
  match terminal_verdict result with
  | Some s => let! w := set_status w id s None None in Ok (goes_on AtClear w)
  | None =>
    let! w := increment_iteration w id in
    let w := add_unchecked w id 1 in
    Ok (goes_on (AtLimit (match missions w !! id with Some m => iteration m | None => 0%Z end)) w)
  end.

(** [new_iter >= mission.max_iterations], of the row read again. *)
Definition check_limit (new_iter : Z) : pyres MError World :=
  match missions w !! id with
  | None => Raise (MissionNotFoundError id)
  | Some m =>
    let w := add_unchecked w id (-1) in
    if (max_iterations m <=? new_iter)%Z then
      let! w := set_status w id m_max_iterations_reached None None in Ok (goes_on AtClear w)
    else Ok (goes_on (AtEmits [Continuation id new_iter; UserMessage "mission_continuation"]) w)
  end.
End evaluation.

(** The next transaction of a session's evaluation, once the judge has answered. *)
Definition carry_on (w : World) (session : Z) : pyres MError World :=
  match pending w !! session with
  | None => Ok w
  | Some (id, st) =>
    match st with
    | AtJudge _ => Ok w
    | AtVerdict trigger v => announce w id session v trigger
    | AtPause => pause_for_refinement w id session
    | AtOutcome result => outcome w id session result
    | AtLimit n => check_limit w id session n
    | AtClear => Ok (evaluated session (clear_active w session))
    | AtEmits [] => Ok (evaluated session w)
    | AtEmits (e :: es) => Ok (goes_on id session (AtEmits es) (emit w session e))
    end
  end.

(** The judge has answered: the transactions up to the first one of its verdict. *)
Definition finish_evaluation (w : World) (session : Z) (answer : JudgeAnswer) : pyres MError World :=
  match pending w !! session with
  | Some (id, AtJudge trigger) =>
    match answer with
    | MissionJudgeParseError why =>
      let! w := record_parse_failure w id in
      Ok (goes_on id session (AtEmits [ParseFailed id trigger (String.substring 0 500 why)
            (match missions w !! id with Some m => evaluator_parse_failures m | None => 0%Z end)]) w)
    | JudgeUnreachable => Ok (evaluated session (emit w session (TransportFailed id trigger)))
    | Judged v =>
      let '(done, total) := mission_task_counts w id in
      record_verdict w id session (adjust_mission_verdict v done total) trigger
    end
  | _ => Ok w
  end.

(** ** The commands *)

(** [MissionHandlerResult], without its texts: whether it succeeded, its
    mission, and the message it kicks the coordinator off with. *)
Record HandlerResult := mk_handler { ok : bool; handled : option Z; kickoff : option string }.
Definition refused (id : option Z) : HandlerResult := mk_handler false id None.

(** The latest line of the log that is [p], with its id. *)
Fixpoint last_line_from (p : Line → bool) (i : Z) (ls : list Line) : option (Z * Line) :=
  match ls with
  | [] => None
  | l :: ls =>
    match last_line_from p (i + 1) ls with
    | Some r => Some r
    | None => if p l then Some (i, l) else None
    end
  end.
Definition last_event (w : World) (p : Line → bool) : option (Z * Line) := last_line_from p 1 (mlog w).

Definition outcome_is_active (s : MSession) : bool :=
  bool_decide (outcome_status s = Some "active") || bool_decide (outcome_status s = Some "paused").
Definition orchestrated (s : MSession) (id : Z) : MSession :=
  mk_msession (session_task s) (input_tokens s) (output_tokens s) (outcome_status s) (Some id) true true
    (if bool_decide ("subagent-task-orchestrator" ∈ preloaded_skills s) then preloaded_skills s
     else preloaded_skills s ++ ["subagent-task-orchestrator"]) (leased s).
Definition is_definition (session mission : Z) (l : Line) : bool :=
  bool_decide (line_session l = session) && match line_event l with MissionDefined m => bool_decide (m = mission) | _ => false end.

(** A mission this very command started, in a run that died. *)
Definition made_by_this_command (w : World) (session : Z) (description_ rubric_ : string) (typed_on : option Z) : option Z :=
  match typed_on, get_active_for_session w session with
  | Some typed, Some (id, m) =>
    if bool_decide (mission_status m = m_active) && String.eqb (description m) description_ &&
       String.eqb (rubric m) rubric_ && (typed <=? created_at m)%Z then Some id else None
  | _, _ => None
  end.

Definition handle_mission_create (w : World) (session : Z) (agent description rubric : string)
    (user service_account : option Z) (max_iterations : Z) (budget typed_on : option Z) : World * HandlerResult :=
  if Bool.eqb (bool_decide (user = None)) (bool_decide (service_account = None)) then (w, refused None)
  else
    match msessions w !! session with
    | None => (w, refused None)
    | Some s =>
      if outcome_is_active s then (w, refused None)
      else
        let made := match create w session agent description rubric user service_account max_iterations budget with
                    | Ok (w, id) => Some (w, id)
                    | Raise _ => (w,.) <$> made_by_this_command w session description rubric typed_on
                    end in
        match made with
        | None => (w, refused None)
        | Some (w, id) =>
          let w := set_msessions w (<[session := orchestrated s id]> (msessions w)) in
          let w := match last_event w (is_definition session id) with
                   | None => emit w session (MissionDefined id)
                   | Some _ => w
                   end in
          (w, mk_handler true (Some id) (Some "mission_kickoff"))
        end
    end.

(** What a handler returns where its last writes may raise: the world before
    them is what is left. *)
Definition or_raise (w : World) (r : pyres MError (World * HandlerResult)) : World * HandlerResult :=
  match r with Ok p => p | Raise _ => (w, refused None) end.

Definition handle_mission_pause (w : World) (session : Z) (reason : option string) : World * HandlerResult :=
  match get_active_for_session w session with
  | None => (w, refused None)
  | Some (id, m) =>
    if decide (mission_status m = m_active) then
      or_raise w (let! w := set_status w id m_paused reason None in
                  Ok (emit w session (MissionPaused id reason), mk_handler true (Some id) None))
    else (w, refused (Some id))
  end.

Definition handle_mission_resume (w : World) (session : Z) : World * HandlerResult :=
  match get_active_for_session w session with
  | None => (w, refused None)
  | Some (id, m) =>
    if decide (mission_status m = m_paused) then
      or_raise w (let! w := set_status w id m_active None None in
                  Ok (menqueue (emit w session (MissionResumed id)) session, mk_handler true (Some id) None))
    else (w, refused None)
  end.

(** [_cascade_cancel_workers] *)
Definition in_flight_status (s : TaskStatus) : bool := match s with todo | ready | running | blocked => true | _ => false end.
Definition cascade_cancel_workers (w : World) (id : Z) : World :=
  let told := omap (λ p, match task_session p.2 with
                         | Some s =>
                           if bool_decide (task_mission p.2 = Some id) &&
                              (bool_decide (task_status p.2 = running) ||
                               (bool_decide (task_status p.2 = cancelled) &&
                                match msessions w !! s with Some se => leased se | None => false end))
                           then Some s else None
                         | None => None
                         end) (map_to_list (mtasks w)) in
  let cancel t := if bool_decide (task_mission t = Some id) && in_flight_status (task_status t)
                  then mk_mtask (task_mission t) cancelled (Some (clock w)) (task_session t) else t in
  mk_world (missions w) (msessions w) (mlog w) (mqueue w) (minterrupts w ++ told) (cancel <$> mtasks w) (mparents w)
    (clock w) (pending w) (unchecked w).

Definition handle_mission_cancel (w : World) (session : Z) (reason : option string) (cascade : bool) : World * HandlerResult :=
  match get_active_for_session w session with
  | None => (w, refused None)
  | Some (id, m) =>
    let w := if cascade then cascade_cancel_workers w id else w in
    let w := clear_active w session in
    or_raise w (let! w := set_status w id m_cancelled None reason in
                Ok (emit w session (MissionCancelled id reason cascade), mk_handler true (Some id) None))
  end.

(** The record a run of this very accept made. *)
Definition typed_amendment (session mission : Z) (typed : Z) (l : Line) : bool :=
  bool_decide (line_session l = session) &&
  match line_event l with
  | Amended m _ _ _ at_ => bool_decide (m = mission) && bool_decide (at_ = Some typed)
  | _ => false
  end.

(** Up to the record: the refusal, or the mission and the rubric it is to have. *)
Definition accept_record (w : World) (session : Z) (typed_at : option Z) : World * (HandlerResult + Z * string) :=
  match get_active_for_session w session with
  | None => (w, inl (refused None))
  | Some (id, m) =>
    match typed_at ≫= λ t, last_event w (typed_amendment session id t) with
    | Some (_, l) => match line_event l with Amended _ _ new _ _ => (w, inr (id, new)) | _ => (w, inl (refused None)) end
    | None =>
      if decide (paused_reason m = Some "awaiting_refinement") then
        match last_event w (is_proposal session id) with
        | Some (at_, l) =>
          match line_event l with
          | RefinementProposed _ _ proposed evidence _ _ =>
            let new := strip proposed in
            if str_truthy new then
              match last_event w (is_amendment session id) with
              | Some (earlier, la) =>
                if (at_ <? earlier)%Z then
                  match line_event la with Amended _ _ new _ _ => (w, inr (id, new)) | _ => (w, inl (refused None)) end
                else (emit w session (Amended id (rubric m) new evidence typed_at), inr (id, new))
              | None => (emit w session (Amended id (rubric m) new evidence typed_at), inr (id, new))
              end
            else (w, inl (refused (Some id)))
          | _ => (w, inl (refused (Some id)))
          end
        | None => (w, inl (refused (Some id)))
        end
      else (w, inl (refused None))
    end
  end.

Definition handle_mission_accept (w : World) (session : Z) (typed_at : option Z) : World * HandlerResult :=
  match accept_record w session typed_at with
  | (w, inl r) => (w, r)
  | (w, inr (id, new)) =>
    or_raise w (let! w := amend_rubric w id new in Ok (w, mk_handler true (Some id) (Some "mission_amended")))
  end.

Definition handle_mission_reject (w : World) (session : Z) (reason : option string) : World * HandlerResult :=
  match get_active_for_session w session with
  | None => (w, refused None)
  | Some (id, m) =>
    if decide (paused_reason m = Some "awaiting_refinement") then
      let '(held, explanation) :=
        match last_event w (is_proposal session id) with
        | Some (_, l) => match line_event l with RefinementProposed _ _ _ _ h e => (h, e) | _ => ("blocked", "") end
        | None => ("blocked", "")
        end in
      let '(s, held) := if String.eqb held "failed" then (m_failed, "failed") else (m_blocked, "blocked") in
      or_raise w (let! w := set_status w id s None None in
                  Ok (emit (clear_active w session) session (EvaluationEnd id "refinement_rejected" held explanation ""),
                      mk_handler true (Some id) None))
    else (w, refused None)
  end.

Definition handle_mission_budget (w : World) (session : Z) (budget : option Z) : World :=
  match get_active_for_session w session with
  | None => w
  | Some (id, _) => match set_budget w id budget with Ok w => w | Raise _ => w end
  end.

(** ** The tick that nudges (tasks/dispatcher.py) *)

Definition MISSION_IDLE_SECONDS : Z := 900.
Definition MAX_MISSION_NUDGES : Z := 3.

Definition count_synthetic_since (w : World) (session : Z) (synthetic : string) (since : Z) : Z :=
  Z.of_nat (length (filter (λ l, bool_decide (line_session l = session) && (since <? line_at l)%Z &&
                                 match line_event l with UserMessage s => String.eqb s synthetic | _ => false end) (mlog w))).

Definition nudge (w : World) (id : Z) (m : Mission) : World :=
  let session := mission_session m in
  if match msessions w !! session with Some s => leased s | None => false end then w
  else if has_tasks_in_flight w id then w
  else
    let nudges := count_synthetic_since w session "mission_nudge" (default (created_at m) (last_evaluation_at m)) in
    if (MAX_MISSION_NUDGES <=? nudges)%Z then
      match set_status w id m_blocked
              (Some ("coordinator went quiet after " +:+ str_of_int nudges +:+ " nudges without an evaluation")) None with
      | Ok w => w
      | Raise _ => w
      end
    else menqueue (emit w session (UserMessage "mission_nudge")) session.

Definition nudge_idle_missions (w : World) : World :=
  let idle := filter (λ p, bool_decide (mission_status p.2 = m_active) && (updated_at p.2 <? clock w - MISSION_IDLE_SECONDS)%Z)
                (map_to_list (missions w)) in
  foldl (λ w p, nudge w p.1 p.2) w (take 10 idle).

(** ** Everything that can happen *)

Inductive MAction :=
| Create (session : Z) (agent description rubric : string) (user service_account : option Z) (max_iterations : Z)
    (budget typed_on : option Z)
| Pause (session : Z) (reason : option string)
| Resume (session : Z)
| Cancel (session : Z) (reason : option string) (cascade : bool)
| Accept (session : Z) (typed_at : option Z)
| Reject (session : Z) (reason : option string)
| Budget (session : Z) (budget : option Z)
| BeginEvaluation (session : Z) (response : option string)
| FinishEvaluation (session : Z) (answer : JudgeAnswer)
| CarryOn (session : Z)
| AcceptLost (session : Z) (typed_at : option Z)
| WorkerLost (session : Z)
| Tick
| Outside (tasks : gmap Z MTask) (parents : gmap Z (list Z)) (sessions : gmap Z MSession) (elapsed : Z).

(** The evaluator runs under the session's lease: a second does not begin while
    one is in flight, and its worker may be lost before any of its transactions.
    [AcceptLost] is an accept whose worker is lost after its record. Tasks, sessions and time are changed by the others at
    will. *)
Definition act (w : World) (a : MAction) : World :=
  match a with
  | Create s agent d r u sa mi b t => (handle_mission_create w s agent d r u sa mi b t).1
  | Pause s r => (handle_mission_pause w s r).1
  | Resume s => (handle_mission_resume w s).1
  | Cancel s r c => (handle_mission_cancel w s r c).1
  | Accept s t => (handle_mission_accept w s t).1
  | Reject s r => (handle_mission_reject w s r).1
  | Budget s b => handle_mission_budget w s b
  | BeginEvaluation s response =>
    match pending w !! s with
    | Some _ => w
    | None => match begin_evaluation w s response with Ok w => w | Raise _ => w end
    end
  | FinishEvaluation s answer => match finish_evaluation w s answer with Ok w => w | Raise _ => w end
  | CarryOn s => match carry_on w s with Ok w => w | Raise _ => w end
  | AcceptLost s t => (accept_record w s t).1
  | WorkerLost s => set_pending w (delete s (pending w))
  | Tick => nudge_idle_missions w
  | Outside tasks parents sessions elapsed =>
    mk_world (missions w) sessions (mlog w) (mqueue w) (minterrupts w) tasks parents (clock w + Z.max 0 elapsed) (pending w)
      (unchecked w)
  end.

Definition no_missions : World := mk_world ∅ ∅ [] [] [] ∅ ∅ 0 ∅ ∅.
Definition run (acts : list MAction) : World := foldl act no_missions acts.

(** ** The tasks a mission waits for *)

Section moving.
Context (statuses : gmap Z TaskStatus) (parents : gmap Z (list Z)).

(** A task that finishes with no one acting: it runs or will, or it waits and
    each of its parents is done or finishes with no one acting. *)
Inductive finishes : Z → Prop :=
| finishes_moving t : statuses !! t = Some ready ∨ statuses !! t = Some running → finishes t
| finishes_waiting t :
    statuses !! t = Some todo →
    (∀ p, p ∈ default [] (parents !! t) → statuses !! p ≠ Some done_ → finishes p) → finishes t.

(** A set of tasks that hold each other up. *)
Definition still (moving : gset Z) : Prop :=
  ∀ t, t ∈ moving →
    (statuses !! t = Some ready ∨ statuses !! t = Some running) ∨
    (statuses !! t = Some todo ∧ ∀ p, p ∈ default [] (parents !! t) → p ∈ moving ∨ statuses !! p = Some done_).

Lemma first_moving_spec t :
  t ∈ first_moving statuses ↔ statuses !! t = Some todo ∨ statuses !! t = Some ready ∨ statuses !! t = Some running.
Proof.
  unfold first_moving. rewrite elem_of_dom. split.
  - intros [s [Hs Hin]%map_lookup_filter_Some]. csimpl in Hin. apply bool_decide_unpack in Hin. set_solver.
  - intros [H | [H | H]]; eexists; apply map_lookup_filter_Some; (split; [exact H | by vm_compute]).
Qed.

Lemma stuck_in_spec moving t :
  stuck_in statuses parents moving t ↔
  statuses !! t = Some todo ∧ ∃ p, p ∈ default [] (parents !! t) ∧ p ∉ moving ∧ statuses !! p ≠ Some done_.
Proof.
  unfold stuck_in. rewrite andb_True, bool_decide_spec, Is_true_true, existsb_exists.
  split; intros [Ht (p & Hp & Hs)]; (split; [done|]); exists p; rewrite list_elem_of_In in *; (split; [done|]).
  - by rewrite andb_true_iff, !negb_true_iff, !bool_decide_eq_false in Hs.
  - by rewrite andb_true_iff, !negb_true_iff, !bool_decide_eq_false.
Qed.

(** The loop ends on the greatest set of tasks that hold each other up. *)
Lemma moving_loop_greatest fuel moving :
  size moving < fuel → moving ⊆ first_moving statuses →
  (∀ s, still s → s ⊆ moving) →
  ∃ m, moving_loop fuel statuses parents moving = Some m ∧ still m ∧ ∀ s, still s → s ⊆ m.
Proof.
  revert moving. induction fuel as [|fuel IH]; intros moving Hsize Hfirst Hgreat; [lia|]. csimpl.
  case_decide as Hs.
  - exists moving. split; [done|]. split; [|done]. intros t Ht.
    assert (Hn : ¬ stuck_in statuses parents moving t).
    { intros Hst. assert (t ∈ (∅ : gset Z)); [rewrite <- Hs; by apply elem_of_filter | set_solver]. }
    rewrite stuck_in_spec in Hn. specialize (Hfirst t Ht). rewrite first_moving_spec in Hfirst.
    destruct Hfirst as [H | H]; [|by left]. right. split; [done|]. intros p Hp.
    destruct (decide (p ∈ moving)); [by left|]. destruct (decide (statuses !! p = Some done_)); [by right|]. naive_solver.
  - apply IH.
    + assert (size (moving ∖ filter (λ t, stuck_in statuses parents moving t) moving) < size moving); [|lia].
      apply subset_size. split; [set_solver|]. intros Hsub. apply Hs. apply set_eq. intros t. split; [|set_solver].
      intros Ht. pose proof (elem_of_filter (λ t, stuck_in statuses parents moving t) moving t). set_solver.
    + set_solver.
    + intros s Hstill t Ht. apply elem_of_difference. split; [by apply (Hgreat s)|].
      intros [[Htodo (p & Hp & Hpm & Hpd)]%stuck_in_spec _]%elem_of_filter.
      destruct (Hstill t Ht) as [[H | H] | [_ Hall]]; [congruence..|].
      destruct (Hall p Hp) as [Hps|]; [|done]. apply Hpm. by apply (Hgreat s).
Qed.

Lemma still_first s : still s → s ⊆ first_moving statuses.
Proof. intros Hs t Ht. apply first_moving_spec. destruct (Hs t Ht) as [[?|?]|[? _]]; auto. Qed.

Lemma any_task_in_flight_still : any_task_in_flight statuses parents = true ↔ ∃ s, still s ∧ s ≠ ∅.
Proof.
  unfold any_task_in_flight.
  destruct (moving_loop_greatest (S (size (first_moving statuses))) (first_moving statuses)) as (m & -> & Hm & Hgreat);
    [lia|done|apply still_first|].
  rewrite negb_true_iff, bool_decide_eq_false. split; [by exists m|].
  intros (s & Hs & Hne) ->. apply Hne. specialize (Hgreat s Hs). set_solver.
Qed.

Lemma still_union (ss : list (gset Z)) : Forall still ss → still (⋃ ss).
Proof.
  intros Hss t (s & Hs & Ht)%elem_of_union_list. rewrite Forall_forall in Hss.
  destruct (Hss s Hs t Ht) as [?|[? Hall]]; [by left|]. right. split; [done|]. intros p Hp.
  destruct (Hall p Hp); [left|by right]. apply elem_of_union_list. eauto.
Qed.

Lemma finishes_still t : finishes t → ∃ s, still s ∧ t ∈ s.
Proof.
  intros H. induction H as [t Ht | t Ht Hp IH].
  { exists {[t]}. split; [|set_solver]. intros t' ->%elem_of_singleton. by left. }
  assert (Hss : ∀ ps, ps ⊆ default [] (parents !! t) → ∃ s, still s ∧ ∀ p, p ∈ ps → statuses !! p = Some done_ ∨ p ∈ s).
  { induction ps as [|p ps IHps]; intros Hsub; [exists ∅; split; [intros ?; set_solver|set_solver]|].
    destruct IHps as (s & Hs & Hall); [set_solver|]. destruct (decide (statuses !! p = Some done_)) as [Hd | Hd].
    - exists s. set_solver.
    - destruct (IH p) as (s' & Hs' & Hps'); [set_solver|done|]. exists (⋃ [s; s']). split; [apply still_union; by rewrite !Forall_cons|]. set_solver. }
  destruct (Hss (default [] (parents !! t))) as (s & Hs & Hall); [done|].
  exists ({[t]} ∪ s). split; [|set_solver]. intros t' [->%elem_of_singleton | Ht']%elem_of_union.
  - right. split; [done|]. set_solver.
  - destruct (Hs t' Ht') as [?|[? Hr]]; [by left|]. right. set_solver.
Qed.

Lemma still_finishes (rank : Z → nat) s t :
  (∀ t p, p ∈ default [] (parents !! t) → (rank p < rank t)%nat) → still s → t ∈ s → finishes t.
Proof.
  intros Hrank Hs. induction (well_founded_ltof _ rank t) as [t _ IH]. intros Ht.
  destruct (Hs t Ht) as [?|[Htodo Hp]]; [by apply finishes_moving|]. apply finishes_waiting; [done|]. intros p Hin Hd.
  destruct (Hp p Hin); [|done]. apply IH; [|done]. by apply Hrank.
Qed.
End moving.

(** ** What holds at all times *)

Definition iteration_limit (m : Mission) : Z := Z.max 1 (max_iterations m).

(** An event that is neither a proposal nor an amendment. *)
Definition plain_event (e : MEvent) : bool :=
  match e with RefinementProposed _ _ _ _ _ _ | Amended _ _ _ _ _ => false | _ => true end.

(** With [u] evaluations counted and not checked. *)
Definition row_ok (u : Z) (m : Mission) : Prop :=
  (mission_status m = m_active → paused_reason m = None) ∧ (0 <= iteration m)%Z ∧
  ((iteration m < iteration_limit m + u)%Z ∨
   (mission_status m = m_max_iterations_reached ∧ (iteration m <= iteration_limit m + u)%Z)).

(** A verdict that may still write to its mission finds it under its limit, but
    for its own count. *)
Definition stage_ok (u : Z) (m : Mission) (st : Stage) : Prop :=
  match st with
  | AtClear => True
  | AtEmits es => forallb plain_event es = true
  | AtLimit n => mission_status m ≠ m_max_iterations_reached ∧ iteration m = n ∧ (1 <= u)%Z
  | _ => mission_status m ≠ m_max_iterations_reached
  end.

Definition proposed_text (l : Line) : option string :=
  match line_event l with RefinementProposed _ _ p _ _ _ => Some p | _ => None end.
Definition line_ok (w : World) (l : Line) : Prop :=
  match line_event l with
  | RefinementProposed id _ p _ _ _ => is_Some (missions w !! id) ∧ strip p = p
  | Amended id _ new _ _ =>
    is_Some (missions w !! id) ∧
    ∃ l', l' ∈ mlog w ∧ is_proposal (line_session l) id l' = true ∧ proposed_text l' = Some new
  | _ => True
  end.

Definition amendments (log : list Line) (session id : Z) : Z := Z.of_nat (length (filter (λ l, is_amendment session id l) log)).
Definition amend_ok (log : list Line) (session id : Z) : Prop :=
  (amendments log session id <= MAX_MISSION_AMENDMENTS)%Z ∧
  ∀ i l, last_line_from (is_proposal session id) 1 log = Some (i, l) →
    (∀ j l', last_line_from (is_amendment session id) 1 log = Some (j, l') → ¬ (i < j)%Z) →
    (amendments log session id < MAX_MISSION_AMENDMENTS)%Z.

Record MInv (w : World) : Prop := {
  inv_row : ∀ id m, missions w !! id = Some m → row_ok (unchecked_of w id) m;
  inv_pending : ∀ s id st, pending w !! s = Some (id, st) →
    ∃ m, missions w !! id = Some m ∧ mission_session m = s ∧ stage_ok (unchecked_of w id) m st;
  inv_unchecked : ∀ id, (0 <= unchecked_of w id)%Z;
  inv_lines : ∀ l, l ∈ mlog w → line_ok w l;
  inv_amend : ∀ id m, missions w !! id = Some m → amend_ok (mlog w) (mission_session m) id
}.

Lemma last_line_snoc p i ls l :
  last_line_from p i (ls ++ [l]) = if p l then Some (i + Z.of_nat (length ls), l)%Z else last_line_from p i ls.
Proof.
  revert i. induction ls as [|l' ls IH]; intros i; csimpl.
  - destruct (p l); [|done]. by rewrite Z.add_0_r.
  - rewrite IH. destruct (p l); [|done]. do 2 f_equal. lia.
Qed.

Lemma last_line_bounds p i ls j l : last_line_from p i ls = Some (j, l) →
  (i <= j < i + Z.of_nat (length ls))%Z ∧ l ∈ ls ∧ p l = true.
Proof.
  revert i. induction ls as [|l' ls IH]; intros i; csimpl; [done|].
  destruct (last_line_from p (i + 1) ls) as [[j' l'']|] eqn:Hl.
  - intros [= <- <-]. destruct (IH _ Hl) as (? & ? & ?). split; [lia|]. split; [by right|done].
  - destruct (p l') eqn:Hp; [|done]. intros [= <- <-]. split; [lia|]. split; [by left|done].
Qed.

Lemma amendments_snoc log session id l :
  amendments (log ++ [l]) session id = (amendments log session id + (if is_amendment session id l then 1 else 0))%Z.
Proof.
  unfold amendments. rewrite filter_app, length_app. csimpl. unfold filter at 2. csimpl.
  destruct (is_amendment session id l); csimpl; lia.
Qed.

Lemma amend_ok_other log session id l :
  is_amendment session id l = false → is_proposal session id l = false → amend_ok log session id →
  amend_ok (log ++ [l]) session id.
Proof.
  intros Ha Hp [Hc Hl]. unfold amend_ok. rewrite amendments_snoc, !last_line_snoc, Ha, Hp, Z.add_0_r. done.
Qed.

Lemma amend_ok_proposal log session id l :
  is_amendment session id l = false → (amendments log session id < MAX_MISSION_AMENDMENTS)%Z → amend_ok log session id →
  amend_ok (log ++ [l]) session id.
Proof.
  intros Ha Hlt [Hc Hl]. unfold amend_ok. rewrite amendments_snoc, Ha, Z.add_0_r. done.
Qed.

Lemma amend_ok_amendment log session id l :
  is_proposal session id l = false → (amendments log session id < MAX_MISSION_AMENDMENTS)%Z →
  amend_ok (log ++ [l]) session id.
Proof.
  intros Hp Hlt. unfold amend_ok. rewrite amendments_snoc, !last_line_snoc, Hp.
  destruct (is_amendment session id l) eqn:Ha; [|unfold MAX_MISSION_AMENDMENTS in *; split; intros; lia].
  split; [lia|]. intros i l' Hi Hn. exfalso. apply last_line_bounds in Hi as [Hi _]. apply (Hn _ _ eq_refl). lia.
Qed.

Lemma inv_ext w w' :
  missions w' = missions w → mlog w' = mlog w → pending w' = pending w → unchecked w' = unchecked w → MInv w → MInv w'.
Proof.
  intros Hm Hl Hp Hu [H1 H2 H3 H4 H5]. split; unfold unchecked_of in *; rewrite ?Hm, ?Hl, ?Hp, ?Hu; try done.
  intros l Hin. specialize (H4 l Hin). unfold line_ok in *. by rewrite Hm, Hl.
Qed.

Lemma inv_no_pending w s : MInv w → MInv (set_pending w (delete s (pending w))).
Proof.
  intros [H1 H2 H3 H4 H5]. split; try done. csimpl. intros s' id tr [_ Hs]%lookup_delete_Some. by apply (H2 s' id tr).
Qed.

Lemma stage_ok_keep u m m' st :
  mission_status m' ≠ m_max_iterations_reached → iteration m' = iteration m → stage_ok u m st → stage_ok u m' st.
Proof. unfold stage_ok. intros ? ->. destruct st; naive_solver. Qed.

(** A row rewritten in place, the evaluation in flight of it at a next stage. *)
Lemma inv_rewrite w w' id m m' :
  MInv w → missions w !! id = Some m → mission_session m' = mission_session m → row_ok (unchecked_of w' id) m' →
  missions w' = <[id := m']> (missions w) → mlog w' = mlog w → (0 <= unchecked_of w' id)%Z →
  (∀ id', id' ≠ id → unchecked_of w' id' = unchecked_of w id') →
  (∀ s id' st, pending w' !! s = Some (id', st) → id' ≠ id → pending w !! s = Some (id', st)) →
  (∀ s st, pending w' !! s = Some (id, st) → s = mission_session m ∧ stage_ok (unchecked_of w' id) m' st) →
  MInv w'.
Proof.
  intros [H1 H2 H3 H4 H5] Hm Hs Hrow Hms Hlog Hu Huo Hpo Hpi. split; rewrite ?Hms, ?Hlog.
  - intros id' m0 [[<- <-]|[Hne ?]]%lookup_insert_Some; [exact Hrow|]. rewrite Huo by done. by eapply H1.
  - intros s id' st Hp. destruct (decide (id' = id)) as [->|Hne].
    + exists m'. rewrite lookup_insert_eq. destruct (Hpi _ _ Hp) as [-> ?]. done.
    + rewrite lookup_insert_ne by done. rewrite Huo by done. by eapply H2, Hpo.
  - intros id'. destruct (decide (id' = id)) as [->|Hne]; [done|]. by rewrite Huo.
  - intros l Hin. specialize (H4 l Hin). unfold line_ok in *. rewrite Hms, Hlog.
    destruct (line_event l); try done; destruct H4 as [Hsome H4]; (split; [|done]); apply lookup_insert_is_Some'; by right.
  - intros id' m0 [[<- <-]|[_ ?]]%lookup_insert_Some; [|by eapply H5]. rewrite Hs. by eapply H5.
Qed.

Lemma inv_update w id m f :
  MInv w → missions w !! id = Some m → mission_session (f m) = mission_session m → row_ok (unchecked_of w id) (f m) →
  mission_status (f m) ≠ m_max_iterations_reached → iteration (f m) = iteration m →
  MInv (set_missions w (<[id := touch (f m) (clock w)]> (missions w))).
Proof.
  intros Hinv Hm Hs Hrow Hmax Hit. eapply (inv_rewrite w _ id m (touch (f m) (clock w))); try done.
  - exact (inv_unchecked w Hinv id).
  - intros s st Hp. destruct (inv_pending w Hinv _ _ _ Hp) as (m0 & Hm0 & <- & Hst). simplify_eq. split; [done|].
    revert Hst. by apply stage_ok_keep.
Qed.

(** A status written is not the limit's, and what else is written is no count. *)
Lemma row_ok_status u m m' :
  row_ok u m → mission_status m ≠ m_max_iterations_reached → iteration m' = iteration m →
  max_iterations m' = max_iterations m → (mission_status m' = m_active → paused_reason m' = None) → row_ok u m'.
Proof. unfold row_ok, iteration_limit. intros (? & ? & [?|[? _]]) ? -> -> ?; [|done]. split_and!; [done|done|by left]. Qed.

Lemma inv_set_status w id m s p c w' :
  MInv w → missions w !! id = Some m → mission_status m ≠ m_max_iterations_reached → s ≠ m_max_iterations_reached →
  (s = m_active → p = None) → set_status w id s p c = Ok w' →
  MInv w'.
Proof.
  intros Hinv Hm Hst Hs Hp Hset. unfold set_status, update_mission in Hset. rewrite Hm in Hset. injection Hset as <-.
  apply (inv_update w id m (λ m, with_status m s _ _)); try done.
  eapply row_ok_status; [by eapply inv_row|done..|]. csimpl. intros ->. rewrite (Hp eq_refl). by rewrite decide_True.
Qed.

Lemma line_ok_snoc w s e l : line_ok w l → line_ok (emit w s e) l.
Proof.
  unfold line_ok. destruct (line_event l); try done. intros [Hs (l' & Hin & Hl')]. split; [done|].
  exists l'. split; [|done]. csimpl. apply elem_of_app. by left.
Qed.

Lemma inv_emit w s e : plain_event e = true → MInv w → MInv (emit w s e).
Proof.
  intros He [H1 H2 H3 H4 H5]. split; [done|done|done| |].
  - csimpl. intros l [Hin | ->%list_elem_of_singleton]%elem_of_app; [apply line_ok_snoc; by apply H4|].
    unfold line_ok. csimpl. by destruct e.
  - csimpl. intros id m Hm. apply amend_ok_other; [..|by eapply H5]; unfold is_amendment, is_proposal; csimpl;
      destruct e; try done; apply andb_false_r.
Qed.

Lemma inv_emit_proposal w s id m old p ev h ex :
  MInv w → missions w !! id = Some m → mission_session m = s → strip p = p →
  (amendments (mlog w) s id < MAX_MISSION_AMENDMENTS)%Z → MInv (emit w s (RefinementProposed id old p ev h ex)).
Proof.
  intros [H1 H2 H3 H4 H5] Hm Hs Hp Hlt. split; [done|done|done| |].
  - csimpl. intros l [Hin | ->%list_elem_of_singleton]%elem_of_app; [apply line_ok_snoc; by apply H4|].
    unfold line_ok. csimpl. by rewrite Hm.
  - csimpl. intros id' m' Hm'. destruct (decide (id' = id)) as [->|Hne].
    + simplify_eq. apply amend_ok_proposal; [|done|by eapply H5]. unfold is_amendment. csimpl. apply andb_false_r.
    + apply amend_ok_other; [..|by eapply H5]; unfold is_amendment, is_proposal; csimpl; [apply andb_false_r|].
      rewrite (bool_decide_false (id = id')) by done. apply andb_false_r.
Qed.

Lemma inv_emit_amended w s id m old new ev at_ l :
  MInv w → missions w !! id = Some m → mission_session m = s →
  (amendments (mlog w) s id < MAX_MISSION_AMENDMENTS)%Z →
  l ∈ mlog w → is_proposal s id l = true → proposed_text l = Some new → MInv (emit w s (Amended id old new ev at_)).
Proof.
  intros [H1 H2 H3 H4 H5] Hm Hs Hlt Hin Hl Htext. split; [done|done|done| |].
  - csimpl. intros l' [Hin' | ->%list_elem_of_singleton]%elem_of_app; [apply line_ok_snoc; by apply H4|].
    unfold line_ok. csimpl. rewrite Hm. split; [done|]. exists l. split; [apply elem_of_app; by left|done].
  - csimpl. intros id' m' Hm'. destruct (decide (id' = id)) as [->|Hne].
    + simplify_eq. apply amend_ok_amendment; [|done]. unfold is_proposal. csimpl. apply andb_false_r.
    + apply amend_ok_other; [..|by eapply H5]; unfold is_amendment, is_proposal; csimpl; [|apply andb_false_r].
      rewrite (bool_decide_false (id = id')) by done. apply andb_false_r.
Qed.

Lemma get_active_spec w session id m :
  get_active_for_session w session = Some (id, m) →
  missions w !! id = Some m ∧ mission_session m = session ∧ (mission_status m = m_active ∨ mission_status m = m_paused).
Proof.
  unfold get_active_for_session. intros Hh%head_Some_elem_of.
  apply list_elem_of_filter in Hh as [Hf Hin%elem_of_map_to_list]. csimpl in Hf.
  apply andb_True in Hf as [Hs%bool_decide_unpack Hst]. split; [done|]. split; [done|].
  destruct (mission_status m); try done; auto.
Qed.

(** What no step changes of a mission; its rubric is [Accept]'s alone. *)
Definition same_mission (m m' : Mission) : Prop :=
  mission_session m' = mission_session m ∧ description m' = description m ∧ max_iterations m' = max_iterations m.
Definition keeps (w w' : World) : Prop :=
  ∀ id m, missions w !! id = Some m → ∃ m', missions w' !! id = Some m' ∧ same_mission m m' ∧ rubric m' = rubric m.
Definition good (w w' : World) : Prop := MInv w' ∧ keeps w w'.

Lemma keeps_same w w' : missions w' = missions w → keeps w w'.
Proof. intros Heq id m Hm. rewrite Heq. by exists m. Qed.
Lemma keeps_trans w1 w2 w3 : keeps w1 w2 → keeps w2 w3 → keeps w1 w3.
Proof.
  intros H12 H23 id m Hm. destruct (H12 id m Hm) as (m2 & Hm2 & (? & ? & ?) & ?).
  destruct (H23 id m2 Hm2) as (m3 & Hm3 & (? & ? & ?) & ?). exists m3. unfold same_mission. repeat split; congruence.
Qed.
Lemma keeps_insert w id m m' :
  missions w !! id = Some m → same_mission m m' → rubric m' = rubric m → keeps w (set_missions w (<[id := m']> (missions w))).
Proof.
  intros Hm Hs Hr id' m0 Hm0. csimpl. destruct (decide (id = id')) as [<-|Hne].
  - rewrite lookup_insert_eq. simplify_eq. by eexists.
  - rewrite lookup_insert_ne by done. by exists m0.
Qed.

Lemma good_refl w : MInv w → good w w.
Proof. intros H. split; [done|]. by apply keeps_same. Qed.
Lemma good_trans w1 w2 w3 : good w1 w2 → (MInv w2 → good w2 w3) → good w1 w3.
Proof. intros [Hi Hk] H2. destruct (H2 Hi) as [Hi' Hk']. split; [done|]. by eapply keeps_trans. Qed.
Lemma good_ext w w' :
  missions w' = missions w → mlog w' = mlog w → pending w' = pending w → unchecked w' = unchecked w → MInv w → good w w'.
Proof. intros ?????. split; [by eapply inv_ext | by apply keeps_same]. Qed.
Lemma good_emit w s e : plain_event e = true → MInv w → good w (emit w s e).
Proof. intros ??. split; [by apply inv_emit | by apply keeps_same]. Qed.

Lemma good_update w id m f :
  MInv w → missions w !! id = Some m → same_mission m (f m) → rubric (f m) = rubric m →
  row_ok (unchecked_of w id) (f m) → mission_status (f m) ≠ m_max_iterations_reached → iteration (f m) = iteration m →
  good w (set_missions w (<[id := touch (f m) (clock w)]> (missions w))).
Proof.
  intros Hinv Hm (? & ? & ?) Hr Hrow Hmax Hit. split; [by apply inv_update|]. eapply keeps_insert; [done|by split_and!|done].
Qed.

Lemma good_set_status w id m s p c w' :
  MInv w → missions w !! id = Some m → mission_status m ≠ m_max_iterations_reached → s ≠ m_max_iterations_reached →
  (s = m_active → p = None) → set_status w id s p c = Ok w' → good w w'.
Proof.
  intros Hinv Hm Hst Hs Hp Hset. split; [by eapply inv_set_status|]. unfold set_status, update_mission in Hset. rewrite Hm in Hset. injection Hset as <-.
  by apply (keeps_insert _ _ m).
Qed.

Lemma good_clear_active w s : MInv w → good w (clear_active w s).
Proof. by apply good_ext. Qed.

Lemma active_not_max m : mission_status m = m_active ∨ mission_status m = m_paused → mission_status m ≠ m_max_iterations_reached.
Proof. intros [-> | ->]; done. Qed.
Lemma terminal_not_max result s : terminal_verdict result = Some s → s ≠ m_max_iterations_reached ∧ s ≠ m_active.
Proof. unfold terminal_verdict. repeat case_match; intros; simplify_eq; done. Qed.

(** The handlers. *)
Ltac handler_start w session :=
  let Hinv := fresh "Hinv" in intros Hinv;
  destruct (get_active_for_session w session) as [[id m]|] eqn:Hget; csimpl; [|by apply good_refl];
  destruct (get_active_spec _ _ _ _ Hget) as (Hm & Hs & Hst).

Ltac set_status_good id m Hset :=
  refine (good_set_status _ id m _ _ _ _ _ _ _ _ _ Hset); [done | csimpl; congruence | by apply active_not_max | done | done].

Lemma good_pause w session reason : MInv w → good w (handle_mission_pause w session reason).1.
Proof.
  unfold handle_mission_pause. handler_start w session. case_decide; [|by apply good_refl]. unfold or_raise.
  destruct (set_status _ _ _ _ _) as [w'|e] eqn:Hset; csimpl; [|by apply good_refl].
  eapply good_trans; [set_status_good id m Hset|]. by apply good_emit.
Qed.

Lemma good_resume w session : MInv w → good w (handle_mission_resume w session).1.
Proof.
  unfold handle_mission_resume. handler_start w session. case_decide; [|by apply good_refl]. unfold or_raise.
  destruct (set_status _ _ _ _ _) as [w'|e] eqn:Hset; csimpl; [|by apply good_refl].
  eapply good_trans; [set_status_good id m Hset|]. intros Hi.
  eapply good_trans; [by apply (good_emit _ session (MissionResumed id))|]. by apply good_ext.
Qed.

Lemma good_cancel w session reason cascade : MInv w → good w (handle_mission_cancel w session reason cascade).1.
Proof.
  unfold handle_mission_cancel. handler_start w session.
  set (w1 := if cascade then _ else w). assert (H1 : good w w1) by (unfold w1; destruct cascade; by apply good_ext).
  assert (Hm1 : missions w1 = missions w) by (unfold w1; by destruct cascade). clearbody w1.
  eapply good_trans; [done|]. intros Hi1. eapply good_trans; [by apply (good_clear_active _ session)|]. intros Hi2.
  unfold or_raise. destruct (set_status _ _ _ _ _) as [w'|e] eqn:Hset; csimpl; [|by apply good_refl].
  eapply good_trans; [set_status_good id m Hset|]. by apply good_emit.
Qed.

Lemma good_reject w session reason : MInv w → good w (handle_mission_reject w session reason).1.
Proof.
  unfold handle_mission_reject. handler_start w session. case_decide; [|by apply good_refl].
  destruct (match last_event _ _ with Some _ => _ | None => _ end) as [held explanation].
  assert (Hr : ∀ s h, s ≠ m_max_iterations_reached → s ≠ m_active → good w
    (or_raise w (let! w := set_status w id s None None in
       Ok (emit (clear_active w session) session (EvaluationEnd id "refinement_rejected" h explanation ""),
           mk_handler true (Some id) None))).1).
  { intros s h Hs1 Hs2. unfold or_raise. destruct (set_status _ _ _ _ _) as [w'|e] eqn:Hset; csimpl; [|by apply good_refl].
    eapply good_trans; [set_status_good id m Hset|]. intros Hi.
    eapply good_trans; [by apply (good_clear_active _ session)|]. by apply good_emit. }
  destruct (String.eqb held "failed"); by apply Hr.
Qed.

Lemma good_budget w session budget : MInv w → good w (handle_mission_budget w session budget).
Proof.
  unfold handle_mission_budget. handler_start w session. unfold set_budget, update_mission. rewrite Hm.
  apply (good_update w id m (λ m, with_target m (rubric m) budget)); [done|done|done|done| | |done].
  - exact (inv_row w Hinv id m Hm).
  - by apply (active_not_max m Hst).
Qed.

Lemma no_lines_of w s id : MInv w → missions w !! id = None →
  amendments (mlog w) s id = 0%Z.
Proof.
  intros Hinv Hid. assert (Hnone : ∀ l, l ∈ mlog w → is_amendment s id l = false).
  { intros l Hin. pose proof (inv_lines w Hinv l Hin) as Hok. apply not_true_is_false. unfold is_amendment.
    intros [_ Hl]%andb_true_iff. unfold line_ok in Hok. destruct (line_event l); try done. apply bool_decide_eq_true in Hl.
    subst. destruct Hok as [[? ?] _]. congruence. }
  clear Hinv. induction (mlog w) as [|l log IH] using rev_ind; [done|]. rewrite amendments_snoc, IH, Hnone; [done|..].
  - apply elem_of_app. right. by left.
  - intros l' Hl'. apply Hnone. apply elem_of_app. by left.
Qed.

Lemma good_insert_fresh w m :
  MInv w → (∀ u, (0 <= u)%Z → row_ok u m) → good w (set_missions w (<[fresh_mission w := m]> (missions w))).
Proof.
  intros Hinv Hrow. set (id := fresh_mission w).
  assert (Hid : missions w !! id = None) by (apply (not_elem_of_dom (D := gset Z)); exact (is_fresh (dom (missions w) : gset Z))).
  assert (Hkeep : ∀ id' m', missions w !! id' = Some m' → id ≠ id') by (intros id' m' ? ->; congruence).
  split.
  - pose proof Hinv as [H1 H2 H3 H4 H5]. split; csimpl.
    + intros id' m' [[<- <-]|[_ ?]]%lookup_insert_Some; [apply Hrow, H3 | by eapply H1].
    + intros s id' tr Hp. destruct (H2 s id' tr Hp) as (m' & Hm' & ?). exists m'.
      rewrite lookup_insert_ne by (by eapply Hkeep). done.
    + exact H3.
    + intros l Hin. specialize (H4 l Hin). unfold line_ok in *. csimpl.
      destruct (line_event l); try done; destruct H4 as [Hsome H4]; (split; [|done]); apply lookup_insert_is_Some'; by right.
    + intros id' m' [[<- <-]|[_ ?]]%lookup_insert_Some; [|by eapply H5]. unfold amend_ok.
      rewrite no_lines_of by done. done.
  - intros id' m' Hm'. csimpl. rewrite lookup_insert_ne by (by eapply Hkeep). by exists m'.
Qed.

Lemma good_create w session agent d r u sa mi b t : MInv w → good w (handle_mission_create w session agent d r u sa mi b t).1.
Proof.
  intros Hinv. unfold handle_mission_create. destruct (Bool.eqb _ _); [by apply good_refl|].
  destruct (msessions w !! session) as [se|]; [|by apply good_refl]. destruct (outcome_is_active se); [by apply good_refl|].
  set (made := match create _ _ _ _ _ _ _ _ _ with Ok _ => _ | Raise _ => _ end).
  assert (Hmade : ∀ w1 id, made = Some (w1, id) → good w w1).
  { intros w1 id. unfold made, create. destruct (Bool.eqb _ _).
    - destruct (made_by_this_command _ _ _ _ _); csimpl; [|done]. intros [= <- <-]. by apply good_refl.
    - destruct (get_active_for_session w session) as [p|].
      + destruct (made_by_this_command _ _ _ _ _); csimpl; [|done]. intros [= <- <-]. by apply good_refl.
      + intros [= <- <-]. apply good_insert_fresh; [done|]. intros n0 Hn0. unfold row_ok, iteration_limit. csimpl.
        split; [done|]. split; [lia|]. left. lia. }
  destruct made as [[w1 id]|]; [|by apply good_refl]. csimpl. eapply good_trans; [by eapply Hmade|]. intros Hi1.
  set (w2 := set_msessions w1 _). eapply good_trans; [by apply (good_ext w1 w2)|]. intros Hi2.
  destruct (last_event w2 _); [by apply good_refl|]. by apply good_emit.
Qed.

Lemma pause_budget_cases w id :
  pause_if_budget_exhausted w id = (w, false) ∨
  ∃ m, missions w !! id = Some m ∧ mission_status m = m_active ∧
    pause_if_budget_exhausted w id =
    (set_missions w (<[id := touch (with_status m m_paused (Some "budget_exhausted") (cancelled_reason m)) (clock w)]>
                       (missions w)), true).
Proof.
  unfold pause_if_budget_exhausted. destruct (budget_exhausted w id); [|by left].
  destruct (missions w !! id) as [m|] eqn:Hm; [|by left]. case_decide; [right; by exists m | by left].
Qed.

Lemma good_should_evaluate w id response : MInv w → good w (should_evaluate w id response).1.
Proof.
  intros Hinv. unfold should_evaluate. destruct (missions w !! id) as [m|] eqn:Hm; [|by apply good_refl].
  destruct (recently_evaluated _ _ _); [by apply good_refl|].
  destruct (pause_budget_cases w id) as [-> | (m' & Hm' & Hst & ->)].
  - repeat (case_match || case_decide); by apply good_refl.
  - csimpl. simplify_eq. apply (good_update w id m (λ m, with_status m _ _ _)); try done.
    eapply row_ok_status; [by eapply inv_row|congruence|done..].
Qed.

Lemma should_evaluate_true w id response w' trigger :
  should_evaluate w id response = (w', Ok (true, trigger)) → w' = w.
Proof.
  unfold should_evaluate. destruct (missions w !! id) as [m|]; [|done]. destruct (recently_evaluated _ _ _); [done|].
  destruct (pause_budget_cases w id) as [-> | (m' & _ & _ & ->)]; [|done]. repeat (case_match || case_decide); congruence.
Qed.

Lemma good_begin w session response w' :
  MInv w → begin_evaluation w session response = Ok w' → good w w'.
Proof.
  intros Hinv. unfold begin_evaluation.
  destruct (get_active_for_session w session) as [[id m]|] eqn:Hget; [|intros [= <-]; by apply good_refl].
  destruct (get_active_spec _ _ _ _ Hget) as (Hm & Hs & Hst). case_decide; [|intros [= <-]; by apply good_refl].
  pose proof (good_should_evaluate w id response Hinv) as Hgood.
  destruct (should_evaluate w id response) as [w1 [[[] trigger]|e]] eqn:Hsh; csimpl in *; [|by intros [= <-]|done].
  apply should_evaluate_true in Hsh as ->. intros [= <-].
  eapply good_trans; [by apply (good_emit w session (EvaluationStart id (iteration m) trigger))|]. intros [H1 H2 H3 H4 H5].
  split; [|by apply keeps_same]. split; [done| |done..]. csimpl.
  intros s id' tr [[<- [= <- <-]]|[_ ?]]%lookup_insert_Some; [|by eapply H2]. exists m.
  split_and!; [done..|]. by apply active_not_max.
Qed.

(** A verdict's transactions, at stage [st] of the session's evaluation. *)
Section verdicts.
Context (w : World) (id session : Z) (st : Stage).
Hypothesis (Hinv : MInv w) (Hpend : pending w !! session = Some (id, st)).

Lemma judged_row : ∃ m, missions w !! id = Some m ∧ mission_session m = session ∧ stage_ok (unchecked_of w id) m st.
Proof using Hinv Hpend. by apply (inv_pending w Hinv session id st). Qed.

Lemma pending_here s st' : pending w !! s = Some (id, st') → s = session.
Proof using Hinv Hpend.
  intros Hs. destruct judged_row as (m & Hm & Hms & _). destruct (inv_pending w Hinv _ _ _ Hs) as (m' & Hm' & Hms' & _).
  congruence.
Qed.

(** The row rewritten and the evaluation at its next stage. *)
Lemma good_transit w' m m' st' :
  missions w !! id = Some m → same_mission m m' → rubric m' = rubric m →
  missions w' = <[id := m']> (missions w) → mlog w' = mlog w → pending w' = <[session := (id, st')]> (pending w) →
  (∀ id', id' ≠ id → unchecked_of w' id' = unchecked_of w id') → (0 <= unchecked_of w' id)%Z →
  row_ok (unchecked_of w' id) m' → stage_ok (unchecked_of w' id) m' st' → good w w'.
Proof using Hinv Hpend.
  intros Hm (Hs & Hd & Hmax) Hr Hms Hlog Hpw Huo Hu Hrow Hst.
  destruct judged_row as (m0 & Hm0 & Hsess & _). assert (m0 = m) as -> by congruence. split.
  - eapply (inv_rewrite w w' id m m'); try done; rewrite Hpw.
    + intros s id' st0 [[_ [= <- _]]|[_ ?]]%lookup_insert_Some; done.
    + intros s st0 [[<- [= <-]]|[Hne Hps]]%lookup_insert_Some; [done|]. apply pending_here in Hps. congruence.
  - intros id' m0 Hm'. rewrite Hms. destruct (decide (id = id')) as [<-|Hne].
    + rewrite lookup_insert_eq. simplify_eq. by eexists.
    + rewrite lookup_insert_ne by done. by exists m0.
Qed.

(** The evaluation at its next stage alone. *)
Lemma good_goes_on st' :
  (∀ m, missions w !! id = Some m → mission_session m = session → stage_ok (unchecked_of w id) m st → stage_ok (unchecked_of w id) m st') →
  good w (goes_on id session st' w).
Proof using Hinv Hpend.
  intros Hst. split; [|by apply keeps_same]. destruct judged_row as (m & Hm & Hs & Hok).
  destruct Hinv as [H1 H2 H3 H4 H5]. split; try done. csimpl.
  intros s id' st0 [[<- [= <- <-]]|[_ ?]]%lookup_insert_Some; [|by eapply H2]. exists m. auto.
Qed.

Lemma good_evaluated : good w (evaluated session w).
Proof using Hinv. split; [by apply inv_no_pending | by apply keeps_same]. Qed.

Definition may_write : Prop := match st with AtClear | AtEmits _ => False | _ => True end.
Lemma judged_not_max m : may_write → missions w !! id = Some m → mission_status m ≠ m_max_iterations_reached.
Proof using Hinv Hpend.
  intros Hw Hm. unfold may_write in Hw. destruct judged_row as (m0 & Hm0 & _ & Hok).
  assert (m0 = m) as -> by congruence. clear Hinv Hpend. destruct st; csimpl in *; try done. by destruct Hok.
Qed.

End verdicts.

Lemma unchecked_add w id n : unchecked_of (add_unchecked w id n) id = (unchecked_of w id + n)%Z.
Proof. unfold unchecked_of at 1. csimpl. by rewrite lookup_insert_eq. Qed.
Lemma unchecked_add_ne w id n id' : id' ≠ id → unchecked_of (add_unchecked w id n) id' = unchecked_of w id'.
Proof. intros ?. unfold unchecked_of at 1. csimpl. by rewrite lookup_insert_ne. Qed.

Definition last_stage (st : Stage) : bool := match st with AtClear => true | AtEmits es => forallb plain_event es | _ => false end.

Lemma good_status w id session st s p c w1 st' :
  MInv w → pending w !! session = Some (id, st) → may_write st → s ≠ m_max_iterations_reached →
  (s = m_active → p = None) → last_stage st' = true → set_status w id s p c = Ok w1 → good w (goes_on id session st' w1).
Proof.
  intros Hinv Hp Hw Hs Hpa Hst' Hset. destruct (judged_row w id session st Hinv Hp) as (m & Hm & Hms & _).
  pose proof (judged_not_max w id session st Hinv Hp m Hw Hm) as Hmax.
  unfold set_status, update_mission in Hset. rewrite Hm in Hset. injection Hset as <-.
  eapply (good_transit w id session st Hinv Hp _ m (touch (with_status m s _ _) (clock w)) st');
    [exact Hm|done|done|done|done|done|done|..]; csimpl.
  - exact (inv_unchecked w Hinv id).
  - eapply row_ok_status; [exact (inv_row w Hinv id m Hm)|done..|]. csimpl. intros ->. rewrite (Hpa eq_refl). by rewrite decide_True.
  - by destruct st'.
Qed.

Lemma good_propose w id session v w' m :
  MInv w → missions w !! id = Some m → mission_session m = session →
  propose_refinement w id v session = Ok (Some w') → good w w' ∧ pending w' = pending w.
Proof.
  intros Hinv Hm Hs. unfold propose_refinement. destruct (negb _); [done|]. rewrite Hm.
  destruct (String.eqb _ (strip (rubric m))); [done|].
  destruct (Z.leb_spec MAX_MISSION_AMENDMENTS (count_mission_amendments w session id)) as [|Hlt]; [done|].
  intros [= <-]. split; [|done]. split; [|by apply keeps_same].
  eapply inv_emit_proposal; [done|done|done| |done]. apply strip_strip.
Qed.

Lemma good_announce w id session trigger v w' :
  MInv w → pending w !! session = Some (id, AtVerdict trigger v) → announce w id session v trigger = Ok w' → good w w'.
Proof.
  intros Hinv Hp. unfold announce. destruct (judged_row _ _ _ _ Hinv Hp) as (m & Hm & Hs & _).
  destruct (if String.eqb (v_result v) "blocked" || _ then _ else _) as [held|e] eqn:Hheld; csimpl; [|done].
  destruct held as [w1|]; intros [= <-].
  - destruct (String.eqb (v_result v) "blocked" || _); [|done].
    apply (good_propose w id session v w1 m) in Hheld as [Hg Hpw]; [|done..]. eapply good_trans; [exact Hg|]. intros Hi.
    apply (good_goes_on w1 id session (AtVerdict trigger v) Hi); [by rewrite Hpw|done].
  - set (e := EvaluationEnd _ _ _ _ _). eapply good_trans; [by apply (good_emit w session e)|]. intros Hi.
    by apply (good_goes_on (emit w session e) id session (AtVerdict trigger v) Hi).
Qed.

Lemma good_outcome w id session result w' :
  MInv w → pending w !! session = Some (id, AtOutcome result) → outcome w id session result = Ok w' → good w w'.
Proof.
  intros Hinv Hp. unfold outcome. destruct (terminal_verdict result) as [s|] eqn:Ht.
  - apply terminal_not_max in Ht as [Hs1 Hs2]. destruct (set_status w id s None None) as [w1|] eqn:Hset; csimpl; [|done].
    intros [= <-]. by eapply good_status.
  - destruct (judged_row w id session _ Hinv Hp) as (m & Hm & Hms & Hmax). csimpl in Hmax.
    unfold increment_iteration, update_mission. rewrite Hm. csimpl. rewrite lookup_insert_eq. intros [= <-].
    pose proof (inv_unchecked w Hinv id). destruct (inv_row w Hinv id m Hm) as (Ha & Hit & Hlt).
    destruct Hlt as [Hlt|[? _]]; [|done].
    set (w1 := set_missions w _). assert (Hu : unchecked_of w1 id = unchecked_of w id) by done.
    eapply (good_transit w id session (AtOutcome result) Hinv Hp _ m (touch (with_counters m (iteration m + 1)
      (evaluator_parse_failures m) (stagnant_evaluations m)) (clock w)));
      [exact Hm|done|done|done|done|done|..].
    + intros id' Hne. change (unchecked_of (add_unchecked w1 id 1) id' = unchecked_of w id'). by rewrite unchecked_add_ne.
    + change (0 <= unchecked_of (add_unchecked w1 id 1) id)%Z. rewrite unchecked_add, Hu. lia.
    + change (row_ok (unchecked_of (add_unchecked w1 id 1) id) (touch (with_counters m (iteration m + 1)
        (evaluator_parse_failures m) (stagnant_evaluations m)) (clock w))). rewrite unchecked_add, Hu.
      unfold row_ok, iteration_limit in *. csimpl. split; [done|]. lia.
    + change (stage_ok (unchecked_of (add_unchecked w1 id 1) id) (touch (with_counters m (iteration m + 1)
        (evaluator_parse_failures m) (stagnant_evaluations m)) (clock w)) (AtLimit (iteration m + 1))).
      rewrite unchecked_add, Hu. csimpl. split_and!; [done|done|lia].
Qed.

Lemma good_check_limit w id session n w' :
  MInv w → pending w !! session = Some (id, AtLimit n) → check_limit w id session n = Ok w' → good w w'.
Proof.
  intros Hinv Hp. unfold check_limit. destruct (judged_row w id session _ Hinv Hp) as (m & Hm & Hms & Hmax & Hn & Hu).
  rewrite Hm. destruct (inv_row w Hinv id m Hm) as (Ha & Hit & Hlt). destruct Hlt as [Hlt|[? _]]; [|done].
  destruct (Z.leb_spec (max_iterations m) n) as [Hle|Hgt].
  - unfold set_status, update_mission. csimpl. rewrite Hm. intros [= <-].
    eapply (good_transit w id session (AtLimit n) Hinv Hp _ m (touch (with_status m m_max_iterations_reached _ _) (clock w)));
      [exact Hm|done|done|done|done|done|..].
    + intros id' Hne. change (unchecked_of (add_unchecked w id (-1)) id' = unchecked_of w id'). by rewrite unchecked_add_ne.
    + change (0 <= unchecked_of (add_unchecked w id (-1)) id)%Z. rewrite unchecked_add. lia.
    + change (row_ok (unchecked_of (add_unchecked w id (-1)) id) (touch (with_status m m_max_iterations_reached
        (paused_reason m) (cancelled_reason m)) (clock w))). rewrite unchecked_add.
      unfold row_ok, iteration_limit in *. csimpl. split; [done|]. split; [done|]. right. split; [done|lia].
    + done.
  - intros [= <-]. eapply (good_transit w id session (AtLimit n) Hinv Hp _ m m); [exact Hm|..]; try done.
    + csimpl. by rewrite insert_id.
    + intros id' Hne. change (unchecked_of (add_unchecked w id (-1)) id' = unchecked_of w id'). by rewrite unchecked_add_ne.
    + change (0 <= unchecked_of (add_unchecked w id (-1)) id)%Z. rewrite unchecked_add. lia.
    + change (row_ok (unchecked_of (add_unchecked w id (-1)) id) m). rewrite unchecked_add.
      unfold row_ok, iteration_limit in *. split; [done|]. lia.
Qed.

Lemma good_carry w session w' : MInv w → carry_on w session = Ok w' → good w w'.
Proof.
  intros Hinv. unfold carry_on. destruct (pending w !! session) as [[id st]|] eqn:Hp; [|intros [= <-]; by apply good_refl].
  destruct st as [trigger|trigger v| |result|n| |[|e es]].
  - intros [= <-]. by apply good_refl.
  - by apply good_announce.
  - unfold pause_for_refinement. destruct (set_status _ _ _ _ _) as [w1|] eqn:Hset; csimpl; [|done]. intros [= <-].
    eapply good_status; [exact Hinv|exact Hp|exact I|..|exact Hset]; done.
  - by apply good_outcome.
  - by apply good_check_limit.
  - intros [= <-]. eapply good_trans; [by apply (good_clear_active w session)|]. intros Hi. by apply good_evaluated.
  - intros [= <-]. by apply good_evaluated.
  - intros [= <-]. eapply good_trans; [apply (good_emit w session e)|]; [|done|].
    + destruct (judged_row _ _ _ _ Hinv Hp) as (m & _ & _ & [He _]%andb_true_iff). exact He.
    + intros Hi. apply (good_goes_on (emit w session e) id session (AtEmits (e :: es)) Hi Hp).
      by intros m _ _ [_ He]%andb_true_iff.
Qed.

Lemma good_finish w session answer w' : MInv w → finish_evaluation w session answer = Ok w' → good w w'.
Proof.
  intros Hinv. unfold finish_evaluation.
  destruct (pending w !! session) as [[id st]|] eqn:Hp; [|intros [= <-]; by apply good_refl].
  destruct st as [trigger| | | | | | ]; try (intros [= <-]; by apply good_refl).
  destruct (judged_row w id session _ Hinv Hp) as (m & Hm & Hms & Hmax). csimpl in Hmax.
  pose proof (inv_row w Hinv id m Hm) as Hrow. pose proof (inv_unchecked w Hinv id) as Hu.
  destruct answer as [v|why|].
  - destruct (mission_task_counts w id). set (v' := adjust_mission_verdict _ _ _). unfold record_verdict, record_evaluation, update_mission.
    rewrite Hm. intros [= <-].
    by eapply (good_transit w id session _ Hinv Hp _ m (touch (with_evaluation m _ _ _ _ _) (clock w))).
  - unfold record_parse_failure, update_mission. rewrite Hm. csimpl. intros [= <-].
    set (f := λ m : Mission, let n := (evaluator_parse_failures m + 1)%Z in
      let m' := with_counters m (iteration m) n (stagnant_evaluations m) in
      if (3 <=? n)%Z then with_status m' m_paused (Some "evaluator parse failure") (cancelled_reason m) else m').
    assert (Hf : row_ok (unchecked_of w id) (f m)).
    { unfold f. cbv zeta. case_match; [|exact Hrow]. apply (row_ok_status _ m); done. }
    assert (Hsame : same_mission m (touch (f m) (clock w))) by (unfold f; cbv zeta; case_match; done).
    eapply (good_transit w id session _ Hinv Hp _ m (touch (f m) (clock w)));
      [exact Hm|exact Hsame|unfold f; cbv zeta; case_match; done|done|done|done|done|exact Hu|exact Hf|done].
  - intros [= <-]. set (e := TransportFailed _ _). eapply good_trans; [by apply (good_emit w session e)|]. intros Hi. by apply good_evaluated.
Qed.

(** ** Accepting a proposal *)

(** What an accept may have done to a mission: nothing, or put the text of one
    of its recorded proposals in the place of its rubric, where the mission
    waited for that decision or this very command had decided it before. *)
Definition rubric_accepted (w : World) (session : Z) (typed_at : option Z) (id : Z) (m m' : Mission) : Prop :=
  mission_session m = session ∧
  ((mission_status m = m_paused ∧ paused_reason m = Some "awaiting_refinement") ∨
   ∃ t l, typed_at = Some t ∧ l ∈ mlog w ∧ typed_amendment session id t l = true) ∧
  ∃ l, l ∈ mlog w ∧ is_proposal session id l = true ∧ proposed_text l = Some (rubric m').
Definition accepts (w w' : World) (session : Z) (typed_at : option Z) : Prop :=
  ∀ id m, missions w !! id = Some m → ∃ m', missions w' !! id = Some m' ∧ same_mission m m' ∧
    (rubric m' = rubric m ∨ rubric_accepted w session typed_at id m m').

Lemma keeps_accepts w w' session typed_at : keeps w w' → accepts w w' session typed_at.
Proof. intros Hk id m Hm. destruct (Hk id m Hm) as (m' & ? & ? & ?). exists m'. auto. Qed.

Lemma line_amended w l id old new ev at_ :
  MInv w → l ∈ mlog w → line_event l = Amended id old new ev at_ →
  ∃ l', l' ∈ mlog w ∧ is_proposal (line_session l) id l' = true ∧ proposed_text l' = Some new ∧ strip new = new.
Proof.
  intros Hinv Hin Hl. pose proof (inv_lines w Hinv l Hin) as Hok. unfold line_ok in Hok. rewrite Hl in Hok.
  destruct Hok as [_ (l' & Hin' & Hp & Ht)]. exists l'. split_and!; [done|done|done|].
  pose proof (inv_lines w Hinv l' Hin') as Hok'. unfold line_ok in Hok'. unfold proposed_text in Ht.
  destruct (line_event l'); try done. simplify_eq. by destruct Hok'.
Qed.

(** [w1] is the world with the amendment recorded. *)
Lemma accept_amends w w1 session typed_at id m new l :
  MInv w1 → missions w1 = missions w → missions w !! id = Some m →
  mission_session m = session → mission_status m ≠ m_max_iterations_reached →
  strip new = new → l ∈ mlog w → is_proposal session id l = true → proposed_text l = Some new →
  ((mission_status m = m_paused ∧ paused_reason m = Some "awaiting_refinement") ∨
   ∃ t l, typed_at = Some t ∧ l ∈ mlog w ∧ typed_amendment session id t l = true) →
  ∀ w2 r, or_raise w1 (let! w := amend_rubric w1 id new in Ok (w, r)) = w2 →
  MInv w2.1 ∧ accepts w w2.1 session typed_at.
Proof.
  intros Hinv Hms Hm Hs Hst Hstrip Hin Hl Ht Hwhy w2 r <-.
  assert (Hsame : MInv w1 ∧ accepts w w1 session typed_at) by (split; [done|apply keeps_accepts; by apply keeps_same]).
  unfold amend_rubric. rewrite Hstrip. destruct (str_truthy new); [|exact Hsame].
  unfold update_mission. rewrite Hms, Hm. csimpl.
  set (f := λ m, with_counters (with_status (with_target m new (budget_tokens m)) m_active None (cancelled_reason m))
        (iteration m) (evaluator_parse_failures m) 0).
  split.
  - rewrite <- Hms. apply (inv_update w1 id m f); [done|by rewrite Hms|done| |done|done].
    eapply row_ok_status; [eapply inv_row; [done|by rewrite Hms]|done..].
  - intros id' m' Hm'. csimpl. destruct (decide (id = id')) as [<-|Hne].
    + rewrite lookup_insert_eq. simplify_eq. eexists. split; [done|]. split; [done|]. right. split; [done|].
      split; [done|]. by exists l.
    + rewrite lookup_insert_ne by done. exists m'. split; [done|]. split; [done|by left].
Qed.

Lemma proposal_text w session id i l old p ev h ex :
  MInv w → last_event w (is_proposal session id) = Some (i, l) → line_event l = RefinementProposed id old p ev h ex →
  l ∈ mlog w ∧ strip p = p.
Proof.
  intros Hinv Hlast Hl. apply last_line_bounds in Hlast as (_ & Hin & _). split; [done|].
  pose proof (inv_lines w Hinv l Hin) as Hok. unfold line_ok in Hok. rewrite Hl in Hok. apply Hok.
Qed.

Lemma accept_record_spec w session typed_at : MInv w →
  let '(w1, r) := accept_record w session typed_at in
  MInv w1 ∧ missions w1 = missions w ∧
  match r with
  | inl _ => True
  | inr (id, new) =>
    ∃ m l, missions w !! id = Some m ∧ mission_session m = session ∧ mission_status m ≠ m_max_iterations_reached ∧
      strip new = new ∧ l ∈ mlog w ∧ is_proposal session id l = true ∧ proposed_text l = Some new ∧
      ((mission_status m = m_paused ∧ paused_reason m = Some "awaiting_refinement") ∨
       ∃ t l, typed_at = Some t ∧ l ∈ mlog w ∧ typed_amendment session id t l = true)
  end.
Proof.
  intros Hinv. unfold accept_record.
  destruct (get_active_for_session w session) as [[id m]|] eqn:Hget; [|done].
  destruct (get_active_spec _ _ _ _ Hget) as (Hm & Hs & Hst). pose proof (active_not_max m Hst) as Hmax.
  destruct (typed_at ≫= _) as [[j l]|] eqn:Hmine.
  - destruct typed_at as [t|]; [|done]. csimpl in Hmine. apply last_line_bounds in Hmine as (_ & Hin & Hl).
    destruct (line_event l) eqn:Hle; try done.
    pose proof Hl as Hl'. unfold typed_amendment in Hl'. rewrite Hle in Hl'. apply andb_true_iff in Hl' as [Hls Hl'].
    apply andb_true_iff in Hl' as [Hid _]. apply bool_decide_eq_true in Hls, Hid. subst.
    destruct (line_amended w l _ _ _ _ _ Hinv Hin Hle) as (lp & Hinp & Hp & Ht & Hstrip). rewrite Hls in Hp.
    split_and!; [done|done|]. exists m, lp. split_and!; try done. right. by exists t, l.
  - case_decide as Hwait; [|done].
    assert (Hp' : mission_status m = m_paused).
    { destruct Hst as [Ha|]; [|done]. destruct (inv_row w Hinv id m Hm) as [Hr _]. rewrite (Hr Ha) in Hwait. done. }
    destruct (last_event w (is_proposal session id)) as [[i l]|] eqn:Hlast; [|done].
    pose proof (last_line_bounds _ _ _ _ _ Hlast) as (_ & Hin & Hl).
    destruct (line_event l) as [| | | | |mid old p ev h ex| | | | | |] eqn:Hle; try done.
    assert (mid = id) as ->.
    { unfold is_proposal in Hl. rewrite Hle in Hl. apply andb_true_iff in Hl as [_ Hl]. by apply bool_decide_eq_true in Hl. }
    destruct (proposal_text w session id _ _ _ _ _ _ _ Hinv Hlast Hle) as [_ Hstrip]. rewrite Hstrip.
    destruct (str_truthy p); [|done].
    assert (Ht : proposed_text l = Some p) by (unfold proposed_text; by rewrite Hle).
    assert (Hnew : (∀ j l', last_event w (is_amendment session id) = Some (j, l') → ¬ (i < j)%Z) →
      MInv (emit w session (Amended id (rubric m) p ev typed_at))).
    { intros Hn. destruct (inv_amend w Hinv id m Hm) as [_ Hok]. rewrite Hs in Hok.
      eapply (inv_emit_amended w session id m _ p _ _ l); [done|done|done|by eapply Hok|done|done|done]. }
    destruct (last_event w (is_amendment session id)) as [[j la]|] eqn:Ham.
    + destruct (Z.ltb_spec i j) as [Hlt|Hge].
      * apply last_line_bounds in Ham as (_ & Hina & Hla).
        destruct (line_event la) as [| | | | | |mid' old' new' ev' at'| | | | |] eqn:Hlea; try done.
        unfold is_amendment in Hla. rewrite Hlea in Hla. apply andb_true_iff in Hla as [Hls Hid].
        apply bool_decide_eq_true in Hls, Hid. subst mid'.
        destruct (line_amended w la _ _ _ _ _ Hinv Hina Hlea) as (lp & Hinp & Hlp & Htp & Hstripp). rewrite Hls in Hlp.
        split_and!; [done|done|]. exists m, lp. split_and!; try done. by left.
      * split_and!; [apply Hnew; intros j' l' [= <- <-]; lia|done|]. exists m, l. split_and!; try done. by left.
    + split_and!; [by apply Hnew|done|]. exists m, l. split_and!; try done. by left.
Qed.

Lemma accept_spec w session typed_at :
  MInv w → MInv (handle_mission_accept w session typed_at).1 ∧ accepts w (handle_mission_accept w session typed_at).1 session typed_at.
Proof.
  intros Hinv. unfold handle_mission_accept. pose proof (accept_record_spec w session typed_at Hinv) as Hrec.
  destruct (accept_record w session typed_at) as [w1 [r|[id new]]].
  - destruct Hrec as (Hi & Hms & _). split; [done|]. apply keeps_accepts. by apply keeps_same.
  - destruct Hrec as (Hi & Hms & m & l & Hm & Hs & Hmax & Hstrip & Hin & Hl & Ht & Hwhy).
    by eapply (accept_amends w w1).
Qed.

Lemma good_accept_lost w session typed_at : MInv w → good w (accept_record w session typed_at).1.
Proof.
  intros Hinv. pose proof (accept_record_spec w session typed_at Hinv) as Hrec.
  destruct (accept_record w session typed_at) as [w1 r]. destruct Hrec as (Hi & Hms & _).
  split; [done|by apply keeps_same].
Qed.

(** ** The tick *)

Lemma good_nudge w id m :
  MInv w → missions w !! id = Some m → mission_status m = m_active →
  good w (nudge w id m) ∧ ∀ id', id' ≠ id → missions (nudge w id m) !! id' = missions w !! id'.
Proof.
  intros Hinv Hm Hst. unfold nudge. destruct (match msessions w !! _ with Some _ => _ | None => _ end); [by split; [apply good_refl|]|].
  destruct (has_tasks_in_flight w id); [by split; [apply good_refl|]|].
  destruct (_ <=? _)%Z.
  - destruct (set_status _ _ _ _ _) as [w'|] eqn:Hset; [|by split; [apply good_refl|]]. split.
    + refine (good_set_status _ id m _ _ _ _ _ _ _ _ _ Hset); [done|done|congruence|done|done].
    + unfold set_status, update_mission in Hset. rewrite Hm in Hset. injection Hset as <-. intros id' Hne. csimpl.
      by rewrite lookup_insert_ne.
  - split; [|done]. eapply good_trans; [by apply (good_emit w (mission_session m) (UserMessage "mission_nudge"))|].
    by apply good_ext.
Qed.

Lemma good_nudges ps w :
  MInv w → NoDup ps.*1 → (∀ p, p ∈ ps → missions w !! p.1 = Some p.2 ∧ mission_status p.2 = m_active) →
  good w (foldl (λ w p, nudge w p.1 p.2) w ps).
Proof.
  revert w. induction ps as [|[id m] ps IH]; intros w Hinv Hnd Hall; csimpl in *; [by apply good_refl|].
  apply NoDup_cons in Hnd as [Hid Hnd]. destruct (Hall (id, m)) as [Hm Hst]; [by left|]. csimpl in *.
  destruct (good_nudge w id m Hinv Hm Hst) as [Hg Hother]. eapply good_trans; [exact Hg|]. intros Hi.
  apply IH; [done|done|]. intros [id' m'] Hin. csimpl. rewrite Hother; [by apply (Hall (id', m')); right|].
  intros ->. apply Hid. apply list_elem_of_fmap. by exists (id, m').
Qed.

Lemma good_tick w : MInv w → good w (nudge_idle_missions w).
Proof.
  intros Hinv. unfold nudge_idle_missions. apply good_nudges; [done|..].
  - eapply sublist_NoDup; [apply (NoDup_fst_map_to_list (missions w))|].
    apply fmap_sublist. etrans; [apply sublist_take|]. apply sublist_filter.
  - intros p Hp%elem_of_take. destruct Hp as (i & Hp & _). apply list_elem_of_lookup_2 in Hp.
    apply list_elem_of_filter in Hp as [Hf Hin%elem_of_map_to_list']. split; [done|].
    apply andb_True in Hf as [Hst _]. by apply bool_decide_unpack in Hst.
Qed.

(** Every step keeps the invariant; only [Accept] touches a rubric. *)
Lemma act_good w a : MInv w → MInv (act w a) ∧
  match a with Accept s t => accepts w (act w a) s t | _ => keeps w (act w a) end.
Proof.
  intros Hinv. destruct a; csimpl.
  - by apply good_create.
  - by apply good_pause.
  - by apply good_resume.
  - by apply good_cancel.
  - by apply accept_spec.
  - by apply good_reject.
  - by apply good_budget.
  - destruct (pending w !! session); [by apply good_refl|].
    destruct (begin_evaluation w session response) eqn:Hb; [by eapply good_begin | by apply good_refl].
  - destruct (finish_evaluation w session answer) eqn:Hf; [by eapply good_finish | by apply good_refl].
  - destruct (carry_on w session) eqn:Hc; [by eapply good_carry | by apply good_refl].
  - by apply good_accept_lost.
  - split; [by apply inv_no_pending | by apply keeps_same].
  - by apply good_tick.
  - by apply good_ext.
Qed.

Lemma run_inv acts : MInv (run acts).
Proof.
  unfold run. assert (H0 : MInv no_missions) by (split; csimpl; intros; set_solver || done).
  revert H0. generalize no_missions. induction acts as [|a acts IH]; intros w Hw; [done|]. csimpl. apply IH. by apply act_good.
Qed.

(** ** What the mission layer promises *)

(** C15. At all times, over any sequence of users' commands, ticks, workers'
    tasks and evaluations, the evaluations one transaction at a time with
    anything between any two and the worker lost after any: an active mission
    carries no reason to be paused, so nothing it is authorised by can be stale;
    it is counted no more evaluations than its limit and one for each of them
    whose check of the limit was never made, as its worker was lost between the
    count and the check; where no check is missing or to come, a mission that
    has reached its limit is over; and it has had at most two amendments. A
    command of the user is one step, but for an accept lost after its record. *)
Theorem mission_invariant acts id m :
  missions (run acts) !! id = Some m →
  (mission_status m = m_active → paused_reason m = None) ∧
  (0 <= iteration m <= Z.max 1 (max_iterations m) + unchecked_of (run acts) id)%Z ∧
  (unchecked_of (run acts) id = 0 → iteration m = Z.max 1 (max_iterations m) → mission_status m = m_max_iterations_reached)%Z ∧
  (count_mission_amendments (run acts) (mission_session m) id <= MAX_MISSION_AMENDMENTS)%Z.
Proof.
  intros Hm. destruct (run_inv acts) as [Hrow _ _ _ Ham]. destruct (Hrow id m Hm) as (Ha & Hit & Hlt). unfold iteration_limit in *.
  split; [done|]. split; [lia|]. split; [|by apply (Ham id m Hm)]. intros Hu Heq. destruct Hlt as [|[? _]]; [lia|done].
Qed.

(** A mission's session, description and allowance of evaluations are
    never changed, and its rubric only by an accept, where the mission waits
    paused for that decision, or where the same command had decided it before;
    and then to the very text of a proposal the judge recorded for it. *)
Theorem rubric_authority acts a id m :
  missions (run acts) !! id = Some m →
  ∃ m', missions (act (run acts) a) !! id = Some m' ∧ same_mission m m' ∧
    (rubric m' = rubric m ∨ ∃ s t, a = Accept s t ∧ rubric_accepted (run acts) s t id m m').
Proof.
  intros Hm. destruct (act_good (run acts) a (run_inv acts)) as [_ Hk].
  destruct a; try (destruct (Hk id m Hm) as (m' & ? & ? & ?); exists m'; by auto).
  destruct (Hk id m Hm) as (m' & ? & ? & [?|?]); exists m'; [by auto|]. split; [done|]. split; [done|]. right. eauto.
Qed.

(** Where no task waits for itself, the judge is held back exactly while
    some task of the mission will finish with no one acting: it is ready or
    running, or it waits and all its parents are done or will finish. *)
Theorem tasks_in_flight_exact (rank : Z → nat) statuses parents :
  (∀ t p, p ∈ default [] (parents !! t) → (rank p < rank t)%nat) →
  any_task_in_flight statuses parents = true ↔ ∃ t, finishes statuses parents t.
Proof.
  intros Hrank. rewrite any_task_in_flight_still. split.
  - intros (s & Hs & [t Ht]%set_choose_L). exists t. by eapply still_finishes.
  - intros [t Ht]. destruct (finishes_still _ _ _ Ht) as (s & Hs & Hin). exists s. split; [done|]. set_solver.
Qed.

(** ** Concrete missions *)

Definition ex_session : MSession := mk_msession None (Some 10%Z) None None None false false [] false.
Definition ex_task (s : TaskStatus) (at_ : option Z) : MTask := mk_mtask (Some 0%Z) s at_ None.
Definition ex_start : list MAction :=
  [Outside ∅ ∅ {[1%Z := ex_session]} 100; Create 1 "agent" "ship it" "tests pass" (Some 7%Z) None 2 None None].
Definition ex_verdict (result proposed : string) : JudgeAnswer := Judged (mk_verdict result "why" "do" proposed "task T").
Definition done_claim : option string := Some ("All set." +:+ String "010" "" +:+ " [[ mission-complete ]] ").
(** An answer and every transaction after it. *)
Definition answered (answer : JudgeAnswer) : list MAction := FinishEvaluation 1 answer :: replicate 6 (CarryOn 1).
Definition ex_proposed : list MAction :=
  ex_start ++ [BeginEvaluation 1 done_claim] ++ answered (ex_verdict "blocked" " docs exist ").

Example ex_waits :
  (λ m, (mission_status m, paused_reason m, rubric m)) <$> missions (run ex_proposed) !! 0%Z =
  Some (m_paused, Some "awaiting_refinement", "tests pass").
Proof. vm_compute. reflexivity. Qed.

Lemma mission_invariant_witness :
  let acts := ex_proposed ++ [Accept 1 (Some 9%Z); BeginEvaluation 1 done_claim] in
  ∃ m, missions (run acts) !! 0%Z = Some m ∧ mission_status m = m_active ∧ paused_reason m = None ∧
    count_mission_amendments (run acts) (mission_session m) 0 = 1%Z.
Proof.
  cbv zeta. destruct (missions (run (ex_proposed ++ [Accept 1 (Some 9%Z); BeginEvaluation 1 done_claim])) !! 0%Z) as [m|] eqn:Hm.
  - exists m. destruct (mission_invariant _ 0%Z m Hm) as [Hp _].
    assert (Hst : mission_status m = m_active ∧ mission_session m = 1%Z).
    { vm_compute in Hm. injection Hm as <-. split; reflexivity. }
    destruct Hst as [Hst Hs]. split; [reflexivity|]. split; [exact Hst|]. split; [exact (Hp Hst)|].
    rewrite Hs. vm_compute. reflexivity.
  - vm_compute in Hm. discriminate Hm.
Defined.

Lemma rubric_authority_witness :
  ∃ m m', missions (run ex_proposed) !! 0%Z = Some m ∧ rubric m = "tests pass" ∧
    missions (act (run ex_proposed) (Accept 1 (Some 9%Z))) !! 0%Z = Some m' ∧ rubric m' = "docs exist" ∧
    description m' = description m.
Proof.
  destruct (missions (run ex_proposed) !! 0%Z) as [m|] eqn:Hm; [|vm_compute in Hm; discriminate Hm].
  destruct (rubric_authority ex_proposed (Accept 1 (Some 9%Z)) 0%Z m Hm) as (m' & Hm' & (_ & Hd & _) & _).
  exists m, m'. split; [reflexivity|]. split; [vm_compute in Hm; injection Hm as <-; reflexivity|].
  split; [exact Hm'|]. split; [vm_compute in Hm'; injection Hm' as <-; reflexivity|exact Hd].
Defined.

(** A waiting task behind a running one, and one behind a failed one. *)
Definition ex_statuses : gmap Z TaskStatus := {[1%Z := running; 2%Z := todo; 3%Z := failed; 4%Z := todo]}.
Definition ex_parents : gmap Z (list Z) := {[2%Z := [1%Z]; 4%Z := [3%Z]]}.

Lemma tasks_in_flight_exact_witness :
  any_task_in_flight ex_statuses ex_parents = true ∧ (∃ t, finishes ex_statuses ex_parents t) ∧
  any_task_in_flight {[3%Z := failed; 4%Z := todo]} ex_parents = false.
Proof.
  split; [vm_compute; reflexivity|]. split; [|vm_compute; reflexivity].
  apply (tasks_in_flight_exact Z.to_nat ex_statuses ex_parents); [|vm_compute; reflexivity].
  intros t p Hp. destruct (ex_parents !! t) as [ps|] eqn:Hps; [|by apply not_elem_of_nil in Hp].
  unfold ex_parents in Hps. apply lookup_insert_Some in Hps as [[<- <-]|[_ [<- <-]%lookup_singleton_Some]];
    apply list_elem_of_singleton in Hp as ->; vm_compute; lia.
Defined.

(** A cancel while the judge is asked is undone by its answer: the mission is
    paused for a decision, and accepted it is active again, with the session
    no longer working for it. *)
Theorem cancel_undone_by_verdict :
  let cancelled_meanwhile := ex_start ++ [BeginEvaluation 1 done_claim; Cancel 1 None false] in
  let answered := cancelled_meanwhile ++ answered (ex_verdict "blocked" "docs exist") in
  mission_status <$> missions (run cancelled_meanwhile) !! 0%Z = Some m_cancelled ∧
  mission_status <$> missions (run answered) !! 0%Z = Some m_paused ∧
  mission_status <$> missions (run (answered ++ [Accept 1 None])) !! 0%Z = Some m_active ∧
  (msessions (run (answered ++ [Accept 1 None])) !! 1%Z ≫= active_mission_id) = None.
Proof. vm_compute. split_and!; reflexivity. Qed.

(** An evaluation is counted in one transaction and its mission ended at the
    limit in another: a worker lost between the two leaves the mission active at
    its limit, and a later evaluation is counted past it. *)
Theorem lost_check_passes_limit :
  let evaluation := [Outside ∅ ∅ {[1%Z := ex_session]} 100; BeginEvaluation 1 done_claim] in
  let revised := evaluation ++ answered (ex_verdict "needs_revision" "") in
  let lost := ex_start ++ revised ++ evaluation ++
    [FinishEvaluation 1 (ex_verdict "needs_revision" ""); CarryOn 1; CarryOn 1; WorkerLost 1] in
  let view acts := (λ m, (mission_status m, iteration m, max_iterations m)) <$> missions (run acts) !! 0%Z in
  view lost = Some (m_active, 2%Z, 2%Z) ∧ unchecked_of (run lost) 0 = 1%Z ∧
  view (lost ++ revised) = Some (m_max_iterations_reached, 3%Z, 2%Z).
Proof. vm_compute. split_and!; reflexivity. Qed.

(** A judge that could not be reached leaves no trace on the mission: the next
    turn asks it again, however soon. *)
Theorem unreachable_judge_unlimited w session id trigger :
  pending w !! session = Some (id, AtJudge trigger) →
  ∃ w', finish_evaluation w session JudgeUnreachable = Ok w' ∧ missions w' = missions w ∧ clock w' = clock w.
Proof. intros Hp. unfold finish_evaluation. rewrite Hp. by eexists. Qed.

(** A mission ended for its quiet coordinator stays the session's own: its
    configuration still names it. *)
Theorem nudged_out_stays_named w id m : msessions (nudge w id m) = msessions w.
Proof.
  unfold nudge, set_status, update_mission. repeat case_match; simplify_eq; done.
Qed.
