(* ===== verification/Sessions.v ===== *)
(** * Sessions (session/store.py) and the sweep of abandoned ones (orchestrator/dispatcher.py)

    The durable side of a session: its row and counters, its event log, the
    lease a worker holds it by, the cursor of what has been processed, and the
    sweepers that re-enqueue the sessions of dead workers. Each method of the
    store is one transaction and one step.

    What is written is the event's data as it is kept, already redacted. The
    cost of a response, the inbox, the channels' outbox and the announcements
    of an event are left out. *)

From S2P Require Import Prelude.
From S2P Require Import PyStr.
From stdpp Require Import options.

Record SRow := mk_srow {
  s_agent : string;
  s_channel : string;
  s_status : string;
  message_count : Z;
  tool_call_count : Z;
  s_input_tokens : Z;
  s_output_tokens : Z;
  s_config : list (string * pyval);
  s_updated_at : Z
}.
Record ERow := mk_erow { e_id : Z; e_session : Z; e_type : string; e_data : pyval; e_at : Z }.
Record LRow := mk_lrow { l_owner : string; l_token : Z; l_expires : Z }.

Record Store := mk_store {
  srows : gmap Z SRow;
  erows : list ERow;
  next_event : Z;
  lrows : gmap Z LRow;
  cursors : gmap Z Z;
  wqueue : list Z;
  paused_missions : list Z;
  now : Z
}.

Definition put_rows (st : Store) (rows : gmap Z SRow) : Store :=
  mk_store rows (erows st) (next_event st) (lrows st) (cursors st) (wqueue st) (paused_missions st) (now st).
Definition put_leases (st : Store) (ls : gmap Z LRow) : Store :=
  mk_store (srows st) (erows st) (next_event st) ls (cursors st) (wqueue st) (paused_missions st) (now st).
Definition put_cursors (st : Store) (cs : gmap Z Z) : Store :=
  mk_store (srows st) (erows st) (next_event st) (lrows st) cs (wqueue st) (paused_missions st) (now st).
Definition put_queue (st : Store) (q : list Z) : Store :=
  mk_store (srows st) (erows st) (next_event st) (lrows st) (cursors st) q (paused_missions st) (now st).

Definition with_row_status (r : SRow) (s : string) (at_ : Z) : SRow :=
  mk_srow (s_agent r) (s_channel r) s (message_count r) (tool_call_count r) (s_input_tokens r) (s_output_tokens r)
    (s_config r) at_.
Definition with_config (r : SRow) (c : list (string * pyval)) (at_ : Z) : SRow :=
  mk_srow (s_agent r) (s_channel r) (s_status r) (message_count r) (tool_call_count r) (s_input_tokens r) (s_output_tokens r)
    c at_.

Inductive SError :=
| SessionNotFoundError (session : Z)
| LeaseNotHeldError (session : Z)
| SIntegrityError
| SValueError
| STypeError.

(** ** Status *)

(** [UPDATE sessions SET status WHERE id AND status ...]; whether it matched. *)
Definition set_status_where (st : Store) (session : Z) (ok : string → bool) (status : string) : Store * bool :=
  match srows st !! session with
  | Some r =>
    if ok (s_status r) then (put_rows st (<[session := with_row_status r status (now st)]> (srows st)), true) else (st, false)
  | None => (st, false)
  end.

Definition update_session_status (st : Store) (session : Z) (status : string) : pyres SError Store :=
  let '(st', matched) := set_status_where st session (λ s, negb (String.eqb s "archived")) status in
  if matched then Ok st'
  else match srows st !! session with Some _ => Ok st | None => Raise (SessionNotFoundError session) end.

Definition fail_if_active (st : Store) (session : Z) : Store * bool :=
  set_status_where st session (λ s, String.eqb s "active") "failed".

Definition touch_session (st : Store) (session : Z) : Store :=
  (set_status_where st session (λ s, String.eqb s "active") "active").1.

(** ** Events *)

Definition DELTA_TOUCH_THROTTLE_SECONDS : Z := 5.

(** [int(data.get(key, 0))] *)
Definition int_field (data : pyval) (key : string) : option Z := py_int (py_get data key (VInt 0)).

(** [_build_counter_update_clause], as it changes the row; [None] where it
    raises. *)
Definition counter_update (etype : string) (data : pyval) (at_ : Z) (r : SRow) : option SRow :=
  let with_counts m t i o :=
    mk_srow (s_agent r) (s_channel r) (s_status r) (message_count r + m) (tool_call_count r + t) (s_input_tokens r + i)
      (s_output_tokens r + o) (s_config r) at_ in
  if String.eqb etype "user.message" then Some (with_counts 1 0 0 0)%Z
  else if String.eqb etype "tool.call" then Some (with_counts 0 1 0 0)%Z
  else if String.eqb etype "llm.response" then
    match int_field data "input_tokens", int_field data "output_tokens" with
    | Some i, Some o => Some (with_counts 0%Z 0%Z i o)
    | _, _ => None
    end
  else Some (with_counts 0 0 0 0)%Z.

(** [_write_event], in the transaction of its caller; an event's session is a
    foreign key. *)
Definition write_event (st : Store) (session : Z) (etype : string) (data : pyval) (status : option string) : pyres SError Store :=
  match srows st !! session with
  | None => Raise SIntegrityError
  | Some r =>
    match counter_update etype data (now st) r with
    | None => Raise STypeError
    | Some r' =>
      let r' := match status with
                | Some s => if String.eqb (s_status r) "archived" then r' else with_row_status r' s (now st)
                | None => r'
                end in
      let r' := if String.eqb etype "llm.delta" && (now st - DELTA_TOUCH_THROTTLE_SECONDS <=? s_updated_at r)%Z then r else r' in
      Ok (mk_store (<[session := r']> (srows st)) (erows st ++ [mk_erow (next_event st) session etype data (now st)])
            (next_event st + 1) (lrows st) (cursors st) (wqueue st) (paused_missions st) (now st))
    end
  end.

Definition holds (st : Store) (session token : Z) : bool :=
  match lrows st !! session with Some l => (l_token l =? token)%Z | None => false end.

Definition emit_event (st : Store) (session : Z) (etype : string) (data : pyval) (lease_token : option Z)
    (status : option string) : pyres SError Store :=
  match lease_token with
  | Some t => if holds st session t then write_event st session etype data status else Raise (LeaseNotHeldError session)
  | None => write_event st session etype data status
  end.

Open Scope py_scope.
Definition pause_if_active (st : Store) (session : Z) (data : pyval) : pyres SError (Store * bool) :=
  let '(st, paused) := set_status_where st session (λ s, String.eqb s "active") "paused" in
  if paused then let! st := write_event st session "session.pause" data None in Ok (st, true)
  else Ok (st, false).

Definition resume_session (st : Store) (session : Z) (source : string) : pyres SError Store :=
  let! st := update_session_status st session "active" in
  emit_event st session "session.resume" (VDict (if str_truthy source then [("source", VStr source)] else [])) None None.

Definition emit_synthetic_user_message (st : Store) (session : Z) (content synthetic : string) (metadata : list (string * pyval))
    : pyres SError Store :=
  emit_event st session "user.message"
    (VDict (foldl (λ d kv, dict_set kv.1 kv.2 d) [("content", VStr content); ("synthetic", VStr synthetic)] metadata)) None None.

Definition session_events (st : Store) (session : Z) : list ERow := filter (λ e, e_session e = session) (erows st).

Definition get_events (st : Store) (session : Z) (after : option Z) (limit : option nat) (types exclude : list string) : list ERow :=
  let keep e := match after with Some a => (a <? e_id e)%Z | None => true end &&
                (bool_decide (types = []) || bool_decide (e_type e ∈ types)) && negb (bool_decide (e_type e ∈ exclude)) in
  let es := filter (λ e, keep e) (session_events st session) in
  match limit with Some n => take n es | None => es end.

Definition last_event_id (st : Store) (session : Z) : Z := match last (session_events st session) with Some e => e_id e | None => 0%Z end.
Definition last_event_at (st : Store) (session : Z) (etype : string) : option Z :=
  e_at <$> last (filter (λ e, e_type e = etype) (session_events st session)).

(** ** The configuration *)

Definition with_session (st : Store) (session : Z) {A} (k : SRow → pyres SError (Store * A)) : pyres SError (Store * A) :=
  match srows st !! session with Some r => k r | None => Raise (SessionNotFoundError session) end.
Definition write_config (st : Store) (session : Z) (r : SRow) (c : list (string * pyval)) : Store :=
  put_rows st (<[session := with_config r c (now st)]> (srows st)).

Definition update_session_config_key (st : Store) (session : Z) (key : string) (v : pyval) : pyres SError (Store * unit) :=
  if str_truthy key then with_session st session (λ r, Ok (write_config st session r (dict_set key v (s_config r)), tt))
  else Raise SValueError.

Definition append_session_config_list (st : Store) (session : Z) (key : string) (v : pyval) : pyres SError (Store * unit) :=
  if str_truthy key then
    with_session st session (λ r,
      let items := match dict_get key (s_config r) with Some (VList l) => l | _ => [] end in
      Ok (write_config st session r (dict_set key (VList (items ++ [v])) (s_config r)), tt))
  else Raise SValueError.

Definition dict_pop (key : string) (d : list (string * pyval)) : list (string * pyval) :=
  filter (λ kv, kv.1 ≠ key) d.
Definition pop_session_config_key (st : Store) (session : Z) (key : string) : pyres SError (Store * option pyval) :=
  if str_truthy key then
    with_session st session (λ r,
      match dict_get key (s_config r) with
      | None => Ok (st, None)
      | Some v => Ok (write_config st session r (dict_pop key (s_config r)), Some v)
      end)
  else Raise SValueError.

(** ** Leases *)

Definition lease_live (st : Store) (l : LRow) : bool := (now st <? l_expires l)%Z.
Definition live_lease_token (st : Store) (session : Z) : option Z :=
  match lrows st !! session with Some l => if lease_live st l then Some (l_token l) else None | None => None end.
Definition has_live_lease (st : Store) (session : Z) : bool :=
  match live_lease_token st session with Some _ => true | None => false end.

(** [INSERT ... ON CONFLICT DO UPDATE ... WHERE expires_at < now()], with the
    token drawn for it. *)
Definition try_acquire_lease (st : Store) (session : Z) (owner : string) (ttl token : Z) : Store * option LRow :=
  let l := mk_lrow owner token (now st + ttl) in
  let take := (put_leases st (<[session := l]> (lrows st)), Some l) in
  match lrows st !! session with
  | Some old => if (l_expires old <? now st)%Z then take else (st, None)
  | None => take
  end.

Definition renew_lease (st : Store) (session token ttl : Z) : pyres SError (Store * option string) :=
  match lrows st !! session with
  | Some l =>
    if (l_token l =? token)%Z then
      Ok (put_leases st (<[session := mk_lrow (l_owner l) token (now st + ttl)]> (lrows st)), s_status <$> srows st !! session)
    else Raise (LeaseNotHeldError session)
  | None => Raise (LeaseNotHeldError session)
  end.

Definition release_lease (st : Store) (session token : Z) : pyres SError Store :=
  if holds st session token then Ok (put_leases st (delete session (lrows st))) else Raise (LeaseNotHeldError session).

Definition release_stale_lease (st : Store) (session : Z) : Store * bool :=
  match lrows st !! session with
  | Some l => if (l_expires l <? now st)%Z then (put_leases st (delete session (lrows st)), true) else (st, false)
  | None => (st, false)
  end.

(** ** The cursor *)

Definition get_harness_cursor (st : Store) (session : Z) : Z := default 0%Z (cursors st !! session).

Definition advance_harness_cursor (st : Store) (session through token : Z) (rests_with : option pyval)
    : pyres SError (Store * bool) :=
  if holds st session token then
    let st := put_cursors st (<[session := Z.max (default through (cursors st !! session)) through]> (cursors st)) in
    match rests_with with
    | None => Ok (st, false)
    | Some data =>
      let '(st, rested) := set_status_where st session (λ s, String.eqb s "active") "completed" in
      if rested then let! st := write_event st session "session.complete" data None in Ok (st, true)
      else Ok (st, false)
    end
  else Raise (LeaseNotHeldError session).

Definition get_pending_events (st : Store) (session : Z) : list ERow :=
  filter (λ e, get_harness_cursor st session < e_id e)%Z (session_events st session).

(** ** Abandoned sessions *)

Definition progress_types : list string := ["llm.response"; "tool.result"; "user.message"; "coordinator.message"].
(** The events past the last of [progress_types]. *)
Fixpoint since_progress (es : list ERow) : list ERow :=
  match es with
  | [] => []
  | e :: es' => if existsb (λ e, bool_decide (e_type e ∈ progress_types)) es then since_progress es' else e :: es'
  end.
Definition count_recoveries_since_progress (st : Store) (session : Z) : Z :=
  Z.of_nat (length (filter (λ e, e_type e = "harness.recovered") (since_progress (session_events st session)))).

(** [data[key].astext] *)
Definition astext (v : pyval) (key : string) : option string :=
  match py_get v key VNone with
  | VStr s => Some s
  | VBool b => Some (if b then "true" else "false")
  | VInt z => Some (str_of_int z)
  | _ => None
  end.

Definition trailing_async_event_types : list string :=
  ["session.title_updated"; "device.waiting"; "device.resumed"; "browser.provisioned"; "browser.destroyed";
   "browser.unavailable"; "browser.control_granted"].
Definition session_end_event_types : list string := ["session.done"; "session.complete"; "session.fail"].
Definition TURN_EVENT_TYPES : list string :=
  ["user.message"; "coordinator.message"; "harness.wake"; "llm.request"; "llm.thinking"; "llm.delta"; "llm.response";
   "tool.call"; "tool.result"].
Definition OPENER_SYNTHETIC_MARKERS : list string := ["checkin_opener"; "outreach_opener"].
Definition RERUN_WINDOW : Z := 3600.

Definition hand_back_for_the_pane (e : ERow) : bool :=
  String.eqb (e_type e) "browser.control_returned" && bool_decide (astext (e_data e) "computer" = Some "true").
Definition resume_taken_over_again (later : list ERow) (e : ERow) : bool :=
  String.eqb (e_type e) "session.resume" && bool_decide (astext (e_data e) "source" = Some "browser_hand_back") &&
  existsb (λ l, String.eqb (e_type l) "browser.control_granted" && bool_decide (astext (e_data l) "computer" = Some "true")) later.

(** The latest event that tells of the session's turns. *)
Fixpoint latest_event_from (es : list ERow) : option ERow :=
  match es with
  | [] => None
  | e :: later =>
    match latest_event_from later with
    | Some l => Some l
    | None =>
      if bool_decide (e_type e ∈ trailing_async_event_types) || hand_back_for_the_pane e || resume_taken_over_again later e
      then None else Some e
    end
  end.
Definition latest_event (st : Store) (session : Z) : option ERow := latest_event_from (session_events st session).

Definition clean_response (e : ERow) : bool :=
  String.eqb (e_type e) "llm.response" &&
  match py_get (py_get (e_data e) "message" VNone) "tool_calls" VNone with
  | VList (_ :: _) => false
  | _ => true
  end.

Definition latest_event_ended_work (st : Store) (session : Z) (e : ERow) : bool :=
  bool_decide (e_type e ∈ session_end_event_types) ||
  (String.eqb (e_type e) "user.message" && bool_decide (default "" (astext (e_data e) "synthetic") ∈ OPENER_SYNTHETIC_MARKERS)) ||
  (String.eqb (e_type e) "harness.crash" && (e_at e <? now st - RERUN_WINDOW)%Z) ||
  clean_response e ||
  (bool_decide (session ∈ paused_missions st) && negb (bool_decide (e_type e ∈ TURN_EVENT_TYPES))).

Definition on_a_device (r : SRow) : bool :=
  bool_decide (astext (default VNone (dict_get "execution" (s_config r))) "kind" = Some "device").

Definition orphaned (st : Store) (stale : Z) (agent : option string) (session : Z) (r : SRow) : bool :=
  String.eqb (s_status r) "active" && negb (has_live_lease st session) && (s_updated_at r <? now st - stale)%Z &&
  match latest_event st session with
  | None => negb (on_a_device r)
  | Some e => negb (latest_event_ended_work st session e)
  end &&
  match agent with Some a => String.eqb (s_agent r) a | None => true end.

(** In the order of [updated_at]. *)
Fixpoint insert_by_age (p : Z * SRow) (l : list (Z * SRow)) : list (Z * SRow) :=
  match l with
  | [] => [p]
  | q :: l => if (s_updated_at p.2 <? s_updated_at q.2)%Z then p :: q :: l else q :: insert_by_age p l
  end.
Definition find_orphaned_sessions (st : Store) (stale : Z) (agent : option string) (limit : nat) : list (Z * SRow) :=
  take limit (foldr insert_by_age [] (filter (λ p, orphaned st stale agent p.1 p.2) (map_to_list (srows st)))).

(** ** The sweepers *)

Definition MAX_RECOVERY_ATTEMPTS : Z := 3.

(** A pass of a sweeper: the orphans it has yet to look at, those of them that
    wait on the work queue, and the one whose recoveries it has counted. *)
Record Sweep := mk_sweep { left_ : list Z; waiting : list Z; stale : Z; reason : string; counted : option (Z * Z) }.
Definition idle : Sweep := mk_sweep [] [] 0 "" None.

Definition or_unchanged (st : Store) (r : pyres SError Store) : Store := match r with Ok st' => st' | Raise _ => st end.

Definition abandon_unrecoverable_session (st : Store) (session attempts : Z) (reason : string) : Store :=
  let st := (release_stale_lease st session).1 in
  let '(st, failed) := fail_if_active st session in
  if failed then
    or_unchanged st (emit_event st session "session.fail"
      (VDict [("reason", VStr "recovery_loop"); ("attempts", VInt attempts); ("recovered_by", VStr reason);
              ("retryable", VBool false)]) None None)
  else st.

Definition recover_session (st : Store) (session stale : Z) (reason : string) : Store :=
  match emit_event st session "harness.recovered"
          (VDict [("recovered_by", VStr reason); ("stale_seconds", VInt stale)]) None None with
  | Raise _ => st
  | Ok st =>
    let st := (release_stale_lease st session).1 in
    put_queue st (if bool_decide (session ∈ wqueue st) then wqueue st else wqueue st ++ [session])
  end.

(** The pass begins; it looks at its next orphan; it does what the count says. *)
Definition sweep_begin (st : Store) (stale : Z) (agent : option string) (reason : string) : Sweep :=
  let orphans := (find_orphaned_sessions st stale agent 200).*1 in
  mk_sweep orphans (filter (λ s, s ∈ wqueue st) orphans) stale reason None.
Definition sweep_look (st : Store) (w : Sweep) : Store * Sweep :=
  match left_ w with
  | [] => (st, w)
  | s :: rest =>
    let next c := mk_sweep rest (waiting w) (stale w) (reason w) c in
    if match srows st !! s with Some r => String.eqb (s_channel r) "browser_setup" | None => false end then (st, next None)
    else if bool_decide (s ∈ waiting w) then (touch_session st s, next None)
    else (st, next (Some (s, count_recoveries_since_progress st s)))
  end.
Definition sweep_do (st : Store) (w : Sweep) : Store * Sweep :=
  match counted w with
  | None => (st, w)
  | Some (s, n) =>
    (if (MAX_RECOVERY_ATTEMPTS <=? n)%Z then abandon_unrecoverable_session st s n (reason w)
     else recover_session st s (stale w) (reason w),
     mk_sweep (left_ w) (waiting w) (stale w) (reason w) None)
  end.

(** ** Every step *)

Record System := mk_system { store : Store; sweeps : gmap Z Sweep }.

Inductive SAction :=
| NewSession (session : Z) (agent channel : string) (config : list (string * pyval))
| Acquire (session : Z) (owner : string) (ttl token : Z)
| Renew (session token ttl : Z)
| Release (session token : Z)
| Emit (session : Z) (etype : string) (data : pyval) (token : option Z) (status : option string)
| Advance (session through token : Z) (rests_with : option pyval)
| SetStatus (session : Z) (status : string)
| PauseIfActive (session : Z) (data : pyval)
| ResumeSession (session : Z) (source : string)
| SetConfig (session : Z) (key : string) (v : pyval)
| AppendConfig (session : Z) (key : string) (v : pyval)
| PopConfig (session : Z) (key : string)
| Dequeue (session : Z)
| PausedMissions (sessions : list Z)
| Elapse (seconds : Z)
| SweepBegin (k stale : Z) (agent : option string) (reason : string)
| SweepLook (k : Z)
| SweepDo (k : Z).

Definition first_of {A} (st : Store) (r : pyres SError (Store * A)) : Store := match r with Ok (st', _) => st' | Raise _ => st end.
Definition new_row (agent channel : string) (config : list (string * pyval)) (at_ : Z) : SRow :=
  mk_srow agent channel "active" 0 0 0 0 config at_.

(** A step of the store; only a sweeper writes [harness.recovered]. *)
Definition store_step (st : Store) (a : SAction) : Store :=
  match a with
  | NewSession s agent channel config =>
    match srows st !! s with Some _ => st | None => put_rows st (<[s := new_row agent channel config (now st)]> (srows st)) end
  | Acquire s o ttl t => (try_acquire_lease st s o ttl t).1
  | Renew s t ttl => first_of st (renew_lease st s t ttl)
  | Release s t => or_unchanged st (release_lease st s t)
  | Emit s ty d t status =>
    if String.eqb ty "harness.recovered" then st else or_unchanged st (emit_event st s ty d t status)
  | Advance s i t rests => first_of st (advance_harness_cursor st s i t rests)
  | SetStatus s status => or_unchanged st (update_session_status st s status)
  | PauseIfActive s d => first_of st (pause_if_active st s d)
  | ResumeSession s source => or_unchanged st (resume_session st s source)
  | SetConfig s k v => first_of st (update_session_config_key st s k v)
  | AppendConfig s k v => first_of st (append_session_config_list st s k v)
  | PopConfig s k => first_of st (pop_session_config_key st s k)
  | Dequeue s => put_queue st (filter (λ q, q ≠ s) (wqueue st))
  | PausedMissions l =>
    mk_store (srows st) (erows st) (next_event st) (lrows st) (cursors st) (wqueue st) l (now st)
  | Elapse dt =>
    mk_store (srows st) (erows st) (next_event st) (lrows st) (cursors st) (wqueue st) (paused_missions st) (now st + Z.max 0 dt)
  | SweepBegin _ _ _ _ | SweepLook _ | SweepDo _ => st
  end.

Definition sact (sys : System) (a : SAction) : System :=
  match a with
  | SweepBegin k stale agent reason =>
    match sweeps sys !! k with
    | Some w =>
      if bool_decide (left_ w = []) && bool_decide (counted w = None) then
        mk_system (store sys) (<[k := sweep_begin (store sys) stale agent reason]> (sweeps sys))
      else sys
    | None => sys
    end
  | SweepLook k =>
    match sweeps sys !! k with
    | Some w =>
      if bool_decide (counted w = None) then
        let '(st, w) := sweep_look (store sys) w in mk_system st (<[k := w]> (sweeps sys))
      else sys
    | None => sys
    end
  | SweepDo k =>
    match sweeps sys !! k with
    | Some w => let '(st, w) := sweep_do (store sys) w in mk_system st (<[k := w]> (sweeps sys))
    | None => sys
    end
  | _ => mk_system (store_step (store sys) a) (sweeps sys)
  end.

Definition empty_store : Store := mk_store ∅ [] 1 ∅ ∅ [] [] 0.
(** The replicas, each with its sweeper. *)
Definition booted (replicas : list Z) : System := mk_system empty_store (list_to_map ((λ k, (k, idle)) <$> replicas)).
Definition srun (replicas : list Z) (acts : list SAction) : System := foldl sact (booted replicas) acts.

(** The tokens drawn for leases. *)
Definition drawn (acts : list SAction) : list Z := omap (λ a, match a with Acquire _ _ _ t => Some t | _ => None end) acts.

(** ** What a step leaves *)

Lemma set_status_where_spec st s ok status :
  let st' := (set_status_where st s ok status).1 in
  lrows st' = lrows st ∧ erows st' = erows st ∧ cursors st' = cursors st ∧ now st' = now st.
Proof. unfold set_status_where. repeat case_match; done. Qed.

(** What [write_event] writes. *)
Record written (st : Store) (s : Z) (ty : string) (d : pyval) (st' : Store) : Prop := {
  written_leases : lrows st' = lrows st;
  written_cursors : cursors st' = cursors st;
  written_now : now st' = now st;
  written_event : erows st' = erows st ++ [mk_erow (next_event st) s ty d (now st)];
  written_row : ∃ r r', srows st !! s = Some r ∧ srows st' = <[s := r']> (srows st) ∧
    ∃ r1, counter_update ty d (now st) r = Some r1 ∧
      message_count r' = message_count r1 ∧ tool_call_count r' = tool_call_count r1 ∧
      s_input_tokens r' = s_input_tokens r1 ∧ s_output_tokens r' = s_output_tokens r1
}.

Lemma counter_update_delta d at_ r r1 :
  counter_update "llm.delta" d at_ r = Some r1 →
  message_count r = message_count r1 ∧ tool_call_count r = tool_call_count r1 ∧
  s_input_tokens r = s_input_tokens r1 ∧ s_output_tokens r = s_output_tokens r1.
Proof. unfold counter_update. csimpl. intros [= <-]. csimpl. lia. Qed.

Lemma write_event_spec st s ty d status st' : write_event st s ty d status = Ok st' → written st s ty d st'.
Proof.
  unfold write_event. destruct (srows st !! s) as [r|] eqn:Hr; [|done].
  destruct (counter_update ty d (now st) r) as [r1|] eqn:Hc; [|done]. cbv zeta.
  set (r2 := match status with Some _ => _ | None => r1 end). intros [= <-]. split; try done.
  assert (H2 : message_count r2 = message_count r1 ∧ tool_call_count r2 = tool_call_count r1 ∧
               s_input_tokens r2 = s_input_tokens r1 ∧ s_output_tokens r2 = s_output_tokens r1).
  { unfold r2. destruct status; [|done]. by destruct (String.eqb (s_status r) "archived"). }
  eexists r, _. split; [done|]. split; [done|]. exists r1. split; [done|].
  destruct (String.eqb ty "llm.delta" && _) eqn:Hd; [|done]. apply andb_true_iff in Hd as [->%String.eqb_eq _].
  by apply counter_update_delta in Hc.
Qed.

Lemma emit_event_spec st s ty d t status st' : emit_event st s ty d t status = Ok st' →
  written st s ty d st' ∧ match t with Some t => holds st s t = true | None => True end.
Proof.
  unfold emit_event. destruct t as [t|]; [|by intros ?%write_event_spec].
  destruct (holds st s t); [|done]. by intros ?%write_event_spec.
Qed.

(** A step that leaves the leases and appends nothing, or at most one event that
    is no recovery. *)
Definition quiet (st st' : Store) : Prop := lrows st' = lrows st ∧ now st' = now st ∧ erows st' = erows st.
Definition plain (st st' : Store) : Prop :=
  lrows st' = lrows st ∧ now st' = now st ∧
  (erows st' = erows st ∨ ∃ e, e_type e ≠ "harness.recovered" ∧ erows st' = erows st ++ [e]).

Lemma quiet_plain st st' : quiet st st' → plain st st'.
Proof. intros (? & ? & ?). split_and!; [done|done|by left]. Qed.
Lemma quiet_then_plain st1 st2 st3 : quiet st1 st2 → plain st2 st3 → plain st1 st3.
Proof. intros (Hl & Hn & He) (Hl' & Hn' & He'). rewrite Hl, Hn, He in *. done. Qed.
Lemma quiet_refl st : quiet st st.
Proof. done. Qed.
Lemma quiet_status st s ok status : quiet st (set_status_where st s ok status).1.
Proof. destruct (set_status_where_spec st s ok status) as (? & ? & _ & ?). done. Qed.
Lemma plain_write st s ty d status st' :
  ty ≠ "harness.recovered" → write_event st s ty d status = Ok st' → plain st st'.
Proof. intros Hty [Hl _ Hn He _]%write_event_spec. split_and!; [done|done|right; eexists; split; [|exact He]; exact Hty]. Qed.
Lemma plain_emit st s ty d t status st' :
  ty ≠ "harness.recovered" → emit_event st s ty d t status = Ok st' → plain st st'.
Proof. intros Hty [[Hl _ Hn He _] _]%emit_event_spec. split_and!; [done|done|right; eexists; split; [|exact He]; exact Hty]. Qed.

Lemma quiet_update_status st s status st' : update_session_status st s status = Ok st' → quiet st st'.
Proof.
  unfold update_session_status. pose proof (quiet_status st s (λ s, negb (String.eqb s "archived")) status) as Hq.
  destruct (set_status_where _ _ _ _) as [st1 []]; csimpl in *; [by intros [= <-]|].
  destruct (srows st !! s); [by intros [= <-] | done].
Qed.

(** A status set where it may be, and the event that says so. *)
Lemma plain_status_event st s ok status ty d {A} (f : Store → A) (g : A → Store) (x : Store → A) :
  ty ≠ "harness.recovered" → (∀ st', g (f st') = st') → (∀ st', g (x st') = st') →
  plain st (match (let '(st1, matched) := set_status_where st s ok status in
                   if matched then pybind (write_event st1 s ty d None) (λ st2, Ok (f st2)) else Ok (x st1)) with
            | Ok p => g p
            | Raise _ => st
            end).
Proof.
  intros Hty Hf Hx. pose proof (quiet_status st s ok status) as Hq.
  destruct (set_status_where st s ok status) as [st1 []]; csimpl in *; [|rewrite Hx; by apply quiet_plain].
  destruct (write_event st1 s ty d None) as [st2|] eqn:Hw; csimpl; [|by apply quiet_plain].
  rewrite Hf. eapply quiet_then_plain; [done|]. by eapply plain_write.
Qed.

Lemma quiet_with_session {A} st s (k : SRow → pyres SError (Store * A)) :
  (∀ r, quiet st (first_of st (k r))) → quiet st (first_of st (with_session st s k)).
Proof. intros Hk. unfold with_session. destruct (srows st !! s); [apply Hk | done]. Qed.

Definition lease_step (a : SAction) : bool :=
  match a with Acquire _ _ _ _ | Renew _ _ _ | Release _ _ | Elapse _ => true | _ => false end.

Lemma plain_step st a : lease_step a = false → plain st (store_step st a).
Proof.
  intros Ha. destruct a; csimpl; try done; try (by apply quiet_plain).
  - destruct (srows st !! session); by apply quiet_plain.
  - destruct (String.eqb_spec etype "harness.recovered"); [by apply quiet_plain|].
    destruct (emit_event _ _ _ _ _ _) as [st'|] eqn:He; csimpl; [by eapply plain_emit | by apply quiet_plain].
  - unfold first_of, advance_harness_cursor. destruct (holds st session token); [|by apply quiet_plain].
    destruct rests_with as [d|]; [|by apply quiet_plain].
    set (st1 := put_cursors st _).
    pose proof (plain_status_event st1 session (λ s, String.eqb s "active") "completed" "session.complete" d
                  (λ st, (st, true)) fst (λ st, (st, false))) as Hp.
    destruct (let '(st1, m) := set_status_where st1 session _ _ in _) as [[st2 b]|]; [by apply Hp | by apply quiet_plain].
  - destruct (update_session_status st session status) eqn:Hu; csimpl; [|by apply quiet_plain].
    apply quiet_plain. by eapply quiet_update_status.
  - unfold first_of, pause_if_active.
    pose proof (plain_status_event st session (λ s, String.eqb s "active") "paused" "session.pause" data
                  (λ st, (st, true)) fst (λ st, (st, false))) as Hp.
    destruct (let '(st1, m) := set_status_where st session _ _ in _) as [[st2 b]|]; [by apply Hp | by apply quiet_plain].
  - unfold resume_session. destruct (update_session_status st session "active") as [st1|] eqn:Hu; csimpl; [|by apply quiet_plain].
    apply quiet_update_status in Hu.
    destruct (write_event st1 _ _ _ _) as [st2|] eqn:He; csimpl; [|by apply quiet_plain].
    eapply quiet_then_plain; [done|]. eapply plain_write; [|exact He]. done.
  - apply quiet_plain. unfold update_session_config_key. destruct (str_truthy key); [|done]. by apply quiet_with_session.
  - apply quiet_plain. unfold append_session_config_list. destruct (str_truthy key); [|done]. by apply quiet_with_session.
  - apply quiet_plain. unfold pop_session_config_key. destruct (str_truthy key); [|done]. apply quiet_with_session.
    intros r. by destruct (dict_get key (s_config r)).
Qed.

(** ** Leases and their tokens *)

Lemma quiet_release_stale st s : now (release_stale_lease st s).1 = now st ∧ erows (release_stale_lease st s).1 = erows st ∧
  ∀ s', lrows (release_stale_lease st s).1 !! s' = lrows st !! s' ∨
        (lrows (release_stale_lease st s).1 !! s' = None ∧ ∃ l, lrows st !! s' = Some l ∧ (l_expires l < now st)%Z).
Proof.
  unfold release_stale_lease. destruct (lrows st !! s) as [l|] eqn:Hl; [|by auto].
  destruct (Z.ltb_spec (l_expires l) (now st)); [|by auto]. csimpl. split_and!; [done|done|]. intros s'.
  destruct (decide (s = s')) as [<-|]; [right | left; by rewrite lookup_delete_ne]. rewrite lookup_delete_eq. eauto.
Qed.

(** A lease goes from a session's row to none only where it had run out. *)
Definition leases_kept (st st' : Store) : Prop :=
  now st' = now st ∧
  ∀ s, lrows st' !! s = lrows st !! s ∨
       (lrows st' !! s = None ∧ ∃ l, lrows st !! s = Some l ∧ (l_expires l < now st)%Z).

Lemma leases_kept_plain st st' : plain st st' → leases_kept st st'.
Proof. intros (Hl & Hn & _). split; [done|]. intros s. left. by rewrite Hl. Qed.
Lemma leases_kept_trans_plain st1 st2 st3 : leases_kept st1 st2 → plain st2 st3 → leases_kept st1 st3.
Proof. intros [Hn Hk] (Hl & Hn' & _). split; [congruence|]. intros s. rewrite Hl. apply Hk. Qed.
Lemma leases_kept_release_stale st s : leases_kept st (release_stale_lease st s).1.
Proof. destruct (quiet_release_stale st s) as (Hn & _ & Hk). split; [done|exact Hk]. Qed.

Lemma abandon_cases st s n why :
  leases_kept st (abandon_unrecoverable_session st s n why) ∧
  (erows (abandon_unrecoverable_session st s n why) = erows st ∨
   ∃ e, e_type e ≠ "harness.recovered" ∧ erows (abandon_unrecoverable_session st s n why) = erows st ++ [e]).
Proof.
  unfold abandon_unrecoverable_session. pose proof (leases_kept_release_stale st s) as Hk.
  pose proof (quiet_release_stale st s) as (_ & He & _). destruct (release_stale_lease st s) as [st1 b]. csimpl in *.
  unfold fail_if_active. pose proof (quiet_status st1 s (λ s, String.eqb s "active") "failed") as Hq.
  destruct (set_status_where st1 s _ _) as [st2 failed]. csimpl in Hq.
  assert (H2 : leases_kept st st2) by (eapply leases_kept_trans_plain; [done|by apply quiet_plain]).
  destruct Hq as (_ & _ & He2). destruct failed; [|rewrite He2, He; by auto]. unfold or_unchanged.
  destruct (write_event st2 _ _ _ _) as [st3|] eqn:Hemit; [|rewrite He2, He; by auto].
  apply plain_write in Hemit; [|done]. split; [by eapply leases_kept_trans_plain|].
  destruct Hemit as (_ & _ & He3). rewrite He2, He in He3. done.
Qed.

Lemma recover_cases st s stale_ why :
  let st' := recover_session st s stale_ why in
  leases_kept st st' ∧ (erows st' = erows st ∨ ∃ e, e_session e = s ∧ erows st' = erows st ++ [e]).
Proof.
  cbv zeta. unfold recover_session. destruct (emit_event _ _ _ _ _ _) as [st1|] eqn:He; [|by split; [apply leases_kept_plain, quiet_plain|left]].
  apply emit_event_spec in He as [[Hl _ Hn He _] _]. csimpl.
  pose proof (leases_kept_release_stale st1 s) as [Hn1 Hk1]. destruct (quiet_release_stale st1 s) as (_ & He1 & _).
  split.
  - split; csimpl; [congruence|]. intros s'. rewrite Hl, Hn in Hk1. apply Hk1.
  - right. eexists. csimpl. rewrite He1, He. by split; [|done].
Qed.

Lemma sweep_step_leases sys a :
  match a with SweepBegin _ _ _ _ | SweepLook _ | SweepDo _ => True | _ => False end →
  leases_kept (store sys) (store (sact sys a)).
Proof.
  assert (Hrefl : ∀ st, leases_kept st st) by (intros; by apply leases_kept_plain, quiet_plain).
  intros Ha. destruct a; csimpl; try done; destruct (sweeps sys !! k) as [w|]; try apply Hrefl.
  - destruct (bool_decide _ && bool_decide _); apply Hrefl.
  - destruct (bool_decide _); [|apply Hrefl]. unfold sweep_look. destruct (left_ w) as [|s rest]; [apply Hrefl|].
    destruct (match srows (store sys) !! s with Some _ => _ | None => _ end); [apply Hrefl|].
    destruct (bool_decide (s ∈ waiting w)); [|apply Hrefl]. csimpl. apply leases_kept_plain, quiet_plain, quiet_status.
  - unfold sweep_do. destruct (counted w) as [[s n]|]; [|apply Hrefl]. csimpl.
    destruct (_ <=? _)%Z; [apply abandon_cases | apply recover_cases].
Qed.

Lemma holds_kept st st' s t : leases_kept st st' → holds st s t = false → holds st' s t = false.
Proof. intros [_ Hk] Hh. unfold holds in *. destruct (Hk s) as [->|[-> _]]; done. Qed.

(** A token not held is held again only if it is drawn. *)
Lemma holds_step sys a s t :
  t ∉ drawn [a] → holds (store sys) s t = false → holds (store (sact sys a)) s t = false.
Proof.
  intros Ht Hh. destruct (lease_step a) eqn:Hl.
  - destruct a; try done; csimpl in *; unfold holds, first_of, or_unchanged in *.
    + unfold try_acquire_lease. rewrite not_elem_of_cons in Ht. destruct Ht as [Hne _].
      set (l := mk_lrow _ _ _). assert (Hins : match (<[session := l]> (lrows (store sys))) !! s with
        Some l => (l_token l =? t)%Z | None => false end = false).
      { destruct (decide (session = s)) as [<-|]; [rewrite lookup_insert_eq; csimpl; by apply Z.eqb_neq|].
        by rewrite lookup_insert_ne. }
      destruct (lrows (store sys) !! session) as [old|]; [destruct (_ <? _)%Z|]; done.
    + unfold renew_lease. destruct (lrows (store sys) !! session) as [l|] eqn:Hls; [|done].
      destruct (Z.eqb_spec (l_token l) token) as [<-|]; [|done]. csimpl.
      destruct (decide (session = s)) as [<-|]; [rewrite lookup_insert_eq; by rewrite Hls in Hh | by rewrite lookup_insert_ne].
    + unfold release_lease. destruct (holds (store sys) session token); [|done]. csimpl.
      destruct (decide (session = s)) as [<-|]; [by rewrite lookup_delete_eq | by rewrite lookup_delete_ne].
  - destruct (match a with SweepBegin _ _ _ _ | SweepLook _ | SweepDo _ => true | _ => false end) eqn:Hsw.
    + eapply holds_kept; [|done]. apply sweep_step_leases. by destruct a.
    + assert (Heq : store (sact sys a) = store_step (store sys) a) by (by destruct a). rewrite Heq.
      eapply holds_kept; [|done]. by apply leases_kept_plain, plain_step.
Qed.

Lemma drawn_app acts1 acts2 : drawn (acts1 ++ acts2) = drawn acts1 ++ drawn acts2.
Proof. apply omap_app. Qed.

Lemma holds_steps acts sys s t :
  t ∉ drawn acts → holds (store sys) s t = false → holds (store (foldl sact sys acts)) s t = false.
Proof.
  revert sys. induction acts as [|a acts IH]; intros sys Ht Hh; [done|]. csimpl.
  change (a :: acts) with ([a] ++ acts) in Ht. rewrite drawn_app, not_elem_of_app in Ht. destruct Ht as [Ha Ht].
  apply IH; [done|]. by apply holds_step.
Qed.

Lemma live_lease_spec st s t :
  live_lease_token st s = Some t ↔ ∃ l, lrows st !! s = Some l ∧ l_token l = t ∧ (now st < l_expires l)%Z.
Proof.
  unfold live_lease_token, lease_live. destruct (lrows st !! s) as [l|]; [|naive_solver].
  destruct (Z.ltb_spec (now st) (l_expires l)); naive_solver lia.
Qed.

Lemma live_kept st st' s t : leases_kept st st' → live_lease_token st s = Some t → live_lease_token st' s = Some t.
Proof.
  rewrite !live_lease_spec. intros [Hn Hk] (l & Hl & Ht & Hlt). exists l. rewrite Hn. destruct (Hk s) as [->|(_ & l' & Hl' & Hlt')];
    [done|]. rewrite Hl in Hl'. injection Hl' as <-. lia.
Qed.

(** While a lease is live only its holder, or time, ends it. *)
Lemma live_lease_step sys a s t :
  live_lease_token (store sys) s = Some t →
  match a with Release s' t' | Renew s' t' _ => s' ≠ s ∨ t' ≠ t | Elapse _ => False | _ => True end →
  live_lease_token (store (sact sys a)) s = Some t.
Proof.
  intros Hlive Ha. destruct (lease_step a) eqn:Hls.
  - apply live_lease_spec in Hlive as (l & Hl & Ht & Hlt). apply live_lease_spec.
    destruct a; try done; csimpl in *; unfold first_of, or_unchanged.
    + unfold try_acquire_lease. destruct (decide (session = s)) as [->|Hne].
      * rewrite Hl. destruct (Z.ltb_spec (l_expires l) (now (store sys))); [lia|]. by exists l.
      * destruct (lrows (store sys) !! session); [destruct (_ <? _)%Z|]; csimpl; exists l;
          rewrite ?lookup_insert_ne by done; done.
    + unfold renew_lease. destruct (lrows (store sys) !! session) as [l'|] eqn:Hl'; [|by exists l].
      destruct (Z.eqb_spec (l_token l') token); [|by exists l]. csimpl. exists l.
      destruct (decide (session = s)) as [->|]; [|by rewrite lookup_insert_ne]. simplify_eq. by destruct Ha.
    + unfold release_lease, holds. destruct (lrows (store sys) !! session) as [l'|] eqn:Hl'; [|by exists l].
      destruct (Z.eqb_spec (l_token l') token); [|by exists l]. csimpl. exists l.
      destruct (decide (session = s)) as [->|]; [|by rewrite lookup_delete_ne]. simplify_eq. by destruct Ha.
  - eapply live_kept; [|done]. destruct (match a with SweepBegin _ _ _ _ | SweepLook _ | SweepDo _ => true | _ => false end) eqn:Hsw.
    + apply sweep_step_leases. by destruct a.
    + assert (Heq : store (sact sys a) = store_step (store sys) a) by (by destruct a). rewrite Heq.
      by apply leases_kept_plain, plain_step.
Qed.

(** ** Recoveries *)

Definition is_progress (e : ERow) : bool := bool_decide (e_type e ∈ progress_types).
Definition recoveries (es : list ERow) : Z := Z.of_nat (length (filter (λ e, e_type e = "harness.recovered") (since_progress es))).

Lemma since_progress_snoc es e :
  since_progress (es ++ [e]) = if is_progress e then [] else since_progress es ++ [e].
Proof.
  induction es as [|e' es IH].
  - csimpl. rewrite orb_false_r. unfold is_progress. by destruct (bool_decide _).
  - change ((e' :: es) ++ [e]) with (e' :: (es ++ [e])). cbn [since_progress].
    change (e' :: es ++ [e]) with ((e' :: es) ++ [e]). rewrite existsb_app. cbn [existsb]. rewrite orb_false_r. rewrite IH.
    unfold is_progress. destruct (bool_decide (e_type e ∈ progress_types)); [by rewrite orb_true_r|].
    rewrite orb_false_r. by destruct (bool_decide (e_type e' ∈ progress_types) || existsb _ es).
Qed.

Lemma recoveries_snoc es e :
  (recoveries (es ++ [e]) <= recoveries es + (if String.eqb (e_type e) "harness.recovered" then 1 else 0))%Z.
Proof.
  unfold recoveries. rewrite since_progress_snoc. destruct (is_progress e); [csimpl; case_match; lia|].
  rewrite filter_app, length_app. unfold filter at 2. csimpl. destruct (String.eqb_spec (e_type e) "harness.recovered");
    case_decide; csimpl; try done; lia.
Qed.

(** The recoveries of a session, after a step's event. *)
Lemma recoveries_event st st' s :
  (erows st' = erows st ∨ ∃ e, e_type e ≠ "harness.recovered" ∧ erows st' = erows st ++ [e]) →
  (count_recoveries_since_progress st' s <= count_recoveries_since_progress st s)%Z.
Proof.
  unfold count_recoveries_since_progress, session_events. intros [-> | (e & He & ->)]; [done|].
  rewrite filter_app. unfold filter at 3. csimpl. case_decide; [|by rewrite app_nil_r].
  etrans; [apply recoveries_snoc|]. destruct (String.eqb_spec (e_type e) "harness.recovered"); [done|]. unfold recoveries. lia.
Qed.
Lemma recoveries_recovered st st' s s' :
  (erows st' = erows st ∨ ∃ e, e_session e = s ∧ erows st' = erows st ++ [e]) →
  (count_recoveries_since_progress st' s' <= count_recoveries_since_progress st s' + (if decide (s = s') then 1 else 0))%Z.
Proof.
  unfold count_recoveries_since_progress, session_events. intros [-> | (e & He & ->)]; [case_decide; lia|].
  rewrite filter_app. unfold filter at 3. csimpl. rewrite He. case_decide; [|rewrite app_nil_r; lia].
  etrans; [apply recoveries_snoc|]. unfold recoveries. case_match; lia.
Qed.

(** A sweeper about to recover [s]. *)
Definition pends (s : Z) (w : Sweep) : bool :=
  match counted w with Some (s', n) => bool_decide (s' = s) && (n <? MAX_RECOVERY_ATTEMPTS)%Z | None => false end.
Definition pending_on (s : Z) (m : gmap Z Sweep) : nat := size (filter (λ p, pends s p.2) m).

Lemma pending_on_insert s m k w : m !! k = None → pending_on s (<[k := w]> m) = (if pends s w then 1 else 0) + pending_on s m.
Proof.
  intros Hk. unfold pending_on. destruct (pends s w) eqn:Hp.
  - rewrite map_filter_insert_True by (csimpl; by rewrite Hp). rewrite map_size_insert_None; [done|].
    apply map_lookup_filter_None. by left.
  - rewrite map_filter_insert_not'; [done | csimpl; rewrite Hp; exact (λ x, x) | intros y Hy; by rewrite Hk in Hy].
Qed.

Lemma pending_on_update s m k w w' :
  m !! k = Some w →
  (pending_on s (<[k := w']> m) + (if pends s w then 1 else 0) = pending_on s m + (if pends s w' then 1 else 0))%nat.
Proof.
  intros Hk. rewrite <- (insert_delete_id m k w Hk) at 2. rewrite <- insert_delete_eq.
  rewrite !pending_on_insert by apply lookup_delete_eq. lia.
Qed.

Lemma pending_on_size s m : (pending_on s m <= size m)%nat.
Proof. unfold pending_on. apply map_subseteq_size, map_filter_subseteq. Qed.

Definition recovery_inv (n : nat) (sys : System) : Prop :=
  size (sweeps sys) = n ∧
  ∀ s, (count_recoveries_since_progress (store sys) s + Z.of_nat (pending_on s (sweeps sys)) <= 2 + Z.of_nat n)%Z.

Lemma sweep_replace sys st' k w w' n :
  recovery_inv n sys → sweeps sys !! k = Some w →
  (∀ s, (count_recoveries_since_progress st' s + (if pends s w' then 1 else 0) <=
         count_recoveries_since_progress (store sys) s + (if pends s w then 1 else 0))%Z ∨
        (count_recoveries_since_progress st' s < MAX_RECOVERY_ATTEMPTS)%Z) →
  recovery_inv n (mk_system st' (<[k := w']> (sweeps sys))).
Proof.
  intros [Hn Hb] Hk Hs. split; csimpl; [by rewrite map_size_insert_Some by (by rewrite Hk)|]. intros s.
  pose proof (pending_on_update s (sweeps sys) k w w' Hk) as Hp. specialize (Hb s).
  pose proof (pending_on_size s (<[k := w']> (sweeps sys))) as Hsz.
  rewrite map_size_insert_Some in Hsz by (by rewrite Hk). unfold MAX_RECOVERY_ATTEMPTS in *.
  destruct (Hs s) as [H|H]; [|lia]. destruct (pends s w), (pends s w'); lia.
Qed.

Lemma recoveries_plain st st' s : plain st st' →
  (count_recoveries_since_progress st' s <= count_recoveries_since_progress st s)%Z.
Proof. intros (_ & _ & He). by apply recoveries_event. Qed.

Lemma recoveries_lease_step st a s : lease_step a = true →
  count_recoveries_since_progress (store_step st a) s = count_recoveries_since_progress st s.
Proof.
  intros Ha. destruct a; try done; csimpl; unfold first_of, or_unchanged, try_acquire_lease, renew_lease, release_lease;
    repeat case_match; simplify_eq; done.
Qed.

Lemma recovery_inv_step n sys a : recovery_inv n sys → recovery_inv n (sact sys a).
Proof.
  intros Hinv. destruct (match a with SweepBegin _ _ _ _ | SweepLook _ | SweepDo _ => true | _ => false end) eqn:Hsw.
  - destruct a; try done; csimpl; destruct (sweeps sys !! k) as [w|] eqn:Hk; try done.
    + destruct (bool_decide (left_ w = [])), (bool_decide (counted w = None)) eqn:Hc; try done. csimpl.
      apply (sweep_replace _ _ _ w); [done|done|]. intros s. left. apply bool_decide_eq_true in Hc.
      unfold pends, sweep_begin. csimpl. rewrite Hc. lia.
    + destruct (bool_decide (counted w = None)) eqn:Hc; [|done]. apply bool_decide_eq_true in Hc.
      destruct (sweep_look (store sys) w) as [st' w'] eqn:Hlook. apply (sweep_replace _ _ _ w); [done|done|]. intros s.
      unfold sweep_look in Hlook. unfold pends at 2. rewrite Hc. destruct (left_ w) as [|s' rest].
      { injection Hlook as <- <-. left. unfold pends. rewrite Hc. lia. }
      destruct (match srows (store sys) !! s' with Some _ => _ | None => _ end); [injection Hlook as <- <-; left; csimpl; lia|].
      destruct (bool_decide (s' ∈ waiting w)); injection Hlook as <- <-.
      * left. csimpl. pose proof (recoveries_plain (store sys) (touch_session (store sys) s') s) as H.
        specialize (H (quiet_plain _ _ (quiet_status _ _ _ _))). lia.
      * unfold pends. csimpl. case_bool_decide; csimpl; [subst s'|left; lia].
        destruct (Z.ltb_spec (count_recoveries_since_progress (store sys) s) MAX_RECOVERY_ATTEMPTS); [by right|left; lia].
    + destruct (sweep_do (store sys) w) as [st' w'] eqn:Hdo. apply (sweep_replace _ _ _ w); [done|done|]. intros s.
      unfold sweep_do in Hdo. unfold pends. destruct (counted w) as [[s' m]|] eqn:Hc; injection Hdo as <- <-;
        csimpl; [|rewrite Hc; left; lia].
      unfold MAX_RECOVERY_ATTEMPTS. destruct (Z.leb_spec 3 m).
      * left. destruct (abandon_cases (store sys) s' m (reason w)) as [_ He].
        pose proof (recoveries_event _ _ s He). case_match; lia.
      * left. destruct (recover_cases (store sys) s' (stale w) (reason w)) as [_ He].
        pose proof (recoveries_recovered _ _ _ s He). destruct (Z.ltb_spec m 3); [|lia].
        destruct (decide (s' = s)); case_bool_decide; csimpl; try done; lia.
  - assert (Heq : sact sys a = mk_system (store_step (store sys) a) (sweeps sys)) by (by destruct a). rewrite Heq.
    destruct Hinv as [Hn Hb]. split; csimpl; [done|]. intros s. specialize (Hb s). destruct (lease_step a) eqn:Hls.
    + by rewrite recoveries_lease_step.
    + pose proof (recoveries_plain _ _ s (plain_step (store sys) a Hls)). lia.
Qed.

Lemma recovery_inv_run replicas acts : NoDup replicas → recovery_inv (length replicas) (srun replicas acts).
Proof.
  intros Hnd. unfold srun. assert (H0 : recovery_inv (length replicas) (booted replicas)).
  { unfold booted. split; csimpl.
    - rewrite map_size_list_to_map; [by rewrite length_fmap|]. rewrite <- list_fmap_compose. csimpl.
      by rewrite list_fmap_id.
    - intros s. unfold pending_on. assert (Hf : filter (λ p : Z * Sweep, pends s p.2) (list_to_map ((λ k, (k, idle)) <$> replicas) : gmap Z Sweep) = ∅).
      { apply map_empty. intros k. apply map_lookup_filter_None. right. intros w Hw. apply elem_of_list_to_map_2 in Hw.
        apply list_elem_of_fmap in Hw as (? & [= -> ->] & _). by intros ?. }
      rewrite Hf, map_size_empty. unfold count_recoveries_since_progress, session_events. csimpl. lia. }
  revert H0. generalize (booted replicas). induction acts as [|a acts IH]; intros sys Hsys; [done|]. csimpl.
  apply IH. by apply recovery_inv_step.
Qed.

(** ** Counters *)

(** What a session's log says of its counters. *)
Definition event_tally (e : ERow) : Z * Z * Z * Z :=
  if String.eqb (e_type e) "user.message" then (1, 0, 0, 0)%Z
  else if String.eqb (e_type e) "tool.call" then (0, 1, 0, 0)%Z
  else if String.eqb (e_type e) "llm.response" then
    (0, 0, default 0 (int_field (e_data e) "input_tokens"), default 0 (int_field (e_data e) "output_tokens"))%Z
  else (0, 0, 0, 0)%Z.
Definition tally_add (x y : Z * Z * Z * Z) : Z * Z * Z * Z :=
  (x.1.1.1 + y.1.1.1, x.1.1.2 + y.1.1.2, x.1.2 + y.1.2, x.2 + y.2)%Z.
Definition log_tally (es : list ERow) : Z * Z * Z * Z := foldl (λ acc e, tally_add acc (event_tally e)) (0, 0, 0, 0)%Z es.
Definition row_tally (r : SRow) : Z * Z * Z * Z := (message_count r, tool_call_count r, s_input_tokens r, s_output_tokens r).

Definition counters_ok (st : Store) : Prop :=
  ∀ s, match srows st !! s with
       | Some r => row_tally r = log_tally (session_events st s)
       | None => session_events st s = []
       end.
Definition keeps_counters (st st' : Store) : Prop := counters_ok st → counters_ok st'.

Lemma keeps_counters_refl st : keeps_counters st st.
Proof. exact (λ H, H). Qed.
#[local] Hint Resolve keeps_counters_refl : core.

Lemma counters_same st st' :
  erows st' = erows st → (∀ s, row_tally <$> srows st' !! s = row_tally <$> srows st !! s) → keeps_counters st st'.
Proof.
  intros He Hs Hc s. specialize (Hc s). specialize (Hs s). unfold session_events in *. rewrite He.
  destruct (srows st' !! s) as [r'|], (srows st !! s) as [r|]; csimpl in *; try done. rewrite <- Hc. congruence.
Qed.

Lemma counter_update_tally ty d at_ r r1 at2 i s :
  counter_update ty d at_ r = Some r1 → row_tally r1 = tally_add (row_tally r) (event_tally (mk_erow i s ty d at2)).
Proof.
  unfold counter_update, event_tally, row_tally, tally_add. csimpl. repeat case_match; intros; simplify_eq; csimpl;
    f_equal; f_equal; f_equal; lia.
Qed.

Lemma counters_written st s ty d st' : written st s ty d st' → keeps_counters st st'.
Proof.
  intros [_ _ _ He (r & r' & Hr & Hrows & r1 & Hc & Hm & Ht & Hi & Ho)] Hok s'. specialize (Hok s').
  unfold session_events in *. rewrite He, Hrows, filter_app. unfold filter at 2 4. csimpl.
  assert (Htally : row_tally r' = row_tally r1) by (unfold row_tally; congruence).
  destruct (decide (s = s')) as [<-|Hne].
  - rewrite lookup_insert_eq. rewrite Hr in Hok. unfold log_tally in *. rewrite foldl_app. csimpl. rewrite <- Hok, Htally.
    by eapply counter_update_tally.
  - rewrite lookup_insert_ne, app_nil_r by done. exact Hok.
Qed.

Lemma counters_status st s ok status : keeps_counters st (set_status_where st s ok status).1.
Proof.
  apply counters_same; [apply quiet_status|]. intros s'. unfold set_status_where.
  destruct (srows st !! s) as [r|] eqn:Hr; [|done]. destruct (ok (s_status r)); [|done]. csimpl.
  destruct (decide (s = s')) as [<-|]; [by rewrite lookup_insert_eq, Hr | by rewrite lookup_insert_ne].
Qed.

Lemma counters_update_status st s status st' : update_session_status st s status = Ok st' → keeps_counters st st'.
Proof.
  unfold update_session_status. pose proof (counters_status st s (λ s, negb (String.eqb s "archived")) status) as Hq.
  destruct (set_status_where _ _ _ _) as [st1 []]; csimpl in *; [intros [= <-]; exact Hq|].
  destruct (srows st !! s); [intros [= <-]; exact (λ H, H) | done].
Qed.

Lemma counters_write st s ty d status st' : write_event st s ty d status = Ok st' → keeps_counters st st'.
Proof. intros H%write_event_spec. by eapply counters_written. Qed.

(** A status set where it may be, and the event that says so. *)
Lemma counters_status_event st s ok status ty d {A} (f : Store → A) (g : A → Store) (x : Store → A) :
  (∀ st', g (f st') = st') → (∀ st', g (x st') = st') →
  keeps_counters st (match (let '(st1, matched) := set_status_where st s ok status in
                   if matched then pybind (write_event st1 s ty d None) (λ st2, Ok (f st2)) else Ok (x st1)) with
            | Ok p => g p
            | Raise _ => st
            end).
Proof.
  intros Hf Hx Hok. pose proof (counters_status st s ok status Hok) as Hq.
  destruct (set_status_where st s ok status) as [st1 []]; csimpl in *; [|by rewrite Hx].
  destruct (write_event st1 s ty d None) as [st2|] eqn:Hw; csimpl; [|done].
  rewrite Hf. by eapply counters_write.
Qed.

Lemma counters_config {A} st s (k : SRow → pyres SError (Store * A)) :
  (∀ r, srows st !! s = Some r → keeps_counters st (first_of st (k r))) → keeps_counters st (first_of st (with_session st s k)).
Proof. intros Hk. unfold with_session. destruct (srows st !! s) eqn:Hr; [by apply Hk | done]. Qed.

Lemma counters_write_config st s r c : srows st !! s = Some r → keeps_counters st (write_config st s r c).
Proof.
  intros Hr. apply counters_same; [done|]. intros s'. csimpl.
  destruct (decide (s = s')) as [<-|]; [by rewrite lookup_insert_eq, Hr | by rewrite lookup_insert_ne].
Qed.

Lemma counters_release_stale st s : keeps_counters st (release_stale_lease st s).1.
Proof. unfold release_stale_lease. repeat case_match; by apply counters_same. Qed.

Lemma counters_store_step st a : keeps_counters st (store_step st a).
Proof.
  destruct a; csimpl; try (by apply counters_same).
  - intros Hok. destruct (srows st !! session) as [r|] eqn:Hr; [done|]. intros s. specialize (Hok s). csimpl.
    destruct (decide (session = s)) as [<-|Hne]; [|by rewrite lookup_insert_ne]. rewrite lookup_insert_eq. rewrite Hr in Hok.
    unfold session_events in *. csimpl. by rewrite Hok.
  - apply counters_same; unfold try_acquire_lease; repeat case_match; done.
  - apply counters_same; unfold first_of, renew_lease; repeat case_match; simplify_eq; done.
  - apply counters_same; unfold or_unchanged, release_lease; repeat case_match; simplify_eq; done.
  - destruct (String.eqb_spec etype "harness.recovered"); [done|].
    destruct (emit_event _ _ _ _ _ _) as [st'|] eqn:He; csimpl; [|done].
    apply emit_event_spec in He as [He _]. by eapply counters_written.
  - unfold first_of, advance_harness_cursor. destruct (holds st session token); [|done].
    set (st1 := put_cursors st _). intros Hok. assert (Hok1 : counters_ok st1) by exact Hok.
    destruct rests_with as [d|]; [|exact Hok1].
    pose proof (counters_status_event st1 session (λ s, String.eqb s "active") "completed" "session.complete" d
                  (λ st, (st, true)) fst (λ st, (st, false)) (λ _, eq_refl) (λ _, eq_refl) Hok1) as Hp.
    destruct (let '(st1, m) := set_status_where st1 session _ _ in _) as [[st2 b]|]; [exact Hp|exact Hok].
  - destruct (update_session_status st session status) eqn:Hu; csimpl; [|done]. by eapply counters_update_status.
  - apply (counters_status_event st session (λ s, String.eqb s "active") "paused" "session.pause" data
                  (λ st, (st, true)) fst (λ st, (st, false))); done.
  - unfold resume_session. destruct (update_session_status st session "active") as [st1|] eqn:Hu; csimpl; [|done].
    intros Hok. apply counters_update_status in Hu. specialize (Hu Hok).
    destruct (write_event st1 _ _ _ _) as [st2|] eqn:He; csimpl; [|done]. by eapply counters_write.
  - unfold update_session_config_key. destruct (str_truthy key); [|done]. apply counters_config. intros r Hr.
    by apply counters_write_config.
  - unfold append_session_config_list. destruct (str_truthy key); [|done]. apply counters_config. intros r Hr.
    by apply counters_write_config.
  - unfold pop_session_config_key. destruct (str_truthy key); [|done]. apply counters_config. intros r Hr.
    destruct (dict_get key (s_config r)); [by apply counters_write_config | done].
Qed.

Lemma counters_abandon st s n why : keeps_counters st (abandon_unrecoverable_session st s n why).
Proof.
  unfold abandon_unrecoverable_session. intros Hok. pose proof (counters_release_stale st s Hok) as H1.
  destruct (release_stale_lease st s) as [st1 b]. csimpl in *. unfold fail_if_active.
  pose proof (counters_status st1 s (λ s, String.eqb s "active") "failed" H1) as H2.
  destruct (set_status_where st1 s _ _) as [st2 failed]. csimpl in *. destruct failed; [|done]. unfold or_unchanged.
  destruct (write_event st2 _ _ _ _) as [st3|] eqn:Hw; [|done]. by eapply counters_write.
Qed.

Lemma counters_recover st s stale_ why : keeps_counters st (recover_session st s stale_ why).
Proof.
  unfold recover_session. csimpl. intros Hok. destruct (write_event st _ _ _ _) as [st1|] eqn:Hw; [|done].
  apply counters_write in Hw. specialize (Hw Hok). exact (counters_release_stale st1 s Hw).
Qed.

Lemma counters_step sys a : counters_ok (store sys) → counters_ok (store (sact sys a)).
Proof.
  intros Hok. destruct a; try (by apply counters_store_step); csimpl; destruct (sweeps sys !! k) as [w|]; try done.
  - by destruct (bool_decide _ && bool_decide _).
  - destruct (bool_decide (counted w = None)); [|done]. unfold sweep_look. destruct (left_ w) as [|s rest]; [done|].
    destruct (match srows (store sys) !! s with Some _ => _ | None => _ end); [done|].
    destruct (bool_decide (s ∈ waiting w)); [|done]. csimpl. by apply counters_status.
  - unfold sweep_do. destruct (counted w) as [[s n]|]; [|done]. csimpl.
    destruct (_ <=? _)%Z; [by apply counters_abandon | by apply counters_recover].
Qed.

Lemma counters_booted replicas : counters_ok (store (booted replicas)).
Proof. intros s. done. Qed.
Lemma counters_run acts sys : counters_ok (store sys) → counters_ok (store (foldl sact sys acts)).
Proof.
  revert sys. induction acts as [|a acts IH]; intros sys Hsys; [exact Hsys|]. apply IH. by apply counters_step.
Qed.

(** ** What the store promises *)

(** C16. What a worker that has lost a session writes under its lease is
    refused: where every lease draws a token of its own, one that was drawn
    and is no longer held is refused, whatever happens after, by every write
    that names it, the events emitted with it and the cursor among them; and a
    live lease is ended only by its holder or by time. Writes that name no
    token are not held back: see [unfenced_still_written]. *)
Theorem lease_fencing replicas acts1 acts2 s t :
  NoDup (drawn (acts1 ++ acts2)) → t ∈ drawn acts1 → holds (store (srun replicas acts1)) s t = false →
  let st := store (srun replicas (acts1 ++ acts2)) in
  (∀ ty d status, emit_event st s ty d (Some t) status = Raise (LeaseNotHeldError s)) ∧
  (∀ i rests, advance_harness_cursor st s i t rests = Raise (LeaseNotHeldError s)) ∧
  (∀ ttl, renew_lease st s t ttl = Raise (LeaseNotHeldError s)) ∧
  release_lease st s t = Raise (LeaseNotHeldError s) ∧
  ∀ a t', live_lease_token st s = Some t' →
    match a with Release s' t0 | Renew s' t0 _ => s' ≠ s ∨ t0 ≠ t' | Elapse _ => False | _ => True end →
    live_lease_token (store (sact (srun replicas (acts1 ++ acts2)) a)) s = Some t'.
Proof.
  intros Hnd Ht Hh. cbv zeta. rewrite drawn_app in Hnd. apply NoDup_app in Hnd as (_ & Hnd & _).
  assert (Hst : holds (store (srun replicas (acts1 ++ acts2))) s t = false).
  { unfold srun. rewrite foldl_app. apply holds_steps; [by apply Hnd|exact Hh]. }
  set (sys := srun replicas (acts1 ++ acts2)) in *. unfold emit_event, advance_harness_cursor, release_lease. rewrite Hst.
  split_and!; [done|done| |done|].
  - intros ttl. unfold renew_lease. unfold holds in Hst. destruct (lrows (store sys) !! s); [|done]. by rewrite Hst.
  - intros a t' Hlive Ha. by apply live_lease_step.
Qed.

(** However the sweeps of the replicas interleave with each other and with
    everything else, a session that makes no progress is recovered at most
    twice and once for each of them; a sweeper that has counted three
    recoveries does not leave the session active. *)
Theorem recoveries_bounded replicas acts s :
  NoDup replicas →
  let sys := srun replicas acts in
  (count_recoveries_since_progress (store sys) s <= 2 + Z.of_nat (length replicas))%Z ∧
  ∀ k w n r, sweeps sys !! k = Some w → counted w = Some (s, n) → (MAX_RECOVERY_ATTEMPTS <= n)%Z →
    srows (store (sact sys (SweepDo k))) !! s = Some r → s_status r ≠ "active".
Proof.
  intros Hnd. cbv zeta. destruct (recovery_inv_run replicas acts Hnd) as [_ Hb].
  set (sys := srun replicas acts) in *. clearbody sys. specialize (Hb s). split; [lia|].
  intros k w n r Hw Hc Hn. csimpl. rewrite Hw. unfold sweep_do. rewrite Hc. destruct (Z.leb_spec MAX_RECOVERY_ATTEMPTS n); [|lia].
  csimpl. unfold abandon_unrecoverable_session. destruct (release_stale_lease (store sys) s) as [st1 b].
  unfold fail_if_active, set_status_where. csimpl. destruct (srows st1 !! s) as [r1|] eqn:Hr1; [|csimpl; rewrite Hr1; intros [=]].
  destruct (String.eqb_spec (s_status r1) "active") as [Ha|Ha]; [|csimpl; rewrite Hr1; by intros [= <-]].
  set (st2 := put_rows st1 _). unfold or_unchanged. csimpl.
  assert (H2 : srows st2 !! s = Some (with_row_status r1 "failed" (now st1))) by (csimpl; apply lookup_insert_eq).
  unfold write_event. rewrite H2. csimpl. rewrite lookup_insert_eq. intros [= <-]. csimpl. done.
Qed.

(** C17. The counters of every session's row are those of its log: its
    messages, its tool calls, and the tokens of its responses. *)
Theorem counters_match_log replicas acts s r :
  srows (store (srun replicas acts)) !! s = Some r →
  row_tally r = log_tally (session_events (store (srun replicas acts)) s).
Proof.
  intros Hr. pose proof (counters_run acts (booted replicas) (counters_booted replicas)) as Hok. fold (srun replicas acts) in Hok.
  specialize (Hok s). by rewrite Hr in Hok.
Qed.

(** ** On a concrete session *)

Definition ex_lost : list SAction :=
  [NewSession 1 "a" "web" []; Acquire 1 "w1" 30 10; Emit 1 "user.message" (VDict []) None None; Elapse 31;
   Acquire 1 "w2" 30 11].

Lemma lease_fencing_witness :
  holds (store (srun [0%Z] ex_lost)) 1 11 = true ∧
  emit_event (store (srun [0%Z] (ex_lost ++ [Emit 1 "tool.call" (VDict []) (Some 11%Z) None]))) 1 "llm.response" (VDict [])
    (Some 10%Z) None = Raise (LeaseNotHeldError 1).
Proof.
  split; [vm_compute; reflexivity|].
  apply (lease_fencing [0%Z] ex_lost [Emit 1 "tool.call" (VDict []) (Some 11%Z) None] 1 10).
  - vm_compute. repeat constructor; rewrite ?elem_of_cons, ?elem_of_nil; intros H; repeat destruct H as [H|H]; discriminate H || exact H.
  - vm_compute. left.
  - vm_compute. reflexivity.
Defined.

(** An event emitted with no token, as most of the harness's are, is written
    whoever has the session: after the lease of token 10 was lost to that of 11,
    the response of its worker is in the log. *)
Lemma unfenced_still_written :
  holds (store (srun [0%Z] ex_lost)) 1 10 = false ∧
  ∃ st, emit_event (store (srun [0%Z] ex_lost)) 1 "llm.response" (VDict []) None None = Ok st ∧
    last (erows st) = Some (mk_erow (next_event (store (srun [0%Z] ex_lost))) 1 "llm.response" (VDict []) (now (store (srun [0%Z] ex_lost)))).
Proof. split; [by vm_compute|]. eexists. split; [vm_compute; reflexivity|by vm_compute]. Qed.

(** Two sweepers that both counted two recoveries make four of three. *)
Definition ex_swept (k : Z) : list SAction := [Elapse 100; SweepBegin k 60 None "sweep"; SweepLook k; SweepDo k; Dequeue 1].
Definition ex_doubly_swept : list SAction :=
  [NewSession 1 "a" "web" []; Emit 1 "harness.wake" (VDict []) None None] ++ ex_swept 0 ++ ex_swept 0 ++
  [Elapse 100; SweepBegin 0 60 None "s"; SweepBegin 1 60 None "s"; SweepLook 0; SweepLook 1; SweepDo 0; SweepDo 1].

Lemma recoveries_bounded_witness :
  count_recoveries_since_progress (store (srun [0%Z; 1%Z] ex_doubly_swept)) 1 = 4%Z ∧
  (count_recoveries_since_progress (store (srun [0%Z; 1%Z] ex_doubly_swept)) 1 <= 2 + 2)%Z.
Proof.
  split; [vm_compute; reflexivity|]. apply (recoveries_bounded [0%Z; 1%Z] ex_doubly_swept 1).
  repeat constructor; rewrite ?elem_of_cons, ?elem_of_nil; intros H; repeat destruct H as [H|H]; discriminate H || exact H.
Defined.

Lemma counters_match_log_witness :
  ∃ r, srows (store (srun [] (ex_lost ++ [Emit 1 "llm.response" (VDict [("input_tokens", VInt 7)]) (Some 11%Z) None]))) !! 1%Z = Some r ∧
    s_input_tokens r = 7%Z ∧
    row_tally r = log_tally (session_events
      (store (srun [] (ex_lost ++ [Emit 1 "llm.response" (VDict [("input_tokens", VInt 7)]) (Some 11%Z) None]))) 1).
Proof.
  destruct (srows (store (srun [] (ex_lost ++ [Emit 1 "llm.response" (VDict [("input_tokens", VInt 7)]) (Some 11%Z) None]))) !! 1%Z)
    as [r|] eqn:Hr; [|vm_compute in Hr; discriminate Hr].
  exists r. split; [reflexivity|]. split; [vm_compute in Hr; injection Hr as <-; reflexivity|].
  exact (counters_match_log _ _ _ _ Hr).
Defined.
