(* ===== verification/ToolBatch.v ===== *)
(** * A batch of tool calls (harness/tool_exec.py, harness/sanitize.py)

    Which tools may run side by side, the rules a response's calls are cut down
    by, and the two ways a batch is executed, one call at a time or all at once,
    under the guardrails of Guardrails.v.

    What a call gives, whether a write of the store is taken, and when the turn
    is interrupted are the environment's.  The reading of a call's arguments and
    JSON are parameters.  Which of the calls that run at once raises first is not
    modelled: the first in the batch does. *)

From S2P Require Import Prelude.
From S2P Require Import PyStr.
From S2P Require Import SagaLog.
From S2P Require Import RuntimeGovernance.
From S2P Require Import Guardrails.
From stdpp Require Import options.

(** A call as a response holds it, and the message that answers it. *)
Record ToolCall := mk_call { tc_id : string; tc_name : string; tc_arguments : string }.
Record ToolResult := mk_result { tool_call_id : string; content : string }.

#[global] Instance ToolCall_eq_dec : EqDecision ToolCall.
Proof. solve_decision. Defined.

(** ** Which tools run side by side *)

Definition NEVER_PARALLEL_TOOLS : list string := ["ask_user_question"].
Definition CONCURRENCY_SAFE_TOOLS : list string :=
  ["file_read"; "read_file"; "search_files"; "list_files"; "session_search"; "skills_list"; "skill_view"; "web_search";
   "web_extract"; "web_crawl"].
Definition SIBLING_ABORT_TOOLS : list string := ["terminal"].
Definition PATH_SCOPED_TOOLS : list string := ["file_read"; "file_write"; "read_file"; "write_file"; "patch"].
Definition SANDBOX_PARALLEL_TOOLS : list string := ["terminal"].
Definition PARALLEL_TOOLS : list string := CONCURRENCY_SAFE_TOOLS ++ SANDBOX_PARALLEL_TOOLS.
Definition DELEGATION_TOOLS : list string := ["delegate_task"; "spawn_worker"].
Definition BATCH_PARALLEL_TOOLS : list string := PARALLEL_TOOLS ++ DELEGATION_TOOLS.
Definition SESSION_STARTING_TOOLS : list string :=
  DELEGATION_TOOLS ++
  ["send_worker_message"; "spawn_task"; "unblock_task"; "dispatch_experiments"; "cron_create"; "start_thread";
   "message_thread"; "propose_threads"].
Definition AFTER_THE_RESPONSE_TOOLS : list string := ["office_edit"].
Definition TELLS_OTHERS_TOOLS : list string :=
  ["escalate"; "followup_enroll"; "followup_update"; "followup_withdraw_consent"; "team_message_person"; "team_update_person";
   "team_enroll_person"; "team_escalation"; "team_tell_member"].
Definition HELD_UNTIL_SAVED_TOOLS : list string :=
  SESSION_STARTING_TOOLS ++ AFTER_THE_RESPONSE_TOOLS ++ TELLS_OTHERS_TOOLS ++ elements CASE_STEP_TOOLS ++
  elements CASE_ITEM_TOOLS ++ ["ask_user_question"; "send_form"].

Definition is_concurrency_safe (tool : string) : bool := bool_decide (tool ∈ CONCURRENCY_SAFE_TOOLS).
Definition is_parallelizable (tool : string) : bool := bool_decide (tool ∈ PARALLEL_TOOLS).

(** ** What a response's calls are cut down to *)

Definition call_key (tc : ToolCall) : string * string := (tc_name tc, tc_arguments tc).
Definition dedup_step (unique : list ToolCall) (tc : ToolCall) : list ToolCall :=
  if bool_decide (call_key tc ∈ call_key <$> unique) then unique else unique ++ [tc].
Definition deduplicate_tool_calls (calls : list ToolCall) : list ToolCall := foldl dedup_step [] calls.

Definition MAX_DELEGATE_CALLS : nat := 5.
Definition is_delegation (tc : ToolCall) : bool := bool_decide (tc_name tc ∈ DELEGATION_TOOLS).
Definition cap_delegate_calls (calls : list ToolCall) : list ToolCall :=
  filter (λ tc, is_delegation tc = false) calls ++ take MAX_DELEGATE_CALLS (filter (λ tc, is_delegation tc = true) calls).

(** ** Whether a batch runs at once *)

Section policy.
Context (loads : string → option pyval) (canonical py_str : pyval → string).

(** The name and canonical arguments of a call. *)
Definition call_signature (tc : ToolCall) : string * string :=
  (tc_name tc, match loads (tc_arguments tc) with
               | Some v => canonical (dict_or_empty v)
               | None => tc_arguments tc
               end).
Definition batch_has_duplicate_signatures (calls : list ToolCall) : bool :=
  negb (bool_decide (NoDup (call_signature <$> calls))).

(** The [path] of a call, where it has one; [py_str] is [str] of a value that is
    no string. *)
Definition target_path (tc : ToolCall) : option string :=
  match loads (tc_arguments tc) with
  | Some (VDict d) =>
    let either a b := if truthy a then a else b in
    let path := either (py_get (VDict d) "path" VNone)
                  (either (py_get (VDict d) "file_path" VNone) (either (py_get (VDict d) "filename" VNone) (VStr ""))) in
    if truthy path then Some (match path with VStr p => p | v => py_str v end) else None
  | _ => None
  end.

Definition overlap (a b : string) : bool := String.eqb a b || startswith a b || startswith b a.

Fixpoint none_overlap (paths : list string) : bool :=
  match paths with
  | [] => true
  | p :: paths => forallb (λ q, negb (overlap p q)) paths && none_overlap paths
  end.

Definition paths_do_not_overlap (calls : list ToolCall) : bool :=
  match mapM target_path calls with Some paths => none_overlap paths | None => false end.

Definition should_parallelize (calls : list ToolCall) : bool :=
  if (length calls <=? 1)%nat then false
  else if existsb (λ tc, bool_decide (tc_name tc ∈ NEVER_PARALLEL_TOOLS)) calls then false
  else if forallb (λ tc, bool_decide (tc_name tc ∈ BATCH_PARALLEL_TOOLS)) calls then true
  else if forallb (λ tc, bool_decide (tc_name tc ∈ BATCH_PARALLEL_TOOLS ++ PATH_SCOPED_TOOLS)) calls then
    paths_do_not_overlap (filter (λ tc, tc_name tc ∈ PATH_SCOPED_TOOLS) calls)
  else false.

Definition all_concurrency_safe (calls : list ToolCall) : bool := forallb (λ tc, is_concurrency_safe (tc_name tc)) calls.
End policy.

(** ** Executing a batch *)

(** What the environment answers for the call at each place of the batch. *)
Record BatchEnv := mk_batch_env {
  interrupted : nat → bool;            (* the check before the call, or before its dispatch *)
  interrupted_late : nat → bool;       (* a check within its task *)
  given : nat → pyres string string;   (* what [execute_single_tool] gives, or raises *)
  written : nat → bool                 (* whether the events of a call that did not run are taken *)
}.

Definition skipped_content (reason : string) : string := "[" +:+ reason +:+ "]".
Definition make_skipped_tool_result (tc : ToolCall) (reason : string) : ToolResult :=
  mk_result (tc_id tc) (skipped_content reason).
Definition SKIPPED_BY_INTERRUPT : string := "skipped due to interrupt".
Definition SKIPPED_BEHIND_QUESTION : string := "skipped: the question before it in this batch went unanswered".

(** What a batch came to: the controller after it, its results or what it
    raises, and the places of the calls that ran. *)
Record Outcome := mk_outcome {
  guard_after : option ToolGuardrails;
  answers : pyres string (list ToolResult);
  ran : list nat
}.

Definition add_answer (r : ToolResult) (o : Outcome) : Outcome :=
  mk_outcome (guard_after o) (match answers o with Ok rs => Ok (r :: rs) | Raise e => Raise e end) (ran o).
Definition add_ran (i : nat) (o : Outcome) : Outcome := mk_outcome (guard_after o) (answers o) (i :: ran o).

Section execution.
Context (sha256 : string → string) (dumps : pyval → string) (loads : string → option pyval).
Context (canonical py_str : pyval → string) (json : pyval → string) (raw_decode : string → option pyval).
Context (parse_args : ToolCall → pyval) (c : ToolGuardrailConfig) (env : BatchEnv).

(** [question_went_unanswered]: the object its content opens with says
    [cancelled]. *)
Definition question_went_unanswered (tool text : string) : bool :=
  String.eqb tool "ask_user_question" &&
  match raw_decode text with
  | Some (VDict d) => match py_get (VDict d) "cancelled" VNone with VBool true => true | _ => false end
  | _ => false
  end.

(** The guardrails before a call: its block, where there is one. *)
Definition guard_before (g : option ToolGuardrails) (tc : ToolCall) : option ToolGuardrails * option ToolGuardrailDecision :=
  match g with
  | Some g =>
    let '(g, d) := before_call sha256 dumps c g (tc_name tc) (parse_args tc) in
    (Some g, if allows_execution d then None else Some d)
  | None => (None, None)
  end.

(** And after it: its result with their guidance. *)
Definition guard_result (g : option ToolGuardrails) (tc : ToolCall) (text : string) : option ToolGuardrails * string :=
  match g with
  | Some g =>
    let '(g, d) := after_call sha256 dumps loads c g (tc_name tc) (parse_args tc) (Some text) None in
    (Some g, append_toolguard_guidance text d)
  | None => (None, text)
  end.

Definition halted (g : option ToolGuardrails) : bool :=
  match g with Some g => bool_decide (is_Some (halt_decision g)) | None => false end.

Definition blocked_result (d : ToolGuardrailDecision) (tc : ToolCall) : ToolResult :=
  mk_result (tc_id tc) (toolguard_synthetic_result json d (tc_name tc)).

(** [execute_tool_calls_sequential], from place [i] on. *)
Fixpoint sequential_from (i : nat) (calls : list ToolCall) (g : option ToolGuardrails) (unanswered : bool) : Outcome :=
  match calls with
  | [] => mk_outcome g (Ok []) []
  | tc :: calls =>
    if interrupted env i then
      add_answer (make_skipped_tool_result tc SKIPPED_BY_INTERRUPT) (sequential_from (S i) calls g unanswered)
    else if unanswered then
      if written env i then
        add_answer (make_skipped_tool_result tc SKIPPED_BEHIND_QUESTION) (sequential_from (S i) calls g unanswered)
      else mk_outcome g (Raise "the event was not written") []
    else
      match guard_before g tc with
      | (g, Some d) =>
        if written env i then
          add_answer (blocked_result d tc)
            (if should_halt d then mk_outcome g (Ok []) [] else sequential_from (S i) calls g unanswered)
        else mk_outcome g (Raise "the event was not written") []
      | (g, None) =>
        match given env i with
        | Raise e => mk_outcome g (Raise e) [i]
        | Ok text =>
          let unanswered := question_went_unanswered (tc_name tc) text in
          let '(g, shown) := guard_result g tc text in
          add_ran i (add_answer (mk_result (tc_id tc) shown)
            (if halted g then mk_outcome g (Ok []) [] else sequential_from (S i) calls g unanswered))
        end
      end
  end.
Definition execute_tool_calls_sequential (calls : list ToolCall) (g : option ToolGuardrails) : Outcome :=
  sequential_from 0 calls g false.

(** The pre-pass of the concurrent way: each call's result, or [None] where it
    is to run, and whether the guardrails halted. *)
Fixpoint pre_pass (i : nat) (calls : list ToolCall) (g : option ToolGuardrails)
    : option ToolGuardrails * pyres string (list (ToolCall * option ToolResult)) * bool :=
  match calls with
  | [] => (g, Ok [], false)
  | tc :: calls =>
    let slot r '((g, slots, halt) : option ToolGuardrails * pyres string (list (ToolCall * option ToolResult)) * bool) :=
      (g, match slots with Ok slots => Ok ((tc, r) :: slots) | Raise e => Raise e end, halt) in
    if interrupted env i then
      slot (Some (make_skipped_tool_result tc SKIPPED_BY_INTERRUPT)) (pre_pass (S i) calls g)
    else
      match guard_before g tc with
      | (g, Some d) =>
        if written env i then
          slot (Some (blocked_result d tc)) (if should_halt d then (g, Ok [], true) else pre_pass (S i) calls g)
        else (g, Raise "the event was not written", false)
      | (g, None) => slot None (pre_pass (S i) calls g)
      end
  end.

(** [_guarded], the task of the call at place [i]. *)
Definition guarded (i : nat) (tc : ToolCall) : pyres string ToolResult :=
  if interrupted_late env i then Ok (make_skipped_tool_result tc SKIPPED_BY_INTERRUPT)
  else match given env i with Ok text => Ok (mk_result (tc_id tc) text) | Raise e => Raise e end.

(** The results with those of the tasks filled in; the flag says which are. *)
Fixpoint gather (i : nat) (slots : list (ToolCall * option ToolResult)) : pyres string (list (ToolCall * ToolResult * bool)) :=
  match slots with
  | [] => Ok []
  | (tc, Some r) :: slots => pybind (gather (S i) slots) (λ rs, Ok ((tc, r, false) :: rs))
  | (tc, None) :: slots => pybind (guarded i tc) (λ r, pybind (gather (S i) slots) (λ rs, Ok ((tc, r, true) :: rs)))
  end.

(** The calls a dispatch runs. *)
Fixpoint dispatched (i : nat) (slots : list (ToolCall * option ToolResult)) : list nat :=
  match slots with
  | [] => []
  | (_, Some _) :: slots => dispatched (S i) slots
  | (_, None) :: slots => if interrupted_late env i then dispatched (S i) slots else i :: dispatched (S i) slots
  end.

(** The post-pass: guidance up to the first halt, every result kept. *)
Fixpoint post_pass (rs : list (ToolCall * ToolResult * bool)) (g : option ToolGuardrails)
    : option ToolGuardrails * list ToolResult :=
  match rs with
  | [] => (g, [])
  | (tc, r, true) :: rs =>
    let '(g, shown) := guard_result g tc (content r) in
    if halted g then (g, mk_result (tool_call_id r) shown :: (rs.*1).*2)
    else let '(g, out) := post_pass rs g in (g, mk_result (tool_call_id r) shown :: out)
  | (_, r, false) :: rs => let '(g, out) := post_pass rs g in (g, r :: out)
  end.

Definition execute_tool_calls_concurrent (calls : list ToolCall) (g : option ToolGuardrails) : Outcome :=
  match pre_pass 0 calls g with
  | (g, Raise e, _) => mk_outcome g (Raise e) []
  | (g, Ok slots, halt) =>
    match gather 0 slots with
    | Raise e => mk_outcome g (Raise e) (dispatched 0 slots)
    | Ok rs =>
      let '(g, out) := if halt then (g, (rs.*1).*2) else post_pass rs g in
      mk_outcome g (Ok out) (dispatched 0 slots)
    end
  end.

(** [execute_tool_calls]; [saga] says whether the turn keeps one. *)
Definition in_parallel (saga : bool) (calls : list ToolCall) (g : option ToolGuardrails) : bool :=
  should_parallelize loads py_str calls &&
  (bool_decide (g = None) || negb (batch_has_duplicate_signatures loads canonical calls)) &&
  (negb saga || all_concurrency_safe calls).
Definition execute_tool_calls (saga : bool) (calls : list ToolCall) (g : option ToolGuardrails) : Outcome :=
  if in_parallel saga calls g then execute_tool_calls_concurrent calls g else execute_tool_calls_sequential calls g.
End execution.

(** ** What is left of a response's calls *)

Lemma dedup_snoc calls tc :
  deduplicate_tool_calls (calls ++ [tc]) =
  if decide (call_key tc ∈ call_key <$> deduplicate_tool_calls calls) then deduplicate_tool_calls calls
  else deduplicate_tool_calls calls ++ [tc].
Proof.
  unfold deduplicate_tool_calls. rewrite foldl_app. csimpl.
  unfold dedup_step at 1. case_bool_decide; [by rewrite decide_True|by rewrite decide_False].
Qed.

Lemma dedup_NoDup calls : NoDup (call_key <$> deduplicate_tool_calls calls).
Proof.
  induction calls as [|tc calls IH] using rev_ind; [constructor|]. rewrite dedup_snoc. destruct (decide _); [done|].
  rewrite fmap_app. apply NoDup_app. split_and!; [done| |apply NoDup_singleton].
  by intros k Hk ->%list_elem_of_singleton.
Qed.

Lemma dedup_id calls : NoDup (call_key <$> calls) → deduplicate_tool_calls calls = calls.
Proof.
  induction calls as [|tc calls IH] using rev_ind; [done|]. rewrite fmap_app. intros (Hn & Hd & _)%NoDup_app.
  rewrite dedup_snoc, IH by done. rewrite decide_False; [done|]. intros Hin. apply (Hd _ Hin). by apply list_elem_of_here.
Qed.

Lemma cap_split calls :
  calls ≡ₚ filter (λ tc, is_delegation tc = false) calls ++ filter (λ tc, is_delegation tc = true) calls.
Proof.
  induction calls as [|tc calls IH]; [done|]. rewrite !filter_cons.
  destruct (is_delegation tc) eqn:Hd; [rewrite decide_False, decide_True by congruence|rewrite decide_True, decide_False by congruence].
  - by rewrite <- Permutation_middle, <- IH.
  - csimpl. by rewrite <- IH.
Qed.

Lemma cap_submseteq calls : cap_delegate_calls calls ⊆+ calls.
Proof.
  rewrite (cap_split calls) at 2. apply submseteq_app; [done|]. apply submseteq_take.
Qed.

Lemma cap_NoDup calls l : NoDup (call_key <$> calls) → l ≡ₚ cap_delegate_calls calls → NoDup (call_key <$> l).
Proof.
  intros Hn Hl. rewrite Hl. destruct (submseteq_Permutation _ _ (cap_submseteq calls)) as [k Hk].
  rewrite Hk, fmap_app in Hn. by apply NoDup_app in Hn as [? _].
Qed.

Definition delegations (calls : list ToolCall) : list ToolCall := filter (λ tc, is_delegation tc = true) calls.

Lemma delegations_cap calls : delegations (cap_delegate_calls calls) = take MAX_DELEGATE_CALLS (delegations calls).
Proof.
  unfold delegations, cap_delegate_calls. rewrite filter_app.
  replace (filter _ (filter (λ tc, is_delegation tc = false) calls)) with (@nil ToolCall).
  - csimpl. apply filter_Forall_id. apply Forall_take, Forall_forall. by intros x [? _]%list_elem_of_filter.
  - symmetry. rewrite list_filter_filter. induction calls as [|tc calls IH]; [done|]. rewrite filter_cons.
    by rewrite decide_False by (intros [? ?]; congruence).
Qed.

Lemma cap_length calls : (length (cap_delegate_calls calls) + length (delegations calls) =
  length calls + Nat.min MAX_DELEGATE_CALLS (length (delegations calls)))%nat.
Proof.
  pose proof (Permutation_length (cap_split calls)) as Hl. rewrite length_app in Hl. unfold cap_delegate_calls, delegations.
  rewrite length_app, length_take. lia.
Qed.

(** One call more, as an executor of the stream takes it ([add_tool]): the
    calls it has, with it or without. *)
Definition keep_call (kept : list ToolCall) (tc : ToolCall) : list ToolCall :=
  if (length (cap_delegate_calls (deduplicate_tool_calls (kept ++ [tc]))) =? length kept)%nat then kept else kept ++ [tc].

Lemma keep_calls calls : foldl keep_call [] calls ≡ₚ cap_delegate_calls (deduplicate_tool_calls calls).
Proof.
  induction calls as [|tc calls IH] using rev_ind; [done|]. rewrite foldl_app. csimpl.
  set (kept := foldl keep_call [] calls) in *. clearbody kept. rewrite dedup_snoc. set (D := deduplicate_tool_calls calls) in *.
  assert (HD : NoDup (call_key <$> D)) by apply dedup_NoDup. clearbody D.
  assert (Hk : NoDup (call_key <$> kept)) by (by eapply cap_NoDup).
  assert (Hdel : length (delegations kept) = Nat.min MAX_DELEGATE_CALLS (length (delegations D))).
  { rewrite <- length_take, <- delegations_cap. unfold delegations. by rewrite IH. }
  unfold keep_call. rewrite dedup_snoc, (dedup_id kept) by done.
  destruct (decide (call_key tc ∈ call_key <$> kept)) as [Hin|Hin].
  { pose proof (cap_length kept). replace (length _ =? length kept)%nat with true by (symmetry; apply Nat.eqb_eq; lia).
    rewrite decide_True; [done|]. eapply elem_of_submseteq; [exact Hin|]. apply fmap_submseteq. rewrite IH. apply cap_submseteq. }
  pose proof (cap_length (kept ++ [tc])) as Hlen. unfold delegations in Hlen. rewrite filter_app, length_app, (length_app kept) in Hlen.
  fold (delegations kept) in Hlen. rewrite filter_cons, filter_nil in Hlen. cbn [length] in Hlen.
  destruct (is_delegation tc) eqn:Htc.
  - rewrite decide_True in Hlen by done. cbn [length] in Hlen.
    destruct (decide (MAX_DELEGATE_CALLS <= length (delegations D))%nat) as [Hfull|Hfew].
    + replace (length _ =? length kept)%nat with true by (symmetry; apply Nat.eqb_eq; lia). rewrite IH.
      destruct (decide _); [done|]. unfold cap_delegate_calls, delegations in *. rewrite !filter_app, !filter_cons.
      rewrite decide_False, decide_True by congruence. rewrite app_nil_r, take_app_le by done. done.
    + replace (length _ =? length kept)%nat with false by (symmetry; apply Nat.eqb_neq; lia).
      rewrite decide_False.
      * rewrite IH. unfold cap_delegate_calls, delegations in *. rewrite !filter_app, !filter_cons.
        rewrite decide_False, decide_True by congruence. rewrite app_nil_r, !take_ge by (rewrite ?length_app; csimpl; lia).
        by rewrite app_assoc.
      * intros HinD. apply Hin. rewrite IH. unfold cap_delegate_calls. rewrite take_ge by (unfold delegations in Hfew; lia).
        by rewrite <- cap_split.
  - rewrite decide_False in Hlen by congruence. cbn [length] in Hlen.
    replace (length _ =? length kept)%nat with false by (symmetry; apply Nat.eqb_neq; lia).
    rewrite decide_False.
    + rewrite IH. unfold cap_delegate_calls. rewrite !filter_app, !filter_cons.
      rewrite decide_True, decide_False by congruence. rewrite app_nil_r, <- !app_assoc. apply Permutation_app_head. csimpl.
      symmetry. apply Permutation_cons_append.
    + intros HinD. apply Hin. apply list_elem_of_fmap in HinD as (tc' & Hkey & HinD). rewrite Hkey. apply list_elem_of_fmap_2.
      rewrite IH. unfold cap_delegate_calls. apply elem_of_app. left. apply list_elem_of_filter. split; [|done].
      unfold is_delegation in *. by injection Hkey as <- _.
Qed.

(** ** Answers *)

Lemma add_answer_Ok r o rs : answers (add_answer r o) = Ok rs → ∃ rs', answers o = Ok rs' ∧ rs = r :: rs'.
Proof. unfold add_answer. csimpl. destruct (answers o); naive_solver. Qed.

Lemma guidance_appends text d : ∃ guidance, append_toolguard_guidance text d = text +:+ guidance.
Proof.
  unfold append_toolguard_guidance. destruct (str_truthy _); [destruct (decision_action d)|].
  all: try (eexists; reflexivity). all: exists ""; by rewrite string_app_nil_r.
Qed.

Section answers.
Context (sha256 : string → string) (dumps : pyval → string) (loads : string → option pyval).
Context (canonical py_str : pyval → string) (json : pyval → string) (raw_decode : string → option pyval).
Context (parse_args : ToolCall → pyval) (c : ToolGuardrailConfig) (env : BatchEnv).
Notation guard_before := (guard_before sha256 dumps parse_args c).
Notation guard_result := (guard_result sha256 dumps loads parse_args c).
Notation unanswered_question := (question_went_unanswered raw_decode).
Notation sequential_from := (sequential_from sha256 dumps loads json raw_decode parse_args c env).
Notation pre_pass := (pre_pass sha256 dumps json parse_args c env).
Notation post_pass := (post_pass sha256 dumps loads parse_args c).
Notation execute_tool_calls := (execute_tool_calls sha256 dumps loads canonical py_str json raw_decode parse_args c env).

(** A result that says why its call did not run.  A call that its own task
    skips is seen by the guardrails as one that ran, and may get their guidance. *)
Definition did_not_run (tc : ToolCall) (r : ToolResult) : Prop :=
  (∃ guidance, r = mk_result (tc_id tc) (skipped_content SKIPPED_BY_INTERRUPT +:+ guidance)) ∨
  r = make_skipped_tool_result tc SKIPPED_BEHIND_QUESTION ∨
  ∃ d, should_halt d = true ∧ r = blocked_result json d tc.

(** What the call gave, with guidance after it. *)
Definition did_run (i : nat) (tc : ToolCall) (r : ToolResult) : Prop :=
  ∃ text guidance, given env i = Ok text ∧ r = mk_result (tc_id tc) (text +:+ guidance).

(** The results of a batch from place [i] on, and the places that ran. *)
Inductive answered : nat → list ToolCall → list ToolResult → list nat → Prop :=
| answered_end i calls : answered i calls [] []
| answered_idle i tc calls r rs ex :
    did_not_run tc r → answered (S i) calls rs ex → answered i (tc :: calls) (r :: rs) ex
| answered_ran i tc calls r rs ex :
    did_run i tc r → answered (S i) calls rs ex → answered i (tc :: calls) (r :: rs) (i :: ex).

Lemma strongly_sorted_NoDup (l : list nat) : StronglySorted lt l → NoDup l.
Proof.
  induction 1 as [|i l Hs IH Hi]; constructor; [|done]. intros Hin. rewrite Forall_forall in Hi. apply Hi in Hin. lia.
Qed.

Lemma answered_places i calls rs ex :
  answered i calls rs ex → StronglySorted lt ex ∧ Forall (λ j, i <= j < i + length rs)%nat ex.
Proof.
  induction 1 as [|i tc calls r rs ex Hr Ha [IHs IHf]|i tc calls r rs ex Hr Ha [IHs IHf]]; csimpl; [by split; constructor|..].
  - split; [done|]. eapply Forall_impl; [exact IHf|]. csimpl. lia.
  - split; constructor; [done| |lia|]; (eapply Forall_impl; [exact IHf|]); csimpl; lia.
Qed.

Lemma answered_lookup i calls rs ex k r :
  answered i calls rs ex → rs !! k = Some r →
  ∃ tc, calls !! k = Some tc ∧ if decide ((i + k)%nat ∈ ex) then did_run (i + k) tc r else did_not_run tc r.
Proof.
  intros Ha. revert k. induction Ha as [|i tc calls r' rs ex Hr Ha IH|i tc calls r' rs ex Hr Ha IH]; intros k Hk; [done|..];
    destruct (answered_places _ _ _ _ Ha) as [_ Hf]; rewrite Forall_forall in Hf;
    (destruct k as [|k]; [simplify_eq/=; exists tc; split; [done|]; rewrite Nat.add_0_r|
      destruct (IH k Hk) as (tc' & ? & Hd); exists tc'; split; [done|]; replace (i + S k)%nat with (S i + k)%nat by lia]).
  - rewrite decide_False; [done|]. intros ?%Hf. lia.
  - done.
  - rewrite decide_True by apply list_elem_of_here. done.
  - destruct (decide ((S i + k)%nat ∈ ex)); [rewrite decide_True by (by apply list_elem_of_further); done|].
    rewrite decide_False; [done|]. rewrite elem_of_cons. intros [?|?]; [lia|done].
Qed.

Lemma did_run_id i tc r : did_run i tc r → tool_call_id r = tc_id tc.
Proof. intros (? & ? & ? & ->). done. Qed.
Lemma did_not_run_id tc r : did_not_run tc r → tool_call_id r = tc_id tc.
Proof. intros [(? & ->)|[->|(? & ? & ->)]]; done. Qed.
Lemma skipped_did_not_run tc : did_not_run tc (make_skipped_tool_result tc SKIPPED_BY_INTERRUPT).
Proof. left. exists "". by rewrite string_app_nil_r. Qed.

(** *** The guardrails around a call *)

Lemma before_call_block g t a g' d :
  before_call sha256 dumps c g t a = (g', d) → allows_execution d = false → halt_decision g' = Some d.
Proof.
  unfold before_call, hard_stop_before. intros Hb Hd.
  repeat (case_decide || case_match); simplify_eq/=; try done;
    cbv [allow_decision allows_execution decision_action] in Hd; done.
Qed.

Lemma guard_before_blocks g tc g' d : guard_before g tc = (g', Some d) → halted g' = true ∧ should_halt d = true.
Proof.
  unfold ToolBatch.guard_before. destruct g as [g|]; [|done].
  destruct (before_call _ _ _ _ _ _) as [g1 d1] eqn:Hb. destruct (allows_execution d1) eqn:Ha; [done|]. intros [= <- <-].
  csimpl. rewrite (before_call_block _ _ _ _ _ Hb Ha). split; [by apply bool_decide_eq_true_2|].
  unfold should_halt. by rewrite Ha.
Qed.

Lemma guard_result_appends g tc text g' shown :
  guard_result g tc text = (g', shown) → ∃ guidance, shown = text +:+ guidance.
Proof.
  unfold ToolBatch.guard_result. destruct g as [g|].
  - destruct (after_call _ _ _ _ _ _ _ _ _) as [g1 d]. intros [= <- <-]. apply guidance_appends.
  - intros [= <- <-]. exists "". by rewrite string_app_nil_r.
Qed.

(** *** One call at a time *)

Definition complete (calls : list ToolCall) (rs : list ToolResult) (g : option ToolGuardrails) : Prop :=
  (length rs < length calls)%nat → halted g = true.

Lemma sequential_answers calls : ∀ i g u rs,
  answers (sequential_from i calls g u) = Ok rs →
  answered i calls rs (ran (sequential_from i calls g u)) ∧ complete calls rs (guard_after (sequential_from i calls g u)).
Proof.
  unfold complete. induction calls as [|tc calls IH]; intros i g u rs; csimpl; [intros [= <-]; split; [constructor|lia]|].
  destruct (interrupted env i).
  { intros (rs' & Hrs & ->)%add_answer_Ok. destruct (IH _ _ _ _ Hrs) as [? Hc]. csimpl. split; [|intros; apply Hc; lia].
    constructor; [apply skipped_did_not_run|done]. }
  destruct u.
  { destruct (written env i); [|done]. intros (rs' & Hrs & ->)%add_answer_Ok. destruct (IH _ _ _ _ Hrs) as [? Hc]. csimpl.
    split; [|intros; apply Hc; lia]. constructor; [by right; left|done]. }
  destruct (guard_before g tc) as [g1 [d|]] eqn:Hb.
  - apply guard_before_blocks in Hb as [Hh Hd]. destruct (written env i); [|done]. rewrite Hd.
    intros (rs' & [= <-] & ->)%add_answer_Ok. csimpl. split; [|done]. constructor; [right; right; by exists d|constructor].
  - destruct (given env i) as [text|e] eqn:Hg; [|done]. destruct (guard_result g1 tc text) as [g2 shown] eqn:Hr.
    apply guard_result_appends in Hr as (guidance & ->).
    intros (rs' & Hrs & ->)%add_answer_Ok. csimpl. destruct (halted g2) eqn:Hh.
    + injection Hrs as <-. csimpl. split; [|done]. constructor; [by exists text, guidance|constructor].
    + destruct (IH _ _ _ _ Hrs) as [? Hc]. split; [|intros; apply Hc; lia]. constructor; [by exists text, guidance|done].
Qed.

(** *** All at once *)

Definition slot_ok (p : ToolCall * option ToolResult) : Prop :=
  match p.2 with Some r => did_not_run p.1 r | None => True end.

Lemma pre_pass_slots calls : ∀ i g g' slots halt,
  pre_pass i calls g = (g', Ok slots, halt) →
  Forall slot_ok slots ∧ slots.*1 = take (length slots) calls ∧
  (length slots < length calls → halt = true)%nat ∧ (halt = true → halted g' = true).
Proof.
  induction calls as [|tc calls IH]; intros i g g' slots halt; csimpl; [intros [= <- <- <-]; split_and!; [constructor|done|lia|done]|].
  assert (Hslot : ∀ r (p : option ToolGuardrails * pyres string (list (ToolCall * option ToolResult)) * bool),
    slot_ok (tc, r) →
    (∀ slots', p = (g', Ok slots', halt) →
       Forall slot_ok slots' ∧ slots'.*1 = take (length slots') calls ∧
       (length slots' < length calls → halt = true)%nat ∧ (halt = true → halted g' = true)) →
    (let '(g, slots, halt) := p in
     (g, match slots with Ok slots => Ok ((tc, r) :: slots) | Raise e => Raise e end, halt)) = (g', Ok slots, halt) →
    Forall slot_ok slots ∧ slots.*1 = take (length slots) (tc :: calls) ∧
    (length slots < S (length calls) → halt = true)%nat ∧ (halt = true → halted g' = true)).
  { intros r [[g1 [sl|e]] h] Hr Hp; [|done]. intros [= <- <- <-]. destruct (Hp sl eq_refl) as (? & ? & Hl & ?). csimpl.
    split_and!; [by constructor|by f_equal|intros; apply Hl; lia|done]. }
  destruct (interrupted env i); [apply Hslot; [apply skipped_did_not_run|by intros; eapply IH]|].
  destruct (guard_before g tc) as [g1 [d|]] eqn:Hb; [|apply Hslot; [done|by intros; eapply IH]].
  apply guard_before_blocks in Hb as [Hh Hd]. destruct (written env i); [|done]. rewrite Hd.
  intros Heq. apply (Hslot (Some (blocked_result json d tc)) (g1, Ok [], true)); [by right; right; exists d| |exact Heq].
  intros slots' [= <- <- <-]. split_and!; [constructor|done|done|done].
Qed.

(** Guidance is all that is added after the tasks. *)
Definition told (r r' : ToolResult) : Prop := ∃ guidance, r' = mk_result (tool_call_id r) (content r +:+ guidance).

Lemma told_refl r : told r r.
Proof. exists "". rewrite string_app_nil_r. by destruct r. Qed.
Lemma told_all_refl (rs : list (ToolCall * ToolResult * bool)) : Forall2 (λ x r', told x.1.2 r' ∧ (x.2 = false → r' = x.1.2)) rs (rs.*1).*2.
Proof. induction rs as [|x rs IH]; constructor; [split; [apply told_refl|done]|done]. Qed.

Lemma post_pass_told rs : ∀ g,
  Forall2 (λ x r', told x.1.2 r' ∧ (x.2 = false → r' = x.1.2)) rs (post_pass rs g).2.
Proof.
  induction rs as [|[[tc r] [|]] rs IH]; intros g; csimpl; [constructor| |].
  - destruct (guard_result g tc (content r)) as [g1 shown] eqn:Hr. apply guard_result_appends in Hr as (guidance & ->).
    destruct (halted g1); [|specialize (IH g1); destruct (post_pass rs g1)]; csimpl;
      (constructor; [split; [by exists guidance|done]|]); [apply told_all_refl|done].
  - specialize (IH g). destruct (post_pass rs g). csimpl. constructor; [split; [apply told_refl|done]|done].
Qed.

Lemma gather_answers slots : ∀ i rs out,
  Forall slot_ok slots → gather env i slots = Ok rs →
  Forall2 (λ x r', told x.1.2 r' ∧ (x.2 = false → r' = x.1.2)) rs out →
  length out = length slots ∧ ∀ calls, slots.*1 = take (length slots) calls → answered i calls out (dispatched env i slots).
Proof.
  induction slots as [|[tc [r|]] slots IH]; intros i rs out Hs Hg Ht; csimpl in *.
  - simplify_eq. apply Forall2_nil_inv_l in Ht as ->. split; [done|]. constructor.
  - apply pybind_ok in Hg as (rs' & Hg & [= <-]). apply Forall_cons in Hs as [Hr Hs].
    apply Forall2_cons_inv_l in Ht as (r' & out' & [_ Heq] & Ht & ->). rewrite Heq by done.
    destruct (IH _ _ _ Hs Hg Ht) as [Hl Ha]. csimpl. split; [by rewrite Hl|]. intros [|tc' calls] [= <- Hc].
    constructor; [done|by apply Ha].
  - apply pybind_ok in Hg as (r & Hr & Hg). apply pybind_ok in Hg as (rs' & Hg & [= <-]).
    apply Forall_cons in Hs as [_ Hs]. apply Forall2_cons_inv_l in Ht as (r' & out' & [(guidance & ->) Heq] & Ht & ->).
    destruct (IH _ _ _ Hs Hg Ht) as [Hl Ha]. csimpl in *. split; [by rewrite Hl|]. intros [|tc' calls] [= <- Hc].
    unfold guarded in Hr. destruct (interrupted_late env i).
    + injection Hr as <-. csimpl. constructor; [by left; exists guidance|by apply Ha].
    + destruct (given env i) as [text|e] eqn:Hgi; [|done]. injection Hr as <-. csimpl.
      constructor; [by exists text, guidance|by apply Ha].
Qed.

Lemma execute_answers saga calls g rs :
  answers (execute_tool_calls saga calls g) = Ok rs →
  answered 0 calls rs (ran (execute_tool_calls saga calls g)) ∧
  complete calls rs (guard_after (execute_tool_calls saga calls g)).
Proof.
  unfold ToolBatch.execute_tool_calls. destruct (in_parallel _ _ _ _ _ _); [|apply sequential_answers].
  unfold execute_tool_calls_concurrent. destruct (pre_pass 0 calls g) as [[g1 [slots|e]] halt] eqn:Hp; [|done].
  apply pre_pass_slots in Hp as (Hs & Hc & Hl & Hh). destruct (gather env 0 slots) as [xs|e] eqn:Hg; [|done].
  assert (Hpost : Forall2 (λ x r', told x.1.2 r' ∧ (x.2 = false → r' = x.1.2)) xs
    (if halt then (g1, (xs.*1).*2) else post_pass xs g1).2) by (destruct halt; [apply told_all_refl|apply post_pass_told]).
  destruct (if halt then _ else _) as [g2 out] eqn:Ho. csimpl in *. intros [= <-].
  destruct (gather_answers _ _ _ _ Hs Hg Hpost) as [Hlen Ha]. split; [by apply Ha|].
  unfold complete. rewrite Hlen. intros Hlt. specialize (Hl Hlt). subst halt. simplify_eq. by apply Hh.
Qed.

(** *** A question nobody answered *)

Lemma sequential_ran calls : ∀ i g u,
  let o := sequential_from i calls g u in
  (u = true → ran o = []) ∧ Forall (λ j, i <= j)%nat (ran o) ∧
  ∀ k tc text, (i + k)%nat ∈ ran o → calls !! k = Some tc → given env (i + k) = Ok text →
    unanswered_question (tc_name tc) text = true → Forall (λ j, j <= i + k)%nat (ran o).
Proof.
  induction calls as [|tc calls IH]; intros i g u; cbv zeta; csimpl.
  { split_and!; [done|constructor|]. by intros k tc text ?%not_elem_of_nil. }
  assert (Hnot : ∀ g u, let o := sequential_from (S i) calls g u in
    Forall (λ j, i <= j)%nat (ran o) ∧
    ∀ k tc' text, (i + k)%nat ∈ ran o → (tc :: calls) !! k = Some tc' → given env (i + k) = Ok text →
      unanswered_question (tc_name tc') text = true → Forall (λ j, j <= i + k)%nat (ran o)).
  { intros g' u' o. destruct (IH (S i) g' u') as (_ & Hge & Hq). fold o in Hge, Hq. split.
    - eapply Forall_impl; [exact Hge|]. csimpl. lia.
    - intros [|k] tc' text Hin Hk Hg Hun; csimpl in Hk.
      + rewrite Nat.add_0_r in Hin. rewrite Forall_forall in Hge. apply Hge in Hin. lia.
      + rewrite Nat.add_succ_r in *. by apply (Hq k tc' text). }
  assert (Hend : ∀ (g : option ToolGuardrails) a, let o := mk_outcome g a [] in
    (u = true → ran o = []) ∧ Forall (λ j, i <= j)%nat (ran o) ∧
    ∀ k tc' text, (i + k)%nat ∈ ran o → (tc :: calls) !! k = Some tc' → given env (i + k) = Ok text →
      unanswered_question (tc_name tc') text = true → Forall (λ j, j <= i + k)%nat (ran o)).
  { intros g' a. csimpl. split_and!; [done|constructor|]. by intros k tc' text ?%not_elem_of_nil. }
  destruct (interrupted env i).
  { csimpl. destruct (IH (S i) g u) as (Hu & _ & _). destruct (Hnot g u). by split_and!. }
  destruct u.
  { destruct (written env i); [|apply (Hend g)]. csimpl. destruct (IH (S i) g true) as (Hu & _ & _). destruct (Hnot g true). by split_and!. }
  destruct (guard_before g tc) as [g1 [d|]] eqn:Hb.
  - apply guard_before_blocks in Hb as [_ Hd]. destruct (written env i); [|apply (Hend g1)]. rewrite Hd. csimpl. apply (Hend g1 (Ok [])).
  - destruct (given env i) as [text|e] eqn:Hg.
    + destruct (guard_result g1 tc text) as [g2 shown].
      set (rest := if halted g2 then _ else _). cbn [ran add_ran add_answer].
      assert (Hrest : Forall (λ j, i <= j)%nat (ran rest) ∧
        (unanswered_question (tc_name tc) text = true → ran rest = []) ∧
        ∀ k tc' text, (i + k)%nat ∈ ran rest → (tc :: calls) !! k = Some tc' → given env (i + k) = Ok text →
          unanswered_question (tc_name tc') text = true → Forall (λ j, j <= i + k)%nat (ran rest)).
      { unfold rest. destruct (halted g2); [destruct (Hend g2 (Ok [])) as (_ & ? & ?); by split_and!|].
        destruct (Hnot g2 (unanswered_question (tc_name tc) text)). destruct (IH (S i) g2 (unanswered_question (tc_name tc) text)) as (Hu & _).
        by split_and!. }
      clearbody rest. destruct Hrest as (Hge & Hnone & Hq). split_and!; [done|by constructor; [lia|]|].
      intros k tc' text' Hin Hk Hg' Hun. apply elem_of_cons in Hin as [Hin|Hin].
      * assert (k = 0%nat) as -> by lia. rewrite Nat.add_0_r in Hg'. csimpl in Hk. injection Hk as <-.
        assert (text' = text) as -> by congruence. rewrite (Hnone Hun). constructor; [lia|constructor].
      * constructor; [lia|]. by eapply Hq.
    + csimpl. split_and!; [done|by repeat constructor|]. intros k tc' text Hin Hk Hg' Hun. repeat constructor. lia.
Qed.

Lemma parallel_no_question saga calls g tc :
  in_parallel loads canonical py_str saga calls g = true → tc ∈ calls → tc_name tc ≠ "ask_user_question".
Proof.
  unfold in_parallel, should_parallelize. intros Hp Hin Hn. apply andb_true_iff in Hp as [[Hp _]%andb_true_iff _].
  destruct (length calls <=? 1)%nat; [done|]. destruct (existsb _ calls) eqn:He; [done|].
  apply not_true_iff_false in He. apply He. apply existsb_exists. exists tc. split; [by apply list_elem_of_In|].
  rewrite Hn. done.
Qed.
End answers.

(** ** Writes at once *)

Definition WRITING_TOOLS : list string := ["file_write"; "write_file"; "patch"].

Section overlapping.
Context (loads : string → option pyval) (canonical py_str : pyval → string).

Lemma none_overlap_lookup paths i j p q :
  none_overlap paths = true → (i < j)%nat → paths !! i = Some p → paths !! j = Some q → overlap p q = false.
Proof.
  revert i j. induction paths as [|r paths IH]; intros i j; csimpl; [done|].
  intros [Hr Hn]%andb_true_iff Hij Hi Hj. rewrite forallb_forall in Hr.
  destruct j as [|j]; [lia|]. csimpl in Hj. destruct i as [|i]; csimpl in Hi.
  - injection Hi as ->. apply negb_true_iff, Hr, list_elem_of_In. by eapply list_elem_of_lookup_2.
  - eapply IH; [done| |done..]. lia.
Qed.

Lemma mapM_split {A B} (f : A → option B) l i j x y ys :
  mapM f l = Some ys → (i < j)%nat → l !! i = Some x → l !! j = Some y →
  ∃ p q, f x = Some p ∧ f y = Some q ∧ ys !! i = Some p ∧ ys !! j = Some q.
Proof.
  intros Hm Hij Hi Hj. apply mapM_Some in Hm.
  destruct (Forall2_lookup_l _ _ _ _ _ Hm Hi) as (p & ? & ?). destruct (Forall2_lookup_l _ _ _ _ _ Hm Hj) as (q & ? & ?).
  by exists p, q.
Qed.

(** Two places of a list kept by a filter, and their places in it. *)
Lemma filter_places {A} (P : A → Prop) `{∀ x, Decision (P x)} (l : list A) i j x y :
  (i < j)%nat → l !! i = Some x → l !! j = Some y → P x → P y →
  ∃ i' j', (i' < j')%nat ∧ filter P l !! i' = Some x ∧ filter P l !! j' = Some y.
Proof.
  intros Hij Hi Hj Hx Hy. rewrite <- (take_drop_middle l i x Hi).
  assert (Hin : y ∈ drop (S i) l).
  { apply list_elem_of_lookup. exists (j - S i)%nat. rewrite lookup_drop. by replace (S i + (j - S i))%nat with j by lia. }
  rewrite filter_app, filter_cons, decide_True by done.
  assert (Hin' : y ∈ filter P (drop (S i) l)) by (by apply list_elem_of_filter).
  apply list_elem_of_lookup in Hin' as (k & Hk).
  exists (length (filter P (take i l))), (length (filter P (take i l)) + S k)%nat. split; [lia|].
  rewrite !lookup_app_r by lia. rewrite Nat.sub_diag, Nat.add_comm, Nat.add_sub. done.
Qed.

Lemma writing_scoped : Forall (λ t, t ∈ PATH_SCOPED_TOOLS ∧ t ∉ BATCH_PARALLEL_TOOLS) WRITING_TOOLS.
Proof. apply (bool_decide_unpack _). by vm_compute. Qed.

Lemma parallel_paths saga calls g i j a b :
  in_parallel loads canonical py_str saga calls g = true →
  (i < j)%nat → calls !! i = Some a → calls !! j = Some b →
  tc_name a ∈ PATH_SCOPED_TOOLS → tc_name b ∈ PATH_SCOPED_TOOLS → tc_name a ∈ WRITING_TOOLS ∨ tc_name b ∈ WRITING_TOOLS →
  ∃ p q, target_path loads py_str a = Some p ∧ target_path loads py_str b = Some q ∧ overlap p q = false.
Proof.
  unfold in_parallel, should_parallelize. intros Hp Hij Ha Hb Hsa Hsb Hw. apply andb_true_iff in Hp as [[Hp _]%andb_true_iff _].
  destruct (length calls <=? 1)%nat; [done|]. destruct (existsb _ calls); [done|].
  destruct (forallb _ calls) eqn:Hall in Hp.
  { rewrite forallb_forall in Hall. pose proof writing_scoped as Hs. rewrite Forall_forall in Hs.
    assert (Hbatch : ∀ i tc, calls !! i = Some tc → tc_name tc ∈ BATCH_PARALLEL_TOOLS).
    { intros k tc Hk. eapply bool_decide_eq_true_1, (Hall tc), list_elem_of_In, list_elem_of_lookup_2. exact Hk. }
    destruct Hw as [Hw|Hw]; apply Hs in Hw as [_ Hw]; [by apply Hbatch in Ha|by apply Hbatch in Hb]. }
  destruct (forallb _ calls) in Hp; [|done]. unfold paths_do_not_overlap in Hp.
  destruct (mapM _ _) as [paths|] eqn:Hm; [|done].
  destruct (filter_places (λ tc, tc_name tc ∈ PATH_SCOPED_TOOLS) calls i j a b Hij Ha Hb Hsa Hsb) as (i' & j' & Hij' & Hi' & Hj').
  destruct (mapM_split _ _ _ _ _ _ _ Hm Hij' Hi' Hj') as (p & q & Hp1 & Hq1 & Hp2 & Hq2).
  exists p, q. split_and!; [done..|]. by eapply none_overlap_lookup.
Qed.
End overlapping.

(** ** What a batch does *)

Section batches.
Context (sha256 : string → string) (dumps : pyval → string) (loads : string → option pyval).
Context (canonical py_str : pyval → string) (json : pyval → string) (raw_decode : string → option pyval).
Context (parse_args : ToolCall → pyval) (c : ToolGuardrailConfig) (env : BatchEnv).
Notation execute_tool_calls := (execute_tool_calls sha256 dumps loads canonical py_str json raw_decode parse_args c env).

(** C18. Whichever way a batch is executed, its results answer its calls in
    their order, one each: a call that ran with what it gave, guidance at most
    added, and one that did not run with why; calls are left without an answer
    only once the guardrails have halted the turn. *)
Theorem batch_answered saga calls g rs :
  let o := execute_tool_calls saga calls g in
  answers o = Ok rs →
  (∀ i r, rs !! i = Some r → ∃ tc, calls !! i = Some tc ∧ tool_call_id r = tc_id tc ∧
     if decide (i ∈ ran o) then did_run env i tc r else did_not_run json tc r) ∧
  (length rs < length calls → halted (guard_after o) = true)%nat ∧
  NoDup (ran o) ∧ Forall (λ i, i < length rs)%nat (ran o).
Proof.
  intros o Hrs. destruct (execute_answers sha256 dumps loads canonical py_str json raw_decode parse_args c env saga calls g rs Hrs) as [Ha Hc].
  fold o in Ha, Hc. destruct (answered_places _ _ _ _ _ _ Ha) as [Hs Hf]. split_and!; [|exact Hc| |].
  - intros i r Hi. destruct (answered_lookup _ _ _ _ _ _ _ _ Ha Hi) as (tc & Htc & Hd). exists tc. split; [done|].
    rewrite Nat.add_0_l in Hd. split; [|exact Hd].
    destruct (decide (i ∈ ran o)); [by eapply did_run_id|by eapply did_not_run_id].
  - by apply strongly_sorted_NoDup.
  - eapply Forall_impl; [exact Hf|]. csimpl. lia.
Qed.

(** When a question of a batch comes back unanswered, no call after it
    runs, whatever the batch, the guardrails and the interrupts. *)
Theorem unanswered_question_last saga calls g i tc text :
  let o := execute_tool_calls saga calls g in
  i ∈ ran o → calls !! i = Some tc → given env i = Ok text →
  question_went_unanswered raw_decode (tc_name tc) text = true →
  Forall (λ j, j <= i)%nat (ran o).
Proof.
  intros o. subst o. unfold ToolBatch.execute_tool_calls. destruct (in_parallel _ _ _ _ _ _) eqn:Hp.
  - intros _ Hi _ Hq. unfold question_went_unanswered in Hq. apply andb_true_iff in Hq as [Hq%String.eqb_eq _].
    by destruct (parallel_no_question _ _ _ _ _ _ tc Hp (list_elem_of_lookup_2 _ _ _ Hi)).
  - intros Hin Hi Hg Hq. destruct (sequential_ran sha256 dumps loads json raw_decode parse_args c env calls 0 g false) as (_ & _ & Hlast).
    by apply (Hlast i tc text).
Qed.
End batches.

(** ** Concrete batches *)

Section examples.
#[local] Definition ex_loads (s : string) : option pyval :=
  if String.eqb s "cancelled" then Some (VDict [("cancelled", VBool true)])
  else if str_truthy s then Some (VDict [("path", VStr s)]) else None.
#[local] Definition ex_str (v : pyval) : string := match v with VStr s => s | _ => "" end.
#[local] Definition ex_args (tc : ToolCall) : pyval := default VNone (ex_loads (tc_arguments tc)).
#[local] Definition ex_canonical (v : pyval) : string := ex_str (py_get v "path" VNone).

Definition ex_env : BatchEnv :=
  mk_batch_env (λ _, false) (λ i, Nat.eqb i 1)
    (λ i, Ok (if Nat.eqb i 0 then "cancelled" else "text")) (λ _, true).
Definition ex_asked : list ToolCall := [mk_call "1" "ask_user_question" ""; mk_call "2" "terminal" "ls"].
Definition ex_reads : list ToolCall := [mk_call "1" "read_file" "a.txt"; mk_call "2" "write_file" "b.txt"].

Definition ex_execute : bool → list ToolCall → option ToolGuardrails → Outcome :=
  execute_tool_calls (λ s, s) ex_canonical ex_loads ex_canonical ex_str ex_str ex_loads ex_args default_config ex_env.

Lemma batch_answered_witness :
  answers (ex_execute false ex_reads (Some new_guard)) =
    Ok [mk_result "1" "cancelled"; mk_result "2" (skipped_content SKIPPED_BY_INTERRUPT)] ∧
  NoDup (ran (ex_execute false ex_reads (Some new_guard))).
Proof.
  split; [by vm_compute|].
  apply (batch_answered (λ s, s) ex_canonical ex_loads ex_canonical ex_str ex_str ex_loads ex_args default_config ex_env
           false ex_reads (Some new_guard)
           [mk_result "1" "cancelled"; mk_result "2" (skipped_content SKIPPED_BY_INTERRUPT)]).
  by vm_compute.
Defined.

Lemma unanswered_question_last_witness :
  answers (ex_execute false ex_asked None) =
    Ok [mk_result "1" "cancelled"; mk_result "2" (skipped_content SKIPPED_BEHIND_QUESTION)] ∧
  Forall (λ j, j <= 0)%nat (ran (ex_execute false ex_asked None)).
Proof.
  split; [by vm_compute|].
  apply (unanswered_question_last (λ s, s) ex_canonical ex_loads ex_canonical ex_str ex_str ex_loads ex_args default_config ex_env
           false ex_asked None 0 (mk_call "1" "ask_user_question" "") "cancelled").
  - by left.
  - by vm_compute.
  - by vm_compute.
  - by vm_compute.
Defined.

(** Two spellings of one path are two paths: the writes run at once. *)
Lemma one_file_two_spellings :
  in_parallel ex_loads ex_canonical ex_str false
    [mk_call "1" "write_file" "a.txt"; mk_call "2" "patch" "./a.txt"] (Some new_guard) = true ∧
  normpath "a.txt" = normpath "./a.txt".
Proof. split; by vm_compute. Qed.
End examples.
