(* ===== verification/StreamExec.v ===== *)
(** * Tool calls executed while the response streams (harness/streaming_executor.py)

    The executor of one response: its queue of tracked calls, when a call may
    start, the task that runs one, the abort of siblings, the discard of a
    dropped response and the collection of the results.

    asyncio runs one task at a time and switches at an [await] only.  So a step
    is one call of a method, or one stretch of a call's task between two of its
    suspensions; an [await] ends by returning, raising, or in a cancellation.
    A task cancelled before its first stretch never runs at all.  What
    [interrupt_check] and [turn_detached] answer changes on its own. *)

From S2P Require Import Prelude.
From S2P Require Import PyStr.
From S2P Require Import SagaLog.
From S2P Require Import RuntimeGovernance.
From S2P Require Import Guardrails.
From S2P Require Import ToolBatch.
From stdpp Require Import options.

Inductive ToolStatus := QUEUED | EXECUTING | COMPLETED.
#[global] Instance ToolStatus_eq_dec : EqDecision ToolStatus.
Proof. solve_decision. Defined.

(** What a task waits for: the events of a skip, of a block, the tool, or the
    event of its cancellation. *)
Inductive awaiting := AwaitSkip | AwaitBlock (d : ToolGuardrailDecision) | AwaitTool | AwaitCancelled.
Inductive task_state := Created | Suspended (w : awaiting) | TaskDone.

Record TrackedTool := mk_tracked {
  tool_call : ToolCall;
  parallelizable : bool;
  status : ToolStatus;
  task : option task_state;
  cancelling : bool;
  result : option ToolResult;
  errored : bool
}.

Definition tracked_of (tc : ToolCall) (parallel : bool) : TrackedTool := mk_tracked tc parallel QUEUED None false None false.
Definition set_parallel (t : TrackedTool) : TrackedTool :=
  mk_tracked (tool_call t) true (status t) (task t) (cancelling t) (result t) (errored t).
Definition set_task (t : TrackedTool) (k : task_state) : TrackedTool :=
  mk_tracked (tool_call t) (parallelizable t) (status t) (Some k) (cancelling t) (result t) (errored t).
Definition set_result (t : TrackedTool) (r : ToolResult) (e : bool) : TrackedTool :=
  mk_tracked (tool_call t) (parallelizable t) (status t) (task t) (cancelling t) (Some r) e.
Definition complete_tool (t : TrackedTool) : TrackedTool :=
  mk_tracked (tool_call t) (parallelizable t) COMPLETED (Some TaskDone) (cancelling t) (result t) (errored t).

(** [tool.task.cancel()], where the task is not done. *)
Definition undone (t : TrackedTool) : bool := match task t with Some TaskDone | None => false | _ => true end.
Definition cancel_task (t : TrackedTool) : TrackedTool :=
  if undone t then mk_tracked (tool_call t) (parallelizable t) (status t) (task t) true (result t) (errored t) else t.

(** [_start_execution] *)
Definition start_execution (t : TrackedTool) : TrackedTool :=
  mk_tracked (tool_call t) (parallelizable t) EXECUTING (Some Created) false (result t) (errored t).

Record Executor := mk_executor {
  tracked : list TrackedTool;
  sibling_aborted : bool;
  discarded : bool;
  saved : bool;
  question_unanswered : bool;
  tool_guardrails : option ToolGuardrails;
  interrupting : bool;   (* what [interrupt_check()] answers *)
  detached : bool        (* and [turn_detached()] *)
}.

Definition new_executor (g : option ToolGuardrails) : Executor := mk_executor [] false false false false g false false.
Definition set_tracked (x : Executor) (l : list TrackedTool) : Executor :=
  mk_executor l (sibling_aborted x) (discarded x) (saved x) (question_unanswered x) (tool_guardrails x) (interrupting x) (detached x).
Definition set_aborted (x : Executor) : Executor :=
  mk_executor (tracked x) true (discarded x) (saved x) (question_unanswered x) (tool_guardrails x) (interrupting x) (detached x).
Definition set_discarded (x : Executor) : Executor :=
  mk_executor (tracked x) (sibling_aborted x) true (saved x) (question_unanswered x) (tool_guardrails x) (interrupting x) (detached x).
Definition set_saved (x : Executor) : Executor :=
  mk_executor (tracked x) (sibling_aborted x) (discarded x) true (question_unanswered x) (tool_guardrails x) (interrupting x) (detached x).
Definition set_unanswered (x : Executor) (b : bool) : Executor :=
  mk_executor (tracked x) (sibling_aborted x) (discarded x) (saved x) (question_unanswered x || b) (tool_guardrails x) (interrupting x) (detached x).
Definition set_guardrails (x : Executor) (g : option ToolGuardrails) : Executor :=
  mk_executor (tracked x) (sibling_aborted x) (discarded x) (saved x) (question_unanswered x) g (interrupting x) (detached x).
Definition set_signals (x : Executor) (interrupt detach : bool) : Executor :=
  mk_executor (tracked x) (sibling_aborted x) (discarded x) (saved x) (question_unanswered x) (tool_guardrails x) interrupt detach.

(** ** When a call may start *)

Definition stopped (x : Executor) : bool := sibling_aborted x || discarded x || interrupting x || detached x.
Definition held (x : Executor) (t : TrackedTool) : bool :=
  negb (saved x) && bool_decide (tc_name (tool_call t) ∈ HELD_UNTIL_SAVED_TOOLS).
Definition is_executing (t : TrackedTool) : bool := bool_decide (status t = EXECUTING).

(** [_can_execute], where [all] are the tracked calls. *)
Definition can_execute (x : Executor) (all : list TrackedTool) (t : TrackedTool) : bool :=
  if stopped x then false
  else if held x t then false
  else match List.filter is_executing all with
       | [] => true
       | executing => parallelizable t && forallb parallelizable executing
       end.

(** [_process_queue]: the calls [before] are scanned. *)
Fixpoint scan (x : Executor) (before todo : list TrackedTool) : list TrackedTool :=
  match todo with
  | [] => before
  | t :: todo =>
    if negb (bool_decide (status t = QUEUED)) then scan x (before ++ [t]) todo
    else if can_execute x (before ++ t :: todo) t then
      if parallelizable t then scan x (before ++ [start_execution t]) todo else before ++ start_execution t :: todo
    else if parallelizable t then scan x (before ++ [t]) todo else before ++ t :: todo
  end.
Definition process_queue (x : Executor) : Executor := set_tracked x (scan x [] (tracked x)).

(** ** The methods *)

(** [discard] *)
Definition discard (x : Executor) : Executor := set_tracked (set_discarded x) (cancel_task <$> tracked x).

(** [_abort_siblings], for the call at place [i]. *)
Definition abort_siblings (x : Executor) (i : nat) : Executor :=
  set_tracked (set_aborted x)
    (imap (λ j t, if negb (Nat.eqb j i) && is_executing t then cancel_task t else t) (tracked x)).

Definition skipped (t : TrackedTool) : ToolResult := make_skipped_tool_result (tool_call t) SKIPPED_BY_INTERRUPT.

(** The end of [get_all_results]: it waits until every task is done, the tasks
    that end meanwhile starting others, and fills in what never ran. *)
Definition get_results (x : Executor) : option (list ToolResult) :=
  if existsb undone (tracked x) then None else Some ((λ t, default (skipped t) (result t)) <$> tracked x).

(** And of [settle]: the results there are, by call. *)
Definition settled (x : Executor) : option (list (string * ToolResult)) :=
  if existsb undone (tracked x) then None
  else Some (omap (λ t, (λ r, (tc_id (tool_call t), r)) <$> result t) (tracked x)).

Definition count {A} (p : A → bool) (l : list A) : nat := length (List.filter p l).
(** [stats]: total, concurrent, completed, overlapped, errored. *)
Definition stats (x : Executor) : nat * nat * nat * nat * nat :=
  let completed t := bool_decide (status t = COMPLETED) in
  (length (tracked x), count parallelizable (tracked x), count completed (tracked x),
   count (λ t, parallelizable t && completed t) (tracked x), count errored (tracked x)).

(** How an [await] ends. *)
Inductive await_end := Returned (text : string) | Raised (e : string) | Cancelled.

Section executor.
Context (sha256 : string → string) (dumps : pyval → string) (loads : string → option pyval).
Context (canonical : pyval → string) (json : pyval → string) (raw_decode : string → option pyval).
Context (parse_args : ToolCall → pyval) (c : ToolGuardrailConfig).
(** Whether the turn keeps a saga, whether calls start while it streams, and
    whether it works on its user's computer. *)
Context (saga start_early device : bool).

(** [add_tool] *)
Definition add_tool (x : Executor) (tc : ToolCall) : Executor :=
  if discarded x then x
  else
    let batch := (tool_call <$> tracked x) ++ [tc] in
    if (length (cap_delegate_calls (deduplicate_tool_calls batch)) =? length (tracked x))%nat then x
    else
      let parallel := is_parallelizable (tc_name tc) && (negb saga || is_concurrency_safe (tc_name tc)) in
      let x := set_tracked x (tracked x ++ [tracked_of tc parallel]) in
      if start_early then process_queue x else x.

(** [_promote_batch_parallel_tools] *)
Definition promotable (t : TrackedTool) : bool :=
  negb (parallelizable t) && negb (bool_decide (status t = COMPLETED)) &&
  bool_decide (tc_name (tool_call t) ∈ BATCH_PARALLEL_TOOLS).
Definition promote (x : Executor) : Executor :=
  if saga then x
  else
    let candidates := List.filter promotable (tracked x) in
    if batch_has_duplicate_signatures loads canonical (tool_call <$> candidates) then x
    else set_tracked x ((λ t, if promotable t then set_parallel t else t) <$> tracked x).

(** [get_all_results], up to its first wait. *)
Definition commit (x : Executor) : Executor := process_queue (promote (set_saved x)).

(** *** The task of the call at place [i] ([_run_tool]) *)

Definition put (x : Executor) (i : nat) (t : TrackedTool) : Executor := set_tracked x (<[i := t]> (tracked x)).

(** Its [finally] clause. *)
Definition finish (x : Executor) (i : nat) (t : TrackedTool) : Executor :=
  let x := put x i (complete_tool t) in
  let x := if errored t && bool_decide (tc_name (tool_call t) ∈ SIBLING_ABORT_TOOLS) then abort_siblings x i else x in
  process_queue x.

(** [_is_error_result] *)
Definition is_error_result (text : string) : bool :=
  match loads text with Some (VDict d) => truthy (py_get (VDict d) "error" VNone) | _ => false end.

(** The stretch up to the first [await]. *)
Definition begin_task (x : Executor) (i : nat) (t : TrackedTool) : Executor :=
  if cancelling t then put x i (set_task t TaskDone)
  else if question_unanswered x then put x i (set_task t (Suspended AwaitSkip))
  else
    let '(g, blocked) := guard_before sha256 dumps parse_args c (tool_guardrails x) (tool_call t) in
    put (set_guardrails x g) i
      (set_task t (Suspended (match blocked with Some d => AwaitBlock d | None => AwaitTool end))).

(** The [except asyncio.CancelledError] clause. *)
Definition cancelled_message : string :=
  "Stopped before the computer reported a result. It may have run in part or in full: check before repeating it.".
Definition cancel_reason (x : Executor) : string :=
  if device then cancelled_message
  else if interrupting x then SKIPPED_BY_INTERRUPT else "cancelled (sibling error)".
Definition cancelled_task (x : Executor) (i : nat) (t : TrackedTool) : Executor :=
  let t := set_result t (make_skipped_tool_result (tool_call t) (cancel_reason x)) true in
  if detached x then finish x i t else put x i (set_task t (Suspended AwaitCancelled)).

(** The [except Exception] clause. *)
Definition failed_task (x : Executor) (i : nat) (t : TrackedTool) (e : string) : Executor :=
  finish x i (set_result t (mk_result (tc_id (tool_call t))
    (json (VDict [("error", VStr ("Tool execution failed: " +:+ e))]))) true).

(** From an [await] that ended on. *)
Definition resume_task (x : Executor) (i : nat) (t : TrackedTool) (w : awaiting) (e : await_end) : Executor :=
  match w, e with
  | AwaitCancelled, _ => finish x i t
  | _, Cancelled => cancelled_task x i t
  | _, Raised msg => failed_task x i t msg
  | AwaitSkip, Returned _ => finish x i (set_result t (make_skipped_tool_result (tool_call t) SKIPPED_BEHIND_QUESTION) (errored t))
  | AwaitBlock d, Returned _ => finish x i (set_result t (blocked_result json d (tool_call t)) true)
  | AwaitTool, Returned text =>
    let x := set_unanswered x (question_went_unanswered raw_decode (tc_name (tool_call t)) text) in
    let '(g, shown) := guard_result sha256 dumps loads parse_args c (tool_guardrails x) (tool_call t) text in
    finish (set_guardrails x g) i (set_result t (mk_result (tc_id (tool_call t)) shown) (is_error_result shown))
  end.

(** ** Runs *)

Inductive action :=
| AddTool (tc : ToolCall)
| Commit
| Discard
| Settle
| Begin (i : nat)
| Resume (i : nat) (e : await_end)
| Signals (interrupt detach : bool).

(** Calls are added while the response streams, and it is committed once. *)
Definition act (x : Executor) (a : action) : option Executor :=
  match a with
  | AddTool tc => if saved x then None else Some (add_tool x tc)
  | Commit => if saved x then None else Some (commit x)
  | Discard => Some (discard x)
  | Settle => Some (set_discarded x)
  | Begin i =>
    match tracked x !! i with
    | Some t => match task t with Some Created => Some (begin_task x i t) | _ => None end
    | None => None
    end
  | Resume i e =>
    match tracked x !! i with
    | Some t => match task t with Some (Suspended w) => Some (resume_task x i t w e) | _ => None end
    | None => None
    end
  | Signals interrupt detach => Some (set_signals x interrupt detach)
  end.

Fixpoint run (x : Executor) (acts : list action) : option Executor :=
  match acts with
  | [] => Some x
  | a :: acts => act x a ≫= λ x, run x acts
  end.
End executor.

(** ** The queue *)

(** Two calls that execute at once may do so; what waits, waits behind what has
    started. *)
Definition exclusive (l : list TrackedTool) : Prop :=
  ∀ i j t u, l !! i = Some t → l !! j = Some u → i ≠ j → status t = EXECUTING → status u = EXECUTING → parallelizable t = true.
Definition fifo (l : list TrackedTool) : Prop :=
  ∀ i j t u, l !! i = Some t → l !! j = Some u → (i < j)%nat → status t = QUEUED → status u = QUEUED.

(** One scan starts some of the queued calls. *)
Definition started (x : Executor) (t t' : TrackedTool) : Prop :=
  t' = t ∨ status t = QUEUED ∧ t' = start_execution t ∧ held x t = false ∧ stopped x = false.

Lemma started_refl_all x l : Forall2 (started x) l l.
Proof. induction l; constructor; [by left|done]. Qed.

(** Nothing starts on a queue that is stopped, or next to a call that must run
    alone. *)
Definition blocked (x : Executor) (l : list TrackedTool) : Prop :=
  stopped x = true ∨ ∃ t, t ∈ l ∧ status t = EXECUTING ∧ parallelizable t = false.

Lemma elem_of_filter_executing t l : t ∈ List.filter is_executing l ↔ t ∈ l ∧ status t = EXECUTING.
Proof.
  rewrite !list_elem_of_In, filter_In. unfold is_executing. by rewrite bool_decide_eq_true.
Qed.

Lemma blocked_cannot x l t : blocked x l → can_execute x l t = false.
Proof.
  unfold can_execute. intros [->|(u & Hu & He & Hp)]; [done|]. destruct (stopped x); [done|]. destruct (held x t); [done|].
  assert (Hin : u ∈ List.filter is_executing l) by (by apply elem_of_filter_executing).
  destruct (List.filter is_executing l) as [|v ex]; [by apply not_elem_of_nil in Hin|].
  apply andb_false_iff. right. apply not_true_iff_false. rewrite forallb_forall. intros Hall.
  rewrite (Hall u) in Hp; [done|]. by apply list_elem_of_In.
Qed.

Lemma scan_blocked x todo : ∀ before, blocked x (before ++ todo) → scan x before todo = before ++ todo.
Proof.
  induction todo as [|t todo IH]; intros before Hb; cbn [scan]; [by rewrite app_nil_r|].
  rewrite (blocked_cannot x _ t Hb). destruct (negb _); [|destruct (parallelizable t); [|done]];
    (rewrite IH; [by rewrite <- app_assoc|by rewrite <- app_assoc]).
Qed.

Lemma cannot_blocked x l t :
  can_execute x l t = false → parallelizable t = true → held x t = false → blocked x l.
Proof.
  unfold can_execute, blocked. intros Hc Hp Hh. destruct (stopped x); [by left|]. rewrite Hh in Hc. right.
  destruct (List.filter is_executing l) as [|v ex] eqn:Hex; [done|]. rewrite Hp in Hc. cbn [andb] in Hc.
  apply not_true_iff_false in Hc. rewrite forallb_forall in Hc. setoid_rewrite <- list_elem_of_In in Hc. rewrite <- Hex in Hc.
  destruct (decide (Exists (λ u, parallelizable u = false) (List.filter is_executing l))) as [He|He].
  - apply Exists_exists in He as (u & Hu%elem_of_filter_executing & ?). exists u. naive_solver.
  - exfalso. apply Hc. intros u Hu. apply not_false_iff_true. intros Hf. apply He, Exists_exists. by exists u.
Qed.

(** What may start next to what executes. *)
Lemma can_execute_true x l t :
  can_execute x l t = true →
  stopped x = false ∧ held x t = false ∧
  ∀ u, u ∈ l → status u = EXECUTING → parallelizable t = true ∧ parallelizable u = true.
Proof.
  unfold can_execute. destruct (stopped x); [done|]. destruct (held x t); [done|]. intros Hc. split_and!; [done..|].
  intros u Hu He. assert (Hin : u ∈ List.filter is_executing l) by (by apply elem_of_filter_executing).
  destruct (List.filter is_executing l) as [|v ex]; [by apply not_elem_of_nil in Hin|].
  apply andb_true_iff in Hc as [Ht Hc]. split; [done|]. rewrite forallb_forall in Hc. by apply Hc, list_elem_of_In.
Qed.

Lemma exclusive_start x before t todo :
  can_execute x (before ++ t :: todo) t = true → status t = QUEUED → exclusive (before ++ t :: todo) →
  exclusive (before ++ start_execution t :: todo).
Proof.
  intros (_ & _ & Hc)%can_execute_true Hq Hx i j u v Hi Hj Hij Hu Hv.
  assert (Hother : ∀ k w, k ≠ length before → (before ++ start_execution t :: todo) !! k = Some w →
    (before ++ t :: todo) !! k = Some w).
  { intros k w Hk Hw. destruct (decide (k < length before)%nat).
    - rewrite lookup_app_l in Hw |- * by done. done.
    - rewrite lookup_app_r in Hw |- * by lia. destruct (k - length before)%nat as [|k'] eqn:Hd; [lia|]. done. }
  destruct (decide (i = length before)) as [->|Hi'].
  - rewrite list_lookup_middle in Hi by done. injection Hi as <-. csimpl.
    eapply Hother in Hj; [|lia]. by destruct (Hc v (list_elem_of_lookup_2 _ _ _ Hj) Hv).
  - eapply Hother in Hi; [|done]. destruct (decide (j = length before)) as [->|Hj'].
    + by destruct (Hc u (list_elem_of_lookup_2 _ _ _ Hi) Hu).
    + eapply Hother in Hj; [|done]. by eapply (Hx i j u v).
Qed.

Definition not_queued (t : TrackedTool) : Prop := status t ≠ QUEUED.

Lemma fifo_start before t todo :
  Forall not_queued before → fifo (before ++ t :: todo) → fifo (before ++ start_execution t :: todo).
Proof.
  intros Hb Hf i j u v Hi Hj Hij Hu.
  assert (Hge : (length before < i)%nat).
  { destruct (decide (i < length before)%nat).
    - rewrite lookup_app_l in Hi by done. rewrite Forall_forall in Hb. by destruct (Hb u (list_elem_of_lookup_2 _ _ _ Hi)).
    - destruct (decide (i = length before)) as [->|]; [|lia]. rewrite list_lookup_middle in Hi by done. by simplify_eq. }
  assert (Hsame : ∀ k, (length before < k)%nat → (before ++ start_execution t :: todo) !! k = (before ++ t :: todo) !! k).
  { intros k Hk. rewrite !lookup_app_r by lia. destruct (k - length before)%nat eqn:?; [lia|]. done. }
  rewrite Hsame in Hi, Hj by lia. by eapply (Hf i j u v).
Qed.

#[local] Notation free x := (λ t, parallelizable t = true → held x t = false).

(** What a scan does of a queue in order: it starts calls that may start, keeps
    the order, and leaves none waiting unless something runs, all is stopped or
    the call is held. *)
Lemma scan_spec x todo : ∀ before,
  Forall not_queued before → fifo (before ++ todo) → exclusive (before ++ todo) → Forall (free x) todo →
  exclusive (scan x before todo) ∧ fifo (scan x before todo) ∧ Forall2 (started x) (before ++ todo) (scan x before todo) ∧
  (Forall not_queued (scan x before todo) ∨ stopped x = true ∨ (∃ t, t ∈ scan x before todo ∧ status t = EXECUTING) ∨
   (∃ t, t ∈ scan x before todo ∧ status t = QUEUED ∧ held x t = true)).
Proof.
  induction todo as [|t todo IH]; intros before Hb Hf Hx Hfree; cbn [scan].
  { rewrite app_nil_r in *. split_and!; [done..|apply started_refl_all|by left]. }
  apply Forall_cons in Hfree as [Hft Hfree].
  assert (Hassoc : ∀ u, (before ++ [u]) ++ todo = before ++ u :: todo) by (intros; by rewrite <- app_assoc).
  destruct (decide (status t = QUEUED)) as [Hq|Hq].
  2:{ rewrite bool_decide_eq_false_2 by done. cbn [negb]. rewrite <- (Hassoc t) in Hf, Hx |- *.
      apply IH; [|done..]. apply Forall_app. split; [done|]. by constructor. }
  rewrite bool_decide_eq_true_2 by done. cbn [negb].
  destruct (can_execute x (before ++ t :: todo) t) eqn:Hc.
  - destruct (can_execute_true _ _ _ Hc) as (Hs & Hh & _).
    pose proof (exclusive_start _ _ _ _ Hc Hq Hx) as Hx'.
    assert (Hst : Forall2 (started x) (before ++ t :: todo) (before ++ start_execution t :: todo)).
    { apply Forall2_app; [apply started_refl_all|]. constructor; [|apply started_refl_all]. by right. }
    pose proof (fifo_start _ _ _ Hb Hf) as Hf'.
    destruct (parallelizable t) eqn:Hp.
    + destruct (IH (before ++ [start_execution t])) as (H1 & H2 & H3 & H4); [|rewrite Hassoc; done..|done|].
      { apply Forall_app. split; [done|]. by constructor. }
      split_and!; [done..| |done]. rewrite Hassoc in H3.
      eapply Forall2_trans; [|exact Hst|exact H3].
      intros u v w [->|(Hu & -> & ? & ?)] Hvw; [done|]. destruct Hvw as [->|(Hv & _)]; [by right|by csimpl in Hv].
    + split_and!; [done..|]. right; right; left. exists (start_execution t). split; [|done].
      apply elem_of_app. right. apply list_elem_of_here.
  - destruct (parallelizable t) eqn:Hp.
    + pose proof (cannot_blocked _ _ _ Hc Hp (Hft eq_refl)) as Hbl.
      rewrite scan_blocked by (by rewrite Hassoc). rewrite Hassoc.
      split_and!; [done..|apply started_refl_all|]. right. destruct Hbl as [?|(u & ? & ? & _)]; [by left|]. right; left. by exists u.
    + split_and!; [done..|apply started_refl_all|]. right.
      unfold can_execute in Hc. destruct (stopped x); [by left|]. right.
      destruct (held x t) eqn:Hh; [right; exists t; split; [apply elem_of_app; right; apply list_elem_of_here|done]|left].
      destruct (List.filter is_executing _) as [|v ex] eqn:Hex; [done|]. exists v.
      apply elem_of_filter_executing. rewrite Hex. apply list_elem_of_here.
Qed.

(** Steps other than a scan never start a call. *)
Definition sim (t t' : TrackedTool) : Prop :=
  (status t' = status t ∨ status t = EXECUTING ∧ status t' = COMPLETED) ∧
  (parallelizable t = true → parallelizable t' = true).

Lemma sim_refl t : sim t t.
Proof. split; [by left|done]. Qed.

Lemma sim_all l l' : Forall2 sim l l' → exclusive l → fifo l → exclusive l' ∧ fifo l'.
Proof.
  intros Hs Hx Hf. split.
  - intros i j t' u' Hi Hj Hij Ht Hu.
    destruct (Forall2_lookup_r _ _ _ _ _ Hs Hi) as (t & Hi' & Hst & Hp). destruct (Forall2_lookup_r _ _ _ _ _ Hs Hj) as (u & Hj' & Hsu & _).
    apply Hp. eapply (Hx i j t u); [done..| |]; [destruct Hst as [|[? ?]]|destruct Hsu as [|[? ?]]]; congruence.
  - intros i j t' u' Hi Hj Hij Ht.
    destruct (Forall2_lookup_r _ _ _ _ _ Hs Hi) as (t & Hi' & Hst & _). destruct (Forall2_lookup_r _ _ _ _ _ Hs Hj) as (u & Hj' & Hsu & _).
    assert (Hq : status t = QUEUED) by (destruct Hst as [|[? ?]]; congruence).
    specialize (Hf i j t u Hi' Hj' Hij Hq). destruct Hsu as [|[? ?]]; congruence.
Qed.

Lemma sim_insert l i t t' : l !! i = Some t → sim t t' → Forall2 sim l (<[i := t']> l).
Proof.
  intros Hi Hs. apply Forall2_same_length_lookup_2; [by rewrite length_insert|].
  intros j u u' Hu Hu'. destruct (decide (i = j)) as [->|Hij].
  - rewrite list_lookup_insert_eq in Hu' by (by eapply lookup_lt_Some). by simplify_eq.
  - rewrite list_lookup_insert_ne in Hu' by done. simplify_eq. apply sim_refl.
Qed.

Lemma cancel_task_fields t :
  status (cancel_task t) = status t ∧ parallelizable (cancel_task t) = parallelizable t ∧ task (cancel_task t) = task t ∧
  result (cancel_task t) = result t ∧ tool_call (cancel_task t) = tool_call t.
Proof. unfold cancel_task. by destruct (undone t). Qed.

Lemma cancel_sim t : sim t (cancel_task t).
Proof. destruct (cancel_task_fields t) as (Hs & Hp & _). split; [left; done|by rewrite Hp]. Qed.

Lemma sim_fmap f l : (∀ t, sim t (f t)) → Forall2 sim l (f <$> l).
Proof. intros Hf. induction l; constructor; [apply Hf|done]. Qed.

Lemma sim_imap f l : (∀ i t, sim t (f i t)) → Forall2 sim l (imap f l).
Proof. revert f. induction l as [|t l IH]; intros f Hf; csimpl; constructor; [apply Hf|]. apply IH. intros. apply Hf. Qed.

Lemma tools_apart :
  Forall (λ t, t ∉ HELD_UNTIL_SAVED_TOOLS) PARALLEL_TOOLS ∧ "ask_user_question" ∉ BATCH_PARALLEL_TOOLS ∧
  Forall (λ t, t ∈ SAGA_EXCLUDED_TOOLS) CONCURRENCY_SAFE_TOOLS.
Proof. split_and!; apply (bool_decide_unpack _); by vm_compute. Qed.

Definition halted_all (x : Executor) : bool := sibling_aborted x || discarded x.

Section invariant.
Context (saga : bool).

(** A tracked call, [sv] once the response is saved, [hl] once the siblings are
    aborted or the response discarded. *)
Definition stage_ok (hl : bool) (t : TrackedTool) : Prop :=
  match status t, task t with
  | QUEUED, None => result t = None
  | EXECUTING, Some TaskDone => hl = true
  | EXECUTING, Some (Suspended AwaitCancelled) => is_Some (result t)
  | EXECUTING, Some _ => True
  | COMPLETED, Some TaskDone => is_Some (result t)
  | _, _ => False
  end.

Record ok_tool (sv hl : bool) (t : TrackedTool) : Prop := {
  ok_parallel : parallelizable t = true → tc_name (tool_call t) ∈ BATCH_PARALLEL_TOOLS ∧
    (saga = true → tc_name (tool_call t) ∈ CONCURRENCY_SAFE_TOOLS) ∧
    (sv = false → tc_name (tool_call t) ∈ PARALLEL_TOOLS);
  ok_held : sv = false → status t ≠ QUEUED → tc_name (tool_call t) ∉ HELD_UNTIL_SAVED_TOOLS;
  ok_stage : stage_ok hl t;
  ok_cancelling : cancelling t = true → hl = true;
  ok_result : ∀ r, result t = Some r → tool_call_id r = tc_id (tool_call t)
}.

Definition with_tool (t : TrackedTool) : Prop := task t = Some (Suspended AwaitTool).

Record inv (x : Executor) : Prop := {
  inv_exclusive : exclusive (tracked x);
  inv_fifo : fifo (tracked x);
  inv_tools : Forall (ok_tool (saved x) (halted_all x)) (tracked x);
  inv_question : question_unanswered x = true → Forall (λ t, ¬ with_tool t) (tracked x)
}.

Lemma inv_free x : inv x → Forall (λ t, parallelizable t = true → held x t = false) (tracked x).
Proof.
  intros Hinv. eapply Forall_impl; [apply (inv_tools _ Hinv)|]. intros t Ht Hp. unfold held.
  destruct (saved x); [done|]. cbn [negb andb]. apply bool_decide_eq_false_2.
  destruct tools_apart as (Ha & _). rewrite Forall_forall in Ha. apply Ha. by apply (ok_parallel _ _ _ Ht).
Qed.

Lemma ok_started x t t' :
  ok_tool (saved x) (halted_all x) t → started x t t' → ok_tool (saved x) (halted_all x) t' ∧ (with_tool t' → with_tool t).
Proof.
  intros Hok [->|(Hq & -> & Hh & _)]; [done|]. split; [|done]. destruct Hok as [Hp _ _ _ Hr].
  constructor; csimpl; [done| |done|done|done]. intros Hsv _. unfold held in Hh. rewrite Hsv in Hh.
  cbn [negb andb] in Hh. by apply bool_decide_eq_false in Hh.
Qed.

Lemma inv_process x :
  inv x →
  inv (process_queue x) ∧ Forall2 (started x) (tracked x) (tracked (process_queue x)) ∧
  (Forall not_queued (tracked (process_queue x)) ∨ stopped x = true ∨
   (∃ t, t ∈ tracked (process_queue x) ∧ status t = EXECUTING) ∨
   (∃ t, t ∈ tracked (process_queue x) ∧ status t = QUEUED ∧ held x t = true)).
Proof.
  intros Hinv. pose proof (inv_free x Hinv) as Hfree. destruct Hinv as [Hx Hf Ht Hq].
  destruct (scan_spec x (tracked x) []) as (Hx' & Hf' & Hs & Hl); [constructor|done..|].
  split_and!; [|exact Hs|exact Hl]. constructor; csimpl; [done..| |].
  - apply Forall_forall. intros t' [i Hi]%list_elem_of_lookup. destruct (Forall2_lookup_r _ _ _ _ _ Hs Hi) as (t & Hti & Hst).
    refine (proj1 (ok_started x t t' _ Hst)). rewrite Forall_forall in Ht. by eapply Ht, list_elem_of_lookup_2.
  - intros Hun. specialize (Hq Hun). apply Forall_forall. intros t' [i Hi]%list_elem_of_lookup Hw.
    destruct (Forall2_lookup_r _ _ _ _ _ Hs Hi) as (t & Hti & Hst). rewrite Forall_forall in Ht, Hq.
    apply (Hq t); [by eapply list_elem_of_lookup_2|]. refine (proj2 (ok_started x t t' _ Hst) Hw).
    by eapply Ht, list_elem_of_lookup_2.
Qed.

Lemma stage_ok_mono hl t : stage_ok hl t → stage_ok true t.
Proof. unfold stage_ok. by destruct (status t), (task t) as [[| [] |]|]. Qed.

Lemma ok_tool_halted sv hl t : ok_tool sv hl t → ok_tool sv true t.
Proof. intros [? ? Hs ? ?]. constructor; [done..|by eapply stage_ok_mono|done|done]. Qed.

Lemma ok_tool_cancel sv hl t : ok_tool sv hl t → ok_tool sv true (cancel_task t).
Proof.
  intros Hok%ok_tool_halted. destruct Hok as [Hp Hh Hs _ Hr].
  destruct (cancel_task_fields t) as (H1 & H2 & H3 & H4 & H5).
  constructor; rewrite ?H1, ?H2, ?H4, ?H5; [done..| |done|done]. unfold stage_ok in *. by rewrite H1, H3, H4.
Qed.

Lemma ok_tool_saved hl t : ok_tool false hl t → ok_tool true hl t.
Proof. intros [Hp ? ? ? ?]. constructor; [|done..]. intros Hpt. destruct (Hp Hpt) as (? & ? & ?). done. Qed.

(** A step that only changes some calls, none of them to its tool. *)
Lemma inv_step x l sv hl ab di g int det :
  inv x → Forall2 (λ t t', sim t t' ∧ (ok_tool (saved x) (halted_all x) t → ok_tool sv hl t') ∧ (with_tool t' → with_tool t)) (tracked x) l →
  ab || di = hl →
  inv (mk_executor l ab di sv (question_unanswered x) g int det).
Proof.
  intros [Hx Hf Ht Hq] Hl Hhl.
  assert (Hsim : Forall2 sim (tracked x) l) by (eapply Forall2_impl; [exact Hl|naive_solver]).
  destruct (sim_all _ _ Hsim Hx Hf) as [Hx' Hf']. constructor; csimpl; [done..| |].
  - unfold halted_all. csimpl. rewrite Hhl. apply Forall_forall. intros t' [i Hi]%list_elem_of_lookup.
    destruct (Forall2_lookup_r _ _ _ _ _ Hl Hi) as (t & Hti & _ & Hok & _). apply Hok. rewrite Forall_forall in Ht.
    by eapply Ht, list_elem_of_lookup_2.
  - intros Hun. specialize (Hq Hun). apply Forall_forall. intros t' [i Hi]%list_elem_of_lookup Hw.
    destruct (Forall2_lookup_r _ _ _ _ _ Hl Hi) as (t & Hti & _ & _ & Hwt). rewrite Forall_forall in Hq.
    by apply (Hq t); [eapply list_elem_of_lookup_2|apply Hwt].
Qed.

Lemma same_tools x sv hl :
  (∀ t, ok_tool (saved x) (halted_all x) t → ok_tool sv hl t) →
  Forall2 (λ t t', sim t t' ∧ (ok_tool (saved x) (halted_all x) t → ok_tool sv hl t') ∧ (with_tool t' → with_tool t)) (tracked x) (tracked x).
Proof. intros Hok. induction (tracked x); constructor; [|done]. split_and!; [apply sim_refl|apply Hok|done]. Qed.

Lemma cancel_step t hl sv :
  sim t (cancel_task t) ∧ (ok_tool sv hl t → ok_tool sv true (cancel_task t)) ∧ (with_tool (cancel_task t) → with_tool t).
Proof.
  split_and!; [apply cancel_sim|apply ok_tool_cancel|]. unfold with_tool. by destruct (cancel_task_fields t) as (_ & _ & -> & _).
Qed.

Lemma inv_discard x : inv x → inv (discard x).
Proof.
  intros Hinv. unfold discard, set_tracked. csimpl. apply (inv_step x _ _ true); [done| |by rewrite orb_true_r].
  induction (tracked x); constructor; [|done]. by apply cancel_step.
Qed.

Lemma inv_settle x : inv x → inv (set_discarded x).
Proof. intros Hinv. apply (inv_step x _ _ true); [done| |by rewrite orb_true_r]. apply same_tools. apply ok_tool_halted. Qed.

Lemma inv_signals x a b : inv x → inv (set_signals x a b).
Proof. intros Hinv. apply (inv_step x _ _ (halted_all x)); [done|by apply same_tools|done]. Qed.

Lemma cancel_some sv hl f : (∀ j t, f j t = t ∨ f j t = cancel_task t) → ∀ l,
  Forall2 (λ t t', sim t t' ∧ (ok_tool sv hl t → ok_tool sv true t') ∧ (with_tool t' → with_tool t)) l (imap f l).
Proof.
  intros Hf l. revert f Hf. induction l as [|t l IH]; intros f Hf; csimpl; constructor.
  - destruct (Hf 0%nat t) as [->| ->]; [|by apply cancel_step]. split_and!; [apply sim_refl|apply ok_tool_halted|done].
  - apply IH. intros j u. apply (Hf (S j)).
Qed.

Lemma inv_abort x i : inv x → inv (abort_siblings x i).
Proof.
  intros Hinv. unfold abort_siblings, set_tracked. csimpl. apply (inv_step x _ _ true); [done| |done].
  apply cancel_some. intros j t. destruct (negb _ && _); [by right|by left].
Qed.
End invariant.

(** How many stretches a call has left at most. *)
Definition weight (t : TrackedTool) : nat :=
  match task t with
  | None => 4
  | Some Created => 3
  | Some (Suspended AwaitCancelled) => 1
  | Some (Suspended _) => 2
  | Some TaskDone => 0
  end.
Definition stretches_left (x : Executor) : nat := sum_list_with weight (tracked x).

Lemma weights_le l l' : Forall2 (λ t t', (weight t' <= weight t)%nat) l l' → (sum_list_with weight l' <= sum_list_with weight l)%nat.
Proof. induction 1; csimpl; lia. Qed.

Lemma weight_insert l i t t' :
  l !! i = Some t → (sum_list_with weight (<[i := t']> l) + weight t = sum_list_with weight l + weight t')%nat.
Proof.
  revert i. induction l as [|u l IH]; intros [|i] Hi; csimpl in *; [done..|simplify_eq; lia|]. specialize (IH i Hi). lia.
Qed.

Lemma weight_cancel t : weight (cancel_task t) = weight t.
Proof. unfold weight. by destruct (cancel_task_fields t) as (_ & _ & -> & _). Qed.

Lemma weights_discard x : stretches_left (discard x) = stretches_left x.
Proof. unfold stretches_left, discard. csimpl. induction (tracked x) as [|t l IH]; csimpl; [done|]. by rewrite weight_cancel, IH. Qed.

Lemma weights_abort x i : stretches_left (abort_siblings x i) = stretches_left x.
Proof.
  unfold stretches_left, abort_siblings. csimpl.
  assert (Hf : ∀ l f, (∀ j t, f j t = t ∨ f j t = cancel_task t) → sum_list_with weight (imap f l) = sum_list_with weight l).
  { induction l as [|t l IH]; intros f Hf; csimpl; [done|]. rewrite (IH (f ∘ S)) by (intros; apply (Hf (S j))).
    destruct (Hf 0%nat t) as [-> | ->]; [done|]. by rewrite weight_cancel. }
  apply Hf. intros j t. destruct (negb _ && _); [by right|by left].
Qed.

Section steps.
#[local] Set Default Proof Using "All".
Context (sha256 : string → string) (dumps : pyval → string) (loads : string → option pyval).
Context (canonical : pyval → string) (json : pyval → string) (raw_decode : string → option pyval).
Context (parse_args : ToolCall → pyval) (c : ToolGuardrailConfig) (saga start_early device : bool).
Notation inv := (inv saga).
Notation ok_tool := (ok_tool saga).
Notation act := (act sha256 dumps loads canonical json raw_decode parse_args c saga start_early device).
Notation run := (run sha256 dumps loads canonical json raw_decode parse_args c saga start_early device).

Lemma inv_add_tool x tc : inv x → inv (add_tool saga start_early x tc).
Proof.
  intros Hinv. unfold add_tool. destruct (discarded x); [done|]. destruct (_ =? _)%nat; [done|].
  set (par := _ && _). set (x' := set_tracked x _).
  assert (Hx' : inv x').
  { destruct Hinv as [Hx Hf Ht Hq]. assert (Hlast : ∀ i t, tracked x' !! i = Some t → tracked x !! i = Some t ∨
      i = length (tracked x) ∧ t = tracked_of tc par).
    { intros i t. subst x'. csimpl. intros [?|[? Hi]]%lookup_app_Some; [by left|]. right.
      destruct (i - length (tracked x))%nat eqn:Hl; [|done]. csimpl in Hi. split; [lia|congruence]. }
    constructor.
    - intros i j t u Hi Hj Hij Htt Hu. destruct (Hlast _ _ Hi) as [Hi'|[_ ->]]; [|done].
      destruct (Hlast _ _ Hj) as [Hj'|[_ ->]]; [|done]. by eapply (Hx i j t u).
    - intros i j t u Hi Hj Hij Htt. destruct (Hlast _ _ Hj) as [Hj'|[_ ->]]; [|done].
      destruct (Hlast _ _ Hi) as [Hi'|[-> _]]; [by eapply (Hf i j t u)|]. apply lookup_lt_Some in Hj'. lia.
    - subst x'. csimpl. apply Forall_app. split; [done|]. constructor; [|done]. constructor; csimpl; [|done..].
      subst par. unfold is_parallelizable, is_concurrency_safe. intros [Hp Hs]%andb_true_iff.
      apply bool_decide_eq_true in Hp. split_and!; [unfold BATCH_PARALLEL_TOOLS; set_solver| |done].
      intros ->. csimpl in Hs. by apply bool_decide_eq_true in Hs.
    - subst x'. csimpl. intros Hun. apply Forall_app. split; [by apply Hq|]. by constructor. }
  destruct start_early; [|done]. by apply inv_process.
Qed.

Lemma inv_saved x : inv x → inv (set_saved x).
Proof.
  intros Hinv. apply (inv_step saga x _ _ (halted_all x)); [done| |done]. apply same_tools.
  destruct (saved x); [done|apply ok_tool_saved].
Qed.

Lemma inv_promote x : saved x = true → inv x → inv (promote loads canonical saga x).
Proof.
  intros Hsv Hinv. unfold promote. destruct saga eqn:Hsaga; [done|].
  destruct (batch_has_duplicate_signatures _ _ _); [done|]. apply (inv_step false x _ _ (halted_all x)); [done| |done].
  rewrite Hsv. clear Hinv Hsv. induction (tracked x) as [|t l IH]; constructor; [|done].
  destruct (promotable t) eqn:Hp; [|split_and!; [apply sim_refl|done|done]].
  split_and!; [split; [by left|done]| |done]. intros [_ ? ? ? ?]. constructor; csimpl; [|done..].
  intros _. unfold promotable in Hp. apply andb_true_iff in Hp as [_ Hp%bool_decide_eq_true]. done.
Qed.

Lemma inv_commit x : inv x → inv (commit loads canonical saga x).
Proof. intros Hinv. apply inv_process, inv_promote; [done|]. by apply inv_saved. Qed.

Lemma inv_put x i t t' :
  inv x → tracked x !! i = Some t → sim t t' → ok_tool (saved x) (halted_all x) t' →
  (question_unanswered x = true → ¬ with_tool t') → inv (put x i t').
Proof.
  intros [Hx Hf Ht Hq] Hi Hsim Hok Hw.
  destruct (sim_all _ _ (sim_insert _ _ _ _ Hi Hsim) Hx Hf) as [Hx' Hf'].
  constructor; csimpl; [done..| |].
  - by apply Forall_insert.
  - intros Hun. apply Forall_insert; auto.
Qed.

(** What [finish] scans. *)
Definition to_scan (x : Executor) (i : nat) (t : TrackedTool) : Executor :=
  if errored t && bool_decide (tc_name (tool_call t) ∈ SIBLING_ABORT_TOOLS) then abort_siblings (put x i (complete_tool t)) i
  else put x i (complete_tool t).
(** The others are not with their tools, once the question is unanswered. *)
Definition others_idle (x : Executor) (i : nat) : Prop :=
  question_unanswered x = true → ∀ j t, tracked x !! j = Some t → j ≠ i → ¬ with_tool t.

Lemma inv_to_scan x i t0 t :
  exclusive (tracked x) → fifo (tracked x) → Forall (ok_tool (saved x) (halted_all x)) (tracked x) →
  others_idle x i → tracked x !! i = Some t0 → status t0 = EXECUTING →
  tool_call t = tool_call t0 → parallelizable t = parallelizable t0 → cancelling t = cancelling t0 →
  is_Some (result t) → (∀ r, result t = Some r → tool_call_id r = tc_id (tool_call t)) →
  inv (to_scan x i t).
Proof.
  intros Hx Hf Ht Hq Hi Hs Hcall Hpar Hcan Hres Hid. unfold to_scan.
  assert (Hput : inv (put x i (complete_tool t))).
  { assert (Hsim : sim t0 (complete_tool t)) by (split; [by right|csimpl; by rewrite Hpar]).
    destruct (sim_all _ _ (sim_insert _ _ _ _ Hi Hsim) Hx Hf) as [Hx' Hf'].
    assert (Hok : ok_tool (saved x) (halted_all x) t0) by (rewrite Forall_forall in Ht; by eapply Ht, list_elem_of_lookup_2).
    constructor; csimpl; [done..| |].
    - apply Forall_insert; [done|]. destruct Hok as [Hp Hh _ Hc _]. constructor; csimpl; rewrite ?Hcall, ?Hpar, ?Hcan; [done| |done|done|].
      + intros Hsv _. apply Hh; [done|]. by rewrite Hs.
      + intros r Hr. rewrite <- Hcall. by apply Hid.
    - intros Hun. specialize (Hq Hun). apply Forall_forall. intros u [j Hj]%list_elem_of_lookup.
      destruct (decide (i = j)) as [->|Hij].
      + rewrite list_lookup_insert_eq in Hj by (by eapply lookup_lt_Some). by simplify_eq.
      + rewrite list_lookup_insert_ne in Hj by done. eapply Hq; [exact Hj|congruence]. }
  destruct (errored t && _); [by apply inv_abort|done].
Qed.

Lemma inv_others_idle x i : inv x → others_idle x i.
Proof.
  intros Hinv Hun j t Hj _. pose proof (inv_question _ _ Hinv Hun) as Hq. rewrite Forall_forall in Hq.
  by eapply Hq, list_elem_of_lookup_2.
Qed.

Lemma inv_begin x i t :
  inv x → tracked x !! i = Some t → task t = Some Created → inv (begin_task sha256 dumps parse_args c x i t).
Proof.
  intros Hinv Hi Htask. pose proof (inv_tools _ _ Hinv) as Ht. rewrite Forall_forall in Ht.
  specialize (Ht t (list_elem_of_lookup_2 _ _ _ Hi)).
  assert (Hst : status t = EXECUTING).
  { pose proof (ok_stage _ _ _ _ Ht) as Hs. unfold stage_ok in Hs. rewrite Htask in Hs. by destruct (status t). }
  assert (Hto : ∀ k, (k = TaskDone → halted_all x = true) → k ≠ Suspended AwaitCancelled →
    ok_tool (saved x) (halted_all x) (set_task t k)).
  { intros k Hk Hk'. destruct Ht as [? ? ? ? ?]. constructor; csimpl; [done..| |done|done].
    unfold stage_ok. csimpl. rewrite Hst. destruct k as [|[]|]; try done. by apply Hk. }
  assert (Hsim : ∀ k, sim t (set_task t k)) by (intros; split; [by left|done]).
  unfold begin_task. destruct (cancelling t) eqn:Hc.
  { eapply inv_put; [done..| |done]. apply Hto; [|done]. intros _. by apply (ok_cancelling _ _ _ _ Ht). }
  destruct (question_unanswered x) eqn:Hun; [eapply inv_put; [done..| |done]; by apply Hto|].
  destruct (guard_before _ _ _ _ _ _) as [g [d|]];
    (eapply (inv_put (set_guardrails x g)); [by apply (inv_step saga x _ _ (halted_all x)); [|apply same_tools|]|done|done| |]);
    csimpl; try (by rewrite Hun); by apply Hto.
Qed.

(** What a step changes besides the calls. *)
Definition same_signals (x y : Executor) : Prop :=
  sibling_aborted y = sibling_aborted x ∧ discarded y = discarded x ∧ saved y = saved x ∧
  interrupting y = interrupting x ∧ detached y = detached x.

(** A stretch after a wait either ends its call, and scans the queue, or starts
    the last wait of a cancelled one. *)
Definition resumed (x : Executor) (i : nat) (t : TrackedTool) (w : awaiting) (x' : Executor) : Prop :=
  (∃ y t', x' = process_queue (to_scan y i t') ∧ inv (to_scan y i t') ∧ tracked y = tracked x ∧ same_signals x y) ∨
  (∃ r, x' = put x i (set_task (set_result t r true) (Suspended AwaitCancelled)) ∧ inv x' ∧ w ≠ AwaitCancelled).

Lemma resume_cases x i t w e :
  inv x → tracked x !! i = Some t → task t = Some (Suspended w) →
  resumed x i t w (resume_task sha256 dumps loads json raw_decode parse_args c device x i t w e).
Proof.
  intros Hinv Hi Htask. pose proof (inv_tools _ _ Hinv) as Ht. rewrite Forall_forall in Ht.
  specialize (Ht t (list_elem_of_lookup_2 _ _ _ Hi)).
  assert (Hst : status t = EXECUTING).
  { pose proof (ok_stage _ _ _ _ Ht) as Hs. unfold stage_ok in Hs. rewrite Htask in Hs. by destruct (status t), w. }
  assert (Hfin : ∀ y t', tracked y = tracked x → same_signals x y → others_idle y i →
    tool_call t' = tool_call t → parallelizable t' = parallelizable t → cancelling t' = cancelling t → is_Some (result t') →
    (∀ r, result t' = Some r → tool_call_id r = tc_id (tool_call t')) → resumed x i t w (finish y i t')).
  { intros y t' Hy Hsig Hidle H1 H2 H3 H4 H5. left. exists y, t'. split; [done|]. split; [|by split].
    destruct Hsig as (Ha & Hd & Hsv & _ & _). destruct Hinv as [Hx Hf Hall _].
    apply (inv_to_scan y i t t'); rewrite ?Hy; try done. unfold halted_all. by rewrite Ha, Hd, Hsv. }
  assert (Hself : same_signals x x) by by split_and!.
  pose proof (inv_others_idle x i Hinv) as Hidle.
  assert (Hres : ∀ r b, tool_call_id r = tc_id (tool_call t) → resumed x i t w (finish x i (set_result t r b))).
  { intros r b Hr. apply Hfin; (done || by intros r' [= <-]). }
  assert (Hcancelled : w ≠ AwaitCancelled → resumed x i t w (cancelled_task device x i t)).
  { intros Hw. unfold cancelled_task. destruct (detached x); [by apply Hres|]. right. eexists. split; [reflexivity|]. split; [|done].
    eapply inv_put; [done..|split; [by left|done]| |done].
    destruct Ht as [? ? ? ? ?]. constructor; csimpl; [done..| |done|by intros r [= <-]].
    unfold stage_ok. csimpl. rewrite Hst. by eexists. }
  assert (Hfailed : ∀ m, resumed x i t w (failed_task json x i t m)) by (intros; by apply Hres).
  destruct w as [|d| |]; destruct e as [text|m|]; csimpl; try (by apply Hres); try (by apply Hfailed); try (by apply Hcancelled).
  2,3,4: pose proof (ok_stage _ _ _ _ Ht) as Hs; unfold stage_ok in Hs; rewrite Htask, Hst in Hs;
    apply Hfin; try done; apply (ok_result _ _ _ _ Ht).
  destruct (guard_result _ _ _ _ _ _ _ _) as [g shown].
  apply Hfin; try done; [|by intros r [= <-]].
  intros Hun j u Hj Hij. csimpl in Hun. csimpl in Hj. apply orb_true_iff in Hun as [Hun|Hun]; [by apply Hidle with j|].
  intros Hw. pose proof (inv_tools _ _ Hinv) as Hu. rewrite Forall_forall in Hu.
  specialize (Hu u (list_elem_of_lookup_2 _ _ _ Hj)). pose proof (ok_stage _ _ _ _ Hu) as Hs. unfold stage_ok in Hs.
  rewrite Hw in Hs. assert (Hsu : status u = EXECUTING) by (by destruct (status u)).
  pose proof (inv_exclusive _ _ Hinv i j t u Hi Hj (not_eq_sym Hij) Hst Hsu) as Hpar.
  apply (ok_parallel _ _ _ _ Ht) in Hpar as [Hb _]. unfold question_went_unanswered in Hun.
  apply andb_true_iff in Hun as [Hn%String.eqb_eq _]. rewrite Hn in Hb. by apply tools_apart in Hb.
Qed.

Lemma inv_resume x i t w e :
  inv x → tracked x !! i = Some t → task t = Some (Suspended w) →
  inv (resume_task sha256 dumps loads json raw_decode parse_args c device x i t w e).
Proof.
  intros Hinv Hi Ht. destruct (resume_cases x i t w e Hinv Hi Ht) as [(y & t' & -> & Hy & _)|(r & -> & Hy & _)]; [|done].
  by apply inv_process.
Qed.

Lemma inv_act x a x' : inv x → act x a = Some x' → inv x'.
Proof.
  intros Hinv. destruct a as [tc| | | |i|i e|a b]; csimpl.
  - destruct (saved x); [done|]. intros [= <-]. by apply inv_add_tool.
  - destruct (saved x); [done|]. intros [= <-]. by apply inv_commit.
  - intros [= <-]. by apply inv_discard.
  - intros [= <-]. by apply inv_settle.
  - destruct (tracked x !! i) as [t|] eqn:Hi; [|done]. destruct (task t) as [[| |]|] eqn:Ht; try done. intros [= <-].
    by apply inv_begin.
  - destruct (tracked x !! i) as [t|] eqn:Hi; [|done]. destruct (task t) as [[|w|]|] eqn:Ht; try done. intros [= <-].
    by apply inv_resume.
  - intros [= <-]. by apply inv_signals.
Qed.

Lemma inv_new g : inv (new_executor g).
Proof. constructor; csimpl; [done|done|constructor|done]. Qed.

Lemma inv_run acts : ∀ x x', inv x → run x acts = Some x' → inv x'.
Proof.
  induction acts as [|a acts IH]; intros x x' Hinv; csimpl; [by intros [= <-]|].
  intros (y & Hy & Hr)%bind_Some. eapply IH; [|exact Hr]. by eapply inv_act.
Qed.

(** *** Every wait ends *)

Lemma stretches_process x : inv x → (stretches_left (process_queue x) <= stretches_left x)%nat.
Proof.
  intros Hinv. destruct (inv_process _ _ Hinv) as (_ & Hs & _). apply weights_le.
  apply Forall2_same_length_lookup_2; [by eapply Forall2_length|]. intros i t t' Hi Hi'.
  destruct (Forall2_lookup_lr _ _ _ _ _ _ Hs Hi Hi') as [->|(Hq & -> & _)]; [done|].
  pose proof (inv_tools _ _ Hinv) as Ht. rewrite Forall_forall in Ht.
  pose proof (ok_stage _ _ _ _ (Ht t (list_elem_of_lookup_2 _ _ _ Hi))) as Hst. unfold stage_ok in Hst. rewrite Hq in Hst.
  unfold weight. csimpl. destruct (task t); [done|lia].
Qed.

Lemma to_scan_signals x i t :
  discarded (to_scan x i t) = discarded x ∧ saved (to_scan x i t) = saved x ∧
  interrupting (to_scan x i t) = interrupting x ∧ detached (to_scan x i t) = detached x ∧
  length (tracked (to_scan x i t)) = length (tracked x) ∧
  (sibling_aborted (to_scan x i t) = false → sibling_aborted x = false).
Proof.
  unfold to_scan. destruct (errored t && _); csimpl; rewrite ?length_imap, ?length_insert; by split_and!.
Qed.

Lemma stretches_to_scan x i t0 t :
  tracked x !! i = Some t0 → (stretches_left (to_scan x i t) + weight t0 = stretches_left x)%nat.
Proof.
  intros Hi. pose proof (weight_insert _ _ _ (complete_tool t) Hi) as Hw. unfold weight at 4 in Hw. csimpl in Hw.
  unfold to_scan. destruct (errored t && _); [rewrite weights_abort|]; unfold stretches_left; csimpl; lia.
Qed.

Definition is_stretch (a : action) : bool := match a with Begin _ | Resume _ _ => true | _ => false end.

Lemma act_stretch x a x' :
  inv x → saved x = true → act x a = Some x' →
  saved x' = true ∧ length (tracked x') = length (tracked x) ∧
  ((if is_stretch a then 1 else 0) + stretches_left x' <= stretches_left x)%nat.
Proof.
  intros Hinv Hsv. destruct a as [tc| | | |i|i e|a b]; csimpl; try (by rewrite Hsv).
  - intros [= <-]. rewrite weights_discard. unfold discard. csimpl. by rewrite length_fmap.
  - intros [= <-]. done.
  - destruct (tracked x !! i) as [t|] eqn:Hi; [|done]. destruct (task t) as [[| |]|] eqn:Ht; try done. intros [= <-].
    assert (Hput : ∀ g k, (weight (set_task t k) <= 2)%nat →
      saved (put (set_guardrails x g) i (set_task t k)) = true ∧
      length (tracked (put (set_guardrails x g) i (set_task t k))) = length (tracked x) ∧
      (1 + stretches_left (put (set_guardrails x g) i (set_task t k)) <= stretches_left x)%nat).
    { intros g k Hk. pose proof (weight_insert _ _ _ (set_task t k) Hi) as Hw. unfold weight at 2 in Hw. rewrite Ht in Hw.
      csimpl. rewrite length_insert. split_and!; [done..|]. unfold stretches_left in *. csimpl. lia. }
    unfold begin_task. destruct (cancelling t); [apply (Hput (tool_guardrails x) TaskDone); cbv [weight set_task task]; lia|].
    destruct (question_unanswered x); [apply (Hput (tool_guardrails x)); cbv [weight set_task task]; lia|].
    destruct (guard_before _ _ _ _ _ _) as [g [d|]]; apply Hput; cbv [weight set_task task]; lia.
  - destruct (tracked x !! i) as [t|] eqn:Hi; [|done]. destruct (task t) as [[|w|]|] eqn:Ht; try done. intros [= <-].
    assert (Hwt : weight t = match w with AwaitCancelled => 1 | _ => 2 end) by (unfold weight; by rewrite Ht).
    destruct (resume_cases x i t w e Hinv Hi Ht) as [(y & t' & -> & Hy & Htr & _ & _ & Hsy & _)|(r & -> & _ & Hw)].
    + destruct (inv_process _ _ Hy) as (_ & Hs & _). pose proof (stretches_process _ Hy).
      apply Forall2_length in Hs. destruct (to_scan_signals y i t') as (_ & Hsv' & _ & _ & Hl & _).
      pose proof (stretches_to_scan y i t t') as Hle. rewrite Htr in Hle, Hl. specialize (Hle Hi).
      assert (Hyx : stretches_left y = stretches_left x) by (unfold stretches_left; by rewrite Htr).
      split_and!; [change (saved (to_scan y i t') = true); congruence|congruence|destruct w; lia].
    + pose proof (weight_insert _ _ _ (set_task (set_result t r true) (Suspended AwaitCancelled)) Hi) as Hle.
      csimpl. rewrite length_insert. split_and!; [done..|]. unfold stretches_left. csimpl.
      unfold weight at 4 in Hle. csimpl in Hle. destruct w; [lia|lia|lia|done].
  - intros [= <-]. done.
Qed.

Lemma run_stretches acts : ∀ x x',
  inv x → saved x = true → run x acts = Some x' →
  (length (List.filter is_stretch acts) + stretches_left x' <= stretches_left x)%nat.
Proof.
  induction acts as [|a acts IH]; intros x x' Hinv Hsv; csimpl; [intros [= <-]; lia|].
  intros (y & Hy & Hr)%bind_Some. destruct (act_stretch _ _ _ Hinv Hsv Hy) as (Hsy & _ & Hle).
  specialize (IH y x' (inv_act _ _ _ Hinv Hy) Hsy Hr). destruct (is_stretch a); csimpl; lia.
Qed.

Lemma stretches_bound x : (stretches_left x <= 4 * length (tracked x))%nat.
Proof.
  unfold stretches_left. induction (tracked x) as [|t l IH]; csimpl; [lia|].
  assert (weight t <= 4)%nat by (unfold weight; destruct (task t) as [[|[]|]|]; lia). lia.
Qed.

(** *** Nothing is left waiting *)

(** No one stops the turn. *)
Definition undisturbed (a : action) : Prop := match a with Discard | Settle | Signals _ _ => False | _ => True end.

Record live (x : Executor) : Prop := {
  live_discarded : discarded x = false;
  live_interrupting : interrupting x = false;
  live_detached : detached x = false;
  live_queue : saved x = true → sibling_aborted x = false →
    (∃ t, t ∈ tracked x ∧ status t = EXECUTING) ∨ Forall not_queued (tracked x)
}.

Lemma live_process x :
  inv x → discarded x = false → interrupting x = false → detached x = false → live (process_queue x).
Proof.
  intros Hinv Hd Hi Ht. constructor; csimpl; [done..|]. intros Hsv Ha.
  destruct (inv_process _ _ Hinv) as (_ & _ & [?|[Hs|[?|(t & _ & _ & Hh)]]]); [by right| |by left|].
  - unfold stopped in Hs. by rewrite Ha, Hd, Hi, Ht in Hs.
  - unfold held in Hh. by rewrite Hsv in Hh.
Qed.

Lemma live_put x i t t' :
  live x → tracked x !! i = Some t → status t' = EXECUTING → live (put x i t').
Proof.
  intros [? ? ? Hq] Hi Hs. constructor; csimpl; [done..|]. intros _ _. left. exists t'. split; [|done].
  apply list_elem_of_lookup. exists i. apply list_lookup_insert_eq. by eapply lookup_lt_Some.
Qed.

Lemma live_act x a x' : inv x → live x → undisturbed a → act x a = Some x' → live x'.
Proof.
  intros Hinv Hl Hu. pose proof Hl as [Hd Hi Ht Hq]. destruct a as [tc| | | |i|i e|a b]; csimpl; try done.
  - destruct (saved x) eqn:Hsv; [done|]. intros [= <-]. pose proof (inv_add_tool x tc Hinv) as Hinv'.
    assert (Hsame : discarded (add_tool saga start_early x tc) = false ∧ interrupting (add_tool saga start_early x tc) = false ∧
      detached (add_tool saga start_early x tc) = false ∧ saved (add_tool saga start_early x tc) = false).
    { unfold add_tool. rewrite Hd. destruct (_ =? _)%nat; [done|]. by destruct start_early. }
    destruct Hsame as (? & ? & ? & Hsv'). constructor; [done..|]. by rewrite Hsv'.
  - destruct (saved x) eqn:Hsv; [done|]. intros [= <-]. apply live_process.
    + apply inv_promote; [done|]. by apply inv_saved.
    + unfold promote. destruct saga; [done|]. by destruct (batch_has_duplicate_signatures _ _ _).
    + unfold promote. destruct saga; [done|]. by destruct (batch_has_duplicate_signatures _ _ _).
    + unfold promote. destruct saga; [done|]. by destruct (batch_has_duplicate_signatures _ _ _).
  - destruct (tracked x !! i) as [t|] eqn:Hti; [|done]. destruct (task t) as [[| |]|] eqn:Htask; try done. intros [= <-].
    pose proof (inv_tools _ _ Hinv) as Hall. rewrite Forall_forall in Hall.
    pose proof (ok_stage _ _ _ _ (Hall t (list_elem_of_lookup_2 _ _ _ Hti))) as Hs. unfold stage_ok in Hs. rewrite Htask in Hs.
    assert (Hst : status t = EXECUTING) by (by destruct (status t)).
    assert (Hg : ∀ g, live (set_guardrails x g)) by (intros; by constructor).
    unfold begin_task. destruct (cancelling t); [by eapply live_put|].
    destruct (question_unanswered x); [by eapply live_put|].
    destruct (guard_before _ _ _ _ _ _) as [g [d|]]; (eapply live_put; [apply Hg|done|done]).
  - destruct (tracked x !! i) as [t|] eqn:Hti; [|done]. destruct (task t) as [[|w|]|] eqn:Htask; try done. intros [= <-].
    pose proof (inv_tools _ _ Hinv) as Hall. rewrite Forall_forall in Hall.
    pose proof (ok_stage _ _ _ _ (Hall t (list_elem_of_lookup_2 _ _ _ Hti))) as Hs. unfold stage_ok in Hs. rewrite Htask in Hs.
    assert (Hst : status t = EXECUTING) by (by destruct (status t), w).
    destruct (resume_cases x i t w e Hinv Hti Htask) as [(y & t' & -> & Hy & _ & _ & Hdy & _ & Hiy & Hty)|(r & -> & _)].
    + destruct (to_scan_signals y i t') as (Hd' & _ & Hi' & Ht' & _). apply live_process; [done|congruence..].
    + eapply live_put; [done..|]. done.
Qed.

Lemma live_run acts : ∀ x x', inv x → live x → Forall undisturbed acts → run x acts = Some x' → live x'.
Proof.
  induction acts as [|a acts IH]; intros x x' Hinv Hl; csimpl; [by intros _ [= <-]|].
  intros [Hu Hus]%Forall_cons (y & Hy & Hr)%bind_Some. eapply IH; [by eapply inv_act|by eapply live_act|done..].
Qed.
(** *** The calls that are tracked *)

Definition calls (x : Executor) : list ToolCall := tool_call <$> tracked x.
Definition added (acts : list action) : list ToolCall := omap (λ a, match a with AddTool tc => Some tc | _ => None end) acts.

Lemma calls_scan x todo : ∀ before, tool_call <$> scan x before todo = tool_call <$> (before ++ todo).
Proof.
  induction todo as [|t todo IH]; intros before; cbn [scan]; [by rewrite app_nil_r|].
  destruct (negb _); [|destruct (can_execute _ _ _); destruct (parallelizable t)]; rewrite ?IH, ?fmap_app; csimpl; rewrite ?fmap_app;
    csimpl; by rewrite <- ?app_assoc.
Qed.

Lemma calls_process x : calls (process_queue x) = calls x.
Proof. apply calls_scan. Qed.

Lemma calls_cancel (l : list TrackedTool) : tool_call <$> (cancel_task <$> l) = tool_call <$> l.
Proof. induction l as [|t l IH]; csimpl; [done|]. by destruct (cancel_task_fields t) as (_ & _ & _ & _ & ->); rewrite IH. Qed.

Lemma calls_insert (l : list TrackedTool) i t t' : l !! i = Some t → tool_call t' = tool_call t → tool_call <$> <[i:=t']> l = tool_call <$> l.
Proof. intros Hi Ht. rewrite list_fmap_insert, Ht. apply list_insert_id. by rewrite list_lookup_fmap, Hi. Qed.

Lemma calls_abort x i : calls (abort_siblings x i) = calls x.
Proof.
  unfold calls, abort_siblings. csimpl.
  assert (Hf : ∀ l f, (∀ j t, tool_call (f j t) = tool_call t) → tool_call <$> imap f l = tool_call <$> l).
  { induction l as [|t l IH]; intros f Hf; csimpl; [done|]. by rewrite Hf, (IH (f ∘ S)) by (intros; apply (Hf (S j))). }
  apply Hf. intros j t. destruct (negb _ && _); [|done]. apply cancel_task_fields.
Qed.

Lemma calls_finish x i t0 t : tracked x !! i = Some t0 → tool_call t = tool_call t0 → calls (finish x i t) = calls x.
Proof.
  intros Hi Ht. unfold finish. rewrite calls_process. destruct (errored t && _); [rewrite calls_abort|];
    unfold calls; csimpl; by eapply calls_insert.
Qed.

Lemma calls_add x tc :
  calls (add_tool saga start_early x tc) = if discarded x then calls x else keep_call (calls x) tc.
Proof.
  unfold add_tool, keep_call. destruct (discarded x); [done|]. unfold calls at 3. rewrite length_fmap. fold (calls x).
  destruct (_ =? _)%nat; [done|]. destruct start_early; [rewrite calls_process|]; unfold calls; csimpl; by rewrite fmap_app.
Qed.

Lemma calls_promote x : calls (promote loads canonical saga x) = calls x.
Proof.
  unfold promote. destruct saga; [done|]. destruct (batch_has_duplicate_signatures _ _ _); [done|]. unfold calls. csimpl.
  induction (tracked x) as [|t l IH]; csimpl; [done|]. rewrite IH. by destruct (promotable t).
Qed.

Lemma calls_resume x i t w e :
  tracked x !! i = Some t → calls (resume_task sha256 dumps loads json raw_decode parse_args c device x i t w e) = calls x.
Proof.
  intros Hi. assert (Hput : ∀ t', tool_call t' = tool_call t → calls (put x i t') = calls x)
    by (intros; unfold calls; csimpl; by eapply calls_insert).
  assert (Hc : calls (cancelled_task device x i t) = calls x)
    by (unfold cancelled_task; destruct (detached x); [by eapply calls_finish|by apply Hput]).
  destruct w, e; csimpl; try (by eapply calls_finish); try done.
  destruct (guard_result _ _ _ _ _ _ _ _) as [g shown].
  match goal with |- calls (finish ?y _ _) = _ => change (calls x) with (calls y) end. by eapply calls_finish.
Qed.

Lemma calls_begin x i t :
  tracked x !! i = Some t → calls (begin_task sha256 dumps parse_args c x i t) = calls x.
Proof.
  intros Hi. unfold begin_task. destruct (cancelling t); [|destruct (question_unanswered x)].
  3: destruct (guard_before _ _ _ _ _ _) as [g b].
  all: unfold calls; csimpl; by eapply calls_insert.
Qed.

Lemma discarded_finish x i t : discarded (finish x i t) = discarded x.
Proof. unfold finish. by destruct (errored t && _). Qed.

Lemma act_calls x a x' :
  act x a = Some x' → (discarded x = true → discarded x' = true) ∧
  (discarded x' = false → calls x' = foldl keep_call (calls x) (added [a])).
Proof.
  destruct a as [tc| | | |i|i e|a b]; csimpl.
  - destruct (saved x); [done|]. intros [= <-]. rewrite calls_add.
    assert (Hd : discarded (add_tool saga start_early x tc) = discarded x).
    { unfold add_tool. destruct (discarded x) eqn:Hd; [done|]. destruct (_ =? _)%nat; [done|]. by destruct start_early. }
    rewrite Hd. split; [done|]. by intros ->.
  - destruct (saved x); [done|]. intros [= <-]. unfold commit.
    assert (Hd : discarded (promote loads canonical saga (set_saved x)) = discarded x).
    { unfold promote. destruct saga; [done|]. by destruct (batch_has_duplicate_signatures _ _ _). }
    split; [by csimpl; rewrite Hd|]. intros _. by rewrite calls_process, calls_promote.
  - intros [= <-]. done.
  - intros [= <-]. done.
  - destruct (tracked x !! i) as [t|] eqn:Hi; [|done]. destruct (task t) as [[| |]|]; try done. intros [= <-].
    rewrite calls_begin by done. split; [|done].
    unfold begin_task. destruct (cancelling t); [done|]. destruct (question_unanswered x); [done|]. by destruct (guard_before _ _ _ _ _ _).
  - destruct (tracked x !! i) as [t|] eqn:Hi; [|done]. destruct (task t) as [[|w|]|]; try done. intros [= <-].
    rewrite calls_resume by done. split; [|done]. intros Hd.
    assert (Hc : discarded (cancelled_task device x i t) = true)
      by (unfold cancelled_task; destruct (detached x); by rewrite ?discarded_finish).
    destruct w, e; cbn [resume_task]; unfold failed_task; try done; try (by rewrite discarded_finish).
    destruct (guard_result _ _ _ _ _ _ _ _). by rewrite discarded_finish.
  - intros [= <-]. done.
Qed.

Lemma run_calls acts : ∀ x x',
  run x acts = Some x' → (discarded x = true → discarded x' = true) ∧
  (discarded x' = false → calls x' = foldl keep_call (calls x) (added acts)).
Proof.
  induction acts as [|a acts IH]; intros x x'; [by intros [= <-]|]. cbn [StreamExec.run].
  intros (y & Hy & Hr)%bind_Some. destruct (act_calls _ _ _ Hy) as [Hd Hc]. destruct (IH _ _ Hr) as [Hd' Hc'].
  split; [by auto|]. intros Hx'. rewrite (Hc' Hx'). change (added (a :: acts)) with (added ([a] ++ acts)). unfold added at 2.
  rewrite omap_app, foldl_app. f_equal. apply Hc. apply not_true_iff_false. intros Hy'. rewrite Hd' in Hx'; done.
Qed.
Lemma existsb_undone x : existsb undone (tracked x) = false → ∀ t, t ∈ tracked x → undone t = false.
Proof.
  intros He t Ht. apply not_true_iff_false. intros Hu. apply not_true_iff_false in He. apply He, existsb_exists.
  exists t. split; [by apply list_elem_of_In|done].
Qed.

Lemma inv_reached g acts x : run (new_executor g) acts = Some x → inv x.
Proof. apply inv_run, inv_new. Qed.

(** ** What the executor promises *)

(** C19. At any time, calls that execute side by side are calls that may, only
    read-only ones (which no saga tracks) while the turn keeps a saga; calls
    start in the order they came; none that must wait for the response to be
    saved starts before it is; and once a question came back unanswered, no
    call is with its tool. *)
Theorem stream_schedule g acts x :
  run (new_executor g) acts = Some x →
  (∀ i j t u, tracked x !! i = Some t → tracked x !! j = Some u →
     (i ≠ j → status t = EXECUTING → status u = EXECUTING →
        tc_name (tool_call t) ∈ BATCH_PARALLEL_TOOLS ∧ (saga = true → tc_name (tool_call t) ∈ SAGA_EXCLUDED_TOOLS)) ∧
     ((i < j)%nat → status u ≠ QUEUED → status t ≠ QUEUED)) ∧
  (saved x = false → ∀ t, t ∈ tracked x → status t ≠ QUEUED → tc_name (tool_call t) ∉ HELD_UNTIL_SAVED_TOOLS) ∧
  (question_unanswered x = true → ∀ t, t ∈ tracked x → task t ≠ Some (Suspended AwaitTool)).
Proof.
  intros Hr. destruct (inv_reached _ _ _ Hr) as [Hx Hf Ht Hq]. rewrite Forall_forall in Ht. split_and!.
  - intros i j t u Hi Hj. split; [|intros ? Hu Htq; apply Hu; by eapply (Hf i j t u)].
    intros Hij Hst Hsu. pose proof (Ht t (list_elem_of_lookup_2 _ _ _ Hi)) as Hok.
    destruct (ok_parallel _ _ _ _ Hok (Hx i j t u Hi Hj Hij Hst Hsu)) as (Hb & Hs & _). split; [done|].
    intros Hsaga. destruct tools_apart as (_ & _ & Hr'). rewrite Forall_forall in Hr'. by apply Hr', Hs.
  - intros Hsv t Hin Hst. by apply (ok_held _ _ _ _ (Ht t Hin)).
  - intros Hun t Hin. specialize (Hq Hun). rewrite Forall_forall in Hq. by apply Hq.
Qed.

(** Collecting the results ends: while it waits some call has a stretch to
    run, and all the stretches to come, whatever happens meanwhile, are at most
    four for each call. *)
Theorem stream_returns g acts x :
  run (new_executor g) acts = Some x → saved x = true →
  (get_results x = None → ∃ i, is_Some (act x (Begin i)) ∨ ∀ e, is_Some (act x (Resume i e))) ∧
  (∀ more x', run x more = Some x' → (length (List.filter is_stretch more) <= 4 * length (tracked x))%nat).
Proof.
  intros Hr Hsv. split.
  - unfold get_results. destruct (existsb _ _) eqn:He; [|done]. intros _. apply existsb_exists in He as (t & Ht & Hu).
    apply list_elem_of_In, list_elem_of_lookup in Ht as (i & Hi). exists i. unfold undone in Hu. csimpl. rewrite Hi.
    destruct (task t) as [[|w|]|]; [by left; eexists|right; intros; by eexists|done..].
  - intros more x' Hm. pose proof (run_stretches _ _ _ (inv_reached _ _ _ Hr) Hsv Hm). pose proof (stretches_bound x). lia.
Qed.

(** C20. A response that nobody stops gets every call answered, in order, each
    by its own result: unless an error of the terminal aborts its siblings,
    every call has run to its end. *)
Theorem stream_runs_all g acts x rs :
  run (new_executor g) acts = Some x → Forall undisturbed acts → saved x = true → get_results x = Some rs →
  tool_call_id <$> rs = tc_id <$> calls x ∧
  (sibling_aborted x = false → Forall (λ t, status t = COMPLETED ∧ is_Some (result t)) (tracked x)).
Proof.
  intros Hr Hu Hsv. pose proof (inv_reached _ _ _ Hr) as Hinv. unfold get_results.
  destruct (existsb _ _) eqn:He; [done|]. intros [= <-]. pose proof (existsb_undone _ He) as Hdone.
  destruct Hinv as [_ _ Ht _]. split.
  - unfold calls. rewrite <- !list_fmap_compose. apply list_fmap_ext. intros i t Hi. csimpl.
    rewrite Forall_forall in Ht. specialize (Ht t (list_elem_of_lookup_2 _ _ _ Hi)).
    destruct (result t) as [r|] eqn:Hres; csimpl; [by apply (ok_result _ _ _ _ Ht)|done].
  - intros Ha. assert (Hl : live x) by (eapply live_run; [apply (inv_new g)|by constructor|done..]).
    destruct Hl as [Hd _ _ Hq].
    assert (Hexec : ∀ t, t ∈ tracked x → status t ≠ EXECUTING).
    { intros t Hin Hst. rewrite Forall_forall in Ht. pose proof (ok_stage _ _ _ _ (Ht t Hin)) as Hs. unfold stage_ok in Hs.
      rewrite Hst in Hs. specialize (Hdone t Hin). unfold undone in Hdone.
      destruct (task t) as [[|w|]|]; [done|done| |done]. unfold halted_all in Hs. by rewrite Ha, Hd in Hs. }
    destruct (Hq Hsv Ha) as [(t & Hin & Hst)|Hnq]; [by destruct (Hexec t Hin)|].
    apply Forall_forall. intros t Hin. rewrite Forall_forall in Ht, Hnq. pose proof (ok_stage _ _ _ _ (Ht t Hin)) as Hs.
    specialize (Hnq t Hin). unfold not_queued in Hnq. unfold stage_ok in Hs. specialize (Hexec t Hin).
    destruct (status t); [done|done|]. split; [done|]. by destruct (task t) as [[|w|]|].
Qed.

(** The calls an executor has taken one by one from the stream are those
    the batch rules leave of the whole response: what runs is what the saved
    message says. *)
Theorem stream_calls_agree g acts x :
  run (new_executor g) acts = Some x → discarded x = false →
  calls x ≡ₚ cap_delegate_calls (deduplicate_tool_calls (added acts)).
Proof.
  intros Hr Hd. destruct (run_calls _ _ _ Hr) as [_ ->]; [|done]. apply keep_calls.
Qed.
End steps.

(** ** A concrete response *)

Section examples.
#[local] Definition sx_str (v : pyval) : string := match v with VStr s => s | _ => "" end.
#[local] Definition sx_decode (s : string) : option pyval := if String.eqb s "bad" then Some (VDict [("error", VStr s)]) else None.

Definition ex_run : Executor → list action → option Executor :=
  run (λ s, s) sx_str sx_decode sx_str sx_str sx_decode (λ _, VNone) default_config false true false.

Definition ex_calls : list action :=
  [AddTool (mk_call "1" "read_file" "a"); AddTool (mk_call "2" "read_file" "a"); AddTool (mk_call "3" "terminal" "ls");
   AddTool (mk_call "4" "delegate_task" "x")].
Definition ex_acts : list action :=
  ex_calls ++ [Begin 0; Begin 1; Resume 0 (Returned "text"); Commit; Resume 1 (Returned "fine"); Begin 2; Resume 2 (Raised "gone")].

Lemma stream_schedule_witness :
  ∃ x, ex_run (new_executor (Some new_guard)) (ex_calls ++ [Begin 1]) = Some x ∧
    status <$> tracked x = [EXECUTING; EXECUTING; QUEUED] ∧ tc_name <$> calls x = ["read_file"; "terminal"; "delegate_task"] ∧
    (saved x = false → ∀ t, t ∈ tracked x → status t ≠ QUEUED → tc_name (tool_call t) ∉ HELD_UNTIL_SAVED_TOOLS).
Proof.
  eexists. split; [by vm_compute|]. split; [done|]. split; [done|].
  apply (stream_schedule (λ s, s) sx_str sx_decode sx_str sx_str sx_decode (λ _, VNone) default_config false true false
           (Some new_guard) (ex_calls ++ [Begin 1])). by vm_compute.
Defined.

Lemma stream_returns_witness :
  ∃ x, ex_run (new_executor None) (ex_calls ++ [Commit]) = Some x ∧ get_results x = None ∧
    ∀ more x', ex_run x more = Some x' → (length (List.filter is_stretch more) <= 12)%nat.
Proof.
  eexists. split; [by vm_compute|]. split; [done|].
  apply (stream_returns (λ s, s) sx_str sx_decode sx_str sx_str sx_decode (λ _, VNone) default_config false true false
           None (ex_calls ++ [Commit])); by vm_compute.
Defined.

Lemma stream_runs_all_witness :
  ∃ x rs, ex_run (new_executor None) ex_acts = Some x ∧ get_results x = Some rs ∧
    content <$> take 2 rs = ["text"; "fine"] ∧ tool_call_id <$> rs = tc_id <$> calls x ∧
    (sibling_aborted x = false → Forall (λ t, status t = COMPLETED ∧ is_Some (result t)) (tracked x)).
Proof.
  eexists _, _. split; [by vm_compute|]. split; [by vm_compute|]. split; [by vm_compute|].
  apply (stream_runs_all (λ s, s) sx_str sx_decode sx_str sx_str sx_decode (λ _, VNone) default_config false true false
           None ex_acts); [by vm_compute|by repeat constructor|by vm_compute|by vm_compute].
Defined.

Lemma stream_calls_agree_witness :
  ∃ x, ex_run (new_executor None) ex_calls = Some x ∧ tc_id <$> calls x = ["1"; "3"; "4"] ∧
    calls x ≡ₚ cap_delegate_calls (deduplicate_tool_calls (added ex_calls)).
Proof.
  eexists. split; [by vm_compute|]. split; [done|].
  apply (stream_calls_agree (λ s, s) sx_str sx_decode sx_str sx_str sx_decode (λ _, VNone) default_config false true false None);
    by vm_compute.
Defined.
End examples.
