(* ===== verification/Transcript.v ===== *)
(** * A transcript made fit to send (harness/sanitize.py)

    Providers refuse a conversation where a call has no result or a result no
    call.  [sanitize_tool_pairs] drops the one and stubs the other, before every
    request: a turn halted or interrupted in the middle of a batch leaves such
    pairs behind.

    Messages and their calls are dicts, as they come from the log; identifiers
    are strings. *)

From S2P Require Import Prelude.
From S2P Require Import PyStr.
From stdpp Require Import options.

Definition role_of (m : pyval) : string := match py_get m "role" VNone with VStr r => r | _ => "" end.
Definition VALID_ROLES : list string := ["system"; "user"; "assistant"; "tool"; "function"; "developer"].

(** A text that is not empty. *)
Definition nonempty (v : pyval) : option string :=
  match v with VStr s => if str_truthy s then Some s else None | _ => None end.

(** [tc.get("id") or tc.get("call_id", "")] *)
Definition id_of_call (tc : pyval) : option string :=
  nonempty (let id := py_get tc "id" VNone in if truthy id then id else py_get tc "call_id" (VStr "")).
Definition id_of_result (m : pyval) : option string := nonempty (py_get m "tool_call_id" (VStr "")).

(** [msg.get("tool_calls", [])] of a message, which the code iterates. *)
Definition tool_calls_of (m : pyval) : pyres pyexn (list pyval) := as_list (py_get m "tool_calls" (VList [])).
Definition calls_in (m : pyval) : list string :=
  if String.eqb (role_of m) "assistant" then
    match tool_calls_of m with Ok calls => omap id_of_call calls | Raise _ => [] end
  else [].
Definition results_in (m : pyval) : list string :=
  if String.eqb (role_of m) "tool" then option_list (id_of_result m) else [].

Definition call_ids (messages : list pyval) : list string := messages ≫= calls_in.
Definition result_ids (messages : list pyval) : list string := messages ≫= results_in.

(** The message is one of a role the providers know, and no result of a call
    there is not. *)
Definition kept (calls : list string) (m : pyval) : bool :=
  forallb (λ id, bool_decide (id ∈ calls)) (results_in m) && bool_decide (role_of m ∈ VALID_ROLES).

Definition stub (id : string) : pyval :=
  VDict [("role", VStr "tool"); ("tool_call_id", VStr id);
         ("content", VStr "[Result unavailable — see context summary above]")].

(** A message, with stubs after it for those of its calls that have no result. *)
Definition with_stubs (results : list string) (m : pyval) : list pyval :=
  m :: (stub <$> filter (λ id, id ∉ results) (calls_in m)).

Definition iterable (m : pyval) : pyres pyexn unit :=
  if String.eqb (role_of m) "assistant" then pybind (tool_calls_of m) (λ _, Ok ()) else Ok ().

Definition sanitize_tool_pairs (messages : list pyval) : pyres pyexn (list pyval) :=
  pybind (pymap iterable messages) (λ _,
    let cleaned := filter (λ m, kept (call_ids messages) m = true) messages in
    Ok (cleaned ≫= with_stubs (result_ids cleaned))).

(** ** What the pass leaves *)

(** Every result answers a call, every call has a result. *)
Definition paired (messages : list pyval) : Prop :=
  ∀ id, id ∈ result_ids messages ↔ id ∈ call_ids messages.

(** No result of one of [calls] stands before its call; [seen] are the calls so
    far. *)
Fixpoint follow (calls seen : list string) (messages : list pyval) : Prop :=
  match messages with
  | [] => True
  | m :: messages => (∀ id, id ∈ results_in m → id ∈ calls → id ∈ seen) ∧ follow calls (seen ++ calls_in m) messages
  end.
Definition in_order (messages : list pyval) : Prop := follow (call_ids messages) [] messages.

Lemma elem_of_ids f (messages : list pyval) (id : string) : id ∈ (messages ≫= f) ↔ ∃ m, m ∈ messages ∧ id ∈ f m.
Proof. rewrite list_elem_of_bind. naive_solver. Qed.

Lemma stub_ids id : str_truthy id = true → role_of (stub id) = "tool" ∧ calls_in (stub id) = [] ∧ results_in (stub id) = [id].
Proof. intros Hid. unfold results_in, id_of_result. csimpl. by rewrite Hid. Qed.

Lemma nonempty_truthy v id : nonempty v = Some id → str_truthy id = true.
Proof. destruct v; csimpl; try done. destruct (str_truthy _) eqn:?; [|done]. by intros [= <-]. Qed.

Lemma calls_in_truthy m id : id ∈ calls_in m → str_truthy id = true.
Proof.
  unfold calls_in. destruct (String.eqb _ _); [|by intros ?%not_elem_of_nil]. destruct (tool_calls_of m); [|by intros ?%not_elem_of_nil].
  intros (tc & _ & Hid)%list_elem_of_omap. by eapply nonempty_truthy.
Qed.

Lemma calls_in_kept calls m : calls_in m ≠ [] → kept calls m = true.
Proof.
  unfold calls_in, kept, results_in. destruct (String.eqb_spec (role_of m) "assistant") as [->|]; done.
Qed.

Lemma kept_calls calls messages : call_ids (filter (λ m, kept calls m = true) messages) = call_ids messages.
Proof.
  induction messages as [|m messages IH]; [done|]. rewrite filter_cons. unfold call_ids in *. csimpl.
  destruct (decide (kept calls m = true)) as [Hk|Hk]; csimpl; rewrite IH; [done|].
  destruct (calls_in m) eqn:Hc; [done|]. exfalso. apply Hk, calls_in_kept. by rewrite Hc.
Qed.

Lemma with_stubs_calls results messages : call_ids (messages ≫= with_stubs results) = call_ids messages.
Proof.
  unfold call_ids. induction messages as [|m messages IH]; csimpl; [done|]. rewrite bind_app, IH. f_equal. unfold with_stubs. csimpl.
  assert (Hs : Forall (λ id, str_truthy id = true) (calls_in m)) by (apply Forall_forall; apply calls_in_truthy).
  replace ((stub <$> filter _ (calls_in m)) ≫= calls_in) with (@nil string); [done|].
  induction Hs as [|id ids Hid Hids IHs]; [done|]. rewrite filter_cons. by destruct (decide _).
Qed.

Lemma with_stubs_results results messages id :
  id ∈ result_ids (messages ≫= with_stubs results) ↔ id ∈ result_ids messages ∨ id ∈ call_ids messages ∧ id ∉ results.
Proof.
  unfold result_ids, call_ids. rewrite !elem_of_ids. split.
  - intros (m & Hm & Hid). apply list_elem_of_bind in Hm as (m0 & Hm & Hm0). unfold with_stubs in Hm.
    apply elem_of_cons in Hm as [->|Hm]; [left; by exists m0|right].
    apply list_elem_of_fmap in Hm as (id' & -> & [Hr Hc]%list_elem_of_filter).
    destruct (stub_ids id') as (_ & _ & Hs); [by eapply calls_in_truthy|]. rewrite Hs in Hid.
    apply list_elem_of_singleton in Hid as ->. split; [|done]. by exists m0.
  - intros [(m & Hm & Hid)|[(m & Hm & Hid) Hr]].
    + exists m. split; [|done]. apply list_elem_of_bind. exists m. split; [|done]. apply list_elem_of_here.
    + exists (stub id). split.
      * apply list_elem_of_bind. exists m. split; [|done]. apply list_elem_of_further, list_elem_of_fmap_2, list_elem_of_filter. done.
      * destruct (stub_ids id) as (_ & _ & ->); [by eapply calls_in_truthy|]. apply list_elem_of_here.
Qed.

Lemma kept_results calls messages id :
  id ∈ result_ids (filter (λ m, kept calls m = true) messages) → id ∈ calls.
Proof.
  unfold result_ids. rewrite elem_of_ids. intros (m & [Hk Hm]%list_elem_of_filter & Hid).
  unfold kept in Hk. apply andb_true_iff in Hk as [Hk _]. rewrite forallb_forall in Hk.
  eapply bool_decide_eq_true_1, Hk, list_elem_of_In. exact Hid.
Qed.

Lemma sanitize_ok messages out :
  sanitize_tool_pairs messages = Ok out →
  let cleaned := filter (λ m, kept (call_ids messages) m = true) messages in
  out = cleaned ≫= with_stubs (result_ids cleaned) ∧ call_ids out = call_ids messages.
Proof.
  unfold sanitize_tool_pairs. destruct (pymap _ _); [|done]. csimpl. intros [= <-]. split; [done|].
  by rewrite with_stubs_calls, kept_calls.
Qed.

Lemma no_stubs messages results :
  (∀ id, id ∈ call_ids messages → id ∈ results) → messages ≫= with_stubs results = messages.
Proof.
  unfold call_ids. intros Hall. induction messages as [|m messages IH]; csimpl in *; [done|].
  assert (Hm : ∀ ids, (∀ id, id ∈ ids → id ∈ results) → filter (λ id, id ∉ results) ids = []).
  { induction ids as [|id ids IHids]; intros Hids; [done|]. rewrite filter_cons, decide_False.
    - apply IHids. intros; apply Hids. by apply list_elem_of_further.
    - intros Hn. apply Hn, Hids, list_elem_of_here. }
  unfold with_stubs at 1. rewrite (Hm (calls_in m)) by (intros; apply Hall, elem_of_app; by left). csimpl.
  f_equal. apply IH. intros; apply Hall, elem_of_app. by right.
Qed.

Lemma pymap_is_ok {E A B} (f : A → pyres E B) l : is_ok (pymap f l) = true ↔ Forall (λ x, is_ok (f x) = true) l.
Proof.
  induction l as [|x l IH]; csimpl; [split; [constructor|done]|]. rewrite Forall_cons, <- IH.
  destruct (f x); csimpl; [|naive_solver]. destruct (pymap f l); csimpl; naive_solver.
Qed.

(** A message of the pass is one of the transcript that is kept, or a stub. *)
Lemma with_stubs_from results messages m :
  m ∈ (messages ≫= with_stubs results) → m ∈ messages ∨ ∃ id, m = stub id ∧ str_truthy id = true.
Proof.
  intros (m0 & Hm & Hm0)%list_elem_of_bind. unfold with_stubs in Hm. apply elem_of_cons in Hm as [->|Hm]; [by left|].
  right. apply list_elem_of_fmap in Hm as (id & -> & [_ Hc]%list_elem_of_filter). exists id. split; [done|]. by eapply calls_in_truthy.
Qed.

(** The transcript's own messages, in their order. *)
Lemma with_stubs_sublist results messages : messages `sublist_of` (messages ≫= with_stubs results).
Proof.
  induction messages as [|m messages IH]; csimpl; [done|]. apply sublist_skip.
  by apply sublist_inserts_l.
Qed.

(** What is dropped holds no call, and a stub stands after its call. *)
Lemma follow_kept calls calls' seen messages :
  follow calls seen messages → follow calls seen (filter (λ m, kept calls' m = true) messages).
Proof.
  revert seen. induction messages as [|m messages IH]; intros seen; [done|]. intros [Hm Hrest]. rewrite filter_cons.
  destruct (decide (kept calls' m = true)) as [Hk|Hk]; [split; [done|by apply IH]|].
  destruct (calls_in m) eqn:Hc; [|exfalso; apply Hk, calls_in_kept; by rewrite Hc]. rewrite app_nil_r in Hrest. by apply IH.
Qed.
Lemma follow_stubs calls seen ids messages :
  Forall (λ id, str_truthy id = true ∧ id ∈ seen) ids → follow calls seen messages → follow calls seen ((stub <$> ids) ++ messages).
Proof.
  intros Hids Hm. induction Hids as [|id ids [Hid Hin] _ IH]; [done|]. csimpl. destruct (stub_ids id Hid) as (_ & Hc & Hr).
  rewrite Hc, Hr, app_nil_r. split; [|done]. by intros ? ->%list_elem_of_singleton.
Qed.
Lemma follow_with_stubs calls results seen messages :
  follow calls seen messages → follow calls seen (messages ≫= with_stubs results).
Proof.
  revert seen. induction messages as [|m messages IH]; intros seen; [done|]. intros [Hm Hrest]. csimpl. split; [done|].
  apply follow_stubs; [|by apply IH]. apply Forall_forall. intros id [_ Hid]%list_elem_of_filter.
  split; [by eapply calls_in_truthy|]. apply elem_of_app. by right.
Qed.

(** ** The property *)

(** C21. What the pass leaves is paired by identifier: every result in it that
    names a call names one of its calls, every call that has an identifier has
    a result, its roles are known; none of the transcript's calls is lost, and
    its messages but for those that answer no call or are of no known role are
    kept in their order; where no result of the transcript stands before its
    call, none stands before it in what is left; and a second pass changes
    nothing. *)
Theorem sanitized_transcript messages out :
  sanitize_tool_pairs messages = Ok out →
  paired out ∧ Forall (λ m, role_of m ∈ VALID_ROLES) out ∧ call_ids out = call_ids messages ∧
  filter (λ m, kept (call_ids messages) m = true) messages `sublist_of` out ∧
  (in_order messages → in_order out) ∧
  sanitize_tool_pairs out = Ok out.
Proof.
  intros Hs. destruct (sanitize_ok _ _ Hs) as [Hout Hcalls]. set (cleaned := filter _ messages) in *.
  assert (Hpaired : paired out).
  { intros id. rewrite Hcalls, Hout, with_stubs_results. subst cleaned. rewrite kept_calls. split.
    - intros [Hr|[? _]]; [by eapply kept_results|done].
    - intros Hc. destruct (decide (id ∈ result_ids (filter (λ m, kept (call_ids messages) m = true) messages))); [by left|by right]. }
  assert (Hfrom : ∀ m, m ∈ out → role_of m ∈ VALID_ROLES ∧ (m ∈ messages ∨ ∃ id, m = stub id ∧ str_truthy id = true)).
  { intros m. rewrite Hout. intros [Hm|(id & -> & Hid)]%with_stubs_from.
    - apply list_elem_of_filter in Hm as [Hk Hm]. split; [|by left]. unfold kept in Hk. apply andb_true_iff in Hk as [_ Hk].
      by apply bool_decide_eq_true in Hk.
    - split; [|right; by exists id]. apply (bool_decide_unpack _). by vm_compute. }
  split_and!; [done|apply Forall_forall; intros m Hm; by apply Hfrom|done|rewrite Hout; apply with_stubs_sublist| |].
  { unfold in_order. rewrite Hcalls, Hout. intros Hord. by apply follow_with_stubs, follow_kept. }
  unfold sanitize_tool_pairs.
  assert (Hiter : is_ok (pymap iterable out) = true).
  { apply pymap_is_ok, Forall_forall. intros m Hm. destruct (Hfrom m Hm) as [_ [Hin|(id & -> & _)]]; [|done].
    assert (Hall : is_ok (pymap iterable messages) = true) by (unfold sanitize_tool_pairs in Hs; by destruct (pymap iterable messages)).
    rewrite pymap_is_ok, Forall_forall in Hall. by apply Hall. }
  destruct (pymap iterable out); [|done]. csimpl. f_equal.
  rewrite (filter_Forall_id (λ m, kept (call_ids out) m = true) out).
  - apply no_stubs. intros id. apply Hpaired.
  - apply Forall_forall. intros m Hm. unfold kept. apply andb_true_iff. split; [|by apply bool_decide_eq_true_2, Hfrom].
    apply forallb_forall. intros id Hid%list_elem_of_In. apply bool_decide_eq_true_2, Hpaired. apply elem_of_ids. by exists m.
Qed.

(** ** A halted batch *)

Definition ex_halted : list pyval :=
  [VDict [("role", VStr "assistant");
          ("tool_calls", VList [VDict [("id", VStr "1")]; VDict [("id", VStr ""); ("call_id", VStr "2")]])];
   VDict [("role", VStr "tool"); ("tool_call_id", VStr "1"); ("content", VStr "done")];
   VDict [("role", VStr "tool"); ("tool_call_id", VStr "0"); ("content", VStr "lost")]].

Lemma sanitized_transcript_witness :
  ∃ out, sanitize_tool_pairs ex_halted = Ok out ∧ result_ids out = ["2"; "1"] ∧ paired out.
Proof.
  eexists. split; [by vm_compute|]. split; [by vm_compute|]. apply (sanitized_transcript ex_halted). by vm_compute.
Defined.

(** A tool message that names no call is kept. *)
Lemma unnamed_result_kept :
  let lone := [VDict [("role", VStr "tool"); ("content", VStr "done")]] in sanitize_tool_pairs lone = Ok lone.
Proof. by vm_compute. Qed.
(** A result that comes before its call is no result of it for a provider, and
    is kept: the call gets no stub. *)
Lemma result_before_call :
  let early := [VDict [("role", VStr "tool"); ("tool_call_id", VStr "1")];
                VDict [("role", VStr "assistant"); ("tool_calls", VList [VDict [("id", VStr "1")]])]] in
  sanitize_tool_pairs early = Ok early.
Proof. by vm_compute. Qed.
