(* ===== verification/Research.v ===== *)
(** * Research runs (arbor/, tools/builtin/arbor.py, harness/loop_arbor.py)

    The idea tree of a research mission and its meta, the three tools the
    coordinator changes them with, the harvest of ended experiments, and the
    gates around the judge's verdict.

    A run has one writer at a time: the turn of its coordinator's session, whose
    tools run one by one, and the harvest before it.  So a handler is one step,
    with what the sandbox, the task layer and the model answer as arguments.
    Scores are rationals: floats compare as the numbers they are, and no score
    is NaN. *)

From S2P Require Import Prelude.
From S2P Require Import PyStr.
From Stdlib Require Import QArith.
From stdpp Require Import options.
Close Scope Q_scope.

(** ** Rows *)

Inductive NodeStatus := NPending | NRunning | NDone | NFailed | NMerged | NPruned.
#[global] Instance NodeStatus_eq_dec : EqDecision NodeStatus.
Proof. solve_decision. Defined.

Definition node_status_value (s : NodeStatus) : string :=
  match s with
  | NPending => "pending" | NRunning => "running" | NDone => "done"
  | NFailed => "failed" | NMerged => "merged" | NPruned => "pruned"
  end.
Definition node_status_of (v : string) : option NodeStatus :=
  List.find (λ s, String.eqb (node_status_value s) v) [NPending; NRunning; NDone; NFailed; NMerged; NPruned].

Definition TERMINAL_NODE_STATUSES : list NodeStatus := [NMerged; NPruned].
Definition BUDGET_SPENDING_STATUSES : list NodeStatus := [NDone; NFailed; NMerged; NPruned].

Record IdeaNode := mk_node {
  node_key : string;
  parent_key : option string;
  depth : Z;
  hypothesis : string;
  status : NodeStatus;
  insight : option string;
  result : option string;
  score : option Q;
  code_ref : option string;
  related_work : option string;
  task_id : option Z;
  dispatched_at : option Z;
  completed_at : option Z
}.

Definition new_node (key : string) (parent : option string) (d : Z) (hyp : string) : IdeaNode :=
  mk_node key parent d hyp NPending None None None None None None None None.

(** A value of the meta: a number, or other JSON. *)
Inductive mval := Num (q : Q) | Json (v : pyval).

Record ResearchRun := mk_run { meta : gmap string mval; nodes : list IdeaNode; trunk_branch : string; branch_prefix : string }.

Definition set_run_meta (r : ResearchRun) (m : gmap string mval) : ResearchRun :=
  mk_run m (nodes r) (trunk_branch r) (branch_prefix r).
Definition set_nodes (r : ResearchRun) (l : list IdeaNode) : ResearchRun :=
  mk_run (meta r) l (trunk_branch r) (branch_prefix r).

Inductive RError :=
| ResearchStoreError (why : string)
| MetaKeyError (key : string)
| NodeStateError (why : string)
| IntegrityError           (* a constraint of the database *)
| RValueError (why : string)
| NoSuchKey (key : string).

(** [except ResearchStoreError]: the class and its subclasses. *)
Definition is_store_error (e : RError) : bool :=
  match e with ResearchStoreError _ | MetaKeyError _ | NodeStateError _ => true | _ => false end.

(** ** The store (arbor/store.py) *)

Definition MACHINE_KEYS : list string :=
  ["test_baseline_score"; "test_trunk_score"; "trunk_score"; "merge_eval"; "report_rendered"].
Definition META_KEYS : list string :=
  ["objective"; "baseline_score"; "trunk_score"; "test_baseline_score"; "test_trunk_score"; "eval_cmd"; "eval_cmd_test";
   "eval_timeout"; "eval_retries"; "eval_retry_base_delay"; "eval_retry_max_delay"; "metric_direction"; "protected_paths";
   "max_cycles"; "max_tree_depth"; "max_parallel"; "merge_threshold"; "hitl_mode"; "convergence_enabled";
   "convergence_min_experiments"; "convergence_window_size"; "convergence_improvement_threshold";
   "convergence_parent_exhaustion_count"; "convergence_warn_after"; "convergence_force_after"; "convergence_stop_after";
   "merge_eval"; "report_rendered"].
Definition DEFAULT_META : gmap string mval :=
  list_to_map [("metric_direction", Json (VStr "maximize")); ("max_cycles", Json (VInt 20)); ("max_tree_depth", Json (VInt 3));
    ("max_parallel", Json (VInt 2)); ("merge_threshold", Num 0%Q); ("eval_timeout", Json (VInt 1800));
    ("eval_retries", Json (VInt 1)); ("eval_retry_base_delay", Json (VInt 10)); ("eval_retry_max_delay", Json (VInt 60));
    ("hitl_mode", Json (VStr "auto"))].

Definition q_lt (a b : Q) : bool := match (a ?= b)%Q with Lt => true | _ => false end.
Definition is_improvement (candidate reference : option Q) (direction : string) : bool :=
  match candidate with
  | None => false
  | Some s =>
    match reference with
    | None => true
    | Some b => if String.eqb direction "minimize" then q_lt s b else q_lt b s
    end
  end.

(** Reads of the meta: a score, which is a number or missing; a text; a count. *)
Definition meta_score (m : gmap string mval) (key : string) : option Q :=
  match m !! key with Some (Num q) => Some q | _ => None end.
Definition meta_direction (m : gmap string mval) : string :=
  match m !! "metric_direction" with Some (Json (VStr s)) => s | _ => "maximize" end.
Definition meta_int (m : gmap string mval) (key : string) (dflt : Z) : pyres RError Z :=
  match m !! key with
  | None => Ok dflt
  | Some (Num q) => Ok (Z.quot (Qnum q) (Zpos (Qden q)))
  | Some (Json v) => match py_int v with Some n => Ok n | None => Raise (RValueError key) end
  end.
Definition meta_truthy (m : gmap string mval) (key : string) : bool :=
  match m !! key with
  | None => false
  | Some (Num q) => negb (Qnum q =? 0)%Z
  | Some (Json v) => truthy v
  end.

Definition find_node (r : ResearchRun) (key : string) : option IdeaNode :=
  List.find (λ n, String.eqb (node_key n) key) (nodes r).
Definition get_node (r : ResearchRun) (key : string) : pyres RError IdeaNode :=
  match find_node r key with Some n => Ok n | None => Raise (ResearchStoreError key) end.
Definition write_node (r : ResearchRun) (n : IdeaNode) : ResearchRun :=
  set_nodes r ((λ m, if String.eqb (node_key m) (node_key n) then n else m) <$> nodes r).
Definition is_terminal (n : IdeaNode) : bool := bool_decide (status n ∈ TERMINAL_NODE_STATUSES).

Section store.
Local Open Scope py_scope.

Definition create_run (objective trunk prefix : string) (overrides : list (string * mval)) : pyres RError ResearchRun :=
  let start := <["objective" := Json (VStr objective)]> DEFAULT_META in
  match List.find (λ kv, negb (bool_decide (kv.1 ∈ META_KEYS))) overrides with
  | Some (k, _) => Raise (MetaKeyError k)
  | None => Ok (mk_run (foldl (λ m kv, <[kv.1 := kv.2]> m) start overrides) [new_node "ROOT" None 0 objective] trunk prefix)
  end.

Definition bad_key (allow_machine_keys : bool) (kv : string * mval) : bool :=
  negb (bool_decide (kv.1 ∈ META_KEYS)) || (bool_decide (kv.1 ∈ MACHINE_KEYS) && negb allow_machine_keys).
Definition set_meta (r : ResearchRun) (values : list (string * mval)) (allow_machine_keys : bool) : pyres RError ResearchRun :=
  match List.find (bad_key allow_machine_keys) values with
  | Some (k, _) => Raise (MetaKeyError k)
  | None => Ok (set_run_meta r (foldl (λ m kv, <[kv.1 := kv.2]> m) (meta r) values))
  end.

(** [int(k.rsplit(".", 1)[-1])] *)
Definition dot : ascii := "."%char.
Definition ordinal (key : string) : pyres RError Z :=
  match int_of_str (List.last (split_on dot key) "") with Some n => Ok n | None => Raise (RValueError key) end.

Definition key_prefix (parent : string) : string := if String.eqb parent "ROOT" then "" else parent +:+ ".".

(** [add_node]; the unique constraint refuses a key that is taken. *)
Definition add_node (r : ResearchRun) (parent hyp : string) : pyres RError (ResearchRun * IdeaNode) :=
  match find_node r parent with
  | None => Raise (ResearchStoreError parent)
  | Some p =>
    if is_terminal p then Raise (NodeStateError parent)
    else
      let! ordinals := pymap (λ n, ordinal (node_key n))
                         (List.filter (λ n, bool_decide (parent_key n = Some parent)) (nodes r)) in
      let next := (1 + match ordinals with [] => 0 | o :: os => foldl Z.max o os end)%Z in
      let d := if String.eqb parent "ROOT" then 1%Z else (depth p + 1)%Z in
      let n := new_node (key_prefix parent +:+ str_of_int next) (Some parent) d hyp in
      match find_node r (node_key n) with
      | Some _ => Raise IntegrityError
      | None => Ok (set_nodes r (nodes r ++ [n]), n)
      end
  end.

(** A field of an update, as JSON or as a score. *)
Inductive fval := FJson (v : pyval) | FScore (q : option Q).
Definition MUTABLE_NODE_FIELDS : list string :=
  ["status"; "score"; "insight"; "result"; "code_ref"; "related_work"; "task_id"; "dispatched_at"; "completed_at"].

Definition text_field (v : fval) : option (option string) :=
  match v with FJson (VStr s) => Some (Some s) | FJson VNone => Some None | _ => None end.
Definition int_field (v : fval) : option (option Z) :=
  match v with FJson (VInt z) => Some (Some z) | FJson VNone => Some None | _ => None end.

(** [setattr]; None where the database refuses the value. *)
Definition set_field (n : IdeaNode) (field : string) (v : fval) : option IdeaNode :=
  let '(mk_node k p d h st i rs sc c rw t da ca) := n in
  if String.eqb field "status" then
    match v with
    | FJson (VStr s) => (λ st, mk_node k p d h st i rs sc c rw t da ca) <$> node_status_of s
    | _ => None
    end
  else if String.eqb field "score" then
    match v with
    | FScore q => Some (mk_node k p d h st i rs q c rw t da ca)
    | FJson VNone => Some (mk_node k p d h st i rs None c rw t da ca)
    | _ => None
    end
  else if String.eqb field "insight" then (λ x, mk_node k p d h st x rs sc c rw t da ca) <$> text_field v
  else if String.eqb field "result" then (λ x, mk_node k p d h st i x sc c rw t da ca) <$> text_field v
  else if String.eqb field "code_ref" then (λ x, mk_node k p d h st i rs sc x rw t da ca) <$> text_field v
  else if String.eqb field "related_work" then (λ x, mk_node k p d h st i rs sc c x t da ca) <$> text_field v
  else if String.eqb field "task_id" then (λ x, mk_node k p d h st i rs sc c rw x da ca) <$> int_field v
  else if String.eqb field "dispatched_at" then (λ x, mk_node k p d h st i rs sc c rw t x ca) <$> int_field v
  else (λ x, mk_node k p d h st i rs sc c rw t da x) <$> int_field v.

Fixpoint set_each (n : IdeaNode) (fields : list (string * fval)) : option IdeaNode :=
  match fields with
  | [] => Some n
  | (field, v) :: fields => set_field n field v ≫= λ n, set_each n fields
  end.
(** In any order: each sets a column of its own. *)
Definition set_fields (n : IdeaNode) (fields : gmap string fval) : option IdeaNode := set_each n (map_to_list fields).

Definition ended_node (now : Z) (n : IdeaNode) : IdeaNode :=
  let '(mk_node k p d h st i rs sc c rw t da ca) := n in
  mk_node k p d h st i rs sc c rw t da (Some (default now ca)).

(** [update_node] *)
Definition says_status (fields : gmap string fval) (s : NodeStatus) : bool :=
  match fields !! "status" with
  | Some (FJson (VStr v)) => String.eqb v (node_status_value s)
  | _ => false
  end.
Definition update_node (r : ResearchRun) (now : Z) (key : string) (fields : gmap string fval) : pyres RError ResearchRun :=
  if existsb (λ kv, negb (bool_decide (kv.1 ∈ MUTABLE_NODE_FIELDS))) (map_to_list fields) then Raise (ResearchStoreError "immutable/unknown node fields")
  else
    let! n := get_node r key in
    if is_terminal n && negb (says_status fields (status n)) then Raise (NodeStateError key)
    else
      match set_fields n fields with
      | None => Raise IntegrityError
      | Some n => Ok (write_node r (if existsb (says_status fields) [NDone; NFailed; NMerged] then ended_node now n else n))
      end.

Definition prune_node (reason : string) (n : IdeaNode) : IdeaNode :=
  if is_terminal n then n
  else
    let tag := "[Pruned: " +:+ reason +:+ "]" in
    let '(mk_node k p d h _ i rs sc c rw t da ca) := n in
    mk_node k p d h NPruned (Some (match i with Some s => if str_truthy s then s +:+ String "010" "" +:+ tag else tag | None => tag end))
      rs sc c rw t da ca.

(** [prune]: the node and those whose key its own begins. *)
Definition is_doomed (key : string) (n : IdeaNode) : bool := String.eqb (node_key n) key || startswith (node_key n) (key +:+ ".").
Definition prune (r : ResearchRun) (key reason : string) : pyres RError (ResearchRun * list string) :=
  match find_node r key with
  | None => Raise (ResearchStoreError key)
  | Some _ =>
    Ok (set_nodes r ((λ n, if is_doomed key n then prune_node reason n else n) <$> nodes r),
        node_key <$> List.filter (is_doomed key) (nodes r))
  end.

Definition cycles_spent (r : ResearchRun) : Z :=
  Z.of_nat (length (List.filter (λ n, bool_decide (status n ∈ BUDGET_SPENDING_STATUSES) && negb (String.eqb (node_key n) "ROOT")) (nodes r))).
Definition in_flight_count (r : ResearchRun) : Z := Z.of_nat (length (List.filter (λ n, bool_decide (status n = NRunning)) (nodes r))).
End store.

(** ** Lessons (arbor/propagate.py) *)

(** [concat_propagate]: the ancestors with their new insights, nearest first.
    [fuel] bounds the walk up the parents. *)
Definition keep_tail (n : nat) (s : string) : string :=
  if (n <? String.length s)%nat then String.substring (String.length s - n) n s else s.
Definition merged_insight (cap : nat) (existing : option string) (stamp : string) : string :=
  let e := strip (default "" existing) in
  keep_tail cap (if str_truthy e then e +:+ String "010" "" +:+ stamp else stamp).
Fixpoint concat_walk (fuel : nat) (cap : nat) (stamp : string) (insights : string → option string)
    (parents : string → option string) (current : option string) : option (list (string * string)) :=
  match current with
  | None => Some []
  | Some key =>
    match fuel with
    | O => None
    | S fuel => (λ rest, (key, merged_insight cap (insights key) stamp) :: rest) <$>
                concat_walk fuel cap stamp insights parents (parents key)
    end
  end.
Definition concat_propagate (fuel : nat) (r : ResearchRun) (key lesson : string) : option (list (string * string)) :=
  let lesson := strip lesson in
  if str_truthy lesson then
    let parents k := find_node r k ≫= parent_key in
    concat_walk fuel 1200 ("[from " +:+ key +:+ "] " +:+ lesson) (λ k, find_node r k ≫= insight) parents (parents key)
  else Some [].

Section tools.
Local Open Scope py_scope.

(** [propagate_insights_llm] over the tree [snap]: [says] is what the model
    makes of an ancestor's children, where it makes anything. *)
Fixpoint synthesize_walk (fuel : nat) (snap : ResearchRun) (says : string → option string) (now : Z)
    (r : ResearchRun) (current : option string) : ResearchRun * pyres RError Z :=
  match current ≫= find_node snap, fuel with
  | Some a, S fuel =>
    let parts := existsb (λ c, bool_decide (parent_key c = Some (node_key a)) &&
                   match insight c with Some i => str_truthy i | None => false end) (nodes snap) in
    match (if parts then says (node_key a) else None) with
    | Some text =>
      match update_node r now (node_key a) {["insight" := FJson (VStr text)]} with
      | Raise e => (r, Raise e)
      | Ok r => let '(r, n) := synthesize_walk fuel snap says now r (parent_key a) in
                (r, let! n := n in Ok (n + 1)%Z)
      end
    | None => synthesize_walk fuel snap says now r (parent_key a)
    end
  | _, _ => (r, Ok 0%Z)
  end.
Definition propagate_insights_llm (says : option (string → option string)) (now : Z) (r : ResearchRun) (key : string)
    : ResearchRun * pyres RError Z :=
  match says, find_node r key with
  | Some says, Some n => synthesize_walk (length (nodes r)) r says now r (parent_key n)
  | _, _ => (r, Ok 0%Z)
  end.

(** ** The harvest (harness/loop_arbor.py) *)

(** A task as its fold reads it: its status, its result, and the report of its
    metadata. *)
Record TaskView := mk_task_view {
  task_status : string;
  task_result : option string;
  report : option (option Q * option string * option string)  (* score, insight, result, of the keys given *)
}.

(** [str(x or "")[:n]] *)
Definition head_of (n : nat) (s : option string) : string := String.substring 0 n (default "" s).

(** What a task says of its node; [extracted] is the report a model reads out of
    its text, asked for where there is no metadata. *)
Definition fold_fields (t : TaskView) (extracted : option (option (option Q * string * string)))
    : NodeStatus * option Q * string * string :=
  if String.eqb (task_status t) "done" then
    match report t with
    | Some (sc, ins, res) => (NDone, sc, head_of 2000 ins, head_of 500 res)
    | None =>
      match extracted with
      | Some (Some (sc, ins, res)) =>
        if str_truthy (default "" (task_result t)) then (NDone, sc, head_of 2000 (Some ins), head_of 500 (Some res))
        else (NDone, None, "(executor completed without a structured report)", "")
      | Some None =>
        if str_truthy (default "" (task_result t)) then
          (NDone, None, "(report extraction produced nothing usable)", head_of 500 (task_result t))
        else (NDone, None, "(executor completed without a structured report)", "")
      | None => (NDone, None, "(executor completed without a structured report)", head_of 500 (task_result t))
      end
    end
  else (NFailed, None, "Timed out/crashed: task ended " +:+ task_status t, head_of 500 (task_result t)).

Fixpoint write_insights (r : ResearchRun) (now : Z) (l : list (string * string)) : ResearchRun * pyres RError unit :=
  match l with
  | [] => (r, Ok tt)
  | (key, text) :: l =>
    match update_node r now key {["insight" := FJson (VStr text)]} with
    | Raise e => (r, Raise e)
    | Ok r => write_insights r now l
    end
  end.

(** [fold_task_into_node]; each update is a transaction of its own, so what was
    written before an error stays. *)
Definition fold_task_into_node (r : ResearchRun) (now : Z) (key : string) (t : TaskView)
    (extracted : option (option (option Q * string * string))) : ResearchRun * pyres RError unit :=
  if negb (str_truthy key) then (r, Ok tt)
  else
    let '(st, sc, ins, res) := fold_fields t extracted in
    match update_node r now key
            {["status" := FJson (VStr (node_status_value st)); "score" := FScore sc; "insight" := FJson (VStr ins);
              "result" := FJson (VStr res)]} with
    | Raise e => (r, Raise e)
    | Ok r =>
      let r := if String.eqb key "BASELINE" then
                 match sc with
                 | Some q => match set_meta r [("baseline_score", Num q)] false with Ok r => r | Raise _ => r end
                 | None => r
                 end
               else r in
      match concat_propagate (length (nodes r)) r key ins with
      | None => (r, Ok tt)
      | Some l => write_insights r now l
      end
    end.

(** [_harvest_research_inner]: the rows are folded one by one, and after each
    its executor's edits are brought onto its branch; an error ends the harvest.
    [tasks] are the tasks, by id, that have ended. *)
Definition harvest_rows (r : ResearchRun) (tasks : Z → option TaskView) : list (IdeaNode * TaskView) :=
  omap (λ n, if decide (status n = NRunning) then (λ t, (n, t)) <$> (task_id n ≫= tasks) else None) (nodes r).
Fixpoint harvest_loop (r : ResearchRun) (now : Z) (extract : TaskView → option (option (option Q * string * string)))
    (rows : list (IdeaNode * TaskView)) : ResearchRun * list string * bool :=
  match rows with
  | [] => (r, [], true)
  | (n, t) :: rows =>
    match fold_task_into_node r now (node_key n) t (extract t) with
    | (r, Raise _) => (r, [], false)
    | (r, Ok _) => let '(r, imported, ok) := harvest_loop r now extract rows in (r, node_key n :: imported, ok)
    end
  end.
Definition harvest (r : ResearchRun) (now : Z) (tasks : Z → option TaskView)
    (extract : TaskView → option (option (option Q * string * string))) : ResearchRun * list string * bool :=
  harvest_loop r now extract (harvest_rows r tasks).

(** ** idea_tree *)

Inductive tree_action :=
| View
| Add (parent : option string) (hyp : string)
| Update (key : string) (fields : gmap string fval)
| Prune (key : string) (reason : option string)
| SetMeta (values : list (string * mval))
| RecordFromTask (task : Z) (t : option TaskView)
| Requeue (key : string)
| Propagate (key : string)
| Report.

(** What a tool answers: an error, or what it did. *)
Inductive reply := Refused (why : string) | Added (key : string) (d : Z) | Pruned (keys : list string) | Fine.

(** The handler's [except ResearchStoreError]: other errors leave it. *)
Definition caught (r : ResearchRun) (e : RError) : ResearchRun * pyres RError reply :=
  (r, if is_store_error e then Ok (Refused "store") else Raise e).

Definition alias_lesson (fields : gmap string fval) : gmap string fval :=
  match fields !! "lesson" with
  | Some v =>
    let rest := delete "lesson" fields in
    match rest !! "insight" with Some _ => rest | None => <["insight" := v]> rest end
  | None => fields
  end.
Definition IGNORED_FIELDS : list string := ["score"; "test_score"; "branch"].
Definition READONLY_META : list string := ["baseline"; "repo"; "repo_path"] ++ MACHINE_KEYS.

Definition normal_parent (parent : option string) : string :=
  let p := strip (opt_or parent "ROOT") in
  let p := if str_truthy p then p else "ROOT" in
  if bool_decide (p ∈ ["0"; "root"; "Root"]) then "ROOT" else p.

Definition idea_tree (r : ResearchRun) (now : Z) (says : option (string → option string)) (a : tree_action)
    : ResearchRun * pyres RError reply :=
  match a with
  | View => (r, Ok Fine)
  | Add parent hyp =>
    let parent := normal_parent parent in
    if negb (str_truthy (strip hyp)) then (r, Ok (Refused "empty hypothesis"))
    else
      match get_node r parent with
      | Raise e => caught r e
      | Ok p =>
        match meta_int (meta r) "max_tree_depth" 3 with
        | Raise e => (r, Raise e)
        | Ok cap =>
          if negb (String.eqb (node_key p) "ROOT") && (cap <=? depth p)%Z then (r, Ok (Refused "depth cap"))
          else
            match add_node r parent hyp with
            | Raise e => caught r e
            | Ok (r, n) => (r, Ok (Added (node_key n) (depth n)))
            end
        end
      end
  | Update key fields =>
    if negb (str_truthy key) then (r, Ok (Refused "node_key"))
    else
      match update_node r now key (filter (λ kv, kv.1 ∉ IGNORED_FIELDS) (alias_lesson fields)) with
      | Raise e => caught r e
      | Ok r => (r, Ok Fine)
      end
  | Prune key reason =>
    if negb (str_truthy key) then (r, Ok (Refused "node_key"))
    else
      match prune r key (opt_or reason "no reason given") with
      | Raise e => caught r e
      | Ok (r, keys) =>
        match propagate_insights_llm says now r key with
        | (r, Raise e) => caught r e
        | (r, Ok _) => (r, Ok (Pruned keys))
        end
      end
  | SetMeta values =>
    match List.filter (λ kv, negb (bool_decide (kv.1 ∈ READONLY_META))) values with
    | [] => (r, Ok Fine)
    | settable => match set_meta r settable false with Raise e => caught r e | Ok r => (r, Ok Fine) end
    end
  | RecordFromTask id t =>
    match t, List.find (λ n, bool_decide (task_id n = Some id)) (nodes r) with
    | Some t, Some n =>
      match fold_task_into_node r now (node_key n) t None with
      | (r, Raise e) => caught r e
      | (r, Ok _) =>
        match propagate_insights_llm says now r (node_key n) with
        | (r, Raise e) => caught r e
        | (r, Ok _) => (r, Ok Fine)
        end
      end
    | _, _ => (r, Ok (Refused "no such task"))
    end
  | Requeue key =>
    if negb (str_truthy key) then (r, Ok (Refused "node_key"))
    else
      match get_node r key with
      | Raise e => caught r e
      | Ok n =>
        if negb (bool_decide (status n ∈ [NDone; NFailed])) then (r, Ok (Refused "status"))
        else
          match update_node r now key {["status" := FJson (VStr "pending"); "task_id" := FJson VNone]} with
          | Raise e => caught r e
          | Ok r => (r, Ok Fine)
          end
      end
  | Propagate key =>
    if negb (str_truthy key) then (r, Ok (Refused "node_key"))
    else
      match propagate_insights_llm says now r key with
      | (r, Raise e) => caught r e
      | (r, Ok _) => (r, Ok Fine)
      end
  | Report =>
    match set_meta r [("report_rendered", Json (VBool true))] true with Raise e => caught r e | Ok r => (r, Ok Fine) end
  end.
End tools.

Section gates.
Local Open Scope py_scope.

(** ** merge_experiment *)

(** What the sandbox answers: whether the detached eval was launched; what its
    result file says; whether [float] reads the run's merge threshold; whether the
    branch touches a protected path; whether git merged it into trunk. *)
Inductive eval_file := NotThere | NotJson | NoScore | Scored (q : Q).
Record merge_env := mk_merge_env {
  launched : bool; eval_result : eval_file; threshold_reads : bool; touches_protected : bool; git_merges : bool; merge_now : Z
}.

Definition merge_stamp (node : string) (started retries : Z) : mval :=
  Json (VDict [("node_key", VStr node); ("started_at", VInt started); ("retries_left", VInt retries)]).
Definition stamped (m : gmap string mval) : pyval := match m !! "merge_eval" with Some (Json v) => v | _ => VDict [] end.
Definition stamp_node (m : gmap string mval) : pyval := py_get (stamped m) "node_key" VNone.
Definition no_stamp : list (string * mval) := [("merge_eval", Json (VDict []))].

Inductive merge_reply := MRefused (why : string) | Started | Running | Stale | NotMerged (why : string) | Merged (q : Q).
Definition mcaught (r : ResearchRun) (e : RError) : ResearchRun * pyres RError merge_reply :=
  (r, if is_store_error e then Ok (MRefused "store") else Raise e).

(** [store.set_meta(..., allow_machine_keys=True)] of machine keys. *)
Definition stamp_meta (r : ResearchRun) (values : list (string * mval)) (k : merge_reply) : ResearchRun * pyres RError merge_reply :=
  match set_meta r values true with Raise e => mcaught r e | Ok r => (r, Ok k) end.

Definition merge_start (r : ResearchRun) (env : merge_env) (key : string) (n : IdeaNode) : ResearchRun * pyres RError merge_reply :=
  if negb (bool_decide (status n = NDone)) then (r, Ok (MRefused "status"))
  else if negb (str_truthy (default "" (code_ref n))) then (r, Ok (MRefused "branch"))
  else if negb (meta_truthy (meta r) "eval_cmd_test") then (r, Ok (MRefused "eval_cmd_test"))
  else if bool_decide (trunk_branch r ∈ ["main"; "master"]) then (r, Ok (MRefused "trunk"))
  else
    let in_flight := stamp_node (meta r) in
    if truthy in_flight && negb (match in_flight with VStr k => String.eqb k key | _ => false end) then (r, Ok (MRefused "in flight"))
    else if negb (launched env) then (r, Ok (NotMerged "setup"))
    else
      match meta_int (meta r) "eval_retries" 1 with
      | Raise e => (r, Raise e)
      | Ok retries => stamp_meta r [("merge_eval", merge_stamp key (merge_now env) retries)] Started
      end.

(** The held-out reference: trunk's score, or before it has one the baseline's. *)
Definition reference (m : gmap string mval) : option Q :=
  match m !! "test_trunk_score" with Some _ => meta_score m "test_trunk_score" | None => meta_score m "test_baseline_score" end.

Definition set_score (key : string) (q : option Q) : string * mval :=
  (key, match q with Some q => Num q | None => Json VNone end).

(** The eval has a score. *)
Definition merge_scored (r : ResearchRun) (env : merge_env) (says : option (string → option string)) (key : string) (n : IdeaNode) (q : Q)
    : ResearchRun * pyres RError merge_reply :=
  if negb (is_improvement (Some q) (reference (meta r)) (meta_direction (meta r))) then
    stamp_meta r no_stamp (NotMerged "no improvement")
  else if negb (threshold_reads env) then (r, Raise (RValueError "merge_threshold"))
  else if meta_truthy (meta r) "protected_paths" && touches_protected env then stamp_meta r no_stamp (NotMerged "protected paths")
  else if negb (git_merges env) then stamp_meta r no_stamp (NotMerged "git")
  else
    match set_meta r ([set_score "test_trunk_score" (Some q); set_score "trunk_score" (score n)] ++ no_stamp) true with
    | Raise e => mcaught r e
    | Ok r =>
      match update_node r (merge_now env) key {["status" := FJson (VStr "merged")]} with
      | Raise e => mcaught r e
      | Ok r =>
        match propagate_insights_llm says (merge_now env) r key with
        | (r, Raise e) => mcaught r e
        | (r, Ok _) => (r, Ok (Merged q))
        end
      end
    end.

Definition merge_status (r : ResearchRun) (env : merge_env) (says : option (string → option string)) (key : string) (n : IdeaNode)
    : ResearchRun * pyres RError merge_reply :=
  if negb (match stamp_node (meta r) with VStr k => String.eqb k key | _ => false end) then (r, Ok (MRefused "not started"))
  else
    match eval_result env with
    | NotThere =>
      match meta_int (meta r) "eval_timeout" 1800 with
      | Raise e => (r, Raise e)
      | Ok timeout =>
        match py_get (stamped (meta r)) "started_at" VNone with
        | VInt started => (r, Ok (if (timeout + 300 <? merge_now env - started)%Z then Stale else Running))
        | _ => (r, Ok Running)
        end
      end
    | Scored q => merge_scored r env says key n q
    | NotJson | NoScore =>
      match py_int (py_get (stamped (meta r)) "retries_left" (VInt 0)) with
      | None => (r, Raise (RValueError "retries_left"))
      | Some retries =>
        if (0 <? retries)%Z then
          if negb (launched env) then stamp_meta r no_stamp (NotMerged "setup")
          else stamp_meta r [("merge_eval", merge_stamp key (merge_now env) (retries - 1))] Running
        else stamp_meta r no_stamp (NotMerged "no score")
      end
    end.

Definition merge_experiment (r : ResearchRun) (env : merge_env) (says : option (string → option string)) (start : bool) (key : string)
    : ResearchRun * pyres RError merge_reply :=
  if negb (str_truthy key) then (r, Ok (MRefused "node_key"))
  else
    match get_node r key with
    | Raise e => mcaught r e
    | Ok n => if start then merge_start r env key n else merge_status r env says key n
    end.

(** ** dispatch_experiments *)

(** What became of one key: the repository could not be bundled, the spawn was
    refused, or its task. *)
Inductive dispatch_end := NoBundle | SpawnRefused | SpawnedTask (task : Z) (branch : string).

Definition running_fields (task : Z) (branch : string) (now : Z) : gmap string fval :=
  {["status" := FJson (VStr "running"); "task_id" := FJson (VInt task); "code_ref" := FJson (VStr branch);
    "dispatched_at" := FJson (VInt now)]}.

Inductive dispatch_reply := DRefused (why : string) | Dispatched (keys : list string) | DStopped (why : string) (keys : list string).
Definition dcaught (r : ResearchRun) (e : RError) : ResearchRun * pyres RError dispatch_reply :=
  (r, if is_store_error e then Ok (DRefused "store") else Raise e).

(** The checks of the keys, in order: each a pending leaf. *)
Fixpoint dispatchable (r : ResearchRun) (keys : list string) : pyres RError (option string) :=
  match keys with
  | [] => Ok None
  | key :: keys =>
    let! n := get_node r key in
    if negb (bool_decide (status n = NPending)) then Ok (Some "status")
    else if existsb (λ m, bool_decide (parent_key m = Some key)) (nodes r) then Ok (Some "leaf")
    else dispatchable r keys
  end.

Fixpoint dispatch_loop (r : ResearchRun) (now : Z) (ends : string → dispatch_end) (keys done : list string)
    : ResearchRun * pyres RError dispatch_reply :=
  match keys with
  | [] => (r, Ok (Dispatched done))
  | key :: keys =>
    match get_node r key with
    | Raise e => dcaught r e
    | Ok _ =>
      match ends key with
      | NoBundle => (r, Ok (DStopped "bundle" done))
      | SpawnRefused => (r, Ok (DStopped "spawn" done))
      | SpawnedTask task branch =>
        match update_node r now key (running_fields task branch now) with
        | Raise e => dcaught r e
        | Ok r => dispatch_loop r now ends keys (done ++ [key])
        end
      end
    end
  end.

Definition dispatch_experiments (r : ResearchRun) (now : Z) (ends : string → dispatch_end) (keys : list string)
    : ResearchRun * pyres RError dispatch_reply :=
  match keys with
  | [] => (r, Ok (DRefused "node_keys"))
  | _ =>
    if negb (bool_decide (NoDup keys)) then (r, Ok (DRefused "duplicate"))
    else if negb (meta_truthy (meta r) "eval_cmd") then (r, Ok (DRefused "eval_cmd"))
    else
      match meta_int (meta r) "max_cycles" 20 with
      | Raise e => (r, Raise e)
      | Ok max_cycles =>
        if (max_cycles <=? cycles_spent r)%Z then (r, Ok (DRefused "budget"))
        else
          match dispatchable r keys with
          | Raise e => dcaught r e
          | Ok (Some why) => (r, Ok (DRefused why))
          | Ok None =>
            match meta_int (meta r) "max_parallel" 2 with
            | Raise e => (r, Raise e)
            | Ok max_parallel =>
              if (max_parallel <? in_flight_count r + Z.of_nat (length keys))%Z then (r, Ok (DRefused "max_parallel"))
              else dispatch_loop r now ends keys []
            end
          end
      end
  end.

(** [_dispatch_baseline]: its node is inserted under a key of its own. *)
Definition dispatch_baseline (r : ResearchRun) (now : Z) (e : dispatch_end) : ResearchRun * pyres RError dispatch_reply :=
  if negb (meta_truthy (meta r) "eval_cmd") then (r, Ok (DRefused "eval_cmd"))
  else if match meta r !! "baseline_score" with Some (Json VNone) | None => false | Some _ => true end then (r, Ok (DRefused "baseline_score"))
  else
    match find_node r "BASELINE", e with
    | Some _, _ => (r, Ok (DRefused "exists"))
    | None, NoBundle => (r, Ok (DRefused "bundle"))
    | None, e =>
      let r := set_nodes r (nodes r ++ [new_node "BASELINE" (Some "ROOT") 1 "baseline (unmodified repo)"]) in
      match e with
      | SpawnedTask task _ =>
        match update_node r now "BASELINE" (running_fields task (trunk_branch r) now) with
        | Raise e => dcaught r e
        | Ok r => (r, Ok (Dispatched ["BASELINE"]))
        end
      | _ => (r, Ok (DRefused "spawn"))
      end
    end.

(** ** The judge's verdict (arbor/evaluator_policy.py) *)

Definition research_should_skip (r : ResearchRun) : bool := (0 <? in_flight_count r)%Z.

(** The [result] of the verdict: the texts are left out. *)
Definition adjust_research_verdict (verdict : string) (m : gmap string mval) (report_task_done budget_exhausted : bool) : string :=
  if String.eqb verdict "satisfied" then
    let improved := is_improvement (meta_score m "test_trunk_score") (meta_score m "test_baseline_score") (meta_direction m) in
    if negb ((improved || budget_exhausted) && report_task_done) then "needs_revision" else verdict
  else if (String.eqb verdict "failed" || String.eqb verdict "blocked") && negb budget_exhausted then "needs_revision"
  else verdict.
End gates.

(** ** Runs *)

Inductive RAction :=
| Tree (now : Z) (says : option (string → option string)) (a : tree_action)
| Merge (env : merge_env) (says : option (string → option string)) (start : bool) (key : string)
| Dispatch (now : Z) (ends : string → dispatch_end) (keys : list string)
| Baseline (now : Z) (e : dispatch_end)
| Harvest (now : Z) (tasks : Z → option TaskView) (extract : TaskView → option (option (option Q * string * string))).

(** An error that leaves a handler fails its tool call: what the handler had
    committed stays. *)
Definition ract (r : ResearchRun) (a : RAction) : ResearchRun :=
  match a with
  | Tree now says a => (idea_tree r now says a).1
  | Merge env says start key => (merge_experiment r env says start key).1
  | Dispatch now ends keys => (dispatch_experiments r now ends keys).1
  | Baseline now e => (dispatch_baseline r now e).1
  | Harvest now tasks extract => (harvest r now tasks extract).1.1
  end.

(** A run as /auto-research makes it: its objective, and the scores measured at
    intake. *)
Definition intake (objective trunk prefix : string) (baseline baseline_test : option Q) : pyres RError ResearchRun :=
  pybind (create_run objective trunk prefix []) (λ r,
    set_meta r (match baseline with Some q => [("baseline_score", Num q)] | None => [] end ++
                match baseline_test with Some q => [("test_baseline_score", Num q)] | None => [] end) true).
Definition rrun (objective trunk prefix : string) (baseline baseline_test : option Q) (acts : list RAction) : option ResearchRun :=
  match intake objective trunk prefix baseline baseline_test with
  | Ok r => Some (foldl ract r acts)
  | Raise _ => None
  end.

(** ** The tree *)

(** A node's place: its key, its parent, its depth. *)
Definition skel (n : IdeaNode) : string * option string * Z := (node_key n, parent_key n, depth n).
Definition key_of (s : string * option string * Z) : string := s.1.1.
Definition children (p : string) (l : list (string * option string * Z)) : list (string * option string * Z) :=
  filter (λ s, s.1.2 = Some p) l.

(** The places of a run's nodes, oldest first: its root; the children of a node,
    numbered from 1 as they come; and the baseline's node. *)
Inductive grown : list (string * option string * Z) → Prop :=
| grown_root : grown [("ROOT", None, 0%Z)]
| grown_child l p d :
    grown l → (∃ gp, (p, gp, d) ∈ l) → "BASELINE" ∉ key_of <$> children p l →
    grown (l ++ [(key_prefix p +:+ str_of_int (Z.of_nat (S (length (children p l)))), Some p, (d + 1)%Z)])
| grown_baseline l : grown l → "BASELINE" ∉ key_of <$> l → grown (l ++ [("BASELINE", Some "ROOT", 1%Z)]).

Definition wf_run (r : ResearchRun) : Prop := grown (skel <$> nodes r).

(** What no step undoes: a node's place and hypothesis, and the status of one
    that is merged or pruned. *)
Definition keep_node (n m : IdeaNode) : Prop :=
  skel m = skel n ∧ hypothesis m = hypothesis n ∧ (is_terminal n = true → status m = status n).
Definition extends (r r' : ResearchRun) : Prop := ∃ l1 l2, nodes r' = l1 ++ l2 ∧ Forall2 keep_node (nodes r) l1.
Definition evolves (r r' : ResearchRun) : Prop := wf_run r → wf_run r' ∧ extends r r'.

(** *** Keys and numbers *)

Lemma digits_no_dot s : digits s → no_char dot s.
Proof.
  induction s as [|a s IH]; intros Hs; [done|]. apply no_char_cons. split.
  - apply digit_plain, Hs. left.
  - apply IH. intros b Hb. apply Hs. by right.
Qed.

Lemma split_on_snoc c p w : no_char c w → ∃ x ws, split_on c (p +:+ String c w) = x :: ws ++ [w].
Proof.
  intros Hw. induction p as [|a p (x & ws & IH)].
  - exists "", []. change ("" +:+ String c w) with (String c w). csimpl. by rewrite Ascii.eqb_refl, Hw.
  - change (String a p +:+ String c w) with (String a (p +:+ String c w)). csimpl. rewrite IH.
    destruct (Ascii.eqb a c); [by exists "", (x :: ws)|by exists (String a x), ws].
Qed.
Lemma split_on_last c p w : no_char c w → List.last (split_on c (p +:+ String c w)) "" = w.
Proof.
  intros Hw. destruct (split_on_snoc c p w Hw) as (x & ws & ->). change (x :: ws ++ [w]) with ((x :: ws) ++ [w]).
  apply List.last_last.
Qed.

Lemma ordinal_child p k : (0 < k)%Z → ordinal (key_prefix p +:+ str_of_int k) = Ok k.
Proof.
  intros Hk. pose proof (digits_no_dot _ (str_of_int_digits k Hk)) as Hn. unfold ordinal, key_prefix.
  destruct (String.eqb p "ROOT").
  - change ("" +:+ str_of_int k) with (str_of_int k). rewrite Hn. csimpl. by rewrite int_of_str_of_int.
  - rewrite <-string_app_assoc. change ("." +:+ ?x) with (String dot x). rewrite split_on_last by done.
    by rewrite int_of_str_of_int.
Qed.

Lemma key_prefix_inj p q : key_prefix p = key_prefix q → p = q.
Proof.
  unfold key_prefix. destruct (String.eqb_spec p "ROOT") as [->|], (String.eqb_spec q "ROOT") as [->|]; [done|..].
  - intros H%(f_equal String.length). rewrite string_app_length in H. csimpl in H. lia.
  - intros H%(f_equal String.length). rewrite string_app_length in H. csimpl in H. lia.
  - apply string_app_inj_r.
Qed.

(** The key of a node's [k]th child. *)
Definition child_key (p : string) (k : nat) : string := key_prefix p +:+ str_of_int (Z.of_nat k).
Lemma ordinal_child_key p k : (0 < k)%nat → ordinal (child_key p k) = Ok (Z.of_nat k).
Proof. intros Hk. apply ordinal_child. lia. Qed.
Lemma child_key_inj p q k k' : (0 < k)%nat → (0 < k')%nat → child_key p k = child_key q k' → p = q ∧ k = k'.
Proof.
  intros Hk Hk' H. assert (k = k') as <-.
  { apply (f_equal ordinal) in H. rewrite !ordinal_child_key in H by done. injection H. lia. }
  split; [|done]. by apply key_prefix_inj, string_app_inj_r with (str_of_int (Z.of_nat k)).
Qed.
Lemma child_key_named p k w n : (0 < k)%nat → child_key p k = w → ordinal w = Ok n → n = Z.of_nat k.
Proof. intros Hk <-. rewrite ordinal_child_key by done. congruence. Qed.

Lemma children_app p l l' : children p (l ++ l') = children p l ++ children p l'.
Proof. apply filter_app. Qed.

Lemma children_self p k d : children p [(k, Some p, d)] = [(k, Some p, d)].
Proof. unfold children. by rewrite filter_cons_True. Qed.

Lemma children_other p q k d : q ≠ p → children p [(k, Some q, d)] = [].
Proof. intros Hne. unfold children. rewrite filter_cons_False; [done|]. csimpl. congruence. Qed.

(** Every node is the root, the baseline's, or one of its parent's children. *)
Lemma grown_cases l s :
  grown l → s ∈ l →
  s = ("ROOT", None, 0%Z) ∨ s = ("BASELINE", Some "ROOT", 1%Z)
  ∨ ∃ p k d, s = (child_key p k, Some p, (d + 1)%Z) ∧ (0 < k ≤ length (children p l))%nat.
Proof.
  induction 1 as [|l p d Hg IH Hp Hb|l Hg IH Hb]; intros Hs.
  - apply list_elem_of_singleton in Hs. by left.
  - apply elem_of_app in Hs as [Hs|Hs%list_elem_of_singleton].
    + destruct (IH Hs) as [?|[?|(q & k & e & -> & Hk)]]; [by left|by right; left|].
      right; right. exists q, k, e. rewrite children_app, length_app. split; [done|lia].
    + right; right. exists p, (S (length (children p l))), d. split; [done|].
      rewrite children_app, length_app, children_self. csimpl. lia.
  - apply elem_of_app in Hs as [Hs|Hs%list_elem_of_singleton]; [|by right; left].
    destruct (IH Hs) as [?|[?|(q & k & e & -> & Hk)]]; [by left|by right; left|].
    right; right. exists q, k, e. rewrite children_app, length_app. split; [done|lia].
Qed.

(** The next child's key is not taken. *)
Lemma child_key_fresh l p : grown l → child_key p (S (length (children p l))) ∉ key_of <$> l.
Proof.
  intros Hg (s & Hk & Hs)%list_elem_of_fmap. destruct (grown_cases l s Hg Hs) as [->|[->|(q & k & d & -> & Hle)]].
  - apply (f_equal ordinal) in Hk. by rewrite ordinal_child_key in Hk by lia.
  - apply (f_equal ordinal) in Hk. by rewrite ordinal_child_key in Hk by lia.
  - apply child_key_inj in Hk as [-> ?]; [|lia..]. lia.
Qed.

Lemma grown_NoDup l : grown l → NoDup (key_of <$> l).
Proof.
  induction 1 as [|l p d Hg IH Hp Hb|l Hg IH Hb]; [by repeat constructor; set_solver|..];
    rewrite fmap_app; apply NoDup_app; (split; [done|split; [|by apply NoDup_singleton]]);
    intros k Hk; csimpl; rewrite list_elem_of_singleton; intros ->; [|done].
  by apply (child_key_fresh l p).
Qed.

(** A node's parent came before it. *)
Lemma grown_parent l i s p :
  grown l → l !! i = Some s → s.1.2 = Some p → ∃ j t, (j < i)%nat ∧ l !! j = Some t ∧ key_of t = p.
Proof.
  induction 1 as [|l q d Hg IH [gp Hq] Hb|l Hg IH Hb]; intros Hi Hp.
  - destruct i; by simplify_eq/=.
  - apply lookup_app_Some in Hi as [Hi|[Hle Hi]].
    + destruct (IH Hi Hp) as (j & t & Hj & Ht & Hk). exists j, t. split; [done|]. split; [|done].
      by apply lookup_app_l_Some.
    + apply list_lookup_singleton_Some in Hi as [Hi <-]. csimpl in Hp. injection Hp as <-.
      apply list_elem_of_lookup in Hq as [j Hj]. pose proof (lookup_lt_Some _ _ _ Hj).
      exists j, (q, gp, d). split; [lia|]. split; [by apply lookup_app_l_Some|done].
  - apply lookup_app_Some in Hi as [Hi|[Hle Hi]].
    + destruct (IH Hi Hp) as (j & t & Hj & Ht & Hk). exists j, t. split; [done|]. split; [|done].
      by apply lookup_app_l_Some.
    + apply list_lookup_singleton_Some in Hi as [Hi <-]. csimpl in Hp. injection Hp as <-.
      assert (Hr : l !! 0 = Some ("ROOT", None, 0%Z)).
      { clear -Hg. induction Hg; [done|..]; by apply lookup_app_l_Some. }
      pose proof (lookup_lt_Some _ _ _ Hr). exists 0%nat, ("ROOT", None, 0%Z). split; [lia|].
      split; [by apply lookup_app_l_Some|done].
Qed.

(** *** Steps of the store *)

Lemma find_node_Some r key n : find_node r key = Some n → n ∈ nodes r ∧ node_key n = key.
Proof. unfold find_node. intros [Hin Hk]%List.find_some. split; [by apply list_elem_of_In|by apply String.eqb_eq]. Qed.
Lemma find_node_None r key : find_node r key = None → key ∉ node_key <$> nodes r.
Proof.
  unfold find_node. intros Hn (n & -> & Hin)%list_elem_of_fmap. apply list_elem_of_In in Hin.
  pose proof (List.find_none _ _ Hn _ Hin) as He. csimpl in He. by rewrite String.eqb_refl in He.
Qed.
Lemma keys_skel (l : list IdeaNode) : key_of <$> (skel <$> l) = node_key <$> l.
Proof. rewrite <-list_fmap_compose. done. Qed.
Lemma wf_NoDup r : wf_run r → NoDup (node_key <$> nodes r).
Proof. intros Hw%grown_NoDup. by rewrite keys_skel in Hw. Qed.
Lemma node_unique r n m : wf_run r → n ∈ nodes r → m ∈ nodes r → node_key n = node_key m → n = m.
Proof.
  intros Hw%wf_NoDup [i Hi]%list_elem_of_lookup [j Hj]%list_elem_of_lookup Hk.
  assert (i = j) as <-; [|congruence]. eapply (NoDup_lookup _ i j (node_key n)); [done|..]; rewrite list_lookup_fmap.
  - by rewrite Hi.
  - by rewrite Hj, Hk.
Qed.
Lemma find_node_elem r n : wf_run r → n ∈ nodes r → find_node r (node_key n) = Some n.
Proof.
  intros Hw Hn. destruct (find_node r (node_key n)) as [m|] eqn:Hf.
  - apply find_node_Some in Hf as [Hm Hk]. f_equal. by apply (node_unique r).
  - apply find_node_None in Hf. destruct Hf. by apply list_elem_of_fmap_2.
Qed.

#[global] Instance keep_node_preorder : PreOrder keep_node.
Proof.
  split; [done|]. intros n m o (Hs & Hh & Ht) (Hs' & Hh' & Ht'). repeat split; try congruence.
  intros Hn. rewrite <-(Ht Hn). apply Ht'. unfold is_terminal in *. by rewrite (Ht Hn).
Qed.
#[global] Instance extends_preorder : PreOrder extends.
Proof.
  split.
  - intros r. exists (nodes r), []. split; [by rewrite app_nil_r|]. done.
  - intros r1 r2 r3 (l1 & l2 & H2 & F1) (m1 & m2 & H3 & F2). rewrite H2 in F2.
    apply Forall2_app_inv_l in F2 as (k1 & k2 & F1' & F2' & ->). exists k1, (k2 ++ m2).
    split; [by rewrite H3, app_assoc|]. by trans l1.
Qed.
#[global] Instance evolves_preorder : PreOrder evolves.
Proof.
  split; [done|]. intros r1 r2 r3 H12 H23 Hw. destruct (H12 Hw) as [Hw2 He]. destruct (H23 Hw2) as [Hw3 He'].
  split; [done|]. by trans r2.
Qed.

(** Nodes that are kept are as many and sit where they sat. *)
Lemma keeps_evolves r r' : (wf_run r → Forall2 keep_node (nodes r) (nodes r')) → evolves r r'.
Proof.
  intros Hk Hw. specialize (Hk Hw). split.
  - unfold wf_run. replace (skel <$> nodes r') with (skel <$> nodes r); [done|].
    clear Hw. induction Hk as [|n m l l' (Hs & _) _ IH]; [done|]. rewrite !fmap_cons. by f_equal.
  - exists (nodes r'), []. by rewrite app_nil_r.
Qed.
Lemma set_run_meta_evolves r m : evolves r (set_run_meta r m).
Proof. apply keeps_evolves. done. Qed.

Lemma write_node_evolves r n m : n ∈ nodes r → keep_node n m → evolves r (write_node r m).
Proof.
  intros Hn Hk. apply keeps_evolves. intros Hw. csimpl. apply Forall2_fmap_r, Forall2_same_length_lookup_2; [done|].
  intros i x y Hx Hy. rewrite Hx in Hy. injection Hy as <-. unfold compose. destruct (String.eqb_spec (node_key x) (node_key m)) as [He|]; [|reflexivity].
  replace x with n; [done|]. apply (node_unique r); [done..|by eapply list_elem_of_lookup_2|].
  destruct Hk as [Hs _]. apply (f_equal key_of) in Hs. unfold key_of in Hs. csimpl in Hs. congruence.
Qed.

(** An update sets no other column, and leaves the status it names. *)
Lemma node_status_of_value s : node_status_of (node_status_value s) = Some s.
Proof. by destruct s. Qed.
Lemma set_field_keeps n f v n' :
  set_field n f v = Some n' →
  skel n' = skel n ∧ hypothesis n' = hypothesis n
  ∧ (if String.eqb f "status" then ∃ s, v = FJson (VStr s) ∧ node_status_of s = Some (status n') else status n' = status n).
Proof.
  unfold set_field. destruct n as [k p d h st i rs sc c rw t da ca].
  destruct (String.eqb f "status").
  { destruct v as [[]|]; try done. intros (st' & Hs & ->)%fmap_Some. by eauto. }
  repeat case_match; try done; first [by intros (? & _ & ->)%fmap_Some | by intros [= <-]].
Qed.
Lemma set_each_keeps fields n n' :
  NoDup fields.*1 → set_each n fields = Some n' →
  skel n' = skel n ∧ hypothesis n' = hypothesis n
  ∧ ("status" ∉ fields.*1 → status n' = status n)
  ∧ (∀ v, ("status", v) ∈ fields → ∃ s, v = FJson (VStr s) ∧ node_status_of s = Some (status n')).
Proof.
  revert n. induction fields as [|[f v] fields IH]; intros n Hnd; csimpl.
  { intros [= ->]. repeat split. intros v Hv. by apply not_elem_of_nil in Hv. }
  intros (m & Hm & Hn)%bind_Some. apply NoDup_cons in Hnd as [Hf Hnd].
  destruct (set_field_keeps _ _ _ _ Hm) as (Hs & Hh & Hst). destruct (IH m Hnd Hn) as (Hs' & Hh' & Hno & Hyes).
  split; [congruence|]. split; [congruence|]. destruct (String.eqb_spec f "status") as [->|Hne].
  - split; [set_solver|]. intros w [Hw|Hw]%elem_of_cons.
    + injection Hw as ->. by rewrite (Hno Hf).
    + destruct Hf. by apply (list_elem_of_fmap_2 fst fields ("status", w)).
  - split; [intros Hx; rewrite Hno by set_solver; done|]. intros w [[=]|Hw]%elem_of_cons; [by subst|by apply Hyes].
Qed.
Lemma set_fields_keeps n fields n' :
  set_fields n fields = Some n' →
  skel n' = skel n ∧ hypothesis n' = hypothesis n
  ∧ match fields !! "status" with
    | None => status n' = status n
    | Some v => ∃ s, v = FJson (VStr s) ∧ node_status_of s = Some (status n')
    end.
Proof.
  unfold set_fields. intros Hs. destruct (set_each_keeps _ _ _ (NoDup_fst_map_to_list fields) Hs) as (H1 & H2 & H3 & H4).
  split; [done|]. split; [done|]. destruct (fields !! "status") as [v|] eqn:Hf.
  - by apply H4, elem_of_map_to_list.
  - apply H3. intros ([k v] & Hk & Hv)%list_elem_of_fmap. csimpl in Hk. subst k. apply elem_of_map_to_list in Hv. congruence.
Qed.

Lemma ended_node_same now n :
  skel (ended_node now n) = skel n ∧ hypothesis (ended_node now n) = hypothesis n ∧ status (ended_node now n) = status n.
Proof. by destruct n. Qed.

Lemma update_node_ok r now key fields r' :
  update_node r now key fields = Ok r' →
  ∃ n m, find_node r key = Some n ∧ r' = write_node r m ∧ keep_node n m
    ∧ match fields !! "status" with
      | None => status m = status n
      | Some v => ∃ s, v = FJson (VStr s) ∧ node_status_of s = Some (status m)
      end.
Proof.
  unfold update_node. destruct (existsb _ (map_to_list fields)); [done|]. unfold get_node.
  destruct (find_node r key) as [n|] eqn:Hn; [|done]. csimpl.
  destruct (is_terminal n && negb (says_status fields (status n))) eqn:Ht; [done|].
  destruct (set_fields n fields) as [m|] eqn:Hm; [|done]. intros [= <-].
  destruct (set_fields_keeps _ _ _ Hm) as (Hs & Hh & Hst).
  set (m' := if existsb (says_status fields) [NDone; NFailed; NMerged] then ended_node now m else m).
  assert (skel m' = skel m ∧ hypothesis m' = hypothesis m ∧ status m' = status m) as (Hs' & Hh' & Hst').
  { unfold m'. destruct (existsb _ [NDone; NFailed; NMerged]); [by destruct (ended_node_same now m)|done]. }
  exists n, m'. split; [done|]. split; [done|]. rewrite Hst'. split; [|done].
  split; [congruence|]. split; [congruence|]. intros Hterm. rewrite Hterm in Ht. rewrite Hst'. unfold says_status in Ht.
  destruct (fields !! "status") as [v|]; [|done]. destruct Hst as (s & -> & Hs0). csimpl in Ht.
  apply negb_false_iff, String.eqb_eq in Ht. subst s. rewrite node_status_of_value in Hs0. by simplify_eq.
Qed.
Lemma update_node_evolves r now key fields r' : update_node r now key fields = Ok r' → evolves r r'.
Proof.
  intros (n & m & Hn & -> & Hk & _)%update_node_ok. apply write_node_evolves with n; [|done].
  by apply find_node_Some in Hn as [??].
Qed.
Lemma update_node_meta r now key fields r' : update_node r now key fields = Ok r' → meta r' = meta r.
Proof. by intros (n & m & _ & -> & _)%update_node_ok. Qed.

Lemma set_meta_evolves r values machine r' : set_meta r values machine = Ok r' → evolves r r'.
Proof. unfold set_meta. destruct (List.find _ _) as [[]|]; intros [= <-]. apply set_run_meta_evolves. Qed.

Lemma prune_node_keeps reason n : keep_node n (prune_node reason n).
Proof. unfold prune_node. destruct (is_terminal n) eqn:Ht; [reflexivity|]. destruct n. repeat split. congruence. Qed.
Lemma prune_evolves r key reason r' keys : prune r key reason = Ok (r', keys) → evolves r r'.
Proof.
  unfold prune. destruct (find_node r key); intros [= <- _]. apply keeps_evolves. intros _. csimpl.
  apply Forall2_fmap_r, Forall_Forall2_diag, Forall_forall. intros n _. unfold compose.
  destruct (is_doomed key n); [apply prune_node_keeps|reflexivity].
Qed.

(** *** A new node *)

Lemma pymap_map {E A B} (f : A → pyres E B) (g : A → B) xs :
  (∀ x, x ∈ xs → f x = Ok (g x)) → pymap f xs = Ok (g <$> xs).
Proof.
  induction xs as [|x xs IH]; intros Hf; csimpl; [done|]. rewrite Hf by left. csimpl.
  rewrite IH by (intros y Hy; apply Hf; by right). done.
Qed.

Definition siblings (r : ResearchRun) (p : string) : list IdeaNode :=
  List.filter (λ n, bool_decide (parent_key n = Some p)) (nodes r).
Lemma siblings_skel r p : skel <$> siblings r p = children p (skel <$> nodes r).
Proof.
  unfold siblings, children. induction (nodes r) as [|n l IH]; csimpl; [done|]. rewrite filter_cons. csimpl.
  case_bool_decide; [|by rewrite decide_False]. rewrite decide_True by done. csimpl. by rewrite IH.
Qed.

(** A node's children are numbered from 1. *)
Lemma children_numbered l p :
  grown l → "BASELINE" ∉ key_of <$> children p l →
  key_of <$> children p l = child_key p <$> seq 1 (length (children p l)).
Proof.
  induction 1 as [|l q d Hg IH Hq Hb|l Hg IH Hb]; [done|..]; rewrite children_app, fmap_app, length_app.
  - destruct (decide (q = p)) as [->|Hne].
    + rewrite children_self. intros _. rewrite IH by done. csimpl. rewrite Nat.add_1_r, seq_S, fmap_app. done.
    + rewrite children_other by done. csimpl. rewrite !app_nil_r, Nat.add_0_r. exact IH.
  - destruct (decide (p = "ROOT")) as [->|Hne]; [set_solver|].
    rewrite children_other by done. csimpl. rewrite !app_nil_r, Nat.add_0_r. exact IH.
Qed.

Lemma foldl_max_seq k m : foldl Z.max (Z.of_nat k) (Z.of_nat <$> seq (S k) m) = Z.of_nat (k + m).
Proof.
  revert k. induction m as [|m IH]; intros k; csimpl; [f_equal; lia|].
  replace (Z.max (Z.of_nat k) (Z.of_nat (S k))) with (Z.of_nat (S k)) by lia. rewrite IH. f_equal. lia.
Qed.
Lemma next_ordinal m :
  (1 + match Z.of_nat <$> seq 1 m with [] => 0 | o :: os => foldl Z.max o os end)%Z = Z.of_nat (S m).
Proof. destruct m as [|m]; [done|]. cbn [seq fmap list_fmap]. rewrite (foldl_max_seq 1 m). lia. Qed.
Lemma ordinals_numbered p (xs : list IdeaNode) k m :
  node_key <$> xs = child_key p <$> seq (S k) m →
  pymap (λ n, ordinal (node_key n)) xs = Ok (Z.of_nat <$> seq (S k) m).
Proof.
  revert xs k. induction m as [|m IH]; intros [|x xs] k; csimpl; try done. intros [= -> Hk].
  rewrite ordinal_child_key by lia. csimpl. rewrite (IH xs (S k)) by done. done.
Qed.

Lemma root_depth l s : grown l → s ∈ l → key_of s = "ROOT" → s = ("ROOT", None, 0%Z).
Proof.
  intros Hg Hs Hk. destruct (grown_cases l s Hg Hs) as [?|[->|(p & k & d & -> & Hle)]]; [done..|].
  apply (f_equal ordinal) in Hk. unfold key_of in Hk. csimpl in Hk. by rewrite ordinal_child_key in Hk by lia.
Qed.
Lemma child_depth r n : wf_run r → n ∈ nodes r → (if String.eqb (node_key n) "ROOT" then 1 else depth n + 1)%Z = (depth n + 1)%Z.
Proof.
  intros Hw Hn. destruct (String.eqb_spec (node_key n) "ROOT") as [Hk|]; [|done].
  pose proof (root_depth _ (skel n) Hw (list_elem_of_fmap_2 _ _ _ Hn) Hk) as [= _ _ ->]. done.
Qed.
Lemma siblings_numbered r p :
  wf_run r → "BASELINE" ∉ node_key <$> siblings r p →
  node_key <$> siblings r p = child_key p <$> seq 1 (length (siblings r p)).
Proof.
  intros Hw Hb. rewrite <-keys_skel, siblings_skel in Hb |- *.
  rewrite <-(length_fmap skel), siblings_skel. by apply children_numbered.
Qed.

(** A node that is not merged or pruned takes a further child, unless the
    baseline's node is among its children. *)
Lemma add_node_grows r p hyp n :
  wf_run r → find_node r p = Some n → is_terminal n = false → "BASELINE" ∉ node_key <$> siblings r p →
  let m := new_node (child_key p (S (length (siblings r p)))) (Some p) (depth n + 1) hyp in
  add_node r p hyp = Ok (set_nodes r (nodes r ++ [m]), m) ∧ wf_run (set_nodes r (nodes r ++ [m])).
Proof.
  intros Hw Hn Ht Hb m. pose proof Hn as [Hin Hk]%find_node_Some.
  assert (Hlen : length (siblings r p) = length (children p (skel <$> nodes r)))
    by (rewrite <-siblings_skel; by rewrite length_fmap).
  assert (Hfresh : find_node r (node_key m) = None).
  { destruct (find_node r (node_key m)) as [x|] eqn:Hx; [|done]. apply find_node_Some in Hx as [Hx Hxk].
    destruct (child_key_fresh (skel <$> nodes r) p Hw). rewrite keys_skel, <-Hlen.
    change (child_key p _) with (node_key m). rewrite <-Hxk. by apply list_elem_of_fmap_2. }
  split.
  - unfold add_node. rewrite Hn, Ht. fold (siblings r p).
    rewrite (ordinals_numbered p _ 0 _ (siblings_numbered r p Hw Hb)). cbn [pybind]. rewrite next_ordinal.
    replace (if String.eqb p "ROOT" then 1%Z else (depth n + 1)%Z) with (depth n + 1)%Z
      by (rewrite <-Hk; symmetry; exact (child_depth r n Hw Hin)).
    fold (child_key p (S (length (siblings r p)))). fold m.
    by rewrite Hfresh.
  - unfold wf_run. csimpl. rewrite fmap_app. csimpl.
    replace (skel m) with (key_prefix p +:+ str_of_int (Z.of_nat (S (length (children p (skel <$> nodes r))))), Some p, (depth n + 1)%Z)
      by (by rewrite <-Hlen).
    apply grown_child; [done| |by rewrite <-siblings_skel, keys_skel].
    exists (parent_key n). rewrite <-Hk. by apply (list_elem_of_fmap_2 skel).
Qed.

(** Next to the baseline's node there are no more children. *)
Lemma add_beside_baseline r p hyp n :
  find_node r p = Some n → is_terminal n = false → "BASELINE" ∈ node_key <$> siblings r p →
  ∃ key, add_node r p hyp = Raise (RValueError key).
Proof.
  intros Hn Ht Hb. unfold add_node. rewrite Hn, Ht. fold (siblings r p).
  assert (∃ key, pymap (λ n, ordinal (node_key n)) (siblings r p) = Raise (RValueError key)) as [key ->]; [|by exists key].
  induction (siblings r p) as [|x l IH]; [by apply not_elem_of_nil in Hb|]. csimpl in *.
  destruct (ordinal (node_key x)) as [o|e] eqn:Ho; csimpl.
  - apply elem_of_cons in Hb as [Hb|Hb]; [by rewrite <-Hb in Ho|]. destruct (IH Hb) as [key ->]. by exists key.
  - unfold ordinal in Ho. destruct (int_of_str _); [done|]. injection Ho as <-. by eexists.
Qed.

Lemma add_node_evolves r p hyp r' m : add_node r p hyp = Ok (r', m) → evolves r r'.
Proof.
  intros Ha Hw. destruct (find_node r p) as [n|] eqn:Hn; [|by unfold add_node in Ha; rewrite Hn in Ha].
  destruct (is_terminal n) eqn:Ht; [by unfold add_node in Ha; rewrite Hn, Ht in Ha|].
  destruct (decide ("BASELINE" ∈ node_key <$> siblings r p)) as [Hb|Hb].
  { destruct (add_beside_baseline r p hyp n Hn Ht Hb) as [key He]. congruence. }
  destruct (add_node_grows r p hyp n Hw Hn Ht Hb) as [He Hw']. rewrite Ha in He. injection He as -> _.
  split; [done|]. by eexists (nodes r), _.
Qed.

Lemma baseline_evolves r :
  find_node r "BASELINE" = None →
  evolves r (set_nodes r (nodes r ++ [new_node "BASELINE" (Some "ROOT") 1 "baseline (unmodified repo)"])).
Proof.
  intros Hn%find_node_None Hw. split; [|by eexists (nodes r), _]. unfold wf_run. csimpl. rewrite fmap_app.
  apply grown_baseline; [done|]. by rewrite keys_skel.
Qed.

(** *** Steps of the tools *)

(** What holds of a run and the runs its handlers make of it, where it is a
    preorder that holds of the store's steps: a merge's write of its scores is
    left out. *)
Create HintDb research discriminated.

(** What a merge writes with its scores, and when it does. *)
Definition merge_scores (q : Q) (n : IdeaNode) : list (string * mval) :=
  [set_score "test_trunk_score" (Some q); set_score "trunk_score" (score n)] ++ no_stamp.
Definition merges (r : ResearchRun) (env : merge_env) (key : string) (q : Q) : Prop :=
  stamp_node (meta r) = VStr key ∧ eval_result env = Scored q
  ∧ is_improvement (Some q) (reference (meta r)) (meta_direction (meta r)) = true
  ∧ (meta_truthy (meta r) "protected_paths" = true → touches_protected env = false) ∧ git_merges env = true.

Section steps.
Context (R : relation ResearchRun) `{!PreOrder R}.
Hypothesis update_step : ∀ r now key fields r', update_node r now key fields = Ok r' → R r r'.
Hypothesis meta_step : ∀ r values r', set_meta r values false = Ok r' → R r r'.
Hypothesis machine_step : ∀ r key v r',
  set_meta r [(key, v)] true = Ok r' → key ∈ ["merge_eval"; "report_rendered"] → R r r'.
Hypothesis prune_step : ∀ r key reason r' keys, prune r key reason = Ok (r', keys) → R r r'.
Hypothesis add_step : ∀ r p hyp r' m, add_node r p hyp = Ok (r', m) → R r r'.
Hypothesis baseline_step : ∀ r, find_node r "BASELINE" = None →
  R r (set_nodes r (nodes r ++ [new_node "BASELINE" (Some "ROOT") 1 "baseline (unmodified repo)"])).
#[local] Set Default Proof Using "All".
#[local] Hint Resolve update_step meta_step prune_step add_step : research.

Lemma report_step r r' v : set_meta r [("report_rendered", v)] true = Ok r' → R r r'.
Proof. intros Hs. apply (machine_step _ _ _ _ Hs). by right; left. Qed.
Lemma stamp_step r r' v : set_meta r [("merge_eval", v)] true = Ok r' → R r r'.
Proof. intros Hs. apply (machine_step _ _ _ _ Hs). by left. Qed.
#[local] Hint Resolve report_step stamp_step : research.

Lemma synthesize_walk_step fuel snap says now r cur : R r (synthesize_walk fuel snap says now r cur).1.
Proof.
  revert r cur. induction fuel as [|fuel IH]; intros r cur; csimpl; [by destruct (cur ≫= find_node snap)|].
  destruct (cur ≫= find_node snap) as [a|]; [|done].
  destruct (if existsb _ (nodes snap) then says (node_key a) else None) as [text|]; [|apply IH].
  destruct (update_node r now _ _) as [r1|] eqn:Hu; [|done]. trans r1; [by eauto with research|].
  specialize (IH r1 (parent_key a)). by destruct (synthesize_walk fuel snap says now r1 (parent_key a)).
Qed.
Lemma propagate_step says now r key : R r (propagate_insights_llm says now r key).1.
Proof.
  unfold propagate_insights_llm. destruct says, (find_node r key); try done. apply synthesize_walk_step.
Qed.
Lemma write_insights_step r now l : R r (write_insights r now l).1.
Proof.
  revert r. induction l as [|[key text] l IH]; intros r; csimpl; [done|].
  destruct (update_node r now _ _) as [r1|] eqn:Hu; [|done]. trans r1; [by eauto with research|apply IH].
Qed.
Lemma fold_task_step r now key t ex : R r (fold_task_into_node r now key t ex).1.
Proof.
  unfold fold_task_into_node. destruct (negb _); [done|]. destruct (fold_fields t ex) as [[[st sc] ins] res].
  destruct (update_node r now _ _) as [r1|] eqn:Hu; [|done]. trans r1; [by eauto with research|].
  set (r2 := if String.eqb key "BASELINE" then _ else _).
  assert (R r1 r2).
  { unfold r2. destruct (String.eqb key "BASELINE"); [|reflexivity]. destruct sc as [q|]; [|reflexivity].
    destruct (set_meta r1 _ false) eqn:Hm; [by eauto with research|reflexivity]. }
  trans r2; [done|]. destruct (concat_propagate _ _ _ _); [apply write_insights_step|done].
Qed.
Lemma harvest_loop_step r now ex rows : R r (harvest_loop r now ex rows).1.1.
Proof.
  revert r. induction rows as [|[n t] rows IH]; intros r; csimpl; [done|].
  pose proof (fold_task_step r now (node_key n) t (ex t)) as Hf.
  destruct (fold_task_into_node r now _ _ _) as [r1 [[]|]]; [|done]. trans r1; [done|]. specialize (IH r1).
  by destruct (harvest_loop r1 now ex rows) as [[]].
Qed.
#[local] Hint Resolve propagate_step fold_task_step harvest_loop_step : research.

(** A handler: an error leaves what was written before it. *)
Lemma idea_tree_step r now says a : R r (idea_tree r now says a).1.
Proof.
  destruct a as [|parent hyp|key fields|key reason|values|id t|key|key|]; unfold idea_tree, caught.
  - reflexivity.
  - destruct (negb _); [done|]. destruct (get_node r _) as [p|]; [|done]. destruct (meta_int _ _ _); [|done].
    destruct (negb _ && _); [done|]. destruct (add_node r _ hyp) as [[r1 n]|] eqn:Ha; [|done]. by eauto with research.
  - destruct (negb _); [done|]. destruct (update_node r now key _) as [r1|] eqn:Hu; [|done]. by eauto with research.
  - destruct (negb _); [done|]. destruct (prune r key _) as [[r1 keys]|] eqn:Hp; [|done]. trans r1; [by eauto with research|].
    pose proof (propagate_step says now r1 key). by destruct (propagate_insights_llm says now r1 key) as [r2 []].
  - destruct (List.filter _ values) as [|kv l]; [done|]. destruct (set_meta r (kv :: l) false) eqn:Hm; [by eauto with research|done].
  - destruct t as [t|]; [|done]. destruct (List.find _ (nodes r)) as [n|]; [|done].
    pose proof (fold_task_step r now (node_key n) t None) as Hf.
    destruct (fold_task_into_node r now _ t None) as [r1 [[]|]]; [|done]. trans r1; [done|].
    pose proof (propagate_step says now r1 (node_key n)). by destruct (propagate_insights_llm says now r1 _) as [r2 []].
  - destruct (negb _); [done|]. destruct (get_node r key) as [n|]; [|done]. destruct (negb _); [done|].
    destruct (update_node r now key _) as [r1|] eqn:Hu; [|done]. by eauto with research.
  - destruct (negb _); [done|]. pose proof (propagate_step says now r key).
    by destruct (propagate_insights_llm says now r key) as [r2 []].
  - destruct (set_meta r _ true) eqn:Hm; [by eauto with research|done].
Qed.

Lemma stamp_meta_step r v k : R r (stamp_meta r [("merge_eval", v)] k).1.
Proof. unfold stamp_meta. destruct (set_meta r _ true) eqn:Hm; [by eauto with research|reflexivity]. Qed.
#[local] Hint Resolve stamp_meta_step : research.

Lemma merge_step r env says start key :
  R r (merge_experiment r env says start key).1
  ∨ ∃ q n r1, start = false ∧ find_node r key = Some n ∧ merges r env key q
      ∧ set_meta r (merge_scores q n) true = Ok r1 ∧ R r1 (merge_experiment r env says start key).1.
Proof.
  unfold merge_experiment, mcaught. destruct (negb _); [by left|]. unfold get_node.
  destruct (find_node r key) as [n|] eqn:Hn; [|by left]. destruct start.
  - left. unfold merge_start. repeat (destruct (negb _); [done|]). destruct (bool_decide _); [done|]. destruct (_ && _); [done|].
    destruct (negb _); [done|]. destruct (meta_int _ _ _); [by eauto with research|done].
  - unfold merge_status. destruct (stamp_node (meta r)) as [| | |k| |] eqn:Hk; try by left.
    destruct (String.eqb_spec k key) as [->|]; cbn [negb]; [|by left].
    destruct (eval_result env) as [| | |q] eqn:Hq.
    { left. destruct (meta_int _ _ _); [|done]. by destruct (py_get _ "started_at" _). }
    1-2: left; destruct (py_int _); [|done]; destruct (_ <? _)%Z; [|by eauto with research]; destruct (negb _); by eauto with research.
    unfold merge_scored, mcaught. destruct (is_improvement _ _ _) eqn:Hi; cbn [negb]; [|by left; eauto with research].
    destruct (negb (threshold_reads env)); [by left|].
    destruct (meta_truthy (meta r) "protected_paths" && _) eqn:Hp; [by left; eauto with research|].
    destruct (git_merges env) eqn:Hg; cbn [negb]; [|by left; eauto with research].
    fold (merge_scores q n). destruct (set_meta r (merge_scores q n) true) as [r1|] eqn:Hm; [|by left].
    right. exists q, n, r1. split; [done|]. split; [done|]. split.
    { split; [done|]. split; [done|]. split; [done|]. split; [|done]. intros Ht. by rewrite Ht in Hp. }
    split; [done|]. destruct (update_node r1 _ key _) as [r2|] eqn:Hu; [|done].
    trans r2; [by eauto with research|]. pose proof (propagate_step says (merge_now env) r2 key).
    by destruct (propagate_insights_llm says (merge_now env) r2 key) as [r3 []].
Qed.

Lemma dispatch_loop_step r now ends keys done_ : R r (dispatch_loop r now ends keys done_).1.
Proof.
  revert r done_. induction keys as [|key keys IH]; intros r ds; csimpl; [done|].
  destruct (get_node r key); [|done]. destruct (ends key); [done..|].
  destruct (update_node r now key _) as [r1|] eqn:Hu; [|done]. trans r1; [by eauto with research|apply IH].
Qed.
Lemma dispatch_step r now ends keys : R r (dispatch_experiments r now ends keys).1.
Proof.
  unfold dispatch_experiments. destruct keys as [|key keys]; [done|]. repeat (destruct (negb _); [done|]).
  destruct (meta_int _ _ _); [|done]. destruct (_ <=? _)%Z; [done|]. destruct (dispatchable r _) as [[]|]; [done| |done].
  destruct (meta_int _ _ _); [|done]. destruct (_ <? _)%Z; [done|]. apply dispatch_loop_step.
Qed.
Lemma baseline_dispatch_step r now e : R r (dispatch_baseline r now e).1.
Proof.
  unfold dispatch_baseline. destruct (negb _); [done|]. case_if; [done|].
  destruct (find_node r "BASELINE") as [|] eqn:Hb; [done|]. pose proof (baseline_step r Hb) as Hr.
  destruct e; [done|done|]. set (r1 := set_nodes r _) in *.
  destruct (update_node r1 now _ _) as [r2|] eqn:Hu; [|done]. trans r1; [done|by eauto with research].
Qed.

(** An action is a step, or a merge's write and a step. *)
Lemma ract_step r a :
  R r (ract r a)
  ∨ ∃ env says key q n r1, a = Merge env says false key ∧ find_node r key = Some n ∧ merges r env key q
      ∧ set_meta r (merge_scores q n) true = Ok r1 ∧ R r1 (ract r a).
Proof.
  destruct a as [now says a|env says start key|now ends keys|now e|now tasks ex].
  - left. apply idea_tree_step.
  - destruct (merge_step r env says start key) as [?|(q & n & r1 & -> & ?)]; [by left|]. right. by exists env, says, key, q, n, r1.
  - left. apply dispatch_step.
  - left. apply baseline_dispatch_step.
  - left. apply harvest_loop_step.
Qed.
End steps.

#[local] Hint Resolve update_node_evolves set_meta_evolves prune_evolves add_node_evolves baseline_evolves : research.
Lemma ract_evolves r a : evolves r (ract r a).
Proof.
  destruct (ract_step evolves ltac:(eauto with research) ltac:(eauto with research) ltac:(eauto with research)
    ltac:(eauto with research) ltac:(eauto with research) ltac:(eauto with research) r a)
    as [?|(env & says & key & q & n & r1 & -> & Hn & _ & Hm & Hr)]; [done|]. trans r1; [by eauto with research|done].
Qed.
Lemma write_insights_evolves r now l : evolves r (write_insights r now l).1.
Proof. apply (write_insights_step evolves); by eauto with research. Qed.
Lemma ract_steps r acts : evolves r (foldl ract r acts).
Proof. revert r. induction acts as [|a acts IH]; intros r; [done|]. trans (ract r a); [apply ract_evolves|apply IH]. Qed.

(** *** Runs *)

Lemma intake_ok objective trunk prefix b bt :
  ∃ m, intake objective trunk prefix b bt = Ok (mk_run m [new_node "ROOT" None 0 objective] trunk prefix)
    ∧ m !! "test_trunk_score" = None.
Proof. destruct b, bt; eexists; (split; [reflexivity|done]). Qed.

Lemma rrun_wf objective trunk prefix b bt acts r : rrun objective trunk prefix b bt acts = Some r → wf_run r.
Proof.
  unfold rrun. destruct (intake_ok objective trunk prefix b bt) as (m & -> & _). intros [= <-].
  apply ract_steps, grown_root.
Qed.

(** C22. The idea tree, after any sequence of tool calls and harvests on a new
    run: its nodes are the root, the children of each node numbered from 1 in the
    order they were added, and at most one baseline; no two share a key; and
    whatever is done next, a node keeps its place and hypothesis, and a merged or
    pruned one its status. *)
Theorem idea_tree_kept objective trunk prefix b bt acts acts' :
  ∃ r, rrun objective trunk prefix b bt acts = Some r
    ∧ grown (skel <$> nodes r) ∧ NoDup (node_key <$> nodes r)
    ∧ extends r (foldl ract r acts').
Proof.
  destruct (rrun objective trunk prefix b bt acts) as [r|] eqn:Hr.
  - pose proof (rrun_wf _ _ _ _ _ _ _ Hr) as Hw. exists r. split; [done|]. split; [done|].
    split; [by apply wf_NoDup|by apply ract_steps].
  - unfold rrun in Hr. destruct (intake_ok objective trunk prefix b bt) as (m & He & _). by rewrite He in Hr.
Qed.

(** *** Walks up the tree *)

(** [a] is above [k]. *)
Inductive ancestor (r : ResearchRun) : string → string → Prop :=
| ancestor_parent k n p : find_node r k = Some n → parent_key n = Some p → ancestor r k p
| ancestor_up k n p a : find_node r k = Some n → parent_key n = Some p → ancestor r p a → ancestor r k a.

Lemma parent_before r i n p :
  wf_run r → nodes r !! i = Some n → parent_key n = Some p →
  ∃ j m, (j < i)%nat ∧ nodes r !! j = Some m ∧ node_key m = p ∧ find_node r p = Some m.
Proof.
  intros Hw Hi Hp. destruct (grown_parent (skel <$> nodes r) i (skel n) p Hw) as (j & t & Hj & Ht & Hk);
    [by rewrite list_lookup_fmap, Hi|done|].
  rewrite list_lookup_fmap in Ht. destruct (nodes r !! j) as [m|] eqn:Hm; [|done]. injection Ht as <-.
  exists j, m. split; [done|]. split; [done|]. split; [done|]. rewrite <-Hk. apply find_node_elem; [done|].
  by eapply list_elem_of_lookup_2.
Qed.
Lemma find_node_lookup r k n : find_node r k = Some n → ∃ i, nodes r !! i = Some n ∧ node_key n = k.
Proof. intros [[i Hi]%list_elem_of_lookup Hk]%find_node_Some. by exists i. Qed.

Lemma concat_walk_up r cap stamp ins fuel i n :
  wf_run r → nodes r !! i = Some n → (i < fuel)%nat →
  ∃ l, concat_walk fuel cap stamp ins (λ k, find_node r k ≫= parent_key) (Some (node_key n)) = Some l
    ∧ ∀ a, a ∈ l.*1 ↔ a = node_key n ∨ ancestor r (node_key n) a.
Proof.
  intros Hw. revert i n. induction fuel as [|fuel IH]; intros i n Hi Hlt; [lia|]. csimpl.
  assert (Hn : find_node r (node_key n) = Some n) by (apply find_node_elem; [done|by eapply list_elem_of_lookup_2]).
  rewrite Hn. csimpl. destruct (parent_key n) as [p|] eqn:Hp.
  - destruct (parent_before r i n p Hw Hi Hp) as (j & m & Hj & Hm & Hk & Hf). subst p.
    destruct (IH j m Hm) as (l & Hl & Ha); [lia|]. rewrite Hl. csimpl. eexists. split; [done|]. intros a. csimpl.
    rewrite elem_of_cons, Ha. split.
    + intros [->|[->|?]]; [by left|right; by eapply ancestor_parent|right; by eapply ancestor_up].
    + intros [->|Hanc]; [by left|]. right. inversion Hanc; simplify_eq; [by left|by right].
  - destruct fuel; csimpl; (eexists; split; [done|]); intros a; csimpl; rewrite list_elem_of_singleton;
      (split; [by left|]); (intros [->|Hanc]; [done|]); inversion Hanc; simplify_eq.
Qed.

Lemma concat_propagate_up r key lesson :
  wf_run r → str_truthy (strip lesson) = true →
  ∃ l, concat_propagate (length (nodes r)) r key lesson = Some l ∧ ∀ a, a ∈ l.*1 ↔ ancestor r key a.
Proof.
  intros Hw Hs. unfold concat_propagate. rewrite Hs.
  destruct (find_node r key) as [n|] eqn:Hn; csimpl.
  - destruct (find_node_lookup r key n Hn) as (i & Hi & <-). destruct (parent_key n) as [p|] eqn:Hp.
    + destruct (parent_before r i n p Hw Hi Hp) as (j & m & Hj & Hm & Hk & Hf). subst p.
      pose proof (lookup_lt_Some _ _ _ Hi).
      destruct (concat_walk_up r 1200 ("[from " +:+ node_key n +:+ "] " +:+ strip lesson) (λ k, find_node r k ≫= insight)
        (length (nodes r)) j m Hw Hm) as (l & Hl & Ha); [lia|].
      exists l. split; [exact Hl|]. intros a. rewrite Ha. split.
      * intros [->|?]; [by eapply ancestor_parent|by eapply ancestor_up].
      * intros Hanc. inversion Hanc; simplify_eq; [by left|by right].
    + exists []. split; [by destruct (length (nodes r))|]. intros a. split; [intros Ha; by apply not_elem_of_nil in Ha|].
      intros Hanc. inversion Hanc; simplify_eq.
  - exists []. split; [by destruct (length (nodes r))|]. intros a. split; [intros Ha; by apply not_elem_of_nil in Ha|].
    intros Hanc. inversion Hanc; simplify_eq.
Qed.

(** The walk of a lesson up the tree of any run ends, and writes to every node
    above the one it comes from and to no other. *)
Theorem lesson_reaches_ancestors objective trunk prefix b bt acts r key lesson :
  rrun objective trunk prefix b bt acts = Some r → str_truthy (strip lesson) = true →
  ∃ l, concat_propagate (length (nodes r)) r key lesson = Some l ∧ ∀ a, a ∈ l.*1 ↔ ancestor r key a.
Proof. intros Hr. apply concat_propagate_up. by eapply rrun_wf. Qed.

(** In any run, a node that is not merged or pruned takes a further child,
    numbered next to those it has, one level down and pending, unless the
    baseline's node is one of them: the store finds no key taken. *)
Theorem add_next_child objective trunk prefix b bt acts r p hyp n :
  rrun objective trunk prefix b bt acts = Some r →
  find_node r p = Some n → is_terminal n = false → "BASELINE" ∉ node_key <$> siblings r p →
  let m := new_node (child_key p (S (length (siblings r p)))) (Some p) (depth n + 1) hyp in
  add_node r p hyp = Ok (set_nodes r (nodes r ++ [m]), m).
Proof. intros Hr Hn Ht Hb. apply (add_node_grows r p hyp n); [by eapply rrun_wf|done..]. Qed.

(** *** A terminal ancestor *)

Lemma extends_find r r' k n :
  wf_run r' → extends r r' → find_node r k = Some n → ∃ m, find_node r' k = Some m ∧ keep_node n m.
Proof.
  intros Hw (l1 & l2 & Hn & Hf) Hk. destruct (find_node_lookup r k n Hk) as (i & Hi & <-).
  destruct (Forall2_lookup_l _ _ _ _ _ Hf Hi) as (m & Hm & Hnm). exists m. split; [|done].
  assert (node_key m = node_key n) as <- by (destruct Hnm as (Hs & _); by apply (f_equal key_of) in Hs).
  apply find_node_elem; [done|]. rewrite Hn. apply elem_of_app. left. by eapply list_elem_of_lookup_2.
Qed.
Lemma keep_terminal n m : keep_node n m → is_terminal n = true → is_terminal m = true.
Proof. unfold is_terminal. intros (_ & _ & Ht) Hn. by rewrite (Ht Hn). Qed.
Lemma evolves_terminal r r' k n :
  wf_run r → evolves r r' → find_node r k = Some n → is_terminal n = true →
  ∃ m, find_node r' k = Some m ∧ is_terminal m = true.
Proof.
  intros Hw He Hn Ht. destruct (He Hw) as [Hw' Hx]. destruct (extends_find r r' k n Hw' Hx Hn) as (m & Hm & Hk).
  exists m. split; [done|by eapply keep_terminal].
Qed.

Lemma mutable_fields fields :
  (∀ f v, fields !! f = Some v → f ∈ MUTABLE_NODE_FIELDS) →
  existsb (λ kv, negb (bool_decide (kv.1 ∈ MUTABLE_NODE_FIELDS))) (map_to_list (fields : gmap string fval)) = false.
Proof.
  intros Hm. apply not_true_iff_false. intros ([f v] & Hin & Hb)%List.existsb_exists.
  apply list_elem_of_In, elem_of_map_to_list in Hin. csimpl in Hb. rewrite bool_decide_true in Hb; [done|by eapply Hm].
Qed.
Lemma set_each_total fields n :
  (∀ f v m, (f, v) ∈ fields → is_Some (set_field m f v)) → is_Some (set_each n fields).
Proof.
  revert n. induction fields as [|[f v] fields IH]; intros n Hf; csimpl; [done|].
  destruct (Hf f v n) as [m ->]; [left|]. csimpl. apply IH. intros g w o Hg. apply Hf. by right.
Qed.

(** An insight is written but on a merged or pruned node. *)
Lemma insight_update r now k n text :
  find_node r k = Some n →
  if is_terminal n then update_node r now k {["insight" := FJson (VStr text)]} = Raise (NodeStateError k)
  else is_ok (update_node r now k {["insight" := FJson (VStr text)]}) = true.
Proof.
  intros Hn. unfold update_node, get_node. rewrite map_to_list_singleton, Hn. csimpl. destruct (is_terminal n); [done|].
  unfold set_fields. rewrite map_to_list_singleton. by destruct n.
Qed.
Lemma write_insights_stop r now l k n :
  wf_run r → k ∈ l.*1 → find_node r k = Some n → is_terminal n = true →
  ∃ k', ∃ r', write_insights r now l = (r', Raise k').
Proof.
  revert r n. induction l as [|[key text] l IH]; intros r n Hw Hin Hn Ht; csimpl in *; [by apply not_elem_of_nil in Hin|].
  destruct (update_node r now key _) as [r1|e] eqn:Hu; [|by exists e, r].
  pose proof (update_node_evolves _ _ _ _ _ Hu) as He.
  apply elem_of_cons in Hin as [->|Hin].
  - pose proof (insight_update r now key n text Hn) as Hi. rewrite Ht in Hi. congruence.
  - destruct (evolves_terminal r r1 k n Hw He Hn Ht) as (m & Hm & Htm). apply (IH r1 m); [by apply He|done..].
Qed.
(** No insight changes a status. *)
Definition statuses (r : ResearchRun) : list (string * NodeStatus) := (λ n, (node_key n, status n)) <$> nodes r.
Lemma insight_statuses r now k text r' :
  wf_run r → update_node r now k {["insight" := FJson (VStr text)]} = Ok r' → statuses r' = statuses r.
Proof.
  intros Hw (n & m & Hn & -> & (Hs & _) & Hst)%update_node_ok. rewrite lookup_singleton_ne in Hst by done.
  apply find_node_Some in Hn as [Hin Hk]. unfold statuses. csimpl. rewrite <-list_fmap_compose.
  apply list_fmap_ext. intros i x Hx. unfold compose. destruct (String.eqb_spec (node_key x) (node_key m)) as [He|]; [|done].
  assert (node_key m = node_key n) as Hmn by (by apply (f_equal key_of) in Hs).
  replace x with n; [by rewrite Hmn, Hst|]. apply (node_unique r); [done..|by eapply list_elem_of_lookup_2|congruence].
Qed.
Lemma write_insights_statuses r now l : wf_run r → statuses (write_insights r now l).1 = statuses r.
Proof.
  revert r. induction l as [|[key text] l IH]; intros r Hw; csimpl; [done|].
  destruct (update_node r now key _) as [r1|e] eqn:Hu; [|done].
  rewrite IH by (by apply (update_node_evolves _ _ _ _ _ Hu)). by eapply insight_statuses.
Qed.

Lemma update_node_total r now k fields n :
  find_node r k = Some n → is_terminal n = false →
  (∀ f v, fields !! f = Some v → f ∈ MUTABLE_NODE_FIELDS ∧ ∀ m, is_Some (set_field m f v)) →
  ∃ r', update_node r now k fields = Ok r'.
Proof.
  intros Hn Ht Hf. unfold update_node, get_node. rewrite mutable_fields by (intros f v Hv; by apply (Hf f v)).
  rewrite Hn. csimpl. rewrite Ht. csimpl.
  destruct (set_each_total (map_to_list fields) n) as [m Hm].
  { intros f v o Hin%elem_of_map_to_list. by apply Hf. }
  unfold set_fields. rewrite Hm. by eexists.
Qed.

Definition fold_update (st : NodeStatus) (sc : option Q) (ins res : string) : gmap string fval :=
  {["status" := FJson (VStr (node_status_value st)); "score" := FScore sc; "insight" := FJson (VStr ins);
    "result" := FJson (VStr res)]}.
Lemma fold_update_total st sc ins res f v :
  fold_update st sc ins res !! f = Some v → f ∈ MUTABLE_NODE_FIELDS ∧ ∀ m, is_Some (set_field m f v).
Proof.
  unfold fold_update. intros H.
  repeat (apply lookup_insert_Some in H as [[<- <-]|[_ H]]; [split; [by apply list_elem_of_In; simpl; tauto|by intros []; destruct st]|]).
  apply lookup_singleton_Some in H as [<- <-]. split; [by apply list_elem_of_In; simpl; tauto|by intros []].
Qed.

Lemma grown_key_truthy r n : wf_run r → n ∈ nodes r → str_truthy (node_key n) = true.
Proof.
  intros Hw Hn. destruct (str_truthy (node_key n)) eqn:Hk; [done|]. apply negb_false_iff, String.eqb_eq in Hk.
  destruct (grown_cases _ (skel n) Hw (list_elem_of_fmap_2 _ _ _ Hn)) as [Hs|[Hs|(p & k & d & Hs & Hle)]];
    apply (f_equal key_of) in Hs; unfold key_of in Hs; csimpl in Hs; rewrite Hk in Hs; [done..|].
  apply (f_equal ordinal) in Hs. by rewrite ordinal_child_key in Hs by lia.
Qed.

(** The insight a task's report leaves. *)
Definition fold_status (t : TaskView) (ex : option (option (option Q * string * string))) : NodeStatus := (fold_fields t ex).1.1.1.
Definition fold_insight (t : TaskView) (ex : option (option (option Q * string * string))) : string := (fold_fields t ex).1.2.

Lemma fold_status_spent t ex : fold_status t ex = NDone ∨ fold_status t ex = NFailed.
Proof. unfold fold_status, fold_fields. repeat case_match; csimpl; auto. Qed.

Lemma find_status r k n : find_node r k = Some n → (k, status n) ∈ statuses r.
Proof. intros [Hin <-]%find_node_Some. by apply (list_elem_of_fmap_2 (λ n, (node_key n, status n))). Qed.

(** The first write of a fold: the node ends. *)
Lemma fold_first_write r now n st sc ins res :
  wf_run r → n ∈ nodes r → status n = NRunning →
  ∃ r1, update_node r now (node_key n) (fold_update st sc ins res) = Ok r1 ∧ evolves r r1 ∧ meta r1 = meta r
    ∧ (node_key n, st) ∈ statuses r1.
Proof.
  intros Hw Hin Hst. pose proof (find_node_elem r n Hw Hin) as Hn.
  destruct (update_node_total r now (node_key n) (fold_update st sc ins res) n Hn) as [r1 Hu].
  { unfold is_terminal. by rewrite Hst. }
  { apply fold_update_total. }
  exists r1. split; [done|]. split; [by eapply update_node_evolves|]. split; [by eapply update_node_meta|].
  apply update_node_ok in Hu as (n0 & m & Hn0 & -> & (Hs & _) & Hm). rewrite Hn in Hn0. injection Hn0 as <-.
  unfold fold_update in Hm. rewrite lookup_insert_eq in Hm. destruct Hm as (s & [= <-] & Hm).
  rewrite node_status_of_value in Hm. injection Hm as ->.
  assert (node_key m = node_key n) as Hk by (by apply (f_equal key_of) in Hs).
  unfold statuses. csimpl. rewrite <-list_fmap_compose. apply list_elem_of_fmap. exists n. split; [|done].
  unfold compose. by rewrite Hk, String.eqb_refl, Hk.
Qed.

Lemma statuses_set_run_meta r m : statuses (set_run_meta r m) = statuses r.
Proof. done. Qed.
Lemma set_meta_nodes r values machine r' : set_meta r values machine = Ok r' → nodes r' = nodes r.
Proof. unfold set_meta. destruct (List.find _ _) as [[]|]; by intros [= <-]. Qed.
Lemma statuses_find r k st : wf_run r → (k, st) ∈ statuses r → ∃ n, find_node r k = Some n ∧ status n = st.
Proof. intros Hw (n & [= -> ->] & Hn)%list_elem_of_fmap. exists n. split; [by apply find_node_elem|done]. Qed.

Lemma nodes_find r r' k : nodes r' = nodes r → find_node r' k = find_node r k.
Proof. unfold find_node. by intros ->. Qed.
Lemma nodes_statuses r r' : nodes r' = nodes r → statuses r' = statuses r.
Proof. unfold statuses. by intros ->. Qed.
Lemma nodes_wf r r' : nodes r' = nodes r → wf_run r → wf_run r'.
Proof. unfold wf_run. by intros ->. Qed.
Lemma ancestor_same r r' k a :
  wf_run r' → extends r r' → ancestor r k a → ancestor r' k a.
Proof.
  intros Hw Hx. assert (Hn : ∀ k n p, find_node r k = Some n → parent_key n = Some p →
    ∃ m, find_node r' k = Some m ∧ parent_key m = Some p).
  { intros k0 n p Hf Hp. destruct (extends_find r r' k0 n Hw Hx Hf) as (m & Hm & (Hs & _)). exists m. split; [done|].
    apply (f_equal (λ s, s.1.2)) in Hs. csimpl in Hs. congruence. }
  induction 1 as [k n p Hf Hp|k n p a Hf Hp _ IH]; destruct (Hn k n p Hf Hp) as (m & Hm & Hmp);
    [by eapply ancestor_parent|by eapply ancestor_up].
Qed.

(** What a fold leaves where a node above is merged or pruned. *)
Lemma fold_below_terminal r now n t ex a m :
  wf_run r → n ∈ nodes r → status n = NRunning →
  ancestor r (node_key n) a → find_node r a = Some m → is_terminal m = true →
  str_truthy (strip (fold_insight t ex)) = true →
  ∃ r' e, fold_task_into_node r now (node_key n) t ex = (r', Raise e) ∧ wf_run r'
    ∧ (node_key n, fold_status t ex) ∈ statuses r'.
Proof.
  intros Hw Hin Hst Hanc Hm Ht Hs. unfold fold_task_into_node. rewrite (grown_key_truthy r n Hw Hin). cbn [negb].
  unfold fold_insight, fold_status in *. destruct (fold_fields t ex) as [[[st sc] ins] res]. cbn [fst snd] in *.
  fold (fold_update st sc ins res).
  destruct (fold_first_write r now n st sc ins res Hw Hin Hst) as (r1 & -> & He & _ & Hin1).
  destruct (He Hw) as [Hw1 Hx1].
  set (r2 := if String.eqb (node_key n) "BASELINE" then _ else _).
  assert (Hn2 : nodes r2 = nodes r1).
  { unfold r2. case_if; [|done]. destruct sc as [q|]; [|done].
    destruct (set_meta r1 _ false) eqn:Hmt; [by eapply set_meta_nodes|done]. }
  clearbody r2. rewrite <-(nodes_statuses r1 r2 Hn2) in Hin1. pose proof (nodes_wf r1 r2 Hn2 Hw1) as Hw2.
  destruct (evolves_terminal r r1 a m Hw He Hm Ht) as (m1 & Hm1 & Ht1). rewrite <-(nodes_find r1 r2 a Hn2) in Hm1.
  assert (Hx2 : extends r r2) by (destruct Hx1 as (l1 & l2 & Hl & Hf); exists l1, l2; by rewrite Hn2).
  apply (ancestor_same r r2) in Hanc; [|done..].
  destruct (concat_propagate_up r2 (node_key n) ins Hw2 Hs) as (l & -> & Hl).
  destruct (write_insights_stop r2 now l a m1 Hw2) as (e & r' & Hwr); [by apply Hl|done..|]. rewrite Hwr.
  exists r', e. split; [done|]. pose proof (write_insights_evolves r2 now l) as He2.
  pose proof (write_insights_statuses r2 now l Hw2) as Hs2. rewrite Hwr in He2, Hs2. cbn [fst] in He2, Hs2.
  split; [by apply He2|]. by rewrite Hs2.
Qed.

(** A node that is running under a merged or pruned one, when its task
    ends with a report that says something: the harvest raises after the node is
    done or failed.  Its executor's work is not imported, the tasks behind it are
    not folded, and no later harvest takes the node up. *)
Theorem harvest_below_terminal r now extract n t rows a m :
  wf_run r → n ∈ nodes r → status n = NRunning →
  ancestor r (node_key n) a → find_node r a = Some m → is_terminal m = true →
  str_truthy (strip (fold_insight t (extract t))) = true →
  ∃ r', harvest_loop r now extract ((n, t) :: rows) = (r', [], false)
    ∧ (∃ n', find_node r' (node_key n) = Some n' ∧ status n' = fold_status t (extract t))
    ∧ ∀ tasks, node_key n ∉ node_key <$> (harvest_rows r' tasks).*1.
Proof.
  intros Hw Hin Hst Hanc Hm Ht Hs.
  destruct (fold_below_terminal r now n t (extract t) a m) as (r' & e & Hf & Hw' & Hstat); [done..|].
  exists r'. cbn [harvest_loop]. rewrite Hf. split; [done|].
  destruct (statuses_find r' _ _ Hw' Hstat) as (n' & Hn' & Hs'). split; [by exists n'|].
  intros tasks (x & Hk & ([x' tx] & -> & Hx)%list_elem_of_fmap)%list_elem_of_fmap. cbn [fst] in Hk.
  unfold harvest_rows in Hx. apply list_elem_of_omap in Hx as (y & Hy & Hyx). case_decide as Hrun; [|done].
  apply fmap_Some in Hyx as (ty & _ & [= -> ->]).
  assert (y = n') as ->.
  { apply find_node_Some in Hn' as [Hn' Hk']. apply (node_unique r'); [done..|congruence]. }
  rewrite Hs' in Hrun. destruct (fold_status_spent t (extract t)); congruence.
Qed.

(** ** Trunk's score *)

Lemma foldl_insert_other (values : list (string * mval)) (m : gmap string mval) k :
  k ∉ values.*1 → foldl (λ m kv, <[kv.1 := kv.2]> m) m values !! k = m !! k.
Proof.
  revert m. induction values as [|[k' v] values IH]; intros m Hk; csimpl; [done|]. csimpl in Hk.
  rewrite IH by set_solver. apply lookup_insert_ne. set_solver.
Qed.
Lemma set_meta_other r values machine r' k :
  set_meta r values machine = Ok r' → k ∉ values.*1 → meta r' !! k = meta r !! k.
Proof. unfold set_meta. destruct (List.find _ _) as [[]|]; intros [= <-] Hk. by apply foldl_insert_other. Qed.
(** The model sets no key of the machine. *)
Lemma set_meta_machine r values r' k :
  set_meta r values false = Ok r' → k ∈ MACHINE_KEYS → meta r' !! k = meta r !! k.
Proof.
  intros Hs Hk. eapply set_meta_other; [done|]. intros ([k' v] & -> & Hin)%list_elem_of_fmap. csimpl in Hk.
  unfold set_meta in Hs. destruct (List.find _ values) as [[]|] eqn:Hf; [done|].
  apply list_elem_of_In in Hin. pose proof (List.find_none _ _ Hf _ Hin) as Hb. unfold bad_key in Hb. csimpl in Hb.
  apply orb_false_iff in Hb as [_ Hb]. by rewrite bool_decide_true in Hb.
Qed.

Definition same_scores (r r' : ResearchRun) : Prop :=
  ∀ k, k ∈ ["test_trunk_score"; "test_baseline_score"] → meta r' !! k = meta r !! k.
#[global] Instance same_scores_preorder : PreOrder same_scores.
Proof. split; [done|]. intros r1 r2 r3 H12 H23 k Hk. by rewrite H23, H12. Qed.

Lemma meta_same r r' : meta r' = meta r → same_scores r r'.
Proof. intros Hm k _. by rewrite Hm. Qed.
Lemma update_same r now key fields r' : update_node r now key fields = Ok r' → same_scores r r'.
Proof. intros Hu. apply meta_same. by eapply update_node_meta. Qed.
Lemma set_meta_same r values r' : set_meta r values false = Ok r' → same_scores r r'.
Proof. intros Hs k Hk. eapply set_meta_machine; [done|]. set_solver. Qed.
Lemma set_machine_same r key v r' :
  set_meta r [(key, v)] true = Ok r' → key ∈ ["merge_eval"; "report_rendered"] → same_scores r r'.
Proof. intros Hs Hin k Hk. eapply set_meta_other; [done|]. csimpl. set_solver. Qed.
Lemma prune_same r key reason r' keys : prune r key reason = Ok (r', keys) → same_scores r r'.
Proof. unfold prune. destruct (find_node r key); intros [= <- _]. by apply meta_same. Qed.
Lemma add_same r p hyp r' m : add_node r p hyp = Ok (r', m) → same_scores r r'.
Proof.
  unfold add_node. destruct (find_node r p) as [n|]; [|done]. destruct (is_terminal n); [done|].
  destruct (pymap _ _) as [o|]; csimpl; [|done]. destruct (find_node r _); [done|]. intros [= <- _]. by apply meta_same.
Qed.

Lemma ract_scores r a :
  same_scores r (ract r a)
  ∨ ∃ env says key q, a = Merge env says false key ∧ merges r env key q
      ∧ meta (ract r a) !! "test_trunk_score" = Some (Num q)
      ∧ meta (ract r a) !! "test_baseline_score" = meta r !! "test_baseline_score".
Proof.
  destruct (ract_step same_scores update_same set_meta_same set_machine_same prune_same add_same
    ltac:(intros; by apply meta_same) r a) as [?|(env & says & key & q & n & r1 & Ha & _ & Hg & Hm & Hr)]; [by left|].
  right. exists env, says, key, q. split; [done|]. split; [done|].
  unfold set_meta in Hm. destruct (List.find _ _) as [[]|]; [done|]. injection Hm as <-.
  rewrite !Hr by (by (left || (right; left))). split; csimpl.
  - rewrite !lookup_insert_ne by done. by rewrite lookup_insert_eq.
  - by rewrite !lookup_insert_ne by done.
Qed.

(** C23. Trunk's held-out score: whatever the coordinator does, it changes only
    where a merge is finished, whose stamp is that node's, whose detached eval
    scored better than the reference in the run's direction, that touches no
    protected path and that git merged; it is then that eval's score.  The
    held-out score of the baseline never changes. *)
Theorem trunk_score_gated r a :
  meta (ract r a) !! "test_baseline_score" = meta r !! "test_baseline_score"
  ∧ (meta (ract r a) !! "test_trunk_score" = meta r !! "test_trunk_score"
     ∨ ∃ env says key q, a = Merge env says false key ∧ merges r env key q
         ∧ meta (ract r a) !! "test_trunk_score" = Some (Num q)).
Proof.
  destruct (ract_scores r a) as [Hs|(env & says & key & q & Ha & Hm & Ht & Hb)].
  - split; [apply Hs; by right; left|]. left. apply Hs. by left.
  - split; [done|]. right. by exists env, says, key, q.
Qed.

(** Where trunk has a score, a merge of the run's gave it. *)
Definition scored_by (acts : list RAction) (q : Q) : Prop :=
  ∃ env says key, Merge env says false key ∈ acts ∧ eval_result env = Scored q ∧ git_merges env = true.
Lemma run_scores acts r0 :
  meta r0 !! "test_trunk_score" = None →
  let r := foldl ract r0 acts in
  meta r !! "test_baseline_score" = meta r0 !! "test_baseline_score"
  ∧ match meta r !! "test_trunk_score" with
    | None => True
    | Some v => ∃ q, v = Num q ∧ scored_by acts q
    end.
Proof.
  intros H0. induction acts as [|a acts IH] using rev_ind; csimpl; [by rewrite H0|]. rewrite foldl_app. csimpl.
  set (r := foldl ract r0 acts) in *. destruct IH as [Hb Ht].
  destruct (ract_scores r a) as [Hs|(env & says & key & q & -> & (_ & He & _ & _ & Hg) & Hq & Hbl)].
  - rewrite !Hs by (by (left || (right; left))). split; [done|]. destruct (meta r !! "test_trunk_score") as [v|]; [|done].
    destruct Ht as (q & -> & env & says & key & Hin & ?). exists q. split; [done|]. exists env, says, key.
    split; [|done]. apply elem_of_app. by left.
  - split; [congruence|]. rewrite Hq. exists q. split; [done|]. exists env, says, key.
    split; [|done]. apply elem_of_app. right. left.
Qed.

Lemma intake_baseline objective trunk prefix b bt r :
  intake objective trunk prefix b bt = Ok r → meta_score (meta r) "test_baseline_score" = bt.
Proof. destruct b, bt; by intros [= <-]. Qed.

(** The gate of the judge: a verdict of satisfied on a run stands only when
    its report is done, and its cycles are spent or a merge of the run, of a
    detached eval's score better than the held-out baseline of the intake, made
    it so. *)
Theorem satisfied_needs_merge objective trunk prefix b bt acts r report_done exhausted :
  rrun objective trunk prefix b bt acts = Some r →
  adjust_research_verdict "satisfied" (meta r) report_done exhausted = "satisfied" →
  report_done = true
  ∧ (exhausted = true
     ∨ ∃ q, scored_by acts q ∧ meta_score (meta r) "test_trunk_score" = Some q
         ∧ is_improvement (Some q) bt (meta_direction (meta r)) = true).
Proof.
  unfold rrun. destruct (intake_ok objective trunk prefix b bt) as (m & Hi & Hm). pose proof (intake_baseline _ _ _ _ _ _ Hi) as Hb.
  rewrite Hi. intros [= <-]. set (r0 := mk_run m _ _ _) in *. destruct (run_scores acts r0 Hm) as [Hbl Ht].
  set (r := foldl ract r0 acts) in *. unfold adjust_research_verdict. cbn [String.eqb].
  assert (Hbt : meta_score (meta r) "test_baseline_score" = bt) by (unfold meta_score in *; by rewrite Hbl).
  rewrite Hbt. destruct report_done; [|by rewrite andb_false_r]. rewrite andb_true_r. intros Hs. split; [done|].
  destruct exhausted; [by left|]. right. rewrite orb_false_r in Hs.
  destruct (is_improvement (meta_score (meta r) "test_trunk_score") bt _) eqn:Himp; [|done].
  unfold meta_score in *. destruct (meta r !! "test_trunk_score") as [v|]; [|done].
  destruct Ht as (q & -> & Hq). by exists q.
Qed.

(** ** On concrete runs *)

Definition demo_task : TaskView := mk_task_view "done" None (Some (Some 1%Q, Some "faster", Some "ok")).
Definition demo_env : merge_env := mk_merge_env true (Scored 2%Q) true false true 5.
(** An idea is tried, a second one under it is dispatched, the first is merged. *)
Definition demo_acts : list RAction :=
  [Tree 0 None (SetMeta [("eval_cmd", Json (VStr "make eval")); ("eval_cmd_test", Json (VStr "make test"))]);
   Tree 0 None (Add None "cache");
   Dispatch 1 (λ _, SpawnedTask 1 "exp/1") ["1"];
   Harvest 2 (λ t, if (t =? 1)%Z then Some demo_task else None) (λ _, None);
   Tree 3 None (Add (Some "1") "larger cache");
   Dispatch 4 (λ _, SpawnedTask 2 "exp/1.1") ["1.1"];
   Merge demo_env None true "1";
   Merge demo_env None false "1"].
Definition demo_of (acts : list RAction) : ResearchRun :=
  default (mk_run ∅ [] "" "") (rrun "speed" "arbor/trunk" "arbor/" None (Some 1%Q) acts).
Definition demo : ResearchRun := demo_of demo_acts.

Lemma demo_run : rrun "speed" "arbor/trunk" "arbor/" None (Some 1%Q) demo_acts = Some demo.
Proof. vm_compute. reflexivity. Qed.
Lemma demo_merged : (λ n, (node_key n, status n)) <$> nodes demo = [("ROOT", NPending); ("1", NMerged); ("1.1", NRunning)].
Proof. vm_compute. reflexivity. Qed.

(** A requeue gives its cycle back. *)
Lemma requeue_refunds :
  let spent := demo_of (take 4 demo_acts) in
  cycles_spent spent = 1%Z ∧ (idea_tree spent 5 None (Requeue "1")).2 = Ok Fine
  ∧ cycles_spent (idea_tree spent 5 None (Requeue "1")).1 = 0%Z.
Proof. vm_compute. done. Qed.

(** After the baseline is dispatched, the root takes no idea: the tool fails. *)
Lemma no_idea_after_baseline :
  let r := demo_of (take 1 demo_acts ++ [Baseline 1 (SpawnedTask 9 "b")]) in
  (idea_tree r 2 None (Add None "cache")).2 = Raise (RValueError "BASELINE").
Proof. vm_compute. reflexivity. Qed.

(** A prune of the root prunes the root alone. *)
Lemma prune_root_alone :
  let r := (idea_tree (demo_of (take 4 demo_acts)) 5 None (Prune "ROOT" None)).1 in
  (λ n, (node_key n, status n)) <$> nodes r = [("ROOT", NPruned); ("1", NDone)].
Proof. vm_compute. reflexivity. Qed.

(** Recording a task that still runs fails its node. *)
Lemma record_running_fails :
  let r := demo_of (take 3 demo_acts) in
  let running := mk_task_view "running" None None in
  let r' := (idea_tree r 5 None (RecordFromTask 1 (Some running))).1 in
  (λ n, (status n, insight n)) <$> find_node r' "1" = Some (NFailed, Some "Timed out/crashed: task ended running").
Proof. vm_compute. reflexivity. Qed.

(** The branch a merge takes may be set by an update. *)
Lemma branch_by_update :
  let r := demo_of (take 4 demo_acts) in
  let r' := (idea_tree r 5 None (Update "1" {["code_ref" := FJson (VStr "other")]})).1 in
  (λ n, (status n, code_ref n)) <$> find_node r' "1" = Some (NDone, Some "other").
Proof. vm_compute. reflexivity. Qed.

(** A node pruned between a merge's two calls: git merges it and trunk takes its
    score, and the tool answers an error. *)
Lemma pruned_while_merging :
  let r := demo_of (take 7 demo_acts ++ [Tree 5 None (Prune "1" None)]) in
  let '(r', answer) := merge_experiment r demo_env None false "1" in
  answer = Ok (MRefused "store") ∧ meta_score (meta r') "test_trunk_score" = Some 2%Q
  ∧ status <$> find_node r' "1" = Some NPruned.
Proof. vm_compute. done. Qed.

Lemma lesson_reaches_ancestors_witness :
  ∃ l, concat_propagate (length (nodes demo)) demo "1.1" "no gain" = Some l ∧ ∀ a, a ∈ l.*1 ↔ ancestor demo "1.1" a.
Proof. apply (lesson_reaches_ancestors "speed" "arbor/trunk" "arbor/" None (Some 1%Q) demo_acts); [exact demo_run|reflexivity]. Defined.

Definition demo_node (i : nat) : IdeaNode := default (new_node "" None 0 "") (nodes demo !! i).
Lemma add_next_child_witness :
  let m := new_node (child_key "ROOT" (S (length (siblings demo "ROOT")))) (Some "ROOT") (depth (demo_node 0) + 1) "drop it" in
  node_key m = "2" ∧ add_node demo "ROOT" "drop it" = Ok (set_nodes demo (nodes demo ++ [m]), m).
Proof.
  split; [vm_compute; reflexivity|].
  apply (add_next_child "speed" "arbor/trunk" "arbor/" None (Some 1%Q) demo_acts demo "ROOT" "drop it" (demo_node 0) demo_run).
  - vm_compute. reflexivity.
  - vm_compute. reflexivity.
  - apply (bool_decide_unpack _). vm_compute. exact I.
Defined.

Lemma harvest_below_terminal_witness :
  let t := mk_task_view "done" None (Some (Some 3%Q, Some "faster still", Some "ok")) in
  let n := demo_node 2 in
  node_key n = "1.1" ∧ ∃ r', harvest_loop demo 6 (λ _, None) [(n, t)] = (r', [], false)
    ∧ (∃ n', find_node r' (node_key n) = Some n' ∧ status n' = fold_status t None)
    ∧ ∀ tasks, node_key n ∉ node_key <$> (harvest_rows r' tasks).*1.
Proof.
  intros t n. split; [vm_compute; reflexivity|].
  apply (harvest_below_terminal demo 6 (λ _, None) n t [] "1" (demo_node 1)).
  - exact (rrun_wf _ _ _ _ _ _ _ demo_run).
  - apply (list_elem_of_lookup_2 _ 2). vm_compute. reflexivity.
  - vm_compute. reflexivity.
  - apply (ancestor_parent demo "1.1" n "1"); vm_compute; reflexivity.
  - vm_compute. reflexivity.
  - vm_compute. reflexivity.
  - vm_compute. reflexivity.
Defined.

Lemma satisfied_needs_merge_witness :
  adjust_research_verdict "satisfied" (meta demo) true false = "satisfied"
  ∧ ∃ q, scored_by demo_acts q ∧ meta_score (meta demo) "test_trunk_score" = Some q
         ∧ is_improvement (Some q) (Some 1%Q) (meta_direction (meta demo)) = true.
Proof.
  assert (Hs : adjust_research_verdict "satisfied" (meta demo) true false = "satisfied") by (vm_compute; reflexivity).
  split; [exact Hs|].
  destruct (satisfied_needs_merge "speed" "arbor/trunk" "arbor/" None (Some 1%Q) demo_acts demo true false demo_run Hs)
    as [_ [Hf|Hq]]; [discriminate Hf|exact Hq].
Defined.
