(* ===== verification/Cadence.v ===== *)
(** * Cadences (scheduled/schedule.py, programs/cadence.py)

    When the runs of a schedule fall: weekdays at local times, an elapsed
    period, one instant, a cron expression, or as each run decides.

    An instant is a number of microseconds since 1970 UTC, a wall clock the
    number of microseconds its reading is past 1970's; a day is its number, a
    time of day its minute.  The time zone database is a parameter, and so is
    croniter.  An elapsed time is divided as the integers it is: Python's
    division of two timedeltas is exact below 285 years.  The texts a cadence is
    read from are in CadenceText.v, but for times of day. *)

From S2P Require Import Prelude.
From S2P Require Import PyStr.
From Stdlib Require Import Zdiv.
From stdpp Require Import sorting options.
Local Open Scope Z_scope.

Definition SECOND : Z := 1000000.
Definition MINUTE : Z := 60 * SECOND.
Definition HOUR : Z := 60 * MINUTE.
Definition DAY : Z := 24 * HOUR.

Definition DYNAMIC_LOOP_MIN_DELAY_SECONDS : Z := 60.
Definition DYNAMIC_LOOP_MAX_DELAY_SECONDS : Z := 3600.
Definition DYNAMIC_LOOP_FALLBACK_DELAY_SECONDS : Z := 600.
Definition MIN_INTERVAL_SECONDS : Z := 60.
Definition DEFAULT_MAX_RUN_SECONDS : Z := 7200.

Inductive CError := CValueError (why : string).

(** ** Cadences *)

Inductive ParsedSchedule :=
| Calendar (days times : list Z) (tz : string)
| Interval (seconds : Z) (anchor : option Z) (tz : string)
| Once (moment : Z) (tz : string)
| Cron (expr tz : string)
| Dynamic (tz : string).
#[global] Instance ParsedSchedule_eq_dec : EqDecision ParsedSchedule.
Proof. solve_decision. Defined.

Definition is_dynamic (s : ParsedSchedule) : bool := match s with Dynamic _ => true | _ => false end.
Definition is_once (s : ParsedSchedule) : bool := match s with Once _ _ => true | _ => false end.
Definition anchored (now : Z) (s : ParsedSchedule) : ParsedSchedule :=
  match s with Interval n None tz => Interval n (Some now) tz | s => s end.
Definition clamp_dynamic_loop_delay (delay : Z) : Z :=
  Z.max DYNAMIC_LOOP_MIN_DELAY_SECONDS (Z.min DYNAMIC_LOOP_MAX_DELAY_SECONDS delay).

(** [_clock]: the minute a time of day is, as "9", "8:30", "8.30 pm", "17h05". *)
Definition lower_ascii (a : ascii) : ascii :=
  let n := nat_of_ascii a in if (65 <=? n)%nat && (n <=? 90)%nat then ascii_of_nat (n + 32) else a.
Fixpoint str_lower (s : string) : string := match s with String a r => String (lower_ascii a) (str_lower r) | EmptyString => "" end.
Definition clock_hour (s : string) : option (Z * string) :=
  match s with
  | String a r =>
    d ← dec_digit a;
    match r with
    | String b r' => match dec_digit b with Some e => Some (10 * d + e, r') | None => Some (d, r) end
    | EmptyString => Some (d, r)
    end
  | EmptyString => None
  end.
Definition clock_minute (s : string) : option (Z * string) :=
  match s with
  | String c (String a (String b r)) =>
    if bool_decide (c ∈ [":"; "."; "h"]%char) then d ← dec_digit a; e ← dec_digit b; Some (10 * d + e, r) else Some (0, s)
  | _ => Some (0, s)
  end.
Definition clock_half (s : string) : option (option bool) :=
  let s := lstrip s in
  if String.eqb s "" then Some None
  else if String.eqb s "am" then Some (Some false)
  else if String.eqb s "pm" then Some (Some true)
  else None.
Definition clock (text : string) : pyres CError Z :=
  match ('(h, r) ← clock_hour (str_lower (strip text)); '(m, r) ← clock_minute r; half ← clock_half r; Some (h, m, half)) with
  | None => Raise (CValueError text)
  | Some (h, m, half) =>
    let hour := match half with
                | Some pm => if (1 <=? h) && (h <=? 12) then Some (h mod 12 + if pm : bool then 12 else 0) else None
                | None => Some h
                end in
    match hour with
    | Some h => if (23 <? h) || (59 <? m) then Raise (CValueError text) else Ok (60 * h + m)
    | None => Raise (CValueError text)
    end
  end.

(** [weekday_name]: the number of a weekday, from Monday. *)
Definition WEEKDAYS : list string := ["mon"; "tue"; "wed"; "thu"; "fri"; "sat"; "sun"].
Definition weekday_name (v : pyval) : pyres CError Z :=
  match v with
  | VInt n => if (0 <=? n) && (n <? 7) then Ok n else Raise (CValueError "day")
  | VStr s =>
    match find_index (String.eqb (String.substring 0 3 (str_lower (strip s)))) WEEKDAYS with
    | Some i => Ok (Z.of_nat i)
    | None => Raise (CValueError s)
    end
  | _ => Raise (CValueError "day")
  end.

Section cadences.
Local Open Scope py_scope.

(** Of the time zone database: the names it knows, the wall clock's reading at
    an instant, and the instant of a reading (the first of two, and one past the
    gap for a reading in it).  Of croniter: whether an expression is valid, and
    its matches past a reading, in order. *)
Context (zone_known : string → bool) (wall_of instant_of : string → Z → Z).
Context (cron_valid : string → bool) (cron_walls : string → Z → nat → Z).

Definition resolve_timezone (tz : string) : pyres CError unit :=
  if zone_known (if str_truthy tz then tz else "UTC") then Ok tt else Raise (CValueError tz).

(** ** Making one *)

Definition calendar_schedule (days : list pyval) (times : list string) (tz : string) : pyres CError ParsedSchedule :=
  let! _ := resolve_timezone tz in
  let! given := pymap weekday_name days in
  let wanted := List.filter (λ d, bool_decide (d ∈ given)) (seqZ 0 7) in
  if bool_decide (wanted = []) then Raise (CValueError "Days must be among")
  else
    let! times := pymap clock times in
    let clean := merge_sort (≤) (remove_dups times) in
    if bool_decide (clean = []) then Raise (CValueError "Give at least one time of day") else Ok (Calendar wanted clean tz).
Definition interval_schedule (seconds : Z) (anchor : option Z) (tz : string) : pyres CError ParsedSchedule :=
  let! _ := resolve_timezone tz in
  if seconds <? MIN_INTERVAL_SECONDS then Raise (CValueError "The shortest interval is 1 minute") else Ok (Interval seconds anchor tz).

(** A time given with its offset, or read on the zone's clock. *)
Definition once_schedule (at_ : Z + Z) (tz : string) : pyres CError ParsedSchedule :=
  let! _ := resolve_timezone tz in
  Ok (Once (match at_ with inl moment => moment | inr wall => instant_of tz wall end) tz).
Definition cron_schedule (expr tz : string) : pyres CError ParsedSchedule :=
  let! _ := resolve_timezone tz in
  if cron_valid expr then Ok (Cron expr tz) else Raise (CValueError expr).

(** ** Its next run *)

(** [date.weekday()]: 1970 began on a Thursday. *)
Definition weekday (day : Z) : Z := (day + 3) mod 7.
Definition slot (tz : string) (day minute : Z) : Z := instant_of tz (day * DAY + minute * MINUTE).
(** The instants of a day, in order. *)
Definition on_day (tz : string) (days times : list Z) (day : Z) : list Z :=
  if bool_decide (weekday day ∈ days) then merge_sort (≤) (remove_dups (slot tz day <$> times)) else [].

(** [iter_occurrences], up to its first: [fuel] days are scanned. *)
Definition MAX_DAYS_SCANNED : nat := 400.
Fixpoint scan_days (fuel : nat) (tz : string) (days times : list Z) (after day : Z) : option Z :=
  match fuel with
  | O => None
  | S fuel =>
    match List.find (λ u, after <? u) (on_day tz days times day) with
    | Some u => Some u
    | None => scan_days fuel tz days times after (day + 1)
    end
  end.
Definition next_occurrence (after : Z) (days times : list Z) (tz : string) : option Z :=
  scan_days MAX_DAYS_SCANNED tz days times after (wall_of tz after / DAY).

(** [_next_cron]: the earliest instant of the matches, from the first that is
    past [after] to three hours of wall clock behind it. *)
Fixpoint cron_loop (fuel k : nat) (expr tz : string) (after local : Z) (best : option (Z * Z)) : option (Z * Z) :=
  match fuel with
  | O => best
  | S fuel =>
    let wall := cron_walls expr local k in
    if match best with Some (_, best_wall) => best_wall + 3 * HOUR <? wall | None => false end then best
    else
      let candidate := instant_of tz wall in
      let better := match best with Some (b, _) => candidate <? b | None => true end in
      cron_loop fuel (S k) expr tz after local (if (after <? candidate) && better then Some (candidate, wall) else best)
  end.
Definition next_cron (expr tz : string) (after : Z) : pyres CError Z :=
  match cron_loop 2000 0 expr tz after (wall_of tz after) None with
  | Some (t, _) => Ok t
  | None => Raise (CValueError expr)
  end.

Definition next_after (s : ParsedSchedule) (after : Z) : pyres CError (option Z) :=
  match s with
  | Calendar days times tz => Ok (next_occurrence after days times tz)
  | Interval seconds anchor _ =>
    let anchor := default after anchor in
    let step := seconds * SECOND in
    if step <=? 0 then Ok None
    else if after <? anchor then Ok (Some anchor)
    else Ok (Some (anchor + ((after - anchor) / step + 1) * step))
  | Once moment _ => Ok (if after <? moment then Some moment else None)
  | Cron expr tz => let! t := next_cron expr tz after in Ok (Some t)
  | Dynamic _ => Ok None
  end.

(** [fires] *)
Fixpoint fires (s : ParsedSchedule) (moment : option Z) (count : nat) (until : option Z) : pyres CError (list Z) :=
  match count, moment with
  | S count, Some t =>
    if match until with Some u => t <? u | None => true end then
      let! next := next_after s t in
      let! rest := fires s next count until in
      Ok (t :: rest)
    else Ok []
  | _, _ => Ok []
  end.

#[local] Set Default Proof Using "All".

(** ** What a cadence means *)

Definition wf_schedule (s : ParsedSchedule) : Prop :=
  match s with
  | Calendar days times _ =>
    days ≠ [] ∧ Forall (λ d, 0 <= d < 7) days ∧ times ≠ [] ∧ Forall (λ t, 0 <= t < 1440) times
  | Interval seconds _ _ => MIN_INTERVAL_SECONDS <= seconds
  | _ => True
  end.

(** The instants of a cadence, where it alone decides them. *)
Definition occurs (s : ParsedSchedule) (t : Z) : Prop :=
  match s with
  | Calendar days times tz => ∃ day minute, weekday day ∈ days ∧ minute ∈ times ∧ t = slot tz day minute
  | Interval seconds (Some anchor) _ => ∃ k, 0 <= k ∧ t = anchor + k * (seconds * SECOND)
  | Once moment _ => t = moment
  | _ => False
  end.

(** A zone's clock is less than a day from UTC, as datetime requires of every
    one ([tzinfo.utcoffset]). *)
Definition offset_bounded (tz : string) : Prop :=
  ∀ t, - DAY < wall_of tz t - t < DAY ∧ - DAY < instant_of tz t - t < DAY.

(** The zones where no time of a local day falls before one of an earlier day:
    most of them, and not those whose clock jumps over midnight
    ([midnight_jump_skips]). *)
Definition days_in_order (tz : string) : Prop :=
  (∀ d d' m m', d < d' → 0 <= m < 1440 → 0 <= m' < 1440 → slot tz d m < slot tz d' m')
  ∧ ∀ after d m, 0 <= m < 1440 →
      (d < wall_of tz after / DAY → slot tz d m <= after) ∧ (wall_of tz after / DAY < d → after < slot tz d m).

Lemma on_day_elem tz days times day u :
  u ∈ on_day tz days times day ↔ weekday day ∈ days ∧ ∃ minute, minute ∈ times ∧ u = slot tz day minute.
Proof.
  unfold on_day. case_bool_decide as Hd.
  - rewrite merge_sort_Permutation, elem_of_remove_dups, list_elem_of_fmap. naive_solver.
  - split; [by intros ?%not_elem_of_nil|naive_solver].
Qed.

(** A search in a sorted list finds the least. *)
Lemma find_sorted (after : Z) l u :
  StronglySorted (≤) l → List.find (λ u, after <? u) l = Some u →
  u ∈ l ∧ after < u ∧ ∀ v, v ∈ l → after < v → u <= v.
Proof.
  induction 1 as [|x l Hs IH Hx]; csimpl; [done|]. destruct (Z.ltb_spec after x) as [Hlt|Hge].
  - intros [= <-]. split; [left|]. split; [done|]. intros v [->|Hv]%elem_of_cons _; [lia|].
    rewrite Forall_forall in Hx. by apply Hx.
  - intros Hf. destruct (IH Hf) as (Hin & Hgt & Hmin). split; [by right|]. split; [done|].
    intros v [->|Hv]%elem_of_cons Hav; [lia|by apply Hmin].
Qed.
Lemma on_day_sorted tz days times day : StronglySorted (≤) (on_day tz days times day).
Proof.
  unfold on_day. case_bool_decide; [|constructor]. apply (StronglySorted_merge_sort (≤)).
Qed.

Lemma scan_days_Some fuel tz days times after day u :
  scan_days fuel tz days times after day = Some u →
  ∃ d, day <= d < day + Z.of_nat fuel ∧ u ∈ on_day tz days times d ∧ after < u
    ∧ (∀ v, v ∈ on_day tz days times d → after < v → u <= v)
    ∧ ∀ d' v, day <= d' < d → v ∈ on_day tz days times d' → v <= after.
Proof.
  revert day. induction fuel as [|fuel IH]; intros day; cbn [scan_days]; [done|].
  destruct (List.find _ _) as [v|] eqn:Hf.
  - intros [= ->]. apply find_sorted in Hf as (Hin & Hgt & Hmin); [|apply on_day_sorted]. exists day.
    split; [lia|]. split; [done|]. split; [done|]. split; [done|]. intros d' w Hd. lia.
  - intros (d & Hd & Hin & Hgt & Hmin & Hbefore)%IH. exists d. split; [lia|]. split; [done|]. split; [done|].
    split; [done|]. intros d' w Hd' Hw. destruct (decide (d' = day)) as [->|Hne]; [|eapply (Hbefore d'); [lia|done]].
    apply list_elem_of_In in Hw. pose proof (List.find_none _ _ Hf _ Hw) as Hn. csimpl in Hn. by apply Z.ltb_ge.
Qed.
Lemma scan_days_None fuel tz days times after day d v :
  scan_days fuel tz days times after day = None →
  day <= d < day + Z.of_nat fuel → v ∈ on_day tz days times d → v <= after.
Proof.
  revert day. induction fuel as [|fuel IH]; intros day; cbn [scan_days]; [lia|].
  destruct (List.find _ _) as [w|] eqn:Hf; [done|]. intros Hs Hd Hv.
  destruct (decide (d = day)) as [->|Hne]; [|eapply (IH (day + 1)); [done|lia|done]].
  apply list_elem_of_In in Hv. pose proof (List.find_none _ _ Hf _ Hv) as Hn. csimpl in Hn. by apply Z.ltb_ge.
Qed.

(** Every weekday is within a week. *)
Lemma weekday_soon day w : 0 <= w < 7 → ∃ d, day < d <= day + 7 ∧ weekday d = w.
Proof.
  intros Hw. exists (day + 1 + (w - (day + 1 + 3)) mod 7). unfold weekday.
  pose proof (Z.mod_pos_bound (w - (day + 1 + 3)) 7 ltac:(lia)). split; [lia|].
  replace (day + 1 + (w - (day + 1 + 3)) mod 7 + 3) with ((day + 1 + 3) + (w - (day + 1 + 3)) mod 7) by lia.
  rewrite Zplus_mod_idemp_r. replace (day + 1 + 3 + (w - (day + 1 + 3))) with w by lia. by apply Z.mod_small.
Qed.

Lemma cron_loop_after fuel k expr tz after local best t w :
  (∀ b w, best = Some (b, w) → after < b) →
  cron_loop fuel k expr tz after local best = Some (t, w) → after < t.
Proof.
  revert k best. induction fuel as [|fuel IH]; intros k best Hb; cbn [cron_loop]; [apply Hb|].
  destruct (match best with Some (_, best_wall) => _ | None => false end); [apply Hb|].
  apply IH. intros b' w' Hb'. destruct (Z.ltb_spec after (instant_of tz (cron_walls expr local k))) as [Hlt|Hge];
    csimpl in Hb'; [|by eapply Hb]. destruct (match best with Some _ => _ | None => true end); [by simplify_eq|by eapply Hb].
Qed.

(** A next run is later. *)
Lemma next_after_later s after t : next_after s after = Ok (Some t) → after < t.
Proof.
  destruct s as [days times tz|n anchor tz|m tz|expr tz|tz]; cbn [next_after].
  - intros [= Ht]. apply scan_days_Some in Ht as (d & _ & _ & Hgt & _). done.
  - set (a := default after anchor). destruct (Z.leb_spec (n * SECOND) 0); [done|]. destruct (Z.ltb_spec after a); [by intros [= <-]|].
    intros [= <-]. pose proof (Z.mod_pos_bound (after - a) (n * SECOND) ltac:(lia)).
    pose proof (Z.div_mod (after - a) (n * SECOND) ltac:(lia)). nia.
  - destruct (Z.ltb_spec after m); [by intros [= <-]|done].
  - unfold next_cron. destruct (cron_loop _ _ _ _ _ _ _) as [[b w]|] eqn:Hc; [|done]. intros [= <-].
    eapply cron_loop_after, Hc. done.
  - done.
Qed.

(** A cadence that alone decides its instants. *)
Definition fixed (s : ParsedSchedule) : Prop :=
  match s with Calendar _ _ _ | Interval _ (Some _) _ | Once _ _ => True | _ => False end.
Definition zone_bounded (s : ParsedSchedule) : Prop :=
  match s with Calendar _ _ tz => offset_bounded tz | _ => True end.
Definition in_order (s : ParsedSchedule) : Prop :=
  match s with Calendar _ _ tz => days_in_order tz | _ => True end.

Lemma calendar_next_exists after days times tz :
  offset_bounded tz → wf_schedule (Calendar days times tz) → next_occurrence after days times tz ≠ None.
Proof.
  intros Hz (Hd & Hds & Ht & Hts) Hn. destruct days as [|w days]; [done|]. destruct times as [|m times]; [done|].
  apply Forall_cons in Hds as [Hw _]. apply Forall_cons in Hts as [Hm _]. set (today := wall_of tz after / DAY).
  destruct (weekday_soon (today + 3) w Hw) as (d & Hdd & Hwd).
  assert (Hin : slot tz d m ∈ on_day tz (w :: days) (m :: times) d).
  { apply on_day_elem. split; [rewrite Hwd; left|]. exists m. split; [left|done]. }
  unfold next_occurrence, MAX_DAYS_SCANNED in Hn. fold today in Hn.
  pose proof (scan_days_None _ _ _ _ _ _ d _ Hn ltac:(lia) Hin) as Hle.
  destruct (Hz after) as [Hwall _]. destruct (Hz (d * DAY + m * MINUTE)) as [_ Hslot]. unfold slot in Hle.
  unfold DAY, HOUR, MINUTE, SECOND in *.
  pose proof (Z.div_mod (wall_of tz after) (24 * (60 * (60 * 1000000))) ltac:(lia)).
  pose proof (Z.mod_pos_bound (wall_of tz after) (24 * (60 * (60 * 1000000))) ltac:(lia)). fold today in H. lia.
Qed.

(** C24. The next run of a fixed cadence after an instant: one is always found,
    in any zone, and it is an instant of the cadence past the one given; a
    one-off alone has none, once it is past. It is the first of them in every
    zone that keeps its days in order, and for an interval and a one-off in any:
    a zone whose clock jumps over midnight may have an instant passed over. *)
Theorem next_after_first s after :
  wf_schedule s → fixed s → zone_bounded s →
  ∃ next, next_after s after = Ok next
    ∧ match next with
      | Some t => occurs s t ∧ after < t ∧ (in_order s → ∀ u, occurs s u → after < u → t <= u)
      | None => is_once s = true ∧ ∀ u, occurs s u → u <= after
      end.
Proof.
  intros Hw Hf Hz. destruct s as [days times tz|n [a|] tz|m tz|expr tz|tz]; try done; cbn [next_after default]; unfold id.
  - exists (next_occurrence after days times tz). split; [done|].
    destruct (next_occurrence after days times tz) as [t|] eqn:Hn; [|by destruct (calendar_next_exists after days times tz Hz Hw)].
    apply scan_days_Some in Hn as (d & Hd & Hin & Hgt & Hmin & Hbefore).
    destruct Hw as (_ & Hds & _ & Hts). rewrite Forall_forall in Hds, Hts.
    pose proof Hin as (Hwd & m & Hm & ->)%on_day_elem.
    split; [by exists d, m|]. split; [done|]. intros [Hord Hdays] u (d' & m' & Hwd' & Hm' & ->) Hu.
    assert (Hu' : slot tz d' m' ∈ on_day tz days times d') by (apply on_day_elem; by eauto).
    destruct (Z.lt_trichotomy d' d) as [Hlt|[->|Hlt]]; [|by apply Hmin|].
    + destruct (decide (d' < wall_of tz after / DAY)) as [Hs|Hs].
      * destruct (Hdays after d' m') as [Hp _]; [by apply Hts|]. specialize (Hp Hs). lia.
      * pose proof (Hbefore d' _ ltac:(lia) Hu'). lia.
    + apply Z.lt_le_incl, Hord; [done|by apply Hts..].
  - unfold wf_schedule, MIN_INTERVAL_SECONDS in Hw. unfold SECOND. destruct (Z.leb_spec (n * 1000000) 0); [lia|].
    set (st := n * 1000000) in *. destruct (Z.ltb_spec after a) as [Hlt|Hge].
    + exists (Some a). split; [done|]. split; [exists 0; lia|]. split; [done|]. intros _ u (k & Hk & ->) _. unfold SECOND. nia.
    + eexists. split; [done|]. cbn. set (q := (after - a) / st).
      pose proof (Z.div_mod (after - a) st ltac:(lia)) as Hdm. fold q in Hdm.
      pose proof (Z.mod_pos_bound (after - a) st ltac:(lia)).
      assert (0 <= q) by (apply Z.div_pos; lia).
      split; [exists (q + 1); unfold SECOND; lia|]. split; [nia|]. intros _ u (k & Hk & ->) Hu. unfold SECOND in *. fold st in Hu |- *.
      assert (q < k); [|nia]. nia.
  - destruct (Z.ltb_spec after m).
    + exists (Some m). split; [done|]. split; [done|]. split; [done|]. by intros _ u ->.
    + exists None. split; [done|]. split; [done|]. by intros u ->.
Qed.

(** What the constructors make is well formed. *)
Lemma pymap_all {E A B} (f : A → pyres E B) (P : B → Prop) xs ys :
  (∀ x y, f x = Ok y → P y) → pymap f xs = Ok ys → Forall P ys.
Proof.
  intros Hf. revert ys. induction xs as [|x xs IH]; intros ys; csimpl; [intros [= <-]; constructor|].
  destruct (f x) as [y|] eqn:Hy; csimpl; [|done]. destruct (pymap f xs) as [zs|]; csimpl; [|done].
  intros [= <-]. constructor; [by eapply Hf|by apply IH].
Qed.
Lemma dec_digit_bound a d : dec_digit a = Some d → 0 <= d <= 9.
Proof. destruct a as [[] [] [] [] [] [] [] []]; vm_compute; intros [= <-]; by split. Qed.
Lemma clock_bound s t : clock s = Ok t → 0 <= t < 1440.
Proof.
  unfold clock. destruct (_ ≫= _) as [[[h m] half]|] eqn:Hm; [|done].
  assert (Hb : 0 <= h ∧ 0 <= m).
  { apply bind_Some in Hm as ([h' r] & Hh & Hm). apply bind_Some in Hm as ([m' r'] & Hmin & Hm).
    apply bind_Some in Hm as (? & _ & [= -> -> ->]).
    unfold clock_hour, clock_minute in *. split.
    - repeat case_match; simplify_option_eq; repeat match goal with H : dec_digit _ = Some _ |- _ => apply dec_digit_bound in H end; lia.
    - repeat case_match; simplify_option_eq; repeat match goal with H : dec_digit _ = Some _ |- _ => apply dec_digit_bound in H end; lia. }
  destruct (match half with Some pm => _ | None => Some h end) as [h'|] eqn:Hh; [|done].
  destruct ((23 <? h') || (59 <? m)) eqn:Ho; [done|]. bool_to_prop. intros [= <-]. split; [|lia].
  destruct half as [pm|]; [|simplify_eq; lia]. destruct ((1 <=? h) && _); [|done]. injection Hh as <-.
  pose proof (Z.mod_pos_bound h 12 ltac:(lia)). destruct pm; lia.
Qed.

Lemma filter_elem {A} p (l : list A) x : x ∈ List.filter p l → x ∈ l.
Proof. rewrite !list_elem_of_In, filter_In. by intros []. Qed.
Lemma calendar_schedule_wf days times tz s : calendar_schedule days times tz = Ok s → wf_schedule s.
Proof.
  unfold calendar_schedule. intros (? & _ & Hs)%pybind_ok. apply pybind_ok in Hs as (given & _ & Hs).
  pose proof (filter_elem (λ d, bool_decide (d ∈ given)) (seqZ 0 7)) as Hw. set (wanted := List.filter _ _) in *. clearbody wanted.
  case_bool_decide as Hd; [done|]. apply pybind_ok in Hs as (ts & Hts & Hs). case_bool_decide as Ht; [done|]. injection Hs as <-.
  split_and!; [done| |done|].
  - apply Forall_forall. intros d Hin%Hw. apply elem_of_seqZ in Hin. lia.
  - apply (pymap_all _ (λ t, 0 <= t < 1440)) in Hts; [|apply clock_bound]. rewrite Forall_forall in Hts |- *.
    intros t. rewrite merge_sort_Permutation, elem_of_remove_dups. apply Hts.
Qed.
Lemma interval_schedule_wf seconds anchor tz s : interval_schedule seconds anchor tz = Ok s → wf_schedule s.
Proof.
  unfold interval_schedule. intros (? & _ & Hs)%pybind_ok. destruct (Z.ltb_spec seconds MIN_INTERVAL_SECONDS); [done|]. by injection Hs as <-.
Qed.
End cadences.

(** A zone with one offset keeps its days in order. *)
Definition utc (tz : string) (t : Z) : Z := t.
Lemma utc_in_order tz : days_in_order utc utc tz.
Proof.
  unfold days_in_order, slot, utc, DAY, HOUR, MINUTE, SECOND. split; [intros; lia|]. intros after d m Hm.
  pose proof (Z.div_mod after (24 * (60 * (60 * 1000000))) ltac:(lia)).
  pose proof (Z.mod_pos_bound after (24 * (60 * (60 * 1000000))) ltac:(lia)). split; intros; lia.
Qed.
Lemma utc_bounded tz : offset_bounded utc utc tz.
Proof. unfold offset_bounded, utc, DAY, HOUR, MINUTE, SECOND. lia. Qed.

(** America/Nuuk around its change of 2026, day 0 standing for March 29: two
    hours behind UTC until 01:00 UTC, one from then on, so that its clock jumps
    from 23:00 to midnight. A time in the gap is read with the offset before it. *)
Definition nuuk_wall (tz : string) (t : Z) : Z := if t <? HOUR then t - 2 * HOUR else t - HOUR.
Definition nuuk_instant (tz : string) (w : Z) : Z := if w <? 0 then w + 2 * HOUR else w + HOUR.
Lemma nuuk_bounded tz : offset_bounded nuuk_wall nuuk_instant tz.
Proof. unfold offset_bounded, nuuk_wall, nuuk_instant, DAY, HOUR, MINUTE, SECOND. intros t. split; case_match; lia. Qed.

(** At 23:30 and at midnight every day: 23:30 of the 28th, which is in the gap,
    is 01:30 UTC, and midnight of the 29th 01:00. The scan by local days gives
    the first, and from it never the second. *)
Lemma midnight_jump_skips :
  let s := Calendar [0; 1; 2; 3; 4; 5; 6] [0; 1410] "America/Nuuk" in
  let next := next_after nuuk_wall nuuk_instant (λ _ _ _, 0) s in
  occurs nuuk_instant s HOUR ∧ next 0 = Ok (Some (HOUR + 30 * MINUTE)) ∧
  next (HOUR + 30 * MINUTE) = Ok (Some (DAY + 30 * MINUTE)).
Proof.
  intros s next. split; [|split; vm_compute; reflexivity].
  exists 0, 0. split_and!; [by repeat constructor|by repeat constructor|by vm_compute].
Qed.

Lemma next_after_first_witness :
  let s := Calendar [0; 1; 2; 3; 4] [540; 1020] "UTC" in
  ∃ next, next_after utc utc (λ _ _ _, 0) s (9 * HOUR) = Ok next
    ∧ match next with
      | Some t => occurs utc s t ∧ 9 * HOUR < t ∧ ∀ u, occurs utc s u → 9 * HOUR < u → t <= u
      | None => is_once s = true ∧ ∀ u, occurs utc s u → u <= 9 * HOUR
      end.
Proof.
  intros s. destruct (next_after_first (λ _, true) utc utc (λ _, true) (λ _ _ _, 0) s (9 * HOUR)) as (next & Hn & Hnext).
  - split_and!; [done|repeat constructor; lia|done|repeat constructor; lia].
  - done.
  - apply utc_bounded.
  - exists next. split; [exact Hn|]. destruct next as [t|]; [|exact Hnext]. destruct Hnext as (Ho & Hlt & Hfirst).
    split; [exact Ho|]. split; [exact Hlt|]. apply Hfirst. apply utc_in_order.
Defined.
