(* ===== verification/CadenceText.v ===== *)
(** * Cadences as texts and columns (scheduled/schedule.py)

    What a cadence is read from: an interval or a cron expression as a person
    types it, the fields of the tools and of Studio, and the [kind] and [cadence]
    columns of a row, written by [cadence()] and read by [schedule_from_row].

    An instant is written by [isoformat] on the proleptic calendar, whose days
    are counted as the standard library counts them.  Of [fromisoformat] the
    forms with a date, an optional time to the minute, second or microsecond and
    an optional offset are read.  Digits and letters are ASCII. *)

From S2P Require Import Prelude.
From S2P Require Import PyStr.
From S2P Require Import PyText.
From S2P Require Import Cadence.
From Stdlib Require Import Zdiv.
From stdpp Require Import sorting options.
Local Open Scope Z_scope.

(** ** Days and dates *)

Definition is_leap (y : Z) : bool := (y mod 4 =? 0) && (negb (y mod 100 =? 0) || (y mod 400 =? 0)).
Definition days_before_year (y : Z) : Z := (y - 1) * 365 + (y - 1) / 4 - (y - 1) / 100 + (y - 1) / 400.
Definition DAYS_BEFORE_MONTH : list Z := [0; 31; 59; 90; 120; 151; 181; 212; 243; 273; 304; 334; 365].
Definition days_before_month (leap : bool) (m : Z) : Z :=
  nth (Z.to_nat (m - 1)) DAYS_BEFORE_MONTH 0 + (if (2 <? m) && leap then 1 else 0).
(** [date.toordinal()] *)
Definition to_ordinal (y m d : Z) : Z := days_before_year y + days_before_month (is_leap y) m + d.

(** The month and day of the day of a year, from 0. *)
Definition month_day (leap : bool) (n : Z) : Z * Z :=
  let m := (n + 50) / 32 in
  let m := if n <? days_before_month leap m then m - 1 else m in
  (m, n - days_before_month leap m + 1).
(** [date.fromordinal()] *)
Definition from_ordinal (n : Z) : Z * Z * Z :=
  let n := n - 1 in
  let a := n / 146097 in let n := n mod 146097 in
  let b := n / 36524 in let n := n mod 36524 in
  let c := n / 1461 in let n := n mod 1461 in
  let d := n / 365 in let n := n mod 365 in
  let y := a * 400 + b * 100 + c * 4 + d + 1 in
  if (d =? 4) || (b =? 4) then (y - 1, 12, 31)
  else let '(m, dd) := month_day ((d =? 3) && (negb (c =? 24) || (b =? 3))) n in (y, m, dd).

Definition EPOCH_ORDINAL : Z := 719163.
Definition datetime_of (t : Z) : datetime :=
  let '(y, m, d) := from_ordinal (t / DAY + EPOCH_ORDINAL) in
  let u := t mod DAY in
  mk_datetime y m d (u / HOUR) (u / MINUTE mod 60) (u / SECOND mod 60) (u mod SECOND).
Definition micros_of (d : datetime) : Z :=
  (to_ordinal (year d) (month d) (day d) - EPOCH_ORDINAL) * DAY + hour d * HOUR + minute d * MINUTE + second d * SECOND + microsecond d.

(** Whether there is such a day and time. *)
Definition exists_datetime (d : datetime) : bool :=
  (1 <=? year d) && (1 <=? month d) && (month d <=? 12)
  && (1 <=? day d) && (days_before_month (is_leap (year d)) (month d) + day d <=? days_before_month (is_leap (year d)) (month d + 1))
  && (hour d <? 24) && (minute d <? 60) && (second d <? 60).

(** [datetime.fromisoformat]: an instant where an offset is given, else the
    reading of a wall clock. *)
Definition iso_offset (cs : list ascii) : option (option Z) :=
  match cs with
  | [] => Some None
  | ["Z"%char] => Some (Some 0)
  | s :: cs =>
    '(h, cs) ← take_numeral 2 cs;
    '(m, cs) ← take_char ":"%char cs ≫= take_numeral 2;
    if bool_decide (cs = []) && (h <? 24) && (m <? 60) then
      if Ascii.eqb s "+" then Some (Some (h * HOUR + m * MINUTE))
      else if Ascii.eqb s "-" then Some (Some (- (h * HOUR + m * MINUTE))) else None
    else None
  end.
Definition iso_seconds (cs : list ascii) : option (Z * Z * list ascii) :=
  match take_char ":"%char cs with
  | Some cs =>
    '(s, cs) ← take_numeral 2 cs;
    match take_char "."%char cs with
    | Some cs => '(us, cs) ← take_numeral 6 cs; Some (s, us, cs)
    | None => Some (s, 0, cs)
    end
  | None => Some (0, 0, cs)
  end.
Definition iso_time (cs : list ascii) : option (Z * Z * Z * Z * option Z) :=
  match cs with
  | [] => Some (0, 0, 0, 0, None)
  | t :: cs =>
    if bool_decide (t ∈ ["T"; " "]%char) then
      '(h, cs) ← take_numeral 2 cs;
      '(mi, cs) ← take_char ":"%char cs ≫= take_numeral 2;
      '(s, us, cs) ← iso_seconds cs;
      off ← iso_offset cs;
      Some (h, mi, s, us, off)
    else None
  end.
Definition from_iso (text : string) : option (Z + Z) :=
  '(y, cs) ← take_numeral 4 (String.list_ascii_of_string text);
  '(mo, cs) ← take_char "-"%char cs ≫= take_numeral 2;
  '(d, cs) ← take_char "-"%char cs ≫= take_numeral 2;
  '(h, mi, s, us, off) ← iso_time cs;
  let dt := mk_datetime y mo d h mi s us in
  if exists_datetime dt then Some (match off with Some o => inl (micros_of dt - o) | None => inr (micros_of dt) end) else None.
(** [_aware] *)
Definition aware (m : Z + Z) : Z := match m with inl t => t | inr w => w end.

(** ** Days counted and named *)

Definition month_day_ok (leap : bool) (n : Z) : bool :=
  let '(m, d) := month_day leap n in
  (1 <=? m) && (m <=? 12) && (1 <=? d) && (days_before_month leap m + d <=? days_before_month leap (m + 1))
  && (days_before_month leap m + d =? n + 1).
Lemma month_day_spec (leap : bool) (n : Z) : 0 <= n < (if leap then 366 else 365) → month_day_ok leap n = true.
Proof.
  intros Hn. assert (Hall : forallb (λ n, month_day_ok false (Z.of_nat n)) (seq 0 365) && forallb (λ n, month_day_ok true (Z.of_nat n)) (seq 0 366) = true)
    by by vm_compute.
  apply andb_true_iff in Hall as [Hf Ht]. rewrite <-(Z2Nat.id n) by lia.
  destruct leap; [apply (proj1 (forallb_forall _ _) Ht)|apply (proj1 (forallb_forall _ _) Hf)]; apply in_seq; lia.
Qed.

(** The years before one, by their cycles. *)
Lemma days_before_cycles a b c d :
  0 <= b <= 3 → 0 <= c <= 24 → 0 <= d <= 3 →
  days_before_year (a * 400 + b * 100 + c * 4 + d + 1) = a * 146097 + b * 36524 + c * 1461 + d * 365.
Proof.
  intros Hb Hc Hd. unfold days_before_year. replace (a * 400 + b * 100 + c * 4 + d + 1 - 1) with (a * 400 + b * 100 + c * 4 + d) by lia.
  rewrite <-(Z.div_unique (a * 400 + b * 100 + c * 4 + d) 4 (a * 100 + b * 25 + c) d ltac:(lia) ltac:(lia)).
  rewrite <-(Z.div_unique (a * 400 + b * 100 + c * 4 + d) 100 (a * 4 + b) (c * 4 + d) ltac:(lia) ltac:(lia)).
  rewrite <-(Z.div_unique (a * 400 + b * 100 + c * 4 + d) 400 a (b * 100 + c * 4 + d) ltac:(lia) ltac:(lia)). lia.
Qed.
Lemma leap_cycles a b c d :
  0 <= b <= 3 → 0 <= c <= 24 → 0 <= d <= 3 →
  is_leap (a * 400 + b * 100 + c * 4 + d + 1) = (d =? 3) && (negb (c =? 24) || (b =? 3)).
Proof.
  intros Hb Hc Hd. unfold is_leap. set (y := a * 400 + b * 100 + c * 4 + d + 1).
  assert (H4 : y mod 4 = if d =? 3 then 0 else d + 1).
  { symmetry. destruct (Z.eqb_spec d 3); [apply Z.mod_unique_pos with (a * 100 + b * 25 + c + 1)|apply Z.mod_unique_pos with (a * 100 + b * 25 + c)]; lia. }
  rewrite H4. destruct (Z.eqb_spec d 3) as [->|Hd3]; [|by destruct (Z.eqb_spec (d + 1) 0); [lia|]]. csimpl.
  assert (H100 : y mod 100 = if c =? 24 then 0 else c * 4 + 4).
  { symmetry. destruct (Z.eqb_spec c 24); [apply Z.mod_unique_pos with (a * 4 + b + 1)|apply Z.mod_unique_pos with (a * 4 + b)]; lia. }
  rewrite H100. destruct (Z.eqb_spec c 24) as [->|Hc24]; [|by destruct (Z.eqb_spec (c * 4 + 4) 0); [lia|]]. csimpl.
  assert (H400 : y mod 400 = if b =? 3 then 0 else b * 100 + 100).
  { symmetry. destruct (Z.eqb_spec b 3); [apply Z.mod_unique_pos with (a + 1)|apply Z.mod_unique_pos with a]; lia. }
  rewrite H400. destruct (Z.eqb_spec b 3); [done|]. destruct (Z.eqb_spec (b * 100 + 100) 0); [lia|done].
Qed.

Definition MAX_ORDINAL : Z := 3652059.
Definition day_named (n : Z) (ymd : Z * Z * Z) : Prop :=
  let '(y, m, d) := ymd in
  1 <= y <= 9999 ∧ 1 <= m <= 12 ∧ 1 <= d ∧ days_before_month (is_leap y) m + d <= days_before_month (is_leap y) (m + 1) ∧ to_ordinal y m d = n.
Lemma from_ordinal_named n : 1 <= n <= MAX_ORDINAL → day_named n (from_ordinal n).
Proof.
  unfold MAX_ORDINAL. intros Hn. unfold from_ordinal.
  set (n0 := n - 1). set (a := n0 / 146097). set (n1 := n0 mod 146097). set (b := n1 / 36524). set (n2 := n1 mod 36524).
  set (c := n2 / 1461). set (n3 := n2 mod 1461). set (d := n3 / 365). set (n4 := n3 mod 365).
  assert (Ha : n0 = a * 146097 + n1 ∧ 0 <= n1 < 146097 ∧ 0 <= a <= 24).
  { subst a n1. pose proof (Z.div_mod n0 146097 ltac:(lia)). pose proof (Z.mod_pos_bound n0 146097 ltac:(lia)). lia. }
  assert (Hb : n1 = b * 36524 + n2 ∧ 0 <= n2 < 36524 ∧ 0 <= b <= 4).
  { subst b n2. pose proof (Z.div_mod n1 36524 ltac:(lia)). pose proof (Z.mod_pos_bound n1 36524 ltac:(lia)). lia. }
  assert (Hc : n2 = c * 1461 + n3 ∧ 0 <= n3 < 1461 ∧ 0 <= c <= 24).
  { subst c n3. pose proof (Z.div_mod n2 1461 ltac:(lia)). pose proof (Z.mod_pos_bound n2 1461 ltac:(lia)). lia. }
  assert (Hd : n3 = d * 365 + n4 ∧ 0 <= n4 < 365 ∧ 0 <= d <= 4).
  { subst d n4. pose proof (Z.div_mod n3 365 ltac:(lia)). pose proof (Z.mod_pos_bound n3 365 ltac:(lia)). lia. }
  clearbody n1 n2 n3 n4 a b c d. destruct ((d =? 4) || (b =? 4)) eqn:Hend; [apply orb_true_iff in Hend|apply orb_false_iff in Hend as [Hd4 Hb4]].
  - assert (Hcase : ∃ b' c', 0 <= b' <= 3 ∧ 0 <= c' <= 24 ∧ (c' = 24 → b' = 3)
      ∧ a * 400 + b * 100 + c * 4 + d = a * 400 + b' * 100 + c' * 4 + 3 + 1 ∧ n0 = a * 146097 + b' * 36524 + c' * 1461 + 3 * 365 + 365).
    { destruct Hend as [Hd4%Z.eqb_eq|Hb4%Z.eqb_eq]; [|exists 3, 24; lia]. exists b, c. assert (b <= 3) by lia. lia. }
    destruct Hcase as (b' & c' & Hb' & Hc' & Hcb & Hy & Hn0). unfold day_named, to_ordinal.
    replace (a * 400 + b * 100 + c * 4 + d + 1 - 1) with (a * 400 + b' * 100 + c' * 4 + 3 + 1) by lia.
    rewrite days_before_cycles, leap_cycles by lia.
    assert ((3 =? 3) && (negb (c' =? 24) || (b' =? 3)) = true) as ->.
    { csimpl. destruct (Z.eqb_spec c' 24); [|done]. destruct (Z.eqb_spec b' 3); [done|lia]. }
    change (days_before_month true 12) with 335. change (days_before_month true (12 + 1)) with 366. lia.
  - apply Z.eqb_neq in Hd4, Hb4.
    set (leap := (d =? 3) && (negb (c =? 24) || (b =? 3))).
    pose proof (month_day_spec leap n4 ltac:(by destruct leap; lia)) as Hm. unfold month_day_ok in Hm.
    destruct (month_day leap n4) as [m dd]. bool_to_prop. unfold day_named, to_ordinal.
    rewrite days_before_cycles, leap_cycles by lia. fold leap. lia.
Qed.

(** An instant in the years 1 to 9999 is the date and time it is written as. *)
Definition in_years (t : Z) : Prop := (1 - EPOCH_ORDINAL) * DAY <= t < (MAX_ORDINAL - EPOCH_ORDINAL + 1) * DAY.
Lemma datetime_of_valid t : in_years t → datetime_valid (datetime_of t) ∧ exists_datetime (datetime_of t) = true ∧ micros_of (datetime_of t) = t.
Proof.
  unfold in_years, MAX_ORDINAL, EPOCH_ORDINAL. intros Ht.
  assert (Hday : DAY = 86400000000) by done. assert (Hh : HOUR = 3600000000) by done. assert (Hmi : MINUTE = 60000000) by done.
  assert (Hs : SECOND = 1000000) by done.
  pose proof (Z.div_mod t DAY ltac:(lia)) as Hdm. pose proof (Z.mod_pos_bound t DAY ltac:(lia)) as Hu.
  pose proof (from_ordinal_named (t / DAY + 719163)) as Hn. unfold datetime_of, EPOCH_ORDINAL.
  destruct (from_ordinal (t / DAY + 719163)) as [[y m] d]. destruct Hn as (Hy & Hm & Hd & Hdd & Ho); [unfold MAX_ORDINAL; nia|].
  set (u := t mod DAY) in *. clearbody u.
  assert (Hb : days_before_month (is_leap y) (m + 1) - days_before_month (is_leap y) m <= 31).
  { destruct (is_leap y); assert (m = 1 ∨ m = 2 ∨ m = 3 ∨ m = 4 ∨ m = 5 ∨ m = 6 ∨ m = 7 ∨ m = 8 ∨ m = 9 ∨ m = 10 ∨ m = 11 ∨ m = 12) as Hcases by lia;
      repeat (destruct Hcases as [->|Hcases]; [by vm_compute|]); subst m; by vm_compute. }
  assert (Hhh : 0 <= u / HOUR < 24) by (split; [apply Z.div_pos; lia|apply Z.div_lt_upper_bound; lia]).
  pose proof (Z.mod_pos_bound (u / MINUTE) 60 ltac:(lia)). pose proof (Z.mod_pos_bound (u / SECOND) 60 ltac:(lia)).
  pose proof (Z.mod_pos_bound u SECOND ltac:(lia)).
  split; [|split].
  - unfold datetime_valid. cbn [year month day hour minute second microsecond]. change (10 ^ 4) with 10000. change (10 ^ 6) with 1000000. lia.
  - unfold exists_datetime. cbn [year month day hour minute second microsecond]. rewrite !andb_true_iff, !Z.leb_le, !Z.ltb_lt. lia.
  - unfold micros_of. cbn [year month day hour minute second microsecond]. rewrite Ho. unfold EPOCH_ORDINAL.
    pose proof (Z.div_mod u SECOND ltac:(lia)). pose proof (Z.div_mod (u / SECOND) 60 ltac:(lia)). pose proof (Z.div_mod (u / MINUTE) 60 ltac:(lia)).
    assert (u / MINUTE = u / SECOND / 60) by (rewrite Z.div_div, Hmi, Hs by lia; done).
    assert (u / HOUR = u / MINUTE / 60) by (rewrite Z.div_div, Hmi, Hh by lia; done). nia.
Qed.

Lemma iso_seconds_written s us rest :
  0 <= s < 10 ^ 2 → 0 <= us < 10 ^ 6 → take_char "."%char rest = None →
  iso_seconds (":"%char :: numeral 10 2 s ++ (if us =? 0 then [] else "."%char :: numeral 10 6 us) ++ rest) = Some (s, us, rest).
Proof.
  intros Hs Hus Hr. unfold iso_seconds. rewrite take_char_cons, take_numeral_app by done. cbn [mbind option_bind].
  destruct (Z.eqb_spec us 0) as [->|Hz]; cbn [app].
  - by rewrite Hr.
  - rewrite take_char_cons. by rewrite take_numeral_app by done.
Qed.
Lemma from_iso_isoformat t : in_years t → from_iso (isoformat (datetime_of t)) = Some (inl t).
Proof.
  intros Ht. destruct (datetime_of_valid t Ht) as (Hv & He & Hm). set (d := datetime_of t) in *. clearbody d.
  destruct Hv as (Hy & Hmo & Hd & Hh & Hmi & Hs & Hus). unfold from_iso, isoformat. rewrite String.list_ascii_of_string_of_list_ascii.
  do 3 (rewrite take_numeral_app by (cbn; lia); cbn [mbind option_bind]; rewrite ?take_char_cons; cbn [mbind option_bind]).
  unfold iso_time. rewrite bool_decide_true by left.
  rewrite take_numeral_app by (cbn; lia). cbn [mbind option_bind]. rewrite take_char_cons. cbn [mbind option_bind].
  rewrite take_numeral_app by (cbn; lia). cbn [mbind option_bind].
  rewrite iso_seconds_written by (done || lia). cbn [mbind option_bind].
  change (iso_offset utc_suffix) with (Some (Some 0)). cbn [mbind option_bind].
  replace (mk_datetime (year d) (month d) (day d) (hour d) (minute d) (second d) (microsecond d)) with d by by destruct d.
  rewrite He, Hm. do 2 f_equal. lia.
Qed.

(** ** Intervals *)

(** [_UNIT_SECONDS], by the first letter of a word of [_UNIT]. *)
Definition UNIT_SECONDS : list (string * Z) := [("s", 1); ("m", 60); ("h", 3600); ("d", 86400)].
Definition UNIT : list string :=
  ["s"; "sec"; "secs"; "second"; "seconds"; "m"; "min"; "mins"; "minute"; "minutes"; "h"; "hr"; "hrs"; "hour"; "hours"; "d"; "day"; "days"].
Definition unit_seconds (w : string) : option Z := if bool_decide (w ∈ UNIT) then dict_get (String.substring 0 1 w) UNIT_SECONDS else None.
Definition WORD_SECONDS : list (string * Z) := [("hourly", 3600); ("daily", 86400)].

(** [\d+] *)
Fixpoint digits_prefix (s : string) : string * string :=
  match s with
  | String a r => if digit a then let '(d, rest) := digits_prefix r in (String a d, rest) else ("", s)
  | EmptyString => ("", "")
  end.
(** [every\s+], where it is there. *)
Definition after_every (s : string) : option string :=
  match s with
  | String "e" (String "v" (String "e" (String "r" (String "y" (String a r))))) => if is_space a then Some (lstrip r) else None
  | _ => None
  end.

(** [parse_interval]: [None] where the text is no interval; an amount of 0 is a
    ValueError.  Both patterns span the whole text. *)
Definition counted (s : string) : option (Z * Z) :=
  let '(d, rest) := digits_prefix s in
  n ← int_of_str d; u ← unit_seconds (lstrip rest); Some (n, u).
Definition amount_of (n u : Z) : pyres CError (option Z) := if n <=? 0 then Raise (CValueError "Interval must be greater than zero") else Ok (Some (n * u)).
Definition parse_interval (text : string) : pyres CError (option Z) :=
  let s := str_lower (strip text) in
  match counted (default s (after_every s)) with
  | Some (n, u) => amount_of n u
  | None =>
    match after_every s ≫= unit_seconds with
    | Some u => amount_of 1 u
    | None => Ok (dict_get s WORD_SECONDS)
    end
  end.

(** [duration_words], [_display_seconds] *)
Definition UNIT_NAMES : list (Z * string) := [(86400, "day"); (3600, "hour"); (60, "minute"); (1, "second")].
Definition duration_words (seconds : Z) : string :=
  match List.find (λ x, seconds mod x.1 =? 0) UNIT_NAMES with
  | Some (size, name) => str_of_int (seconds / size) +:+ " " +:+ name +:+ (if seconds / size =? 1 then "" else "s")
  | None => str_of_int seconds +:+ " seconds"
  end.
Definition removeprefix (p s : string) : string := if startswith s p then String.substring (String.length p) (String.length s - String.length p) s else s.
Definition display_seconds (seconds : Z) : string := "Every " +:+ removeprefix "1 " (duration_words seconds).

(** *** What is shown is read back *)

Lemma str_lower_app a b : str_lower (a +:+ b) = str_lower a +:+ str_lower b.
Proof. induction a as [|c a IH]; [done|]. csimpl. by rewrite IH. Qed.
Lemma digit_lower c : digit c = true → lower_ascii c = c.
Proof. destruct c as [[] [] [] [] [] [] [] []]; vm_compute; congruence. Qed.
Lemma digits_lower s : digits s → str_lower s = s.
Proof.
  induction s as [|c s IH]; intros Hs; [done|]. csimpl. rewrite digit_lower by (apply Hs; left). f_equal. apply IH.
  intros a Ha. apply Hs. by right.
Qed.
Lemma digits_prefix_app s rest : digits s → digits_prefix rest = ("", rest) → digits_prefix (s +:+ rest) = (s, rest).
Proof.
  intros Hs Hr. induction s as [|c s IH]; [done|]. csimpl. rewrite (Hs c) by left. rewrite IH; [done|].
  intros a Ha. apply Hs. by right.
Qed.
Lemma strip_id s : stripped_front s = true → stripped_front (string_rev s "") = true → strip s = s.
Proof. intros Hf Hb. unfold strip. rewrite (lstrip_id s) by done. rewrite lstrip_id by done. by rewrite string_rev_rev. Qed.

Lemma prefix_cons_app a p b t r : String.prefix (String a p) (String b t +:+ r) = if ascii_dec a b then String.prefix p (t +:+ r) else false.
Proof. done. Qed.

(** A count of more than one, before its unit. *)
Lemma parse_counted q name u :
  1 < q → (name, u) ∈ [("days", 86400); ("hours", 3600); ("minutes", 60); ("seconds", 1)] →
  parse_interval ("Every " +:+ removeprefix "1 " (str_of_int q +:+ " " +:+ name)) = Ok (Some (q * u)).
Proof.
  intros Hq Hin. pose proof (str_of_int_digits q ltac:(lia)) as Hd. pose proof (int_of_str_of_int q ltac:(lia)) as Hi.
  assert (Hne : str_of_int q ≠ "1") by (intros He; rewrite He in Hi; vm_compute in Hi; injection Hi; lia).
  assert (Hne' : str_of_int q ≠ "") by (intros He; rewrite He in Hi; by vm_compute in Hi).
  set (ds := str_of_int q) in *. clearbody ds.
  assert (Hp : removeprefix "1 " (ds +:+ " " +:+ name) = ds +:+ " " +:+ name).
  { unfold removeprefix. destruct (startswith _ _) eqn:Hs; [|done]. exfalso. unfold startswith in Hs.
    destruct ds as [|c [|c' ds]]; [done| |].
    - rewrite prefix_cons_app in Hs. by destruct (ascii_dec "1" c) as [<-|].
    - rewrite prefix_cons_app in Hs. destruct (ascii_dec "1" c); [|done]. rewrite prefix_cons_app in Hs.
      destruct (ascii_dec " " c') as [<-|]; [|done].
      assert (digit " " = true) as Hsp by (apply Hd; right; left). by vm_compute in Hsp. }
  rewrite Hp. unfold parse_interval.
  assert (Hu : strip ("Every " +:+ ds +:+ " " +:+ name) = "Every " +:+ ds +:+ " " +:+ name
    ∧ str_lower (" " +:+ name) = " " +:+ name ∧ unit_seconds (lstrip (" " +:+ name)) = Some u).
  { split; [|repeat (apply elem_of_cons in Hin as [[= -> ->]|Hin]; [by vm_compute|]); by apply not_elem_of_nil in Hin].
    apply strip_id; [done|]. rewrite !string_rev_app.
    repeat (apply elem_of_cons in Hin as [[= -> ->]|Hin]; [done|]). by apply not_elem_of_nil in Hin. }
  destruct Hu as (-> & Hl & Hu). rewrite str_lower_app, str_lower_app, Hl, (digits_lower ds) by done.
  change (str_lower "Every ") with "every ".
  assert (Ha : after_every ("every " +:+ ds +:+ " " +:+ name) = Some (ds +:+ " " +:+ name)).
  { change (after_every ("every " +:+ ds +:+ " " +:+ name)) with (Some (lstrip (ds +:+ " " +:+ name))). f_equal. apply lstrip_id.
    destruct ds as [|c ds]; [done|]. csimpl. by rewrite (proj1 (digit_plain c (Hd c (list_elem_of_here _ _)))). }
  rewrite Ha. cbn [default from_option]. unfold id, counted. rewrite digits_prefix_app by done. rewrite Hi. cbn [mbind option_bind]. rewrite Hu. cbn [mbind option_bind].
  unfold amount_of. destruct (Z.leb_spec q 0); [lia|done].
Qed.

Lemma duration_unit n : 0 < n → ∃ size name,
  (size, name) ∈ UNIT_NAMES ∧ n = n / size * size ∧ 1 <= n / size
  ∧ duration_words n = str_of_int (n / size) +:+ " " +:+ name +:+ (if n / size =? 1 then "" else "s").
Proof.
  intros Hn. unfold duration_words. destruct (List.find _ UNIT_NAMES) as [[size name]|] eqn:Hf.
  - apply List.find_some in Hf as [Hin Hz]. csimpl in Hz. apply Z.eqb_eq in Hz. apply list_elem_of_In in Hin. exists size, name.
    assert (Hs : 0 < size) by (clear Hz; repeat (apply elem_of_cons in Hin as [[= -> _]|Hin]; [lia|]); by apply not_elem_of_nil in Hin).
    pose proof (Z.div_mod n size ltac:(lia)). split; [done|]. split; [lia|]. split; [nia|done].
  - exfalso. apply (List.find_none _ _) with (x := (1, "second")) in Hf; [|by repeat (try (by left); right)]. csimpl in Hf.
    by rewrite Z.mod_1_r in Hf.
Qed.

(** An interval as it is shown reads as itself. *)
Lemma display_parse_interval n : 0 < n → parse_interval (display_seconds n) = Ok (Some n).
Proof.
  intros Hn. destruct (duration_unit n Hn) as (size & name & Hin & Hq & H1 & Hw). unfold display_seconds. rewrite Hw.
  destruct (Z.eqb_spec (n / size) 1) as [He|He].
  - rewrite He in Hq |- *. rewrite Hq. clear Hw H1 He Hq Hn.
    repeat (apply elem_of_cons in Hin as [[= -> ->]|Hin]; [by vm_compute|]). by apply not_elem_of_nil in Hin.
  - rewrite Hq at 2. apply parse_counted; [lia|].
    clear Hw H1 He Hq Hn. repeat (apply elem_of_cons in Hin as [[= -> ->]|Hin]; [set_solver|]). by apply not_elem_of_nil in Hin.
Qed.

(** ** A cadence read from its fields *)

Section reading.
Local Open Scope py_scope.
Context (zone_known : string → bool) (instant_of : string → Z → Z) (cron_valid : string → bool).
Notation resolve_timezone := (Cadence.resolve_timezone zone_known).
Notation interval_schedule := (Cadence.interval_schedule zone_known).
Notation calendar_schedule := (Cadence.calendar_schedule zone_known).
Notation once_schedule := (Cadence.once_schedule zone_known instant_of).

Definition parse_schedule (value tz : string) : pyres CError ParsedSchedule :=
  let text := strip value in
  if String.eqb text "" then Raise (CValueError "Schedule cannot be empty.")
  else
    let! _ := resolve_timezone tz in
    let! interval := parse_interval text in
    match interval with
    | Some seconds => interval_schedule seconds None tz
    | None => if cron_valid text then Ok (Cron text tz) else Raise (CValueError "Invalid schedule.")
    end.
Definition parse_dynamic_loop_schedule (tz : string) : pyres CError ParsedSchedule :=
  let! _ := resolve_timezone tz in Ok (Dynamic tz).

Definition required (a : option string) (why : string) : pyres CError string := match a with Some a => Ok a | None => Raise (CValueError why) end.
Definition read_iso (text : string) : pyres CError (Z + Z) :=
  match from_iso text with Some m => Ok m | None => Raise (CValueError text) end.

(** [list(days or WEEKDAYS)] *)
Definition days_or_all (days : list string) : list pyval := VStr <$> (if bool_decide (days = []) then WEEKDAYS else days).

Definition schedule_from_fields (cron interval at_ : string) (days times : list string) (tz : string) : pyres CError ParsedSchedule :=
  let given := [str_truthy cron; str_truthy interval; str_truthy at_; negb (bool_decide (days = [] ∧ times = []))] in
  if negb (length (List.filter id given) =? 1)%nat then Raise (CValueError "Give exactly one of")
  else if str_truthy cron then parse_schedule cron tz
  else if str_truthy interval then
    let! seconds := parse_interval interval in
    match seconds with None => Raise (CValueError interval) | Some n => interval_schedule n None tz end
  else if str_truthy at_ then let! moment := read_iso (strip at_) in once_schedule moment tz
  else calendar_schedule (days_or_all days) times tz.

(** The kinds Studio and the API give, by name. *)
Definition schedule_from_cadence (kind : string) (days times : list string) (tz : option string) (seconds : option Z) (at_ cron : option string)
    : pyres CError ParsedSchedule :=
  let zone := opt_or tz "UTC" in
  if String.eqb kind "calendar" then calendar_schedule (days_or_all days) times zone
  else if String.eqb kind "interval" then interval_schedule (default 0 seconds) None zone
  else if String.eqb kind "once" then
    let! at_ := required at_ "A one-off needs a date and time." in
    let! moment := read_iso at_ in once_schedule moment zone
  else if String.eqb kind "cron" then
    let! cron := required cron "Not a 5-field cron expression." in
    if negb (str_truthy cron) || negb (cron_valid (strip cron)) then Raise (CValueError "Not a 5-field cron expression.")
    else parse_schedule cron zone
  else Raise (CValueError kind).

(** ** The columns of a row *)

(** [kind], [cadence], [timezone] and [schedule]. *)
Record Columns := mk_columns { kind_column : option string; cadence_column : pyval; timezone_column : string; schedule_column : pyval }.

Definition kind_name (s : ParsedSchedule) : string :=
  match s with Calendar _ _ _ => "calendar" | Interval _ _ _ => "interval" | Once _ _ => "once" | Cron _ _ => "cron" | Dynamic _ => "dynamic" end.
Definition timezone_name (s : ParsedSchedule) : string :=
  match s with Calendar _ _ tz | Interval _ _ tz | Once _ tz | Cron _ tz | Dynamic tz => tz end.
(** [f"{hour:02d}:{minute:02d}"] *)
Definition clock_text (t : Z) : string :=
  String.string_of_list_ascii (numeral 10 2 (t / 60) ++ ":"%char :: numeral 10 2 (t mod 60)).
Definition day_name (d : Z) : string := nth (Z.to_nat d) WEEKDAYS "".
(** [cadence()] *)
Definition cadence (s : ParsedSchedule) : pyval :=
  match s with
  | Calendar days times tz => VDict [("days", VList (VStr <$> (day_name <$> days))); ("times", VList (VStr <$> (clock_text <$> times))); ("tz", VStr tz)]
  | Interval seconds anchor _ =>
    VDict [("seconds", VInt seconds); ("anchor", match anchor with Some t => VStr (isoformat (datetime_of t)) | None => VNone end)]
  | Once moment _ => VDict [("at", VStr (isoformat (datetime_of moment)))]
  | Cron expr _ => VDict [("cron", VStr expr)]
  | Dynamic _ => VDict []
  end.
(** [_schedule_to_dict], with the words shown. *)
Definition legacy_kind (s : ParsedSchedule) : string := if is_dynamic s then "dynamic_loop" else "cron".
Definition schedule_to_dict (s : ParsedSchedule) (display : string) : pyval :=
  VDict ([("kind", VStr (legacy_kind s)); ("display", VStr display); ("timezone_name", VStr (timezone_name s))]
         ++ match s with Cron expr _ => [("cron", VStr expr)] | _ => [] end).
Definition columns_of (s : ParsedSchedule) (display : string) : Columns :=
  mk_columns (Some (kind_name s)) (cadence s) (timezone_name s) (schedule_to_dict s display).

(** *** [_schedule_from_row] *)

(** A TypeError, KeyError or AttributeError comes out a ValueError too. *)
Definition malformed {A} : pyres CError A := Raise (CValueError "Malformed schedule cadence").
Definition or_malformed {A} (m : pyres pyexn A) : pyres CError A := match m with Ok a => Ok a | Raise _ => malformed end.
(** [getattr(row, column, None) or {}], which must be a dict to be asked. *)
Definition as_dict (v : pyval) : pyres CError pyval :=
  if truthy v then match v with VDict _ => Ok v | _ => malformed end else Ok (VDict []).
(** What a list, a text or a dict gives when it is iterated. *)
Definition py_iter (v : pyval) : pyres CError (list pyval) :=
  match v with
  | VList l => Ok l
  | VStr s => Ok ((λ a, VStr (String a "")) <$> String.list_ascii_of_string s)
  | VDict kvs => Ok (VStr <$> kvs.*1)
  | _ => malformed
  end.
(** [value or []], iterated. *)
Definition items_or_none (v : pyval) : pyres CError (list pyval) := if truthy v then py_iter v else Ok [].
(** [str(value or tz)]: of anything but a text, [str] names no zone, and below
    is no cron expression. *)
Definition zone_or (v : pyval) (tz : string) : pyres CError string :=
  if truthy v then or_malformed (as_str v) else Ok tz.
Definition read_anchor (v : pyval) : pyres CError (option Z) :=
  if truthy v then let! text := or_malformed (as_str v) in let! m := read_iso text in Ok (Some (aware m)) else Ok None.
(** [int(value or 0)] *)
Definition int_or_zero (v : pyval) : pyres CError Z :=
  if truthy v then match py_int v with Some n => Ok n | None => malformed end else Ok 0.

Definition schedule_from_row (row : Columns) : pyres CError ParsedSchedule :=
  let tz := if str_truthy (timezone_column row) then timezone_column row else "UTC" in
  let column := as_dict (cadence_column row) in
  let get key := let! c := column in Ok (py_get c key VNone) in
  let item key := let! c := column in let! v := or_malformed (py_getitem c key) in or_malformed (as_str v) in
  match kind_column row with
  | None =>
    let! legacy := as_dict (schedule_column row) in
    let! tz := zone_or (py_get legacy "timezone_name" VNone) tz in
    match py_get legacy "kind" VNone with
    | VStr "dynamic_loop" => parse_dynamic_loop_schedule tz
    | _ => let! cron := or_malformed (py_getitem legacy "cron") in let! cron := or_malformed (as_str cron) in parse_schedule cron tz
    end
  | Some kind =>
    if String.eqb kind "calendar" then
      let! days := get "days" in
      let! days := items_or_none days in
      let! times := get "times" in
      let! times := items_or_none times in
      let! zone := get "tz" in
      let! zone := zone_or zone tz in
      let! times := pymap (λ t, or_malformed (as_str t)) times in
      calendar_schedule days times zone
    else if String.eqb kind "interval" then
      let! seconds := get "seconds" in
      let! seconds := int_or_zero seconds in
      let! anchor := get "anchor" in
      let! anchor := read_anchor anchor in
      interval_schedule seconds anchor tz
    else if String.eqb kind "once" then
      let! text := item "at" in
      let! moment := read_iso text in
      once_schedule moment tz
    else if String.eqb kind "cron" then
      let! cron := item "cron" in
      parse_schedule cron tz
    else if String.eqb kind "dynamic" then parse_dynamic_loop_schedule tz
    else Raise (CValueError kind)
  end.
(** [row_kind] *)
Definition row_kind (row : Columns) : string :=
  match kind_column row with
  | Some kind => kind
  | None => match schedule_column row with
            | VDict _ => match py_get (schedule_column row) "kind" VNone with VStr "dynamic_loop" => "dynamic" | _ => "cron" end
            | _ => "cron"
            end
  end.

#[local] Set Default Proof Using "All".

(** *** What is stored is read back *)

(** A cadence as it comes from its fields, anchored or not. *)
Definition from_fields (s : ParsedSchedule) : Prop :=
  match s with
  | Calendar _ _ tz => ∃ days times, calendar_schedule days times tz = Ok s
  | Interval seconds anchor tz => interval_schedule seconds anchor tz = Ok s
  | Once moment tz => once_schedule (inl moment) tz = Ok s
  | Cron _ tz => ∃ text, parse_schedule text tz = Ok s
  | Dynamic tz => parse_dynamic_loop_schedule tz = Ok s
  end.
(** Its instants are in the years 1 to 9999. *)
Definition dated (s : ParsedSchedule) : Prop :=
  match s with Interval _ (Some t) _ | Once t _ => in_years t | _ => True end.

Lemma pymap_Ok {E A B} (f : A → pyres E B) (g : B → A) (ys : list B) :
  (∀ y, y ∈ ys → f (g y) = Ok y) → pymap f (g <$> ys) = Ok ys.
Proof using .
  induction ys as [|y ys IH]; intros Hf; [done|]. csimpl. rewrite Hf by left. csimpl. rewrite IH; [done|]. intros z Hz. apply Hf. by right.
Qed.

(** Times of day, sorted and each once, stay as they are. *)
Lemma remove_dups_id (l : list Z) : NoDup l → remove_dups l = l.
Proof using . induction 1 as [|x l Hx Hl IH]; [done|]. csimpl. destruct (decide_rel _ x l); [done|by rewrite IH]. Qed.
Lemma clean_times (l : list Z) : merge_sort (≤) (remove_dups (merge_sort (≤) (remove_dups l))) = merge_sort (≤) (remove_dups l).
Proof using .
  rewrite remove_dups_id by (rewrite merge_sort_Permutation; apply NoDup_remove_dups).
  apply (StronglySorted_unique (≤)); [apply (StronglySorted_merge_sort (≤))..|]. apply merge_sort_Permutation.
Qed.

Lemma clock_text_read t : 0 <= t < 1440 → clock (clock_text t) = Ok t.
Proof using .
  intros Ht. assert (Hall : forallb (λ n, match clock (clock_text (Z.of_nat n)) with Ok u => u =? Z.of_nat n | Raise _ => false end) (seq 0 1440) = true)
    by by vm_compute.
  pose proof (proj1 (forallb_forall _ _) Hall (Z.to_nat t) ltac:(apply in_seq; lia)) as Hc. csimpl in Hc. rewrite Z2Nat.id in Hc by lia.
  destruct (clock (clock_text t)) as [u|]; [|done]. by apply Z.eqb_eq in Hc as ->.
Qed.
Lemma day_name_read d : 0 <= d < 7 → weekday_name (VStr (day_name d)) = Ok d.
Proof using .
  intros Hd. assert (d = 0 ∨ d = 1 ∨ d = 2 ∨ d = 3 ∨ d = 4 ∨ d = 5 ∨ d = 6) as Hc by lia.
  repeat (destruct Hc as [->|Hc]; [by vm_compute|]). subst d. by vm_compute.
Qed.

Lemma filter_again (given l : list Z) :
  List.filter (λ d, bool_decide (d ∈ List.filter (λ d, bool_decide (d ∈ given)) l)) l = List.filter (λ d, bool_decide (d ∈ given)) l.
Proof using .
  apply List.filter_ext_in. intros d Hin. apply bool_decide_ext. rewrite list_elem_of_In, List.filter_In, bool_decide_eq_true. tauto.
Qed.
Lemma calendar_stored days times tz ds ts :
  calendar_schedule ds ts tz = Ok (Calendar days times tz) →
  calendar_schedule (VStr <$> (day_name <$> days)) (clock_text <$> times) tz = Ok (Calendar days times tz).
Proof.
  intros Hc. pose proof (calendar_schedule_wf zone_known instant_of instant_of cron_valid (λ _ _ _, 0) ds ts tz _ Hc) as (Hd & Hds & Ht & Hts).
  unfold calendar_schedule in *. apply pybind_ok in Hc as ([] & -> & Hc). cbn [pybind]. apply pybind_ok in Hc as (given & Hg & Hc).
  rewrite Forall_forall in Hds, Hts. rewrite <-list_fmap_compose, (pymap_Ok _ _ days) by (intros d Hd'; by apply day_name_read, Hds).
  cbn [pybind]. pose proof (filter_again given (seqZ 0 7)) as Hsame. set (wanted := List.filter _ (seqZ 0 7)) in Hsame, Hc. clearbody wanted.
  destruct (bool_decide (wanted = [])) eqn:Hw; [done|]. apply pybind_ok in Hc as (us & Hus & Hc).
  destruct (bool_decide (merge_sort _ _ = [])) eqn:Hcl; [done|]. injection Hc as -> Htimes.
  rewrite Hsame, Hw. rewrite (pymap_Ok clock clock_text times) by (intros t Ht'; by apply clock_text_read, Hts).
  cbn [pybind]. rewrite <-Htimes, clean_times. by rewrite Hcl.
Qed.

Lemma as_dict_dict kvs : as_dict (VDict kvs) = Ok (VDict kvs).
Proof using . unfold as_dict. by destruct kvs. Qed.
Lemma items_list l : items_or_none (VList l) = Ok l.
Proof using . unfold items_or_none. by destruct l. Qed.
Lemma zone_text tz z : str_truthy tz = true → zone_or (VStr tz) z = Ok tz.
Proof using . unfold zone_or. cbn. unfold str_truthy. by intros ->. Qed.

(** What [parse_schedule] made of a text, it makes of the expression. *)
Lemma parse_again text tz e : parse_schedule text tz = Ok (Cron e tz) → parse_schedule e tz = Ok (Cron e tz).
Proof.
  unfold parse_schedule. destruct (String.eqb (strip text) "") eqn:He; [done|]. intros ([] & Hz & Hp)%pybind_ok.
  apply pybind_ok in Hp as ([n|] & Hi & Hp).
  - unfold interval_schedule in Hp. apply pybind_ok in Hp as (? & _ & Hp). by destruct (n <? MIN_INTERVAL_SECONDS).
  - destruct (cron_valid (strip text)) eqn:Hv; [|done]. injection Hp as <-. rewrite strip_strip, He, Hz. cbn [pybind]. by rewrite Hi; cbn [pybind]; rewrite Hv.
Qed.

(** C25. A cadence in the years 1 to 9999, in a named zone, is read back from
    the columns it is stored in; a cron expression and a dynamic loop also from
    the column older rows have alone. *)
Theorem stored_cadence_reads s display :
  from_fields s → dated s → timezone_name s ≠ "" →
  schedule_from_row (columns_of s display) = Ok s
  ∧ match s with
    | Cron _ _ | Dynamic _ => schedule_from_row (mk_columns None VNone "UTC" (schedule_to_dict s display)) = Ok s
    | _ => True
    end.
Proof.
  intros Hm Hd Htz. assert (Ht : str_truthy (timezone_name s) = true) by (unfold str_truthy; by rewrite (proj2 (String.eqb_neq _ ""))).
  destruct s as [days times tz|n a tz|m tz|e tz|tz]; unfold schedule_from_row, columns_of, timezone_name in *;
    cbn [kind_column cadence_column timezone_column schedule_column kind_name cadence]; rewrite ?Ht; rewrite as_dict_dict; cbn [pybind].
  - split; [|done]. destruct Hm as (ds & ts & Hc). csimpl. rewrite items_list. cbn [pybind]. rewrite items_list. cbn [pybind].
    rewrite zone_text by done. cbn [pybind]. rewrite (pymap_Ok _ VStr) by done. cbn [pybind]. by eapply calendar_stored.
  - split; [|done]. csimpl. unfold int_or_zero. csimpl. assert (Hn : 60 <= n).
    { cbn in Hm. unfold interval_schedule in Hm. apply pybind_ok in Hm as (? & _ & Hm). unfold MIN_INTERVAL_SECONDS in Hm.
      destruct (Z.ltb_spec n 60) as [_|?]; [discriminate Hm|lia]. }
    destruct (Z.eqb_spec n 0); [lia|]. cbn [negb pybind]. rewrite <-Hm. unfold read_anchor.
    destruct a as [t|]; cbn [truthy negb pybind]; [|reflexivity].
    change (in_years t) in Hd. destruct (datetime_of_valid t Hd) as [Hv _]. rewrite isoformat_nonempty by exact Hv. cbn [negb as_str or_malformed pybind].
    unfold read_iso. rewrite (from_iso_isoformat t Hd). reflexivity.
  - pose proof (from_iso_isoformat m Hd) as Hi. set (text := isoformat (datetime_of m)) in *. clearbody text.
    split; [|done]. csimpl. unfold read_iso. rewrite Hi. exact Hm.
  - destruct Hm as [text Hp%parse_again]. split; [exact Hp|]. csimpl. rewrite zone_text by done. exact Hp.
  - split; [exact Hm|]. csimpl. rewrite zone_text by done. exact Hm.
Qed.
End reading.

(** Weekday mornings and evenings, in a zone there is. *)
Definition only_utc (tz : string) : bool := String.eqb tz "UTC".
Lemma stored_cadence_reads_witness :
  schedule_from_row only_utc utc (λ _, true) (columns_of (Calendar [0; 4] [510; 1020] "UTC") "Mon, Fri at 08:30, 17:00 (UTC)")
  = Ok (Calendar [0; 4] [510; 1020] "UTC")
  ∧ schedule_from_row only_utc utc (λ _, true) (columns_of (Once (1709210096 * SECOND + 5) "UTC") "Once") = Ok (Once (1709210096 * SECOND + 5) "UTC").
Proof.
  split.
  - apply (stored_cadence_reads only_utc utc (λ _, true) (Calendar [0; 4] [510; 1020] "UTC")); [|done|done].
    exists [VStr "Friday"; VStr "monday"], ["17h00"; "8:30 am"]. by vm_compute.
  - apply (stored_cadence_reads only_utc utc (λ _, true) (Once (1709210096 * SECOND + 5) "UTC")); [done| |done].
    unfold dated, in_years, DAY, HOUR, MINUTE, SECOND, EPOCH_ORDINAL, MAX_ORDINAL. lia.
Defined.
