(* ===== verification/Schedules.v ===== *)
(** * Schedules (scheduled/store.py)

    The rows of scheduled_sessions and every write of the store to one: made,
    paused, resumed, changed, cancelled, claimed when due, and moved on by their
    runs and by the ticker's sweeps.

    Each operation is one transaction on the row under its lock; where the code
    reads a row and writes it in a second transaction, the row as it was read is
    an argument.  The database's clock and the process's are one.  What a row
    says in words ([name], [schedule_display], [last_error], the delay's reason),
    its captured context and who ended it are not modelled. *)

From S2P Require Import Prelude.
From S2P Require Import Cadence.
From stdpp Require Import gmap sorting options.
Local Open Scope Z_scope.

(** ** Rows *)

Inductive ScheduleStatus := SActive | SPaused | SCompleted | SFailed | SCancelled.
#[global] Instance ScheduleStatus_eq_dec : EqDecision ScheduleStatus.
Proof. solve_decision. Defined.
Inductive EndedReason := RDone | RLimit | RExpired | RFailed | RCancelled.
#[global] Instance EndedReason_eq_dec : EqDecision EndedReason.
Proof. solve_decision. Defined.

(** What [schedule_from_row] makes of a row's columns: its cadence, or a
    ValueError, where [row_kind] may still say dynamic. *)
Inductive Stored := Reads (s : ParsedSchedule) | Malformed (dynamic : bool) (e : CError).

Record Row := mk_row {
  org_id : Z;
  user_id : option Z;
  service_account_id : option Z;
  agent_id : string;
  created_from_session_id : option nat;
  prompt : string;
  cadence : Stored;
  status : ScheduleStatus;
  repeat_limit : option Z;
  run_count : Z;
  next_run_at : option Z;
  last_run_at : option Z;
  last_session_id : option nat;
  locked_until : option Z;
  expires_at : option Z;
  ended_reason : option EndedReason;
  ended_announced_at : option Z;
  consecutive_failures : Z;
  max_run_seconds : option Z;
  updated_at : Z
}.

Definition with_plan (r : Row) (st : ScheduleStatus) (ended : option EndedReason) (next : option Z) : Row :=
  mk_row (org_id r) (user_id r) (service_account_id r) (agent_id r) (created_from_session_id r) (prompt r) (cadence r) st (repeat_limit r) (run_count r)
    next (last_run_at r) (last_session_id r) (locked_until r) (expires_at r) ended (ended_announced_at r)
    (consecutive_failures r) (max_run_seconds r) (updated_at r).
Definition with_next (r : Row) (next : option Z) : Row := with_plan r (status r) (ended_reason r) next.
Definition with_lock (r : Row) (lock : option Z) (now : Z) : Row :=
  mk_row (org_id r) (user_id r) (service_account_id r) (agent_id r) (created_from_session_id r) (prompt r) (cadence r) (status r) (repeat_limit r) (run_count r)
    (next_run_at r) (last_run_at r) (last_session_id r) lock (expires_at r) (ended_reason r) (ended_announced_at r)
    (consecutive_failures r) (max_run_seconds r) now.
Definition with_failures (r : Row) (n : Z) : Row :=
  mk_row (org_id r) (user_id r) (service_account_id r) (agent_id r) (created_from_session_id r) (prompt r) (cadence r) (status r) (repeat_limit r) (run_count r)
    (next_run_at r) (last_run_at r) (last_session_id r) (locked_until r) (expires_at r) (ended_reason r) (ended_announced_at r)
    n (max_run_seconds r) (updated_at r).
Definition with_run (r : Row) (now : Z) (session : nat) : Row :=
  mk_row (org_id r) (user_id r) (service_account_id r) (agent_id r) (created_from_session_id r) (prompt r) (cadence r) (status r) (repeat_limit r) (run_count r + 1)
    (next_run_at r) (Some now) (Some session) (locked_until r) (expires_at r) (ended_reason r) (ended_announced_at r)
    (consecutive_failures r) (max_run_seconds r) (updated_at r).
Definition with_change (r : Row) (p : string) (c : Stored) (limit max_run : option Z) : Row :=
  mk_row (org_id r) (user_id r) (service_account_id r) (agent_id r) (created_from_session_id r) p c (status r) limit (run_count r)
    (next_run_at r) (last_run_at r) (last_session_id r) (locked_until r) (expires_at r) (ended_reason r) (ended_announced_at r)
    (consecutive_failures r) max_run (updated_at r).
Definition with_announced (r : Row) (now : Z) : Row :=
  mk_row (org_id r) (user_id r) (service_account_id r) (agent_id r) (created_from_session_id r) (prompt r) (cadence r) (status r) (repeat_limit r) (run_count r)
    (next_run_at r) (last_run_at r) (last_session_id r) (locked_until r) (expires_at r) (ended_reason r) (Some now)
    (consecutive_failures r) (max_run_seconds r) (updated_at r).

Definition schedule_from_row (r : Row) : pyres CError ParsedSchedule :=
  match cadence r with Reads s => Ok s | Malformed _ e => Raise e end.
(** [row_kind (r) = "dynamic"] *)
Definition row_dynamic (r : Row) : bool := match cadence r with Reads s => is_dynamic s | Malformed d _ => d end.

(** [schedule.kind] *)
Inductive Kind := KCalendar | KInterval | KOnce | KCron | KDynamic.
#[global] Instance Kind_eq_dec : EqDecision Kind.
Proof. solve_decision. Defined.
Definition kind (s : ParsedSchedule) : Kind :=
  match s with Calendar _ _ _ => KCalendar | Interval _ _ _ => KInterval | Once _ _ => KOnce | Cron _ _ => KCron | Dynamic _ => KDynamic end.

Definition MAX_ONCE_ATTEMPTS : Z := 3.
Definition MAX_CONSECUTIVE_FAILURES : Z := 10.

(** ** Who may *)

Record ServiceAccount := mk_account { sa_id : Z; sa_org : Z; sa_name : string; sa_agent_principal : bool; sa_agent : option string }.
Record Caller := mk_caller { c_org : Z; c_agent : string; c_user : option Z; c_account : option Z }.
Definition OPS_CHAT_SA_PREFIX : string := "ops-chat-".
Definition works_for_the_project (accounts : list ServiceAccount) (account : option Z) (r : Row) : bool :=
  existsb (λ a, bool_decide (account = Some (sa_id a)) && (sa_org a =? org_id r)
                && (startswith (sa_name a) OPS_CHAT_SA_PREFIX
                    || (sa_agent_principal a && bool_decide (sa_agent a = Some (agent_id r))))) accounts.

(** A comparison with NULL is not true. *)
Definition same_id (a b : option Z) : bool := match a, b with Some a, Some b => a =? b | _, _ => false end.
Definition in_scope (accounts : list ServiceAccount) (c : Caller) (own_only : bool) (r : Row) : bool :=
  match c_user c with
  | Some _ => same_id (user_id r) (c_user c)
  | None =>
    same_id (service_account_id r) (c_account c)
    || (negb own_only && works_for_the_project accounts (c_account c) r)
  end.
Definition sees (accounts : list ServiceAccount) (c : Caller) (r : Row) : bool :=
  (org_id r =? c_org c) && String.eqb (agent_id r) (c_agent c) && in_scope accounts c false r.
Definition validate_principal (c : Caller) : pyres CError unit :=
  if Bool.eqb (bool_decide (c_user c = None)) (bool_decide (c_account c = None)) then Raise (CValueError "requires exactly one") else Ok tt.

(** [_end] *)
Definition end_row (r : Row) (reason : EndedReason) : Row :=
  with_plan r (if bool_decide (reason = RFailed) then SFailed else SCompleted) (Some reason) None.

(** Two rows that ended alike. *)
Definition same_end (r r' : Row) : Prop := status r' = status r ∧ ended_reason r' = ended_reason r ∧ next_run_at r' = next_run_at r.
#[global] Instance same_end_refl : Reflexive same_end.
Proof. by intros r. Qed.

Section store.
Local Open Scope py_scope.

(** The time zone database and croniter, and the service accounts. *)
Context (wall_of instant_of : string → Z → Z) (cron_walls : string → Z → nat → Z).
Context (accounts : list ServiceAccount).
Notation next_after := (Cadence.next_after wall_of instant_of cron_walls).

(** [_planned_run] *)
Definition planned_run (r : Row) (now : Z) : pyres CError Z :=
  let! c := schedule_from_row r in
  if is_dynamic c then Ok now
  else let! next := next_after c now in Ok (default now next).

(** ** Made *)

Definition create (c : Caller) (from : option nat) (text : string) (s : ParsedSchedule) (limit next expires max_run : option Z) (now : Z) : pyres CError Row :=
  let! _ := validate_principal c in
  let s := anchored now s in
  let! next := match next with
               | Some t => Ok (Some t)
               | None => if is_dynamic s then Ok (Some now) else next_after s now
               end in
  match next with
  | None => Raise (CValueError "That time has already passed.")
  | Some t =>
    Ok (mk_row (c_org c) (c_user c) (c_account c) (c_agent c) from text (Reads s) SActive limit 0 (Some t) None None None expires None None 0 max_run now)
  end.

(** [create_loop] *)
Definition DEFAULT_LOOP_EXPIRY_DAYS : Z := 3.
Definition DYNAMIC_LOOP_EXPIRY_DAYS : Z := 7.
Definition create_loop (c : Caller) (from : option nat) (text : string) (s : option ParsedSchedule) (now : Z) : pyres CError Row :=
  let s := default (Dynamic "UTC") s in
  let days := if is_dynamic s then DYNAMIC_LOOP_EXPIRY_DAYS else DEFAULT_LOOP_EXPIRY_DAYS in
  create c from text s None None (Some (now + days * DAY)) None now.

(** ** Changed by a person *)

(** [_transition]: [write] is what is set, from the statuses given. *)
Definition transition (c : Caller) (from : list ScheduleStatus) (write : Row → Row) (unlocked : bool) (now : Z) (r : Row) : pyres CError (option Row) :=
  let! _ := validate_principal c in
  Ok (if sees accounts c r && bool_decide (status r ∈ from)
      then Some (with_lock (write r) (if unlocked then None else locked_until r) now) else None).

Definition pause (c : Caller) (now : Z) (r : Row) : pyres CError (option Row) :=
  transition c [SActive] (λ r, with_plan r SPaused (ended_reason r) None) true now r.

(** [seen] is the row as it was read at [read_at]. *)
Definition get_for (c : Caller) (seen : Row) : pyres CError (option Row) :=
  let! _ := validate_principal c in Ok (if sees accounts c seen then Some seen else None).
Definition resume (c : Caller) (seen : Row) (read_at now : Z) (r : Row) : pyres CError (option Row) :=
  let! schedule := get_for c seen in
  match schedule with
  | Some s =>
    if bool_decide (status s = SPaused) then
      let! next := planned_run s read_at in
      transition c [SPaused] (λ r, with_plan r SActive (ended_reason r) (Some next)) true now r
    else Ok None
  | None => Ok None
  end.

Definition cancel (c : Caller) (now : Z) (r : Row) : pyres CError (option Row) :=
  transition c [SActive; SPaused] (λ r, with_plan r SCancelled (Some RCancelled) None) true now r.

(** [was.anchor if (was.kind, was.seconds) == (schedule.kind, schedule.seconds)] *)
Definition rhythm (was s : ParsedSchedule) (now : Z) : Z :=
  match was, s with
  | Interval n (Some anchor) _, Interval m _ _ => if n =? m then anchor else now
  | _, _ => now
  end.

(** What [update] sets for a cadence: it, the limit, and the next run. *)
Record Replan := mk_replan { re_cadence : ParsedSchedule; re_limit : option (option Z); re_next : option Z }.
Definition replan (seen : Row) (s : ParsedSchedule) (now : Z) : pyres CError Replan :=
  let! was := schedule_from_row seen in
  guard Bool.eqb (is_dynamic s) (is_dynamic was) orelse CValueError "A dynamic loop cannot become a fixed schedule, or the reverse." in
  let s := anchored (rhythm was s now) s in
  let limit := if bool_decide (kind s = kind was) then None else Some (if bool_decide (kind s = KOnce) then Some 1 else None) in
  if bool_decide (status seen = SActive) && negb (is_dynamic s) then
    let! next := next_after s now in
    match next with
    | None => Raise (CValueError "That time has already passed.")
    | Some t => Ok (mk_replan s limit (Some t))
    end
  else Ok (mk_replan s limit None).

(** A limit of 0 is none. *)
Definition falsy_zero (n : Z) : option Z := if n =? 0 then None else Some n.
Definition write_update (text : option string) (plan : option Replan) (max_run : option Z) (r : Row) : Row :=
  let c := match plan with Some p => Reads (re_cadence p) | None => cadence r end in
  let limit := match plan with Some p => default (repeat_limit r) (re_limit p) | None => repeat_limit r end in
  let r' := with_change r (default (prompt r) text) c limit (match max_run with Some n => falsy_zero n | None => max_run_seconds r end) in
  match plan with Some (mk_replan _ _ (Some t)) => with_next r' (Some t) | _ => r' end.
(** [other]: a name or a context is given. *)
Definition update (c : Caller) (text : option string) (other : bool) (s : option ParsedSchedule) (max_run : option Z) (seen : Row) (read_at now : Z) (r : Row)
    : pyres CError (option Row) :=
  let! current := get_for c seen in
  match current with
  | Some current =>
    if bool_decide (status current ∈ [SActive; SPaused]) then
      let! plan := match s with None => Ok None | Some s => let! p := replan current s read_at in Ok (Some p) end in
      match text, other, plan, max_run with
      | None, false, None, None => Ok (Some r)
      | _, _, _, _ => transition c [status current] (write_update text plan max_run) true now r
      end
    else Ok None
  | None => Ok None
  end.

Definition run_now (c : Caller) (read_at now : Z) (r : Row) : pyres CError (option Row) :=
  transition c [SActive] (λ r, with_next r (Some read_at)) false now r.

(** ** Claimed *)

(** What [claim_due] and [find_due_across_tenants] look for. *)
Definition at_or_before (t : option Z) (now : Z) : bool := match t with Some t => t <=? now | None => false end.
Definition unexpired (now : Z) (r : Row) : bool := match expires_at r with Some t => now <? t | None => true end.
Definition unclaimed (now : Z) (r : Row) : bool := match locked_until r with Some t => t <=? now | None => true end.
Definition is_due (now : Z) (r : Row) : bool :=
  bool_decide (status r = SActive) && at_or_before (next_run_at r) now && unclaimed now r && unexpired now r.
Definition claim (lease now : Z) (r : Row) : Row := with_lock r (Some (now + lease * SECOND)) now.

(** ** Moved on by a run *)

(** [last_failed]: the status of the row's last session is failed. *)
Definition mark_run_created (session : nat) (last_failed : bool) (now : Z) (r : Row) : pyres CError Row :=
  let r := if bool_decide (last_session_id r = None) || negb last_failed then with_failures r 0 else r in
  let r := with_lock (with_run r now session) None now in
  if bool_decide (status r = SActive) then
    let! c := schedule_from_row r in
    let ended :=
      if match repeat_limit r with Some n => n <=? run_count r | None => false end then Some RLimit
      else if at_or_before (expires_at r) now then Some RExpired else None in
    let! next := if bool_decide (ended ≠ None) || is_once c || is_dynamic c then Ok None else next_after c now in
    let ended := if bool_decide (ended = None) && bool_decide (next = None) && negb (is_dynamic c) then Some RDone else ended in
    let r := with_next r next in
    Ok (match ended with Some reason => end_row r reason | None => r end)
  else Ok r.

Definition backoff (failures : Z) : Z := Z.min DYNAMIC_LOOP_FALLBACK_DELAY_SECONDS (60 * 2 ^ (failures - 1)).
Definition mark_run_failed (now : Z) (r : Row) : pyres CError Row :=
  let r := with_lock r None now in
  if bool_decide (status r = SActive) then
    let failures := consecutive_failures r + 1 in
    let r := with_failures r failures in
    let! c := schedule_from_row r in
    if (if is_once c then MAX_ONCE_ATTEMPTS else MAX_CONSECUTIVE_FAILURES) <=? failures then Ok (end_row r RFailed)
    else if is_once c || is_dynamic c then Ok (with_next r (Some (now + backoff failures * SECOND)))
    else let! next := next_after c now in Ok (with_next r next)
  else Ok r.

Definition mark_run_timed_out (now : Z) (r : Row) : Row :=
  let r := with_lock r (locked_until r) now in
  if bool_decide (status r = SActive) then
    let r := with_failures r (consecutive_failures r + 1) in
    if MAX_CONSECUTIVE_FAILURES <=? consecutive_failures r then end_row r RFailed else r
  else r.

Definition mark_run_skipped (now : Z) (r : Row) : pyres CError Row :=
  let r := with_lock r None now in
  if bool_decide (status r = SActive) then
    let! c := schedule_from_row r in
    if is_dynamic c || is_once c then Ok (with_next r (Some (now + DYNAMIC_LOOP_FALLBACK_DELAY_SECONDS * SECOND)))
    else let! next := next_after c now in Ok (with_next r next)
  else Ok r.

(** The schedule the session runs, asked by its own principal. *)
Definition is_its_run (c : Caller) (session : nat) (r : Row) : bool :=
  (org_id r =? c_org c)
  && (match c_user c with Some _ => bool_decide (user_id r = c_user c) | None => bool_decide (service_account_id r = c_account c) end)
  && String.eqb (agent_id r) (c_agent c) && bool_decide (last_session_id r = Some session) && bool_decide (status r = SActive).
Definition mark_dynamic_run_finished (c : Caller) (session : nat) (delay : Z) (completed : bool) (now : Z) (r : Row) : pyres CError (option Row) :=
  let! _ := validate_principal c in
  let delay := clamp_dynamic_loop_delay delay in
  if is_its_run c session r && row_dynamic r then
    let expired := at_or_before (expires_at r) now in
    let r := with_next r (Some (now + delay * SECOND)) in
    let r := if completed || expired then end_row r (if completed then RDone else RExpired) else r in
    Ok (Some (with_lock r None now))
  else Ok None.
Definition mark_loop_completed (c : Caller) (session : nat) (now : Z) (r : Row) : pyres CError (option Row) :=
  let! _ := validate_principal c in
  Ok (if is_its_run c session r then Some (with_lock (end_row r RDone) None now) else None).

(** ** Swept *)

Definition is_expired (now : Z) (r : Row) : bool := bool_decide (status r = SActive) && at_or_before (expires_at r) now.
Definition expire (now : Z) (r : Row) : Row := with_lock (with_plan r SCompleted (Some RExpired) None) None now.

Definition is_unplanned (r : Row) : bool :=
  bool_decide (status r = SActive) && bool_decide (next_run_at r = None) && negb (row_dynamic r && bool_decide (last_session_id r ≠ None)).
Definition plan (now : Z) (r : Row) : Row :=
  with_lock (match planned_run r now with Ok t => with_next r (Some t) | Raise _ => end_row r RFailed end) (locked_until r) now.

Definition is_unannounced (now : Z) (r : Row) : bool :=
  bool_decide (status r ∈ [SCompleted; SFailed]) && bool_decide (ended_reason r ∈ [Some RExpired; Some RLimit; Some RFailed])
  && bool_decide (ended_announced_at r = None) && (now - DAY <? updated_at r).

(** [onupdate]: the announcing write stamps [updated_at] too. *)
Definition announce (now : Z) (r : Row) : Row := with_lock (with_announced r now) (locked_until r) now.

(** A dynamic loop with no next run, whose last session is there: [run_over]
    says it is in a terminal status, [run_dead] that it is active, held by no
    worker and quiet for the time given. *)
Definition is_waiting (now : Z) (r : Row) : bool :=
  bool_decide (status r = SActive) && bool_decide (next_run_at r = None) && row_dynamic r && unexpired now r.
Definition recover (now : Z) (r : Row) : Row :=
  with_lock (with_next r (Some (now + DYNAMIC_LOOP_FALLBACK_DELAY_SECONDS * SECOND))) None now.

(** ** Every write to a row *)

(** The control plane is not part of this code. Of what it writes,
    [plan_unscheduled] says it makes active rows with no next run, and resumes
    rows that way. *)
Definition plane_made (r : Row) : Prop :=
  status r = SActive ∧ next_run_at r = None ∧ run_count r = 0 ∧ last_session_id r = None ∧ ended_reason r = None ∧
  ended_announced_at r = None ∧ consecutive_failures r = 0.
Definition plane_resume (r : Row) : Row :=
  if bool_decide (status r = SPaused) then with_plan r SActive (ended_reason r) None else r.

Inductive Op :=
| OPause (c : Caller)
| OResume (c : Caller) (seen : Row) (read_at : Z)
| OCancel (c : Caller)
| OUpdate (c : Caller) (text : option string) (other : bool) (s : option ParsedSchedule) (max_run : option Z) (seen : Row) (read_at : Z)
| ORunNow (c : Caller) (read_at : Z)
| OClaim (lease : Z)
| OCreated (session : nat) (last_failed : bool)
| OFailed
| OTimedOut
| OSkipped
| OFinished (c : Caller) (session : nat) (delay : Z) (completed : bool)
| OLoopCompleted (c : Caller) (session : nat)
| OExpire
| OPlan
| OAnnounce
| ORecover
| OPlaneResume.

(** What raises or finds nothing to write leaves the row. *)
Definition if_ok (m : pyres CError Row) (r : Row) : Row := match m with Ok r' => r' | Raise _ => r end.
Definition if_some (m : pyres CError (option Row)) (r : Row) : Row := match m with Ok (Some r') => r' | _ => r end.
Definition apply_op (op : Op) (now : Z) (r : Row) : Row :=
  match op with
  | OPause c => if_some (pause c now r) r
  | OResume c seen read_at => if_some (resume c seen read_at now r) r
  | OCancel c => if_some (cancel c now r) r
  | OUpdate c text other s max_run seen read_at => if_some (update c text other s max_run seen read_at now r) r
  | ORunNow c read_at => if_some (run_now c read_at now r) r
  | OClaim lease => if is_due now r then claim lease now r else r
  | OCreated session last_failed => if_ok (mark_run_created session last_failed now r) r
  | OFailed => if_ok (mark_run_failed now r) r
  | OTimedOut => mark_run_timed_out now r
  | OSkipped => if_ok (mark_run_skipped now r) r
  | OFinished c session delay completed => if_some (mark_dynamic_run_finished c session delay completed now r) r
  | OLoopCompleted c session => if_some (mark_loop_completed c session now r) r
  | OExpire => if is_expired now r then expire now r else r
  | OPlan => if is_unplanned r then plan now r else r
  | OAnnounce => if is_unannounced now r then announce now r else r
  | ORecover => if is_waiting now r then recover now r else r
  | OPlaneResume => plane_resume r
  end.

#[local] Set Default Proof Using "All".

(** ** What a row always is *)

Definition live (s : ScheduleStatus) : bool := match s with SActive | SPaused => true | _ => false end.
Definition reason_fits (s : ScheduleStatus) (reason : option EndedReason) : Prop :=
  match s with
  | SActive | SPaused => reason = None
  | SCompleted => reason = Some RDone ∨ reason = Some RLimit ∨ reason = Some RExpired
  | SFailed => reason = Some RFailed
  | SCancelled => reason = Some RCancelled
  end.

(** A cadence its constructors make, in a zone of datetime's: its clock less
    than a day from UTC. *)
Definition sound (s : ParsedSchedule) : Prop := wf_schedule s ∧ zone_bounded wall_of instant_of s.

(** A next run, or the run of a dynamic loop to wait for. *)
Definition planned (r : Row) : Prop :=
  status r = SActive → next_run_at r ≠ None ∨ (row_dynamic r = true ∧ last_session_id r ≠ None).

(** [p]: the control plane has not written it without a next run since it was planned. *)
Record wf_row (p : bool) (r : Row) : Prop := mk_wf {
  wf_next : status r ≠ SActive → next_run_at r = None;
  wf_reason : reason_fits (status r) (ended_reason r);
  wf_failures : live (status r) = true → 0 <= consecutive_failures r < MAX_CONSECUTIVE_FAILURES;
  wf_count : 0 <= run_count r;
  wf_announced : ended_announced_at r ≠ None → live (status r) = false ∧ ended_reason r ≠ Some RDone ∧ ended_reason r ≠ Some RCancelled;
  wf_planned : p = true → planned r;
  wf_sound : ∀ s, cadence r = Reads s → sound s
}.

(** A fixed cadence that recurs always has a next run. *)
Lemma recurs s now : sound s → is_dynamic s = false → is_once s = false → next_after s now ≠ Ok None.
Proof.
  intros [Hw Hz] Hd Ho. destruct s as [days times tz|n a tz|m tz|e tz|tz]; try done; cbn [Cadence.next_after].
  - intros [= Hn]. exact (calendar_next_exists (λ _, true) wall_of instant_of (λ _, true) cron_walls now days times tz Hz Hw Hn).
  - unfold wf_schedule, MIN_INTERVAL_SECONDS in Hw. unfold SECOND. destruct (Z.leb_spec (n * 1000000) 0); [lia|].
    by case_match.
  - unfold pybind. by case_match.
Qed.
Lemma next_later s now t : next_after s now = Ok (Some t) → now < t.
Proof. apply (next_after_later (λ _, true) wall_of instant_of (λ _, true) cron_walls). Qed.

Lemma planned_run_soon r now t : planned_run r now = Ok t → now <= t.
Proof.
  unfold planned_run. intros (c & _ & Ht)%pybind_ok. destruct (is_dynamic c); [injection Ht as <-; lia|].
  apply pybind_ok in Ht as ([u|] & Hn & [= <-]); [by apply Z.lt_le_incl, (next_later c)|apply Z.le_refl].
Qed.

Lemma anchored_kind now s : is_dynamic (anchored now s) = is_dynamic s ∧ is_once (anchored now s) = is_once s.
Proof. by destruct s as [| ? [] | | | ]. Qed.
Lemma anchored_sound now s : sound s → sound (anchored now s).
Proof. by destruct s as [| ? [] | | | ]. Qed.

(** What a row made is. *)
Lemma create_wf c from text s limit next expires max_run now r :
  sound s → create c from text s limit next expires max_run now = Ok r → wf_row true r.
Proof.
  intros Hs Hc. unfold create in Hc. apply pybind_ok in Hc as (? & _ & Hc). apply pybind_ok in Hc as ([t|] & _ & Hc); [|done].
  injection Hc as <-. split; cbn; try done.
  - by left.
  - intros s' [= <-]. by apply anchored_sound.
Qed.

(** A cadence a person gives is sound. *)
Definition sound_op (op : Op) : Prop := match op with OUpdate _ _ _ (Some s) _ _ _ => sound s | _ => True end.

Lemma transition_some c from write unlocked now r r' :
  transition c from write unlocked now r = Ok (Some r') →
  status r ∈ from ∧ r' = with_lock (write r) (if unlocked then None else locked_until r) now.
Proof.
  unfold transition. intros (? & _ & Ht)%pybind_ok. destruct (sees accounts c r && _) eqn:Hb; [|done].
  injection Ht as <-. bool_to_prop. done.
Qed.

(** A lock and a stamp do not touch the rest. *)
Lemma with_lock_wf {p} r lock now : wf_row p r → wf_row p (with_lock r lock now).
Proof. by intros []; split. Qed.
Lemma end_row_wf {p q} r reason : reason ≠ RCancelled → wf_row p r → ended_announced_at r = None → wf_row q (end_row r reason).
Proof.
  intros Hr [Hn Hre Hf Hc Ha Hp Hs] Hnone. unfold end_row, with_plan. split; cbn; try done.
  - case_bool_decide; destruct reason; cbn; naive_solver.
  - by case_bool_decide.
  - by case_bool_decide.
Qed.
Lemma with_next_wf {p q} r t : status r = SActive → wf_row p r → wf_row q (with_next r (Some t)).
Proof. intros Ha [Hn Hre Hf Hc Han Hp Hs]. split; cbn; try done. by left. Qed.
Lemma unannounced {p} r : wf_row p r → live (status r) = true → ended_announced_at r = None.
Proof. intros Hw Hl. destruct (ended_announced_at r) eqn:Ha; [|done]. destruct (wf_announced p r Hw); [by rewrite Ha|congruence]. Qed.
Lemma active_live s : s = SActive → live s = true.
Proof. by intros ->. Qed.

Lemma end_active_wf {p q} r reason : reason ≠ RCancelled → status r = SActive → wf_row p r → wf_row q (end_row r reason).
Proof. intros Hr Ha Hw. apply (end_row_wf (p:=p)); [done..|]. by apply (unannounced (p:=p)), active_live. Qed.

(** Where a next run is planned, or the schedule waits for its run. *)
Lemma with_next_option_wf {p} r next :
  status r = SActive → next ≠ None ∨ (row_dynamic r = true ∧ last_session_id r ≠ None) → wf_row p r → wf_row p (with_next r next).
Proof. intros Ha Hp [Hn Hre Hf Hc Han Hp' Hs]. split; try done. by intros _ _. Qed.

Lemma with_failures_wf {p} r n : (live (status r) = true → 0 <= n < MAX_CONSECUTIVE_FAILURES) → wf_row p r → wf_row p (with_failures r n).
Proof. intros Hf' [Hn Hre Hf Hc Han Hp Hs]. by split. Qed.
Lemma with_run_wf {p} r now session : wf_row p r → wf_row p (with_run r now session).
Proof. intros [Hn Hre Hf Hc Han Hp Hs]. split; cbn; try done; [lia|]. intros Hpp Ha. destruct (Hp Hpp Ha) as [?|[? ?]]; [by left|by right]. Qed.

Lemma with_change_wf {p} r text c limit max_run :
  wf_row p r → (∀ s, c = Reads s → sound s) → (p = true → status r = SActive → next_run_at r = None → match c with Reads s => is_dynamic s | Malformed d _ => d end = true) →
  wf_row p (with_change r text c limit max_run).
Proof.
  intros [Hn Hre Hf Hc Han Hp Hs] Hsound Hd. split; cbn; try done. intros Hpp Ha. destruct (Hp Hpp Ha) as [?|[? ?]]; [by left|]. cbn.
  destruct (next_run_at r) eqn:Hnx; [by left|]. right. split; [by apply Hd|done].
Qed.

Lemma mark_run_created_wf {p} session failed now r r' :
  wf_row p r → mark_run_created session failed now r = Ok r' → wf_row p r'.
Proof.
  intros Hw. unfold mark_run_created. set (r1 := if _ : bool then with_failures r 0 else r).
  assert (Hw1 : wf_row p r1).
  { subst r1. case_if; [|done]. apply with_failures_wf; [|done]. unfold MAX_CONSECUTIVE_FAILURES. lia. }
  clearbody r1. set (r2 := with_lock _ None now).
  assert (Hw2 : wf_row p r2) by (by apply with_lock_wf, with_run_wf).
  assert (Hl2 : last_session_id r2 ≠ None) by done. clearbody r2. case_bool_decide as Ha; [|by intros [= <-]].
  intros (c & Hc & (next & Hnx & [= <-])%pybind_ok)%pybind_ok.
  set (e := if match repeat_limit r2 with Some n => n <=? run_count r2 | None => false end then Some RLimit
            else if at_or_before (expires_at r2) now then Some RExpired else None) in *.
  assert (He : e ≠ Some RCancelled) by (subst e; by repeat case_match). clearbody e.
  assert (Hd : row_dynamic r2 = is_dynamic c) by (unfold row_dynamic; unfold schedule_from_row in Hc; by destruct (cadence r2); simplify_eq).
  assert (Hend : ∀ reason, reason ≠ RCancelled → wf_row p (end_row (with_next r2 next) reason)).
  { intros reason Hr. by eapply (end_active_wf r2 reason). }
  case_if; [by apply Hend|]. destruct e as [reason|]; [apply Hend; naive_solver|].
  apply with_next_option_wf; [done| |done]. destruct next as [t|]; [by left|right]. split; [|done].
  rewrite Hd. by destruct (is_dynamic c).
Qed.
(** The row of an active schedule moves on: to a time, or to its next run. *)
Lemma moves_on_wf {p} r c now next :
  wf_row p r → status r = SActive → schedule_from_row r = Ok c → is_once c = false → is_dynamic c = false →
  next_after c now = Ok next → wf_row p (with_next r next).
Proof.
  intros Hw Ha Hc Ho Hd Hn. destruct next as [t|]; [by eapply with_next_wf|]. destruct (recurs c now); try done.
  apply (wf_sound p r Hw). unfold schedule_from_row in Hc. by destruct (cadence r); simplify_eq.
Qed.

(** Ended, the failures no longer matter. *)
Lemma end_failures_wf {p} r n reason : reason ≠ RCancelled → status r = SActive → wf_row p r → wf_row p (end_row (with_failures r n) reason).
Proof.
  intros Hr Ha Hw. destruct (end_active_wf (q:=p) r reason Hr Ha Hw) as [Hn Hre Hf Hc Han Hp Hs]. split; try done.
  cbn. by case_bool_decide.
Qed.

Lemma mark_run_failed_wf {p} now r r' : wf_row p r → mark_run_failed now r = Ok r' → wf_row p r'.
Proof.
  intros Hw. unfold mark_run_failed. pose proof (with_lock_wf r None now Hw) as Hl.
  set (l := with_lock r None now) in *. case_bool_decide as Ha; [|by intros [= <-]].
  intros (c & Hc & Hr)%pybind_ok. destruct (Z.leb_spec (if is_once c then MAX_ONCE_ATTEMPTS else MAX_CONSECUTIVE_FAILURES) (consecutive_failures l + 1)) as [Hle|Hlt].
  - injection Hr as <-. by apply (end_failures_wf l).
  - assert (Hf : wf_row p (with_failures l (consecutive_failures l + 1))).
    { apply with_failures_wf; [|done]. intros Hlive. pose proof (wf_failures p l Hl Hlive).
      unfold MAX_ONCE_ATTEMPTS, MAX_CONSECUTIVE_FAILURES in *. destruct (is_once c); lia. }
    destruct (is_once c) eqn:Ho; [injection Hr as <-; by eapply with_next_wf|].
    destruct (is_dynamic c) eqn:Hd; [injection Hr as <-; by eapply with_next_wf|].
    csimpl in Hr. apply pybind_ok in Hr as (next & Hn & [= <-]). by eapply moves_on_wf.
Qed.

Lemma mark_run_skipped_wf {p} now r r' : wf_row p r → mark_run_skipped now r = Ok r' → wf_row p r'.
Proof.
  intros Hw. unfold mark_run_skipped. pose proof (with_lock_wf r None now Hw) as Hl.
  set (l := with_lock r None now) in *. case_bool_decide as Ha; [|by intros [= <-]].
  intros (c & Hc & Hr)%pybind_ok. destruct (is_dynamic c) eqn:Hd; [injection Hr as <-; by eapply with_next_wf|].
  destruct (is_once c) eqn:Ho; [injection Hr as <-; by eapply with_next_wf|].
  csimpl in Hr. apply pybind_ok in Hr as (next & Hn & [= <-]). by eapply moves_on_wf.
Qed.

Lemma mark_run_timed_out_wf {p} now r : wf_row p r → wf_row p (mark_run_timed_out now r).
Proof.
  intros Hw. unfold mark_run_timed_out. pose proof (with_lock_wf r (locked_until r) now Hw) as Hl.
  set (l := with_lock r (locked_until r) now) in *. case_bool_decide as Ha; [|done].
  destruct (Z.leb_spec MAX_CONSECUTIVE_FAILURES (consecutive_failures (with_failures l (consecutive_failures l + 1)))) as [Hle|Hlt].
  - by apply (end_failures_wf l).
  - apply with_failures_wf; [|done]. intros Hlive. pose proof (wf_failures p l Hl Hlive). cbn [consecutive_failures with_failures] in Hlt. unfold MAX_CONSECUTIVE_FAILURES in *. lia.
Qed.

Lemma is_its_run_active c session r : is_its_run c session r = true → status r = SActive ∧ last_session_id r = Some session.
Proof. unfold is_its_run. intros. by bool_to_prop. Qed.

Lemma mark_dynamic_run_finished_wf {p} c session delay completed now r r' :
  wf_row p r → mark_dynamic_run_finished c session delay completed now r = Ok (Some r') → wf_row p r'.
Proof.
  intros Hw. unfold mark_dynamic_run_finished. intros (? & _ & Hr)%pybind_ok.
  destruct (is_its_run c session r && row_dynamic r) eqn:Hi; [|done]. bool_to_prop.
  destruct (is_its_run_active c session r) as [Ha _]; [done|]. injection Hr as <-. apply with_lock_wf.
  destruct (completed || _); [|by eapply with_next_wf]. destruct completed; by eapply (end_active_wf r).
Qed.

Lemma planned_wf {p} now r : wf_row p r → status r = SActive → wf_row true (plan now r).
Proof.
  intros Hw Ha. apply with_lock_wf. destruct (planned_run r now) as [t|e]; [by eapply with_next_wf|by eapply end_active_wf].
Qed.

Lemma announce_wf {p} now r : wf_row p r → is_unannounced now r = true → wf_row p (announce now r).
Proof.
  intros Hw Hu. apply with_lock_wf. unfold is_unannounced in Hu. bool_to_prop.
  destruct Hw as [Hn Hre Hf Hc Han Hp Hs]. split; cbn; try done. intros _.
  destruct (status r); try set_solver; destruct (ended_reason r) as [[]|]; set_solver.
Qed.

Lemma replan_sound seen s now p : sound s → replan seen s now = Ok p → sound (re_cadence p) ∧ (is_dynamic (re_cadence p) = false → status seen = SActive → re_next p ≠ None) ∧ (re_next p ≠ None → status seen = SActive).
Proof.
  intros Hs. unfold replan. intros (was & Hwas & Hr)%pybind_ok. destruct (Bool.eqb _ _); [|done].
  set (s' := anchored _ s) in *. assert (Hs' : sound s') by by apply anchored_sound. clearbody s'.
  destruct (bool_decide (status seen = SActive) && negb (is_dynamic s')) eqn:Hb.
  - apply pybind_ok in Hr as ([t|] & _ & Hr); [|done]. injection Hr as <-. bool_to_prop. done.
  - injection Hr as <-. split_and!; [done| |done]. intros Hd Ha. exfalso. csimpl in Hd. rewrite Hd, bool_decide_true in Hb; done.
Qed.

Lemma update_wf {pf} c text other s max_run seen read_at now r r' :
  wf_row pf r → (∀ s', s = Some s' → sound s') → update c text other s max_run seen read_at now r = Ok (Some r') → wf_row pf r'.
Proof.
  intros Hw Hs. unfold update. intros (cur & Hg & Hu)%pybind_ok. destruct cur as [cur|]; [|done].
  case_bool_decide as Hst; [|done]. apply pybind_ok in Hu as (p & Hp & Hu).
  assert (Ht : transition c [status cur] (write_update text p max_run) true now r = Ok (Some r') ∨ r' = r).
  { destruct text, other, p, max_run; first [by left|right; by injection Hu as <-]. }
  destruct Ht as [Ht| ->]; [|done]. apply transition_some in Ht as [Hin ->]. apply list_elem_of_singleton in Hin. apply with_lock_wf.
  destruct s as [s|].
  - apply pybind_ok in Hp as (q & Hq & [= <-]). apply replan_sound in Hq as (Hsound & Hnext & Hactive); [|by apply Hs].
    destruct q as [qc ql [t|]]; cbn in *.
    + assert (Ha : status r = SActive) by (rewrite Hin; by apply Hactive).
      destruct Hw as [Hn Hre Hf Hcn Han Hpl Hsd]. split; cbn; try done; [by left|by intros ? [= <-]].
    + apply with_change_wf; [done|by intros ? [= <-]|]. intros _ Ha _. destruct (is_dynamic qc) eqn:Hd; [done|].
      by destruct (Hnext eq_refl (eq_trans (eq_sym Hin) Ha) eq_refl).
  - injection Hp as <-. apply with_change_wf; [done|apply (wf_sound pf r Hw)|]. intros Hpp Ha Hnone.
    by destruct (wf_planned pf r Hw Hpp Ha) as [?|[? _]].
Qed.

(** What [plan_unscheduled] leaves alone has what it needs. *)
Lemma not_unplanned r : is_unplanned r = false → planned r.
Proof using .
  unfold is_unplanned, planned. intros Hu Ha. rewrite bool_decide_true in Hu by done.
  destruct (next_run_at r); [by left|right]. csimpl in Hu. by bool_to_prop.
Qed.

(** Every write keeps it. *)
Definition next_planned (op : Op) (p : bool) : bool := match op with OPlaneResume => false | OPlan => true | _ => p end.
Lemma apply_op_wf {p} op now r : sound_op op → wf_row p r → wf_row (next_planned op p) (apply_op op now r).
Proof.
  intros Hs Hw. destruct op as [c|c seen ra|c|c text other s mr seen ra|c ra|lease|sid lf| | | |c sid d done|c sid| | | | | ]; cbn [apply_op next_planned]; unfold if_ok, if_some.
  - destruct (pause c now r) as [[r'|]|] eqn:He; try done. apply transition_some in He as [Ha%list_elem_of_singleton ->].
    apply with_lock_wf. destruct Hw as [Hn Hre Hf Hc Han Hp Hsd]. rewrite Ha in *. by split.
  - destruct (resume c seen ra now r) as [[r'|]|] eqn:He; try done. unfold resume in He. apply pybind_ok in He as ([cur|] & _ & He); [|done].
    case_bool_decide; [|done]. apply pybind_ok in He as (t & _ & He). apply transition_some in He as [Ha%list_elem_of_singleton ->].
    apply with_lock_wf. destruct Hw as [Hn Hre Hf Hc Han Hp Hsd]. rewrite Ha in *. split; try done. by left.
  - destruct (cancel c now r) as [[r'|]|] eqn:He; try done. apply transition_some in He as [Ha ->].
    apply with_lock_wf. assert (Hl : live (status r) = true) by (by destruct (status r); set_solver).
    pose proof (unannounced r Hw Hl). destruct Hw as [Hn Hre Hf Hc Han Hp Hsd]. by split.
  - destruct (update c text other s mr seen ra now r) as [[r'|]|] eqn:He; try done. eapply update_wf; [done| |done].
    intros s' ->. exact Hs.
  - destruct (run_now c ra now r) as [[r'|]|] eqn:He; try done. apply transition_some in He as [Ha%list_elem_of_singleton ->].
    by eapply with_lock_wf, with_next_wf.
  - case_if; [by apply with_lock_wf|done].
  - destruct (mark_run_created sid lf now r) as [r'|] eqn:He; [by eapply mark_run_created_wf|done].
  - destruct (mark_run_failed now r) as [r'|] eqn:He; [by eapply mark_run_failed_wf|done].
  - by apply mark_run_timed_out_wf.
  - destruct (mark_run_skipped now r) as [r'|] eqn:He; [by eapply mark_run_skipped_wf|done].
  - destruct (mark_dynamic_run_finished c sid d done now r) as [[r'|]|] eqn:He; try done. by eapply mark_dynamic_run_finished_wf.
  - destruct (mark_loop_completed c sid now r) as [[r'|]|] eqn:He; try done. unfold mark_loop_completed in He.
    apply pybind_ok in He as (? & _ & He). destruct (is_its_run c sid r) eqn:Hi; [|done]. injection He as <-.
    apply is_its_run_active in Hi as [Ha _]. by eapply with_lock_wf, end_active_wf.
  - destruct (is_expired now r) eqn:He; [|done]. unfold is_expired in He. bool_to_prop. apply with_lock_wf. by eapply (end_active_wf r RExpired).
  - destruct (is_unplanned r) eqn:Hu; [unfold is_unplanned in Hu; bool_to_prop; by eapply planned_wf|].
    destruct Hw as [Hn Hre Hf Hc Han Hp Hsd]. split; try done. intros _ Ha. by apply not_unplanned.
  - destruct (is_unannounced now r) eqn:Hu; [by apply announce_wf|done].
  - destruct (is_waiting now r) eqn:Hu; [|done]. unfold is_waiting in Hu. bool_to_prop. by eapply with_lock_wf, with_next_wf.
  - unfold plane_resume. case_bool_decide as Ha; destruct Hw as [Hn Hre Hf Hc Han Hp Hsd]; [|by split].
    rewrite Ha in *. by split.
Qed.

(** The test of a row's status, where it is not active. *)
Ltac inactive Ha :=
  match goal with |- context [bool_decide (?s = SActive)] => replace (bool_decide (s = SActive)) with false by (symmetry; exact Ha) end.

(** Ended is ended: runs are recorded, and its end is told. *)
Lemma apply_op_ended op now r : live (status r) = false → same_end r (apply_op op now r).
Proof.
  intros Hl. assert (Ha : bool_decide (status r = SActive) = false) by (apply bool_decide_eq_false; by intros Ha; rewrite Ha in Hl).
  assert (Ht : ∀ m c from w u, (∀ st, st ∈ from → live st = true) → m = transition c from w u now r → same_end r (if_some m r)).
  { intros m c from w u Hf ->. unfold if_some. destruct (transition c from w u now r) as [[r'|]|] eqn:He; try done.
    apply transition_some in He as [Hin _]. apply Hf in Hin. congruence. }
  assert (Hrun : ∀ c session, is_its_run c session r = false).
  { intros c session. destruct (is_its_run c session r) eqn:Hi; [|done]. apply is_its_run_active in Hi as [Hi _]. by rewrite Hi in Hl. }
  assert (Hno : ∀ x y z, bool_decide (status r = SActive) && x && y && z = false) by by rewrite Ha.
  destruct op as [c|c seen ra|c|c text other s mr seen ra|c ra|lease|sid lf| | | |c sid d done|c sid| | | | | ]; cbn [apply_op].
  - eapply Ht; [|done]. by intros st ->%list_elem_of_singleton.
  - unfold resume. destruct (get_for c seen) as [[cur|]|]; try done. csimpl. destruct (bool_decide (status cur = SPaused)); [|done].
    destruct (planned_run cur ra) as [t|]; [|done]. eapply Ht; [|done]. by intros st ->%list_elem_of_singleton.
  - eapply Ht; [|done]. intros st Hst. repeat (apply elem_of_cons in Hst as [->|Hst]; [done|]). by apply not_elem_of_nil in Hst.
  - unfold update. destruct (get_for c seen) as [[cur|]|]; try done. csimpl.
    destruct (bool_decide (status cur ∈ _)) eqn:Hcur; [|done]. apply bool_decide_eq_true in Hcur.
    destruct (match s with None => _ | Some s => _ end) as [p|]; [|done]. csimpl.
    assert (Hup : same_end r (if_some (transition c [status cur] (write_update text p mr) true now r) r)).
    { eapply Ht; [|done]. intros st ->%list_elem_of_singleton. by destruct (status cur); set_solver. }
    by destruct text, other, p, mr.
  - eapply Ht; [|done]. by intros st ->%list_elem_of_singleton.
  - unfold is_due. by rewrite Hno.
  - unfold if_ok, mark_run_created. destruct (bool_decide (last_session_id r = None) || negb lf); by inactive Ha.
  - unfold if_ok, mark_run_failed. by inactive Ha.
  - unfold mark_run_timed_out. by inactive Ha.
  - unfold if_ok, mark_run_skipped. by inactive Ha.
  - unfold if_some, mark_dynamic_run_finished. destruct (validate_principal c); [|done]. csimpl. by rewrite Hrun.
  - unfold if_some, mark_loop_completed. destruct (validate_principal c); [|done]. csimpl. by rewrite Hrun.
  - unfold is_expired. by rewrite Ha.
  - unfold is_unplanned. by rewrite Ha.
  - by destruct (is_unannounced now r).
  - unfold is_waiting. by rewrite Ha.
  - unfold plane_resume. rewrite bool_decide_false; [done|]. intros Hp. by rewrite Hp in Hl.
Qed.

(** Only an active schedule plans a run, whatever its cadence; a run planned
    anew is not before the time it is planned at. *)
Definition dormant (r : Row) : Prop := status r ≠ SActive → next_run_at r = None.
Definition replanned (lo : Z) (r : Row) : Prop := dormant r ∧ ∀ n, next_run_at r = Some n → lo <= n.

Lemma replanned_end lo r reason : replanned lo (end_row r reason).
Proof using . by split. Qed.
Lemma replanned_next lo r t : status r = SActive → lo <= t → replanned lo (with_next r (Some t)).
Proof using . intros Ha Ht. split; [by intros []|]. by intros n [= <-]. Qed.
Lemma replanned_after c now r next :
  status r = SActive → next_after c now = Ok next → replanned now (with_next r next).
Proof.
  intros Ha Hn. split; [by intros []|]. cbn. intros n ->. by apply Z.lt_le_incl, (next_later c).
Qed.
Lemma replanned_dormant lo r : status r ≠ SActive → dormant r → replanned lo r.
Proof using . intros Hs Hd. split; [done|]. by rewrite Hd. Qed.

Lemma mark_run_created_replanned session failed now r r' :
  dormant r → mark_run_created session failed now r = Ok r' → replanned now r'.
Proof.
  intros Hd. unfold mark_run_created. set (r1 := if _ : bool then with_failures r 0 else r).
  assert (Hd1 : dormant r1) by (subst r1; by destruct (bool_decide _ || _)). clearbody r1.
  case_bool_decide as Ha; [|intros [= <-]; by apply replanned_dormant].
  intros (c & Hc & (next & Hnx & [= <-])%pybind_ok)%pybind_ok.
  assert (Hnext : replanned now (with_next (with_lock (with_run r1 now session) None now) next)).
  { destruct (_ || is_dynamic c); [injection Hnx as <-; by split|]. by eapply replanned_after. }
  destruct (if _ : bool then Some RDone else _); [apply replanned_end|done].
Qed.
Lemma mark_run_failed_replanned now r r' : dormant r → mark_run_failed now r = Ok r' → replanned now r'.
Proof.
  intros Hd. unfold mark_run_failed. case_bool_decide as Ha; [|intros [= <-]; by apply replanned_dormant].
  intros (c & Hc & Hr)%pybind_ok. destruct (_ <=? _); [injection Hr as <-; apply replanned_end|].
  destruct (is_once c || is_dynamic c).
  - injection Hr as <-. apply replanned_next; [done|]. unfold backoff, SECOND, DYNAMIC_LOOP_FALLBACK_DELAY_SECONDS.
    cbn [consecutive_failures with_lock]. pose proof (Z.pow_nonneg 2 (consecutive_failures r + 1 - 1) ltac:(lia)). lia.
  - apply pybind_ok in Hr as (next & Hn & [= <-]). by eapply replanned_after.
Qed.
Lemma mark_run_skipped_replanned now r r' : dormant r → mark_run_skipped now r = Ok r' → replanned now r'.
Proof.
  intros Hd. unfold mark_run_skipped. case_bool_decide as Ha; [|intros [= <-]; by apply replanned_dormant].
  intros (c & Hc & Hr)%pybind_ok. destruct (is_dynamic c || is_once c).
  - injection Hr as <-. apply replanned_next; [done|]. unfold SECOND, DYNAMIC_LOOP_FALLBACK_DELAY_SECONDS. lia.
  - apply pybind_ok in Hr as (next & Hn & [= <-]). by eapply replanned_after.
Qed.

(** When the next run an operation plans was read off the clock. *)
Definition planned_at (op : Op) (now : Z) : Z :=
  match op with OResume _ _ t | OUpdate _ _ _ _ _ _ t | ORunNow _ t => t | _ => now end.
(** A row's next run is as it was, or not before the time it was planned at. *)
Definition kept_or_replanned (lo : Z) (r r' : Row) : Prop :=
  dormant r' ∧ ∀ n, next_run_at r' = Some n → next_run_at r = Some n ∨ lo <= n.
Lemma kept_same lo r : dormant r → kept_or_replanned lo r r.
Proof using . split; [done|]. by left. Qed.
Lemma kept_replanned lo r r' : replanned lo r' → kept_or_replanned lo r r'.
Proof using . intros [Hd Hn]. split; [done|]. intros n Hr. right. by apply Hn. Qed.

Lemma replan_next seen s now p t : replan seen s now = Ok p → re_next p = Some t → now <= t ∧ status seen = SActive.
Proof.
  unfold replan. intros (was & _ & Hr)%pybind_ok. destruct (Bool.eqb _ _); [|done].
  destruct (bool_decide (status seen = SActive) && _) eqn:Hb; [|by injection Hr as <-].
  apply pybind_ok in Hr as ([u|] & Hn & [= <-]). intros [= ->]. bool_to_prop. split; [|done]. by apply Z.lt_le_incl, (next_later _ _ _ Hn).
Qed.
Lemma update_replanned c text other s mr seen ra now r r' :
  dormant r → update c text other s mr seen ra now r = Ok (Some r') → kept_or_replanned ra r r'.
Proof.
  intros Hd. unfold update. intros (cur & Hg & Hu)%pybind_ok. destruct cur as [cur|]; [|done].
  case_bool_decide as Hst; [|done]. apply pybind_ok in Hu as (p & Hp & Hu).
  assert (Ht : transition c [status cur] (write_update text p mr) true now r = Ok (Some r') ∨ r' = r).
  { destruct text, other, p, mr; first [by left|right; by injection Hu as <-]. }
  clear Hu. destruct Ht as [Ht| ->]; [|by apply kept_same]. apply transition_some in Ht as [Hin ->]. apply list_elem_of_singleton in Hin.
  destruct p as [[qc ql [t|]]|]; [|split; [done|]; by left..].
  apply kept_replanned. destruct s as [s|]; [|done]. apply pybind_ok in Hp as (q & Hq & [= ->]).
  apply (replan_next _ _ _ _ t) in Hq as [Hle Ha]; [|done]. apply replanned_next; [by rewrite <-Ha|done].
Qed.

Lemma apply_op_replanned op now r : dormant r → kept_or_replanned (planned_at op now) r (apply_op op now r).
Proof.
  intros Hd. pose proof (kept_same (planned_at op now) r Hd) as Hsame.
  destruct op as [c|c seen ra|c|c text other s mr seen ra|c ra|lease|sid lf| | | |c sid d done|c sid| | | | | ]; cbn [apply_op planned_at] in *; unfold if_ok, if_some.
  - destruct (pause c now r) as [[r'|]|] eqn:He; try done. apply transition_some in He as [Ha%list_elem_of_singleton ->]. by apply kept_replanned.
  - destruct (resume c seen ra now r) as [[r'|]|] eqn:He; try done. unfold resume in He. apply pybind_ok in He as ([cur|] & _ & He); [|done].
    case_bool_decide; [|done]. apply pybind_ok in He as (t & Ht%planned_run_soon & He). apply transition_some in He as [_ ->].
    apply kept_replanned. split; [by intros []|]. by intros n [= <-].
  - destruct (cancel c now r) as [[r'|]|] eqn:He; try done. apply transition_some in He as [_ ->]. by apply kept_replanned.
  - destruct (update c text other s mr seen ra now r) as [[r'|]|] eqn:He; try done. by eapply update_replanned.
  - destruct (run_now c ra now r) as [[r'|]|] eqn:He; try done. apply transition_some in He as [Ha%list_elem_of_singleton ->].
    apply kept_replanned. by apply (replanned_next ra r).
  - by destruct (is_due now r).
  - destruct (mark_run_created sid lf now r) as [r'|] eqn:He; [|done]. by eapply kept_replanned, mark_run_created_replanned.
  - destruct (mark_run_failed now r) as [r'|] eqn:He; [|done]. by eapply kept_replanned, mark_run_failed_replanned.
  - unfold mark_run_timed_out. case_bool_decide; [|done]. destruct (_ <=? _); [apply kept_replanned, replanned_end|done].
  - destruct (mark_run_skipped now r) as [r'|] eqn:He; [|done]. by eapply kept_replanned, mark_run_skipped_replanned.
  - destruct (mark_dynamic_run_finished c sid d done now r) as [[r'|]|] eqn:He; try done. apply kept_replanned.
    unfold mark_dynamic_run_finished in He. apply pybind_ok in He as (? & _ & He).
    destruct (is_its_run c sid r && row_dynamic r) eqn:Hi; [|done]. bool_to_prop. destruct (is_its_run_active c sid r) as [Ha _]; [done|].
    injection He as <-. destruct (done || _); [by split|]. split; [by intros []|]. intros n [= <-].
    unfold clamp_dynamic_loop_delay, DYNAMIC_LOOP_MIN_DELAY_SECONDS, SECOND. lia.
  - destruct (mark_loop_completed c sid now r) as [[r'|]|] eqn:He; try done. unfold mark_loop_completed in He.
    apply pybind_ok in He as (? & _ & He). destruct (is_its_run c sid r); [|done]. injection He as <-. by apply kept_replanned.
  - destruct (is_expired now r); [by apply kept_replanned|done].
  - destruct (is_unplanned r) eqn:Hu; [|done]. unfold is_unplanned in Hu. bool_to_prop. apply kept_replanned. unfold plan.
    destruct (planned_run r now) as [t|] eqn:Ht; [|by split]. apply planned_run_soon in Ht. by apply (replanned_next now r).
  - by destruct (is_unannounced now r).
  - destruct (is_waiting now r) eqn:Hu; [|done]. unfold is_waiting in Hu. bool_to_prop. apply kept_replanned.
    apply (replanned_next now r); [done|]. unfold DYNAMIC_LOOP_FALLBACK_DELAY_SECONDS, SECOND. lia.
  - unfold plane_resume. case_bool_decide; [|done]. by apply kept_replanned.
Qed.

(** A schedule after any writes of anyone, at any times. *)
Fixpoint history (r : Row) (ops : list (Op * Z)) : Row :=
  match ops with [] => r | (op, now) :: ops => history (apply_op op now r) ops end.
Lemma history_app r xs ys : history r (xs ++ ys) = history (history r xs) ys.
Proof. revert r. induction xs as [|[op now] xs IH]; intros r; [done|apply IH]. Qed.
(** Whether the control plane's last write is one [plan_unscheduled] has not
    come by since. *)
Definition planned_since (p : bool) (ops : list (Op * Z)) : bool := foldl (λ p x, next_planned x.1 p) p ops.
Lemma history_wf p r ops :
  Forall (λ x, sound_op x.1) ops → wf_row p r → wf_row (planned_since p ops) (history r ops).
Proof.
  revert p r. induction ops as [|[op now] ops IH]; intros p r; [done|]. intros [Hop Hops]%Forall_cons Hw. apply IH; [done|].
  by apply apply_op_wf.
Qed.
Lemma plane_made_wf r : (∀ s, cadence r = Reads s → sound s) → plane_made r → wf_row false r.
Proof using .
  intros Hs (Ha & Hn & Hc & Hl & He & Han & Hf). split; rewrite ?Ha, ?Hn, ?Hc, ?He, ?Han, ?Hf; done.
Qed.

(** A row as it is made: here, or by the control plane. *)
Definition made_by (made : Row) (p : bool) : Prop :=
  (p = true ∧ ∃ c from text s limit next expires max_run now,
     sound s ∧ create c from text s limit next expires max_run now = Ok made)
  ∨ (p = false ∧ plane_made made ∧ ∀ s, cadence made = Reads s → sound s).
Lemma history_ended r ops : live (status r) = false → same_end r (history r ops).
Proof.
  revert r. induction ops as [|[op now] ops IH]; intros r Hl; [done|]. destruct (apply_op_ended op now r Hl) as (Hs & Hr & Hn).
  destruct (IH (apply_op op now r)) as (Hs' & Hr' & Hn'); [by rewrite Hs|]. unfold same_end. cbn. by rewrite Hs', Hr', Hn'.
Qed.

(** C26. A schedule made here or, with no next run, by the control plane, its
    cadence well formed and in a zone less than a day from UTC, after any writes
    by its people, its runs, the ticker and the control plane, in any order and
    at any times, each one transaction: it plans a run only while active; while
    active it has a next run, or waits for the run of its dynamic loop, or is a
    row the control plane made or resumed without one and [plan_unscheduled] has
    not come by since, which would give it one or end it; a reason to have ended
    is there when it has ended, and fits; ten failures in a row never leave it
    going; and once ended, no later write brings it back. *)
Theorem schedule_lifecycle made p before after :
  made_by made p → Forall (λ x, sound_op x.1) before →
  let r := history made before in
  (status r ≠ SActive → next_run_at r = None)
  ∧ (planned_since p before = true → planned r)
  ∧ (∀ now, planned (apply_op OPlan now r))
  ∧ reason_fits (status r) (ended_reason r)
  ∧ (live (status r) = true → 0 <= consecutive_failures r < MAX_CONSECUTIVE_FAILURES)
  ∧ (ended_announced_at r ≠ None → live (status r) = false)
  ∧ (live (status r) = false → same_end r (history made (before ++ after))).
Proof.
  intros Hm Hb r. assert (Hw : wf_row p made).
  { destruct Hm as [(-> & c & from & text & s & limit & next & expires & max_run & now & Hs & Hc)|(-> & Hm & Hs)].
    - by eapply create_wf.
    - by apply plane_made_wf. }
  assert (Hr : wf_row (planned_since p before) r) by by apply history_wf.
  assert (Hplan : ∀ now, planned (apply_op OPlan now r)).
  { intros now. apply (wf_planned true _ (apply_op_wf OPlan now r I Hr)). done. }
  destruct Hr as [Hn Hre Hf Hcn Han Hp Hsd].
  split_and!; try done; [by intros Ha; apply Han|]. rewrite history_app. apply history_ended.
Qed.

(** A one-off paused while its run is being started, and resumed once it ran,
    runs a second time: the run of a paused schedule is recorded, and it alone
    does not end it. *)
Lemma paused_run_repeats c r moment tz session t1 t2 t3 :
  validate_principal c = Ok tt → sees accounts c r = true → status r = SActive → cadence r = Reads (Once moment tz) → moment <= t3 →
  let ran := history r [(OPause c, t1); (OCreated session false, t2)] in
  let again := apply_op (OResume c ran t3) t3 ran in
  status again = SActive ∧ run_count again = run_count r + 1 ∧ next_run_at again = Some t3.
Proof.
  intros Hv Hs Ha Hc Hm. cbn [history]. set (p := apply_op (OPause c) t1 r).
  assert (Hp : p = with_lock (with_plan r SPaused (ended_reason r) None) None t1).
  { subst p. cbn [apply_op]. unfold if_some, pause, transition. rewrite Hv. cbn [pybind]. rewrite Hs, bool_decide_true; [done|]. rewrite Ha. left. }
  rewrite Hp. clear p Hp. set (ran := apply_op (OCreated session false) t2 _).
  assert (Hr : ran = with_lock (with_run (with_failures (with_lock (with_plan r SPaused (ended_reason r) None) None t1) 0) t2 session) None t2).
  { subst ran. cbn [apply_op]. unfold if_ok, mark_run_created. by rewrite orb_true_r. }
  rewrite Hr. clear ran Hr. cbn [apply_op]. unfold if_some, resume, get_for. rewrite Hv. cbn [pybind].
  match goal with |- context [sees accounts c ?r'] => assert (sees accounts c r' = true) as -> by exact Hs end.
  cbn [pybind]. rewrite bool_decide_true by done. unfold planned_run, schedule_from_row. cbn [cadence with_lock with_run with_failures with_plan].
  rewrite Hc. cbn [pybind is_dynamic Cadence.next_after]. destruct (Z.ltb_spec t3 moment); [lia|]. cbn [pybind].
  unfold transition. rewrite Hv. cbn [pybind].
  match goal with |- context [sees accounts c ?r'] => assert (sees accounts c r' = true) as -> by exact Hs end.
  rewrite bool_decide_true; [done|left].
Qed.
End store.

Definition owner : Caller := mk_caller 1 "mate" (Some 7) None.
Definition mornings : ParsedSchedule := Calendar [0; 1; 2; 3; 4] [540; 1020] "UTC".
Lemma mornings_sound : sound utc utc mornings.
Proof. split; [split_and!; [done|repeat constructor; lia|done|repeat constructor; lia]|apply utc_bounded]. Qed.
Definition morning_row : Row :=
  mk_row 1 (Some 7) None "mate" (Some 3%nat) "Sum up" (Reads mornings) SActive (Some 2) 0 (Some (9 * HOUR)) None None None None None None 0 None 0.

(** Paused and resumed by the control plane, it is planned again; two runs end
    it at its limit; a late pause and resume do not bring it back. *)
Lemma schedule_lifecycle_witness :
  let before := [(OPause owner, HOUR); (OPlaneResume, 2 * HOUR); (OPlan, 3 * HOUR);
                 (OClaim 30, 9 * HOUR); (OCreated 5 false, 9 * HOUR + 1); (OClaim 30, 17 * HOUR); (OCreated 6 false, 17 * HOUR + 1)] in
  let r := history utc utc (λ _ _ _, 0) [] morning_row before in
  (status r, ended_reason r, run_count r) = (SCompleted, Some RLimit, 2)
  ∧ same_end r (history utc utc (λ _ _ _, 0) [] morning_row (before ++ [(OPause owner, 18 * HOUR); (OResume owner r (18 * HOUR), 18 * HOUR)])).
Proof.
  intros before r. split; [by vm_compute|].
  destruct (schedule_lifecycle utc utc (λ _ _ _, 0) [] morning_row true before
              [(OPause owner, 18 * HOUR); (OResume owner r (18 * HOUR), 18 * HOUR)]) as (_ & _ & _ & _ & _ & _ & Hend).
  - left. split; [reflexivity|]. exists owner, (Some 3%nat), "Sum up", mornings, (Some 2), None, None, None, 0.
    split; [apply mornings_sound|by vm_compute].
  - subst before. repeat constructor.
  - apply Hend. by vm_compute.
Defined.
