(* ===== verification/ScheduleRuns.v ===== *)
(** * The runs of schedules (scheduled/materialize.py, scheduled/platform_ticker.py)

    The ticker claims the rows that are due and starts a run of each: a session
    under a key of the schedule and the instant, its prompt, a place in the
    queue, and the row moved on.  Before it claims, it sweeps.

    A claimed row is a job, and each call of [materialize_scheduled_run] a step
    of its own, so that jobs, people and sweeps interleave in every way; a call
    that raises leaves nothing behind.  Rows another transaction holds are
    skipped: which are free is an argument of a sweep.  Where the run's
    workspace comes from and what it is told of its schedule are not modelled. *)

From S2P Require Import Prelude.
From S2P Require Import Cadence.
From S2P Require Import Schedules.
From stdpp Require Import gmap sorting options.
Local Open Scope Z_scope.

(** ** Sessions, jobs *)

Inductive SessionStatus := Active | Paused | Idle | Completed | Failed | Archived.
#[global] Instance SessionStatus_eq_dec : EqDecision SessionStatus.
Proof. solve_decision. Defined.

(** [scheduled:{schedule.id}:{next_run_at}]; only scheduled sessions have one. *)
Definition Key : Type := nat * option Z.
Record Session := mk_session {
  key : option Key;
  parent : option nat;
  session_status : SessionStatus;
  created_at : Z;
  session_updated_at : Z;
  leased : bool;
  prompts : list string
}.
Definition with_status (s : Session) (st : SessionStatus) (now : Z) : Session :=
  mk_session (key s) (parent s) st (created_at s) now (leased s) (prompts s).
Definition with_prompt (s : Session) (text : string) : Session :=
  mk_session (key s) (parent s) (session_status s) (created_at s) (session_updated_at s) (leased s) (prompts s ++ [text]).

(** Where [materialize_scheduled_run] is. *)
Inductive Stage :=
| Claimed
| Skipping
| Making
| Prompting (session : nat)
| Queueing (session : nat)
| Marking (session : nat)
| Failing (session : option nat).
Record Job := mk_job { schedule_id : nat; seen : Row; stage : Stage }.
Definition made (j : Job) : option nat :=
  match stage j with Prompting s | Queueing s | Marking s => Some s | Failing s => s | _ => None end.
Definition fire_key (j : Job) : Key := (schedule_id j, next_run_at (seen j)).

Record World := mk_world {
  rows : gmap nat Row;
  sessions : gmap nat Session;
  jobs : gmap nat Job;
  queue : list nat;
  overdue : list nat
}.
Definition set_rows (w : World) (r : gmap nat Row) : World := mk_world r (sessions w) (jobs w) (queue w) (overdue w).
Definition set_sessions (w : World) (s : gmap nat Session) : World := mk_world (rows w) s (jobs w) (queue w) (overdue w).
Definition set_jobs (w : World) (j : gmap nat Job) : World := mk_world (rows w) (sessions w) j (queue w) (overdue w).
Definition enqueue (w : World) (ids : list nat) : World := mk_world (rows w) (sessions w) (jobs w) (queue w ++ ids) (overdue w).
Definition set_overdue (w : World) (ids : list nat) : World := mk_world (rows w) (sessions w) (jobs w) (queue w) ids.

(** [get_session_by_idempotency_key] *)
Definition by_key (k : Key) (ss : gmap nat Session) : option nat :=
  fst <$> List.find (λ x, bool_decide (key x.2 = Some k)) (map_to_list ss).

(** [_still_going] *)
Definition run_limit (r : Row) : Z := match max_run_seconds r with Some n => if n =? 0 then DEFAULT_MAX_RUN_SECONDS else n | None => DEFAULT_MAX_RUN_SECONDS end.
Definition still_going (s : Session) (schedule : Row) (now : Z) : bool :=
  bool_decide (session_status s = Active) && (now - created_at s <? run_limit schedule * SECOND).

(** ORDER BY a time that may be NULL, and LIMIT, over the rows no other
    transaction holds. *)
Definition nulls_first (a b : option Z) : bool :=
  match a, b with None, _ => true | Some _, None => false | Some a, Some b => a <=? b end.
Definition row_order (by_ : Row → option Z) (x y : nat * Row) : Prop := nulls_first (by_ x.2) (by_ y.2) = true.
#[global] Instance row_order_dec by_ : RelDecision (row_order by_).
Proof. intros x y. unfold row_order. apply _. Defined.
Definition pick (by_ : Row → option Z) (wanted : Row → bool) (free : nat → bool) (limit : nat) (rs : gmap nat Row) : list nat :=
  (take limit (merge_sort (row_order by_) (List.filter (λ x, wanted x.2 && free x.1) (map_to_list rs)))).*1.

Section runs.
Context (wall_of instant_of : string → Z → Z) (cron_walls : string → Z → nat → Z).
Context (accounts : list ServiceAccount).
Notation apply_op := (Schedules.apply_op wall_of instant_of cron_walls accounts).
Notation mark_run_created := (Schedules.mark_run_created wall_of instant_of cron_walls).
Notation mark_run_failed := (Schedules.mark_run_failed wall_of instant_of cron_walls).
Notation mark_run_skipped := (Schedules.mark_run_skipped wall_of instant_of cron_walls).

(** One write to each row given. *)
Definition write_rows (op : Op) (now : Z) (ids : list nat) (w : World) : World :=
  set_rows w (foldr (λ id rs, alter (apply_op op now) id rs) (rows w) ids).

(** ** A run *)

(** [select(SessionRow.status)] of the row's last session is failed. *)
Definition last_failed (w : World) (r : Row) : bool :=
  match last_session_id r ≫= λ s, sessions w !! s with Some s => bool_decide (session_status s = Failed) | None => false end.

Definition set_stage (w : World) (id : nat) (j : Job) (st : Stage) : World :=
  set_jobs w (<[id := mk_job (schedule_id j) (seen j) st]> (jobs w)).
Definition end_job (w : World) (id : nat) : World := set_jobs w (delete id (jobs w)).

(** The write of a job to its row: the row is gone, it is written, or it raises. *)
Definition mark (w : World) (id : nat) (j : Job) (f : Row → pyres CError Row) (failing : Stage) : World :=
  match rows w !! schedule_id j with
  | None => end_job w id
  | Some r =>
    match f r with
    | Ok r' => end_job (set_rows w (<[schedule_id j := r']> (rows w))) id
    | Raise _ => set_stage w id j failing
    end
  end.

(** [create_child_session], [create_agent_session], or the one adopted. *)
Definition make_session (w : World) (id : nat) (j : Job) (now : Z) : World :=
  match by_key (fire_key j) (sessions w) with
  | Some s => set_stage w id j (Prompting s)
  | None =>
    let s := fresh (dom (sessions w)) in
    set_stage (set_sessions w (<[s := mk_session (Some (fire_key j)) (created_from_session_id (seen j)) Active now now false []]> (sessions w)))
      id j (Prompting s)
  end.

(** [materialize_scheduled_run], a call at a time; [ok] says whether the call
    returns.  What raises goes to the ticker's [mark_run_failed]. *)
Definition job_step (id : nat) (ok : bool) (now : Z) (w : World) : World :=
  match jobs w !! id with
  | None => w
  | Some j =>
    if negb ok then match stage j with Failing _ => end_job w id | _ => set_stage w id j (Failing (made j)) end
    else
      match stage j with
      | Claimed =>
        let previous := last_session_id (seen j) ≫= λ s, sessions w !! s in
        set_stage w id j (if match previous with Some s => still_going s (seen j) now | None => false end then Skipping else Making)
      | Skipping => mark w id j (mark_run_skipped now) (Failing None)
      | Making => make_session w id j now
      | Prompting s => set_stage (set_sessions w (alter (λ x, with_prompt x (prompt (seen j))) s (sessions w))) id j (Queueing s)
      | Queueing s => set_stage (enqueue w [s]) id j (Marking s)
      | Marking s => mark w id j (λ r, mark_run_created s (last_failed w r) now r) (Failing (Some s))
      | Failing _ =>
        match rows w !! schedule_id j with
        | Some r => end_job (set_rows w (<[schedule_id j := if_ok (mark_run_failed now r) r]> (rows w))) id
        | None => end_job w id
        end
      end
  end.

(** ** The ticker *)

(** [find_due_across_tenants]: the rows claimed, each with what it was as
    claimed, a job of each. *)
Definition CLAIM_LEASE_SECONDS : Z := 30.
Definition due (free : nat → bool) (limit : nat) (now : Z) (rs : gmap nat Row) : list nat := pick next_run_at (is_due now) free limit rs.
Definition add_job (rs : gmap nat Row) (js : gmap nat Job) (id : nat) : gmap nat Job :=
  match rs !! id with Some r => <[fresh (dom js) := mk_job id r Claimed]> js | None => js end.
Definition claim_due (free : nat → bool) (limit : nat) (lease now : Z) (w : World) : World :=
  let ids := due free limit now (rows w) in
  let w' := write_rows (OClaim lease) now ids w in
  set_jobs w' (foldl (add_job (rows w')) (jobs w') ids).

(** [end_runs_of_cancelled] and [pause_if_active] *)
Definition of_cancelled (rs : gmap nat Row) (now : Z) (id : nat) (s : Session) : bool :=
  match key s with
  | Some (schedule, _) =>
    match rs !! schedule with
    | Some r =>
      bool_decide (session_status s = Active) && bool_decide (status r = SCancelled) && (now - DAY <? updated_at r)
      && ((bool_decide (parent s ≠ None) && bool_decide (parent s = created_from_session_id r)) || bool_decide (last_session_id r = Some id))
    | None => false
    end
  | None => false
  end.
Definition take_sessions (wanted : nat → Session → bool) (limit : nat) (ss : gmap nat Session) : list nat :=
  (take limit (List.filter (λ x, wanted x.1 x.2) (map_to_list ss))).*1.
Definition stop_runs_of_cancelled (limit : nat) (now : Z) (w : World) : World :=
  set_sessions w (foldr (λ id ss, alter (λ s, with_status s Paused now) id ss) (sessions w)
                    (take_sessions (of_cancelled (rows w) now) limit (sessions w))).

(** [fail_overdue_scheduled_runs]: the runs failed are still to be counted. *)
Definition is_overdue (rs : gmap nat Row) (now : Z) (id : nat) (s : Session) : bool :=
  bool_decide (key s ≠ None) && bool_decide (session_status s ∈ [Active; Paused])
  && existsb (λ x, bool_decide (last_session_id x.2 = Some id)
                   && (created_at s <? now - default DEFAULT_MAX_RUN_SECONDS (max_run_seconds x.2) * SECOND)) (map_to_list rs).
Definition fail_overdue (limit : nat) (now : Z) (w : World) : World :=
  let ids := take_sessions (is_overdue (rows w) now) limit (sessions w) in
  set_overdue (set_sessions w (foldr (λ id ss, alter (λ s, with_status s Failed now) id ss) (sessions w) ids)) (overdue w ++ ids).
Definition count_overdue (now : Z) (w : World) : World :=
  match overdue w with
  | [] => w
  | s :: rest =>
    let w := set_overdue w rest in
    match List.filter (λ x, bool_decide (last_session_id x.2 = Some s)) (map_to_list (rows w)) with
    | [(id, _)] => write_rows OTimedOut now [id] w
    | _ => w
    end
  end.

(** [recover_stalled_dynamic_loops], [find_retryable_stalled_dynamic_loop_runs] *)
Definition last_run (w : World) (r : Row) : option Session := last_session_id r ≫= λ s, sessions w !! s.
Definition is_stalled (w : World) (now : Z) (r : Row) : bool :=
  is_waiting now r
  && match last_run w r with Some s => bool_decide (session_status s ∈ [Completed; Failed; Idle; Archived]) | None => false end.
Definition is_retryable (w : World) (stale now : Z) (r : Row) : bool :=
  is_waiting now r
  && match last_run w r with
     | Some s => bool_decide (session_status s = Active) && negb (leased s) && (session_updated_at s <? now - stale * SECOND)
     | None => false
     end.
Definition requeue_stalled (limit : nat) (stale now : Z) (w : World) : World :=
  enqueue w (omap (λ id, rows w !! id ≫= last_session_id) (pick last_run_at (is_retryable w stale now) (λ _, true) limit (rows w))).

(** ** What happens *)

Inductive Action :=
| ACreate (id : nat) (c : Caller) (from : option nat) (text : string) (s : ParsedSchedule) (limit next expires max_run : option Z)
| ARow (id : nat) (op : Op)
| APlan (free : nat → bool) (limit : nat)
| AStopCancelled (limit : nat)
| AFailOverdue (limit : nat)
| ACountOverdue
| AExpire (free : nat → bool) (limit : nat)
| AAnnounce (free : nat → bool) (limit : nat)
| ARequeue (limit : nat) (stale : Z)
| ARecover (free : nat → bool) (limit : nat)
| AClaim (free : nat → bool) (limit : nat) (lease : Z)
| AJob (job : nat) (ok : bool)
| ALost (job : nat)
| AChat (id : nat)
| ASession (id : nat) (status : SessionStatus) (leased : bool).

(** What a person, or a run of the schedule, writes. *)
Definition asked (op : Op) : bool :=
  match op with
  | OPause _ | OResume _ _ _ | OCancel _ | OUpdate _ _ _ _ _ _ _ | ORunNow _ _ | OFinished _ _ _ _ | OLoopCompleted _ _ => true
  | _ => false
  end.
(** The sessions elsewhere: chats, and what becomes of a run at work. *)
Definition new_chat (id : nat) (now : Z) (w : World) : World :=
  match sessions w !! id with
  | Some _ => w
  | None => set_sessions w (<[id := mk_session None None Active now now false []]> (sessions w))
  end.
Definition session_moves (st : SessionStatus) (leased : bool) (now : Z) (s : Session) : Session :=
  mk_session (key s) (parent s) st (created_at s) now leased (prompts s).

Definition step (a : Action) (now : Z) (w : World) : World :=
  match a with
  | ACreate id c from text s limit next expires max_run =>
    match rows w !! id, Schedules.create wall_of instant_of cron_walls c from text s limit next expires max_run now with
    | None, Ok r => set_rows w (<[id := r]> (rows w))
    | _, _ => w
    end
  | ARow id op => if asked op then write_rows op now [id] w else w
  | APlan free limit => write_rows OPlan now (pick (λ r, Some (updated_at r)) is_unplanned free limit (rows w)) w
  | AStopCancelled limit => stop_runs_of_cancelled limit now w
  | AFailOverdue limit => fail_overdue limit now w
  | ACountOverdue => count_overdue now w
  | AExpire free limit => write_rows OExpire now (pick expires_at (is_expired now) free limit (rows w)) w
  | AAnnounce free limit => write_rows OAnnounce now (pick (λ r, Some (updated_at r)) (is_unannounced now) free limit (rows w)) w
  | ARequeue limit stale => requeue_stalled limit stale now w
  | ARecover free limit => write_rows ORecover now (pick last_run_at (is_stalled w now) free limit (rows w)) w
  | AClaim free limit lease => claim_due free limit lease now w
  | AJob job ok => job_step job ok now w
  | ALost job => end_job w job
  | AChat id => new_chat id now w
  | ASession id st leased => set_sessions w (alter (session_moves st leased now) id (sessions w))
  end.

(** [recover_stalled_loops] and [_tick_once]: the sweeps, then a claim. *)
Definition recover_stalled_loops (limit : nat) (stale : Z) : list Action :=
  let free _ := true in
  [APlan free limit; AStopCancelled limit; AFailOverdue limit; ACountOverdue; AExpire free limit; AAnnounce free limit; ARequeue limit stale; ARecover free limit].
Definition DYNAMIC_LOOP_STALE_RUN_SECONDS : Z := 900.
Definition tick (limit : nat) : list Action :=
  recover_stalled_loops limit DYNAMIC_LOOP_STALE_RUN_SECONDS ++ [AClaim (λ _, true) limit CLAIM_LEASE_SECONDS].

Fixpoint run (acts : list (Action * Z)) (w : World) : World :=
  match acts with [] => w | (a, now) :: acts => run acts (step a now w) end.
Definition empty_world : World := mk_world ∅ ∅ ∅ [] [].

#[local] Set Default Proof Using "All".

(** ** Each instant of a schedule runs once *)

(** A claim that keeps to its lease, a job not lost once it has made its
    session, and an edit no run came between whose reading and writing. *)
Definition of_schedule (id : nat) (s : Session) : Prop := ∃ t, key s = Some (id, t).
Definition timely (a : Action) (now : Z) (w : World) : Prop :=
  match a with
  | AClaim free limit _ => ∀ j job, jobs w !! j = Some job → schedule_id job ∉ due free limit now (rows w)
  | ALost j => ∀ job, jobs w !! j = Some job → made job = None
  | AJob j ok =>
    ∀ job s r, jobs w !! j = Some job → stage job = Failing (Some s) → rows w !! schedule_id job = Some r →
    ok = true ∧ is_ok (mark_run_failed now r) = true
  | ARow id op => planned_at op now <= now ∧ ∀ s x, sessions w !! s = Some x → of_schedule id x → created_at x < planned_at op now
  | _ => True
  end.
Fixpoint timely_run (acts : list (Action * Z)) (clock : Z) (w : World) : Prop :=
  match acts with
  | [] => True
  | (a, now) :: acts => clock < now ∧ timely a now w ∧ timely_run acts now (step a now w)
  end.

Record fires_inv (w : World) (clock : Z) : Prop := mk_fires {
  inv_dormant : ∀ id r, rows w !! id = Some r → dormant r;
  inv_rows : ∀ s x id t, sessions w !! s = Some x → key x = Some (id, t) → is_Some (rows w !! id);
  inv_job_rows : ∀ j job, jobs w !! j = Some job → is_Some (rows w !! schedule_id job);
  inv_jobs : ∀ j1 j2 job1 job2, jobs w !! j1 = Some job1 → jobs w !! j2 = Some job2 → schedule_id job1 = schedule_id job2 → j1 = j2;
  inv_due : ∀ j job, jobs w !! j = Some job → ∃ t, next_run_at (seen job) = Some t ∧ t <= clock;
  inv_keys : ∀ s1 s2 x1 x2, sessions w !! s1 = Some x1 → sessions w !! s2 = Some x2 → key x1 = key x2 → key x1 ≠ None → s1 = s2;
  inv_prompts : ∀ s x, sessions w !! s = Some x → (length (prompts x) <= 1)%nat;
  inv_unmade : ∀ j job s x, jobs w !! j = Some job → made job = None → sessions w !! s = Some x → key x ≠ Some (fire_key job);
  inv_made : ∀ j job s, jobs w !! j = Some job → made job = Some s → ∃ x, sessions w !! s = Some x ∧ key x = Some (fire_key job) ∧ (stage job = Prompting s → prompts x = []);
  inv_next : ∀ s x id t, sessions w !! s = Some x → key x = Some (id, t) →
    ∃ u, t = Some u ∧ u <= created_at x <= clock
      ∧ ∀ r n, rows w !! id = Some r → next_run_at r = Some n → u < n ∨ ∃ j job, jobs w !! j = Some job ∧ schedule_id job = id ∧ made job = Some s
}.
Lemma fires_empty clock : fires_inv empty_world clock.
Proof. by split. Qed.
Lemma fires_later w clock now : clock <= now → fires_inv w clock → fires_inv w now.
Proof.
  intros Hle [Hd Hr Hjr Hj Hdue Hk Hp Hu Hm Hn]. split; try done.
  - intros j job Hjob. destruct (Hdue j job Hjob) as (t & Ht & ?). exists t. split; [done|lia].
  - intros s x id t Hs Hkey. destruct (Hn s x id t Hs Hkey) as (u & Hu' & ? & Hrest). exists u. split; [done|]. split; [lia|done].
Qed.

(** Rows written: each keeps its next run, or plans one after its runs. *)
Lemma fires_rows w clock rs :
  fires_inv w clock →
  (∀ id, is_Some (rows w !! id) → is_Some (rs !! id)) →
  (∀ id r', rs !! id = Some r' →
     (rows w !! id = None ∧ dormant r')
     ∨ ∃ r lo, rows w !! id = Some r ∧ kept_or_replanned lo r r' ∧ ∀ s x, sessions w !! s = Some x → of_schedule id x → created_at x < lo) →
  fires_inv (set_rows w rs) clock.
Proof.
  intros [Hd Hr Hjr Hj Hdue Hk Hp Hu Hm Hn] Hdom Hrs. split; cbn; try done.
  - intros id r' Hid. destruct (Hrs id r' Hid) as [[_ ?]|(r & lo & _ & [? _] & _)]; done.
  - intros s x id t Hs Hkey. eauto.
  - intros j job Hjob. eauto.
  - intros s x id t Hs Hkey. destruct (Hn s x id t Hs Hkey) as (u & -> & Hc & Hrest). exists u. split; [done|]. split; [done|].
    intros r' n Hid Hnext. destruct (Hrs id r' Hid) as [[Hnone _]|(r & lo & Hold & [_ Hkept] & Hlo)].
    + destruct (Hr s x id (Some u) Hs Hkey) as [r Hr']. congruence.
    + destruct (Hkept n Hnext) as [Hsame|Hle]; [by apply (Hrest r)|]. left.
      assert (created_at x < lo) by (apply (Hlo s); [done|by exists (Some u)]). lia.
Qed.

(** Sessions that move on keep their key and prompts; chats have none. *)
Lemma fires_sessions w clock ss :
  fires_inv w clock →
  (∀ s x', ss !! s = Some x' → (sessions w !! s = None ∧ key x' = None ∧ prompts x' = [])
     ∨ ∃ x, sessions w !! s = Some x ∧ key x' = key x ∧ prompts x' = prompts x ∧ created_at x' = created_at x) →
  (∀ s, is_Some (sessions w !! s) → is_Some (ss !! s)) →
  fires_inv (set_sessions w ss) clock.
Proof.
  intros [Hd Hr Hjr Hj Hdue Hk Hp Hu Hm Hn] Hss Hdom. split; cbn; try done.
  - intros s x' id t Hs Hkey. destruct (Hss s x' Hs) as [(_ & ? & _)|(x & Hx & He & _ & _)]; [congruence|]. rewrite He in Hkey. by eapply Hr.
  - intros s1 s2 x1 x2 H1 H2 He Hne.
    destruct (Hss s1 x1 H1) as [(_ & ? & _)|(y1 & Hy1 & E1 & _ & _)]; [congruence|].
    destruct (Hss s2 x2 H2) as [(_ & ? & _)|(y2 & Hy2 & E2 & _ & _)]; [congruence|].
    eapply (Hk s1 s2 y1 y2); [done|done|congruence|congruence].
  - intros s x' Hs. destruct (Hss s x' Hs) as [(_ & _ & ->)|(x & Hx & _ & -> & _)]; [cbn; lia|by eapply Hp].
  - intros j job s x' Hjob Hmade Hs. destruct (Hss s x' Hs) as [(_ & -> & _)|(x & Hx & -> & _)]; [done|by eapply Hu].
  - intros j job s Hjob Hmade. destruct (Hm j job s Hjob Hmade) as (x & Hx & Hkey & Hpr).
    destruct (Hdom s) as [x' Hx']; [by eauto|]. exists x'. split; [done|].
    destruct (Hss s x' Hx') as [(? & _ & _)|(y & Hy & -> & -> & _)]; [congruence|]. by simplify_eq.
  - intros s x' id t Hs Hkey. destruct (Hss s x' Hs) as [(_ & ? & _)|(x & Hx & He & _ & ->)]; [congruence|]. rewrite He in Hkey. by eapply Hn.
Qed.

Lemma kept_trans lo r1 r2 r3 : kept_or_replanned lo r1 r2 → kept_or_replanned lo r2 r3 → kept_or_replanned lo r1 r3.
Proof. intros [_ H1] [Hd H2]. split; [done|]. intros n Hn. destruct (H2 n Hn) as [Hs|]; [by apply H1|by right]. Qed.

Lemma foldr_alter_lookup {A} (f : A → A) ids (m : gmap nat A) id :
  foldr (λ id m, alter f id m) m ids !! id = Nat.iter (length (filter (λ x, x = id) ids)) f <$> m !! id.
Proof.
  induction ids as [|i ids IH]; [by rewrite option_fmap_id|]. cbn [foldr]. rewrite filter_cons. destruct (decide (i = id)) as [->|Hne].
  - rewrite lookup_alter_eq, IH, <-option_fmap_compose. by destruct (m !! id).
  - by rewrite lookup_alter_ne.
Qed.
Lemma write_rows_dom op now ids w id : is_Some (rows w !! id) ↔ is_Some (rows (write_rows op now ids w) !! id).
Proof. cbn. by rewrite foldr_alter_lookup, fmap_is_Some. Qed.
Lemma write_rows_kept op now ids w id r' :
  (∀ id r, rows w !! id = Some r → dormant r) → rows (write_rows op now ids w) !! id = Some r' →
  ∃ r, rows w !! id = Some r ∧ (r' = r ∨ (id ∈ ids ∧ kept_or_replanned (planned_at op now) r r')).
Proof.
  intros Hd. cbn. rewrite foldr_alter_lookup. intros (r & Hrow & Hr)%fmap_Some. exists r. split; [done|].
  destruct (decide (id ∈ ids)) as [Hin|Hout].
  - right. split; [done|]. assert (Hn : ∀ n, kept_or_replanned (planned_at op now) r (Nat.iter n (apply_op op now) r)).
    { intros n. induction n as [|n IH]; [apply kept_same; by eapply Hd|]. cbn. eapply kept_trans; [exact IH|]. apply apply_op_replanned, IH. }
    rewrite Hr. apply Hn.
  - left. rewrite Hr. destruct (filter (λ x, x = id) ids) as [|y l] eqn:Hf; [done|].
    assert (y ∈ filter (λ x, x = id) ids) as [-> Hy]%list_elem_of_filter by (rewrite Hf; left). done.
Qed.

(** An operation on rows, planned after every run of theirs. *)
Lemma fires_write op now clock ids w :
  fires_inv w clock → (∀ id s x, id ∈ ids → sessions w !! s = Some x → of_schedule id x → created_at x < planned_at op now) →
  fires_inv (write_rows op now ids w) clock.
Proof.
  intros Hw Hlo. apply (fires_rows w clock); [done|by intros ?; apply write_rows_dom|].
  intros id r' Hid. right. apply write_rows_kept in Hid as (r & Hr & Hkept); [|apply (inv_dormant w clock Hw)].
  destruct Hkept as [->|[Hin Hkept]].
  - exists r, (clock + 1). split; [done|]. split; [by eapply kept_same, inv_dormant|]. intros s x Hs [t Ht].
    destruct (inv_next w clock Hw s x id t Hs Ht) as (u & _ & [_ Hc] & _). lia.
  - exists r, (planned_at op now). split; [done|]. split; [done|]. intros s x Hs Hof. by eapply Hlo.
Qed.
Lemma fires_sweep op now clock ids w : planned_at op now = now → clock < now → fires_inv w clock → fires_inv (write_rows op now ids w) clock.
Proof.
  intros Ho Hc Hw. apply fires_write; [done|]. intros id s x _ Hs [t Ht]. rewrite Ho.
  destruct (inv_next w clock Hw s x id t Hs Ht) as (u & _ & [_ ?] & _). lia.
Qed.

Lemma fires_queue w clock ids : fires_inv w clock → fires_inv (enqueue w ids) clock.
Proof. by intros []; split. Qed.
Lemma fires_overdue w clock ids : fires_inv w clock → fires_inv (set_overdue w ids) clock.
Proof. by intros []; split. Qed.

(** A job goes on: what it made stays, and it never comes to prompt again. *)
Lemma fires_stage w clock id j st :
  fires_inv w clock → jobs w !! id = Some j → made (mk_job (schedule_id j) (seen j) st) = made j →
  (∀ s, st = Prompting s → stage j = Prompting s) → fires_inv (set_stage w id j st) clock.
Proof.
  intros [Hd Hr Hjr Hj Hdue Hk Hp Hu Hm Hn] Hjob Hmade Hpr.
  assert (Hold : ∀ i job, <[id:=mk_job (schedule_id j) (seen j) st]> (jobs w) !! i = Some job →
    ∃ job', jobs w !! i = Some job' ∧ schedule_id job = schedule_id job' ∧ seen job = seen job' ∧ made job = made job'
      ∧ ∀ s, stage job = Prompting s → stage job' = Prompting s).
  { intros i job. destruct (decide (i = id)) as [->|Hne].
    - rewrite lookup_insert_eq. intros [= <-]. by exists j.
    - rewrite lookup_insert_ne by done. intros Hi. by exists job. }
  split; cbn; try done.
  - intros i job Hi. destruct (Hold i job Hi) as (job' & Hi' & -> & _). by eapply Hjr.
  - intros i1 i2 j1 j2 H1 H2. destruct (Hold i1 j1 H1) as (j1' & H1' & -> & _). destruct (Hold i2 j2 H2) as (j2' & H2' & -> & _). by eapply Hj.
  - intros i job Hi. destruct (Hold i job Hi) as (job' & Hi' & _ & -> & _). by eapply Hdue.
  - intros i job s x Hi. destruct (Hold i job Hi) as (job' & Hi' & Hsid & Hsn & -> & _). unfold fire_key. rewrite Hsid, Hsn. by eapply Hu.
  - intros i job s Hi. destruct (Hold i job Hi) as (job' & Hi' & Hsid & Hsn & -> & Hst). intros Hmd.
    destruct (Hm i job' s Hi' Hmd) as (x & Hx & Hkey & Hpx). exists x. unfold fire_key. rewrite Hsid, Hsn. split; [done|]. split; [done|].
    intros Hs. apply Hpx, Hst, Hs.
  - intros s x i t Hs Hkey. destruct (Hn s x i t Hs Hkey) as (u & -> & Hc & Hrest). exists u. split; [done|]. split; [done|].
    intros r n Hrow Hnext. destruct (Hrest r n Hrow Hnext) as [|(k & job & Hjk & Hid & Hmk)]; [by left|]. right.
    destruct (decide (k = id)) as [->|Hne].
    + exists id, (mk_job (schedule_id j) (seen j) st). rewrite lookup_insert_eq. simplify_eq. by rewrite Hmade.
    + exists k, job. by rewrite lookup_insert_ne.
Qed.

(** A job ends: what it made lies before its schedule's next run. *)
Lemma fires_end w clock id j :
  fires_inv w clock → jobs w !! id = Some j →
  (∀ s r n, made j = Some s → rows w !! schedule_id j = Some r → next_run_at r = Some n → clock < n) →
  fires_inv (end_job w id) clock.
Proof.
  intros [Hd Hr Hjr Hj Hdue Hk Hp Hu Hm Hn] Hjob Hend.
  split; cbn; try done.
  1-5: intros *; rewrite ?lookup_delete_Some; naive_solver.
  intros s x i t Hs Hkey. destruct (Hn s x i t Hs Hkey) as (u & -> & Hc & Hrest). exists u. split; [done|]. split; [done|].
  intros r n Hrow Hnext. destruct (Hrest r n Hrow Hnext) as [|(k & job & Hjk & Hid & Hmk)]; [by left|].
  destruct (decide (k = id)) as [->|Hne].
  - left. simplify_eq. assert (clock < n); [by eapply Hend|lia].
  - right. exists k, job. by rewrite lookup_delete_ne.
Qed.

Lemma pick_elem by_ wanted free limit (rs : gmap nat Row) id :
  id ∈ pick by_ wanted free limit rs → ∃ r, rs !! id = Some r ∧ wanted r = true.
Proof using .
  unfold pick. rewrite list_elem_of_fmap. intros ([i r] & -> & Hin).
  assert (Hin' : (i, r) ∈ List.filter (λ x, wanted x.2 && free x.1) (map_to_list rs)).
  { rewrite <-(merge_sort_Permutation (row_order by_)). eapply elem_of_sublist; [exact Hin|apply sublist_take]. }
  apply list_elem_of_In, filter_In in Hin' as [Hin' Hw]. apply list_elem_of_In, elem_of_map_to_list in Hin'.
  exists r. split; [done|]. by apply andb_true_iff in Hw as [? _].
Qed.
Lemma pick_NoDup by_ wanted free limit (rs : gmap nat Row) : NoDup (pick by_ wanted free limit rs).
Proof using .
  unfold pick. eapply sublist_NoDup; [|apply fmap_sublist, sublist_take].
  eapply NoDup_Permutation_proper; [apply fmap_Permutation, merge_sort_Permutation|]. apply fst_filter_NoDup, NoDup_fst_map_to_list.
Qed.

Lemma claim_next lease now r : next_run_at (apply_op (OClaim lease) now r) = next_run_at r.
Proof using . cbn. by destruct (is_due now r). Qed.
Lemma claimed_next lease now ids w id r' :
  rows (write_rows (OClaim lease) now ids w) !! id = Some r' → ∃ r, rows w !! id = Some r ∧ next_run_at r' = next_run_at r.
Proof.
  cbn. rewrite foldr_alter_lookup. intros (r & Hr & ->)%fmap_Some. exists r. split; [done|].
  induction (length _) as [|n IH]; [done|]. etransitivity; [apply claim_next|exact IH].
Qed.

(** The jobs of a claim. *)
Lemma fires_claim rs ids w clock :
  rows w = rs → NoDup ids → fires_inv w clock →
  (∀ id, id ∈ ids → ∃ r t, rs !! id = Some r ∧ next_run_at r = Some t ∧ t <= clock) →
  (∀ j job, jobs w !! j = Some job → schedule_id job ∉ ids) →
  fires_inv (set_jobs w (foldl (add_job rs) (jobs w) ids)) clock.
Proof.
  intros Hrs. revert w Hrs. induction ids as [|id ids IH]; intros w Hrs Hnd Hw Hdue Hfree; [by destruct w|].
  apply NoDup_cons in Hnd as [Hni Hnd]. cbn [foldl].
  destruct (Hdue id) as (r & t & Hr & Ht & Hle); [left|].
  unfold add_job at 2. rewrite Hr. set (j := fresh (dom (jobs w))). set (job := mk_job id r Claimed).
  set (w' := set_jobs w (<[j:=job]> (jobs w))).
  assert (Hj : jobs w !! j = None) by (apply not_elem_of_dom, is_fresh).
  assert (Hw' : fires_inv w' clock).
  { destruct Hw as [Hd Hrw Hjr Hjs Hdu Hk Hp Hu Hm Hn].
    assert (Hcase : ∀ i x, <[j:=job]> (jobs w) !! i = Some x → (i = j ∧ x = job) ∨ jobs w !! i = Some x).
    { intros i x. destruct (decide (i = j)) as [->|Hne]; [rewrite lookup_insert_eq; intros [= <-]; by left|].
      rewrite lookup_insert_ne by done. by right. }
    split; cbn; try done.
    - intros i x [[_ ->]|Hx]%Hcase; [|by eapply Hjr]. cbn. rewrite Hrs. by exists r.
    - intros i1 i2 x1 x2 [[-> ->]|H1]%Hcase [[-> ->]|H2]%Hcase He; [done| | |by eapply Hjs].
      + exfalso. apply (Hfree i2 x2 H2). rewrite <-He. left.
      + exfalso. apply (Hfree i1 x1 H1). rewrite He. left.
    - intros i x [[_ ->]|Hx]%Hcase; [by exists t|by eapply Hdu].
    - intros i x s y [[_ ->]|Hx]%Hcase; [|by eapply Hu]. intros _ Hs Hkey. unfold fire_key in Hkey. cbn in Hkey. rewrite Ht in Hkey.
      destruct (Hn s y id (Some t) Hs Hkey) as (u & [= <-] & _ & Hrest). rewrite <-Hrs in Hr.
      destruct (Hrest r t Hr Ht) as [?|(k & z & Hz & Hid & _)]; [lia|]. apply (Hfree k z Hz). rewrite Hid. left.
    - intros i x s [[_ ->]|Hx]%Hcase; [done|by eapply Hm].
    - intros s y i u Hs Hkey. destruct (Hn s y i u Hs Hkey) as (v & -> & Hc & Hrest). exists v. split; [done|]. split; [done|].
      intros r' n Hr' Hn'. destruct (Hrest r' n Hr' Hn') as [|(k & z & Hz & Hid & Hmk)]; [by left|]. right. exists k, z.
      split; [|done]. rewrite lookup_insert_ne; [done|]. intros <-. congruence. }
  apply (IH w'); [done|done|done| |].
  - intros i Hi. apply Hdue. by right.
  - intros i x Hx. destruct (decide (i = j)) as [->|Hne].
    + cbn in Hx. rewrite lookup_insert_eq in Hx. by injection Hx as <-.
    + cbn in Hx. rewrite lookup_insert_ne in Hx by done. intros Hin. apply (Hfree i x Hx). by right.
Qed.

Lemma by_key_None k ss s x : by_key k ss = None → ss !! s = Some x → key x ≠ Some k.
Proof using .
  unfold by_key. destruct (List.find _ _) eqn:Hf; [done|]. intros _ Hs Hk. eapply List.find_none in Hf;
    [|by apply list_elem_of_In, elem_of_map_to_list]. csimpl in Hf. by rewrite bool_decide_true in Hf.
Qed.
Lemma by_key_Some k ss s : by_key k ss = Some s → ∃ x, ss !! s = Some x ∧ key x = Some k.
Proof using .
  unfold by_key. destruct (List.find _ _) as [[i x]|] eqn:Hf; [|done]. intros [= <-]. apply List.find_some in Hf as [Hin Hk].
  apply list_elem_of_In, elem_of_map_to_list in Hin. apply bool_decide_eq_true in Hk. by exists x.
Qed.

(** A job makes the one session of its key. *)
Lemma fires_make w clock now id j :
  fires_inv w clock → clock < now → jobs w !! id = Some j → stage j = Making → fires_inv (make_session w id j now) now.
Proof.
  intros Hw Hc Hjob Hst. assert (Hmade : made j = None) by (unfold made; by rewrite Hst). unfold make_session.
  destruct (by_key _ _) as [s|] eqn:Hby.
  { apply by_key_Some in Hby as (x & Hx & Hk). by destruct (inv_unmade w clock Hw id j s x Hjob Hmade Hx). }
  set (s := fresh (dom (sessions w))). assert (Hs : sessions w !! s = None) by (apply not_elem_of_dom, is_fresh).
  set (x := mk_session _ _ _ _ _ _ _). destruct Hw as [Hd Hr Hjr Hj Hdue Hk Hp Hu Hm Hn].
  set (job := mk_job (schedule_id j) (seen j) (Prompting s)).
  assert (Hcs : ∀ i y, <[s:=x]> (sessions w) !! i = Some y → (i = s ∧ y = x) ∨ (i ≠ s ∧ sessions w !! i = Some y)).
  { intros i y. destruct (decide (i = s)) as [->|Hne]; [rewrite lookup_insert_eq; intros [= <-]; by left|]. rewrite lookup_insert_ne by done. by right. }
  assert (Hcj : ∀ i y, <[id:=job]> (jobs w) !! i = Some y → (i = id ∧ y = job) ∨ (i ≠ id ∧ jobs w !! i = Some y)).
  { intros i y. destruct (decide (i = id)) as [->|Hne]; [rewrite lookup_insert_eq; intros [= <-]; by left|]. rewrite lookup_insert_ne by done. by right. }
  destruct (Hdue id j Hjob) as (t & Ht & Htc).
  split; cbn; try done.
  - intros i y k u [[-> ->]|[_ Hy]]%Hcs; [|by eapply Hr]. intros [= <- _]. by eapply Hjr.
  - intros i y [[-> ->]|[_ Hy]]%Hcj; [exact (Hjr id j Hjob)|by eapply Hjr].
  - intros i1 i2 y1 y2 [[-> ->]|[_ H1]]%Hcj [[-> ->]|[_ H2]]%Hcj He; [done|exact (Hj _ _ _ _ Hjob H2 He)|exact (Hj _ _ _ _ H1 Hjob He)|by eapply Hj].
  - intros i y [[-> ->]|[_ Hy]]%Hcj; [exists t; cbn; split; [done|lia]|]. destruct (Hdue i y Hy) as (u & ? & ?). exists u. split; [done|lia].
  - intros i1 i2 y1 y2 [[-> ->]|[_ H1]]%Hcs [[-> ->]|[_ H2]]%Hcs He Hne; [done| | |by eapply (Hk i1 i2)].
    + exfalso. by apply (by_key_None _ _ _ _ Hby H2).
    + exfalso. by apply (by_key_None _ _ _ _ Hby H1).
  - intros i y [[-> ->]|[_ Hy]]%Hcs; [cbn; lia|by eapply Hp].
  - intros i y k z [[-> ->]|[Hni Hy]]%Hcj Hmd [[-> ->]|[_ Hz]]%Hcs; [done|done| |by eapply Hu].
    intros [= He _]. apply Hni. by eapply (Hj i id y j).
  - intros i y k [[-> ->]|[Hni Hy]]%Hcj Hmd.
    + injection Hmd as <-. exists x. rewrite lookup_insert_eq. done.
    + destruct (Hm i y k Hy Hmd) as (z & Hz & Hkz & Hpz). exists z. rewrite lookup_insert_ne; [done|]. intros <-. congruence.
  - intros i y k u [[-> ->]|[_ Hy]]%Hcs.
    + intros [= <- <-]. exists t. split; [done|]. split; [cbn; lia|]. intros r n _ _. right. exists id, job. by rewrite lookup_insert_eq.
    + intros Hkey. destruct (Hn i y k u Hy Hkey) as (v & -> & Hcv & Hrest). exists v. split; [done|]. split; [lia|].
      intros r n Hrow Hnext. destruct (Hrest r n Hrow Hnext) as [|(m & z & Hz & Hid & Hmk)]; [by left|]. right. exists m, z.
      split; [|done]. rewrite lookup_insert_ne; [done|]. intros <-. congruence.
Qed.

(** A job prompts the session it made. *)
Lemma fires_prompt w clock id j s :
  fires_inv w clock → jobs w !! id = Some j → stage j = Prompting s →
  fires_inv (set_stage (set_sessions w (alter (λ x, with_prompt x (prompt (seen j))) s (sessions w))) id j (Queueing s)) clock.
Proof.
  intros Hw Hjob Hst. assert (Hmade : made j = Some s) by (unfold made; by rewrite Hst).
  destruct (inv_made w clock Hw id j s Hjob Hmade) as (x & Hx & Hkx & Hpx). specialize (Hpx Hst).
  pose proof (fires_stage w clock id j (Queueing s) Hw Hjob (eq_sym Hmade)) as Hw'. specialize (Hw' ltac:(done)).
  assert (Hss : ∀ k y', alter (λ x, with_prompt x (prompt (seen j))) s (sessions w) !! k = Some y' →
    ∃ y, sessions w !! k = Some y ∧ key y' = key y ∧ created_at y' = created_at y ∧ (k = s ∧ prompts y' = [prompt (seen j)] ∨ k ≠ s ∧ y' = y)).
  { intros k y'. destruct (decide (k = s)) as [->|Hne].
    - rewrite lookup_alter_eq, Hx. intros [= <-]. exists x. cbn. rewrite Hpx. naive_solver.
    - rewrite lookup_alter_ne by done. intros Hy. exists y'. naive_solver. }
  destruct Hw' as [Hd Hr Hjr Hj Hdue Hk Hp Hu Hm Hn]. split; cbn; try done; cbn in *.
  - intros k y' i t (y & Hy & -> & _)%Hss. by eapply Hr.
  - intros k1 k2 y1' y2' (y1 & Hy1 & -> & _)%Hss (y2 & Hy2 & -> & _)%Hss. by eapply Hk.
  - intros k y' (y & Hy & _ & _ & [[-> ->]|[_ ->]])%Hss; [cbn; lia|by eapply Hp].
  - intros i job k y' Hi Hmd (y & Hy & -> & _)%Hss. by eapply Hu.
  - intros i job k Hi Hmd. destruct (Hm i job k Hi Hmd) as (y & Hy & Hky & Hpy). destruct (decide (k = s)) as [->|Hne].
    + exists (with_prompt x (prompt (seen j))). rewrite lookup_alter_eq, Hx. assert (y = x) as -> by congruence. split; [done|]. split; [done|].
      intros Hs. destruct (decide (i = id)) as [->|Hi']; [rewrite lookup_insert_eq in Hi; by simplify_eq|].
      exfalso. apply Hi'. rewrite lookup_insert_ne in Hi by done. eapply (inv_jobs w clock Hw i id job j); [done|done|].
      unfold fire_key in *. congruence.
    + exists y. by rewrite lookup_alter_ne.
  - intros k y' i t (y & Hy & -> & -> & _)%Hss. by eapply Hn.
Qed.

(** A job ends with its row planned anew. *)
Lemma fires_end_row w clock now id j r r' :
  fires_inv w clock → clock < now → jobs w !! id = Some j → rows w !! schedule_id j = Some r →
  kept_or_replanned now r r' → (made j = None ∨ replanned now r') →
  fires_inv (end_job (set_rows w (<[schedule_id j := r']> (rows w))) id) clock.
Proof.
  intros Hw Hc Hjob Hr Hkept Hend. apply (fires_end _ clock id j); [|done|].
  - apply (fires_rows w clock); [done| |].
    + intros i Hi. destruct (decide (i = schedule_id j)) as [->|Hne]; [by rewrite lookup_insert_eq|by rewrite lookup_insert_ne].
    + intros i r1. destruct (decide (i = schedule_id j)) as [->|Hne].
      * rewrite lookup_insert_eq. intros [= <-]. right. exists r, now. split; [done|]. split; [done|]. intros s x Hs [t Ht].
        destruct (inv_next w clock Hw s x _ t Hs Ht) as (u & _ & [_ ?] & _). lia.
      * rewrite lookup_insert_ne by done. intros Hi. right. exists r1, (clock + 1). split; [done|].
        split; [by eapply kept_same, inv_dormant|]. intros s x Hs [t Ht].
        destruct (inv_next w clock Hw s x _ t Hs Ht) as (u & _ & [_ ?] & _). lia.
  - cbn. intros s r1 n Hm. rewrite lookup_insert_eq. intros [= <-] Hn. destruct Hend as [Hnone|[_ Hlo]]; [congruence|].
    pose proof (Hlo n Hn). lia.
Qed.

Lemma fires_mark w clock now id j f failing :
  fires_inv w clock → clock < now → jobs w !! id = Some j →
  (∀ r r', dormant r → f r = Ok r' → replanned now r') →
  made (mk_job (schedule_id j) (seen j) failing) = made j → (∀ s, failing ≠ Prompting s) →
  fires_inv (mark w id j f failing) clock.
Proof.
  intros Hw Hc Hjob Hf Hmade Hnp. unfold mark. destruct (inv_job_rows w clock Hw id j Hjob) as [r Hr]. rewrite Hr.
  destruct (f r) as [r'|] eqn:Hfr.
  - assert (Hre : replanned now r') by (eapply Hf; [by eapply inv_dormant|done]).
    apply (fires_end_row w clock now id j r r'); try done; [by apply kept_replanned|by right].
  - apply fires_stage; [done..|]. intros s Hs. by destruct (Hnp s).
Qed.

Lemma fires_job w clock now id ok :
  fires_inv w clock → clock < now → timely (AJob id ok) now w → fires_inv (job_step id ok now w) now.
Proof.
  intros Hw Hc Ht. unfold job_step. destruct (jobs w !! id) as [j|] eqn:Hjob; [|apply (fires_later w clock); [lia|done]].
  destruct (inv_job_rows w clock Hw id j Hjob) as [r Hr].
  assert (Hmade : ∀ st, stage j = st → made j = made (mk_job 0 (seen j) st)) by (intros st <-; done).
  destruct ok; cbn [negb].
  - destruct (stage j) as [| | |s|s|s|ms] eqn:Hst; specialize (Hmade _ eq_refl); cbn in Hmade.
    3: by apply (fires_make w clock).
    all: apply (fires_later _ clock); [lia|].
    + apply fires_stage; [done..| |]; [rewrite Hmade|]; by destruct (match _ with Some _ => _ | None => _ end).
    + apply (fires_mark w clock now); [done..| |by rewrite Hmade|done]. apply (mark_run_skipped_replanned _ _ _ accounts).
    + by apply fires_prompt.
    + apply (fires_stage (enqueue w [s])); [by apply fires_queue|done|by rewrite Hmade|done].
    + apply (fires_mark w clock now); [done..| |by rewrite Hmade|done]. intros r1 r'. apply (mark_run_created_replanned _ _ _ accounts).
    + rewrite Hr. pose proof (apply_op_replanned wall_of instant_of cron_walls accounts OFailed now r (inv_dormant w clock Hw _ r Hr)) as Hk.
      apply (fires_end_row w clock now id j r); [done..|]. destruct ms as [s|]; [right|by left].
      destruct (Ht j s r Hjob Hst Hr) as [_ Hok]. unfold if_ok. destruct (mark_run_failed now r) as [r'|] eqn:Hf; [|done].
      eapply (mark_run_failed_replanned _ _ _ accounts), Hf. by eapply inv_dormant.
  - apply (fires_later _ clock); [lia|]. destruct (stage j) as [| | |s|s|s|ms] eqn:Hst.
    1-6: by apply fires_stage.
    apply (fires_end w clock id j); [done..|]. intros s r' n Hm. unfold made in Hm. rewrite Hst in Hm. subst ms.
    by destruct (Ht j s r Hjob Hst Hr) as [? _].
Qed.

(** What changes sessions and not what schedules made of them. *)
Lemma fires_alter w clock (f : Session → Session) ids :
  (∀ x, key (f x) = key x ∧ prompts (f x) = prompts x ∧ created_at (f x) = created_at x) →
  fires_inv w clock → fires_inv (set_sessions w (foldr (λ id ss, alter f id ss) (sessions w) ids)) clock.
Proof.
  intros Hf Hw. apply fires_sessions; [done| |intros s Hs; by rewrite foldr_alter_lookup, fmap_is_Some].
  intros s x'. rewrite foldr_alter_lookup. intros (x & Hx & ->)%fmap_Some. right. exists x. split; [done|].
  induction (length _) as [|n IH]; [done|]. change (Nat.iter (S n) f x) with (f (Nat.iter n f x)).
  destruct (Hf (Nat.iter n f x)) as (-> & -> & ->). done.
Qed.

Lemma fires_claim_due free limit lease w clock now :
  fires_inv w clock → clock < now → timely (AClaim free limit lease) now w → fires_inv (claim_due free limit lease now w) now.
Proof.
  intros Hw Hc Ht. apply fires_claim; [done|apply pick_NoDup| | |exact Ht].
  - apply (fires_later _ clock); [lia|]. by apply fires_sweep.
  - intros id (r & Hr & Hdue)%pick_elem. unfold is_due in Hdue. bool_to_prop.
    destruct (proj1 (write_rows_dom (OClaim lease) now (due free limit now (rows w)) w id)) as [r' Hr']; [by exists r|].
    destruct (claimed_next _ _ _ _ _ _ Hr') as (r1 & Hr1 & Hn). simplify_eq.
    destruct (next_run_at r) as [t|]; [|done]. exists r', t. split; [done|]. split; [done|]. by apply Z.leb_le.
Qed.

Lemma fires_step a w clock now :
  fires_inv w clock → clock < now → timely a now w → fires_inv (step a now w) now.
Proof.
  intros Hw Hc Ht. destruct a as [id c from text s limit next expires max_run|id op|free limit|limit|limit| |free limit|free limit|limit stale|free limit|free limit lease|j ok|j|id|id st l];
    cbn [step]; [..|by apply (fires_claim_due free limit lease w clock)|by apply (fires_job w clock)| | | ];
    apply (fires_later _ clock); try lia.
  - destruct (rows w !! id) as [r0|] eqn:Hid; [done|].
    destruct (Schedules.create _ _ _ _ _ _ _ _ _ _ _ _) as [r|] eqn:Hcr; [|done].
    assert (Hact : status r = SActive).
    { unfold create in Hcr. apply pybind_ok in Hcr as (? & _ & Hcr). apply pybind_ok in Hcr as ([t|] & _ & Hcr); [|done]. by injection Hcr as <-. }
    apply (fires_rows w clock); [done| |].
    + intros i [r1 Hi]. destruct (decide (i = id)) as [->|]; [by rewrite lookup_insert_eq|by rewrite lookup_insert_ne].
    + intros i r1. destruct (decide (i = id)) as [->|Hne]; [rewrite lookup_insert_eq; intros [= <-]; left; split; [done|by intros []]|].
      rewrite lookup_insert_ne by done. intros Hi. right. exists r1, (clock + 1). split; [done|].
      split; [by eapply kept_same, inv_dormant|]. intros k x Hs [t Hk]. destruct (inv_next w clock Hw k x _ t Hs Hk) as (u & _ & [_ ?] & _). lia.
  - destruct (asked op); [|done]. apply fires_write; [done|]. intros i k x ->%list_elem_of_singleton. by apply Ht.
  - by apply fires_sweep.
  - by apply fires_alter.
  - apply fires_overdue. by apply fires_alter.
  - unfold count_overdue. destruct (overdue w) as [|k rest]; [done|]. pose proof (fires_overdue w clock rest Hw).
    destruct (List.filter _ _) as [|[i ?] [|]]; [done| |done]. by apply fires_sweep.
  - by apply fires_sweep.
  - by apply fires_sweep.
  - by apply fires_queue.
  - by apply fires_sweep.
  - unfold end_job. destruct (jobs w !! j) as [job|] eqn:Hjob; [|rewrite delete_id by done; by destruct w].
    apply (fires_end w clock j job); [done..|]. intros k r n Hm. by rewrite (Ht job Hjob) in Hm.
  - unfold new_chat. destruct (sessions w !! id) eqn:Hid; [done|]. apply fires_sessions; [done| |].
    + intros k x. destruct (decide (k = id)) as [->|Hne]; [rewrite lookup_insert_eq; intros [= <-]; by left|].
      rewrite lookup_insert_ne by done. intros Hx. right. by exists x.
    + intros k Hk. destruct (decide (k = id)) as [->|Hne]; [by rewrite lookup_insert_eq|by rewrite lookup_insert_ne].
  - by apply (fires_alter w clock (session_moves st l now) [id]).
Qed.

Lemma fires_run acts w clock : fires_inv w clock → timely_run acts clock w → ∃ clock', fires_inv (run acts w) clock'.
Proof.
  revert w clock. induction acts as [|[a now] acts IH]; intros w clock Hw; [by exists clock|].
  intros (Hc & Ht & Hrest). eapply IH; [|exact Hrest]. by apply (fires_step a w clock).
Qed.

(** C27. Over any interleaving of people, runs, sweeps, claims and the calls of
    the jobs, each at an instant of its own, in which: a claim finds no job of a
    schedule it claims still going; a job that made its run's session is not
    lost after that (one lost between the prompt and [mark_run_created] is
    prompted again); the [mark_run_failed] of a failed one is taken; and no run
    is made while a person's change is between its read and its write. Each
    instant of a schedule has at most one run, a run is prompted at most once,
    and none is made before its instant. *)
Theorem fires_once acts clock :
  timely_run acts clock empty_world →
  let w := run acts empty_world in
  (∀ s1 s2 x1 x2, sessions w !! s1 = Some x1 → sessions w !! s2 = Some x2 → key x1 = key x2 → key x1 ≠ None → s1 = s2)
  ∧ (∀ s x, sessions w !! s = Some x → (length (prompts x) <= 1)%nat)
  ∧ (∀ s x id t, sessions w !! s = Some x → key x = Some (id, t) → ∃ u, t = Some u ∧ u <= created_at x).
Proof.
  intros Ht w. destruct (fires_run acts empty_world clock (fires_empty clock) Ht) as [clock' Hw].
  split; [exact (inv_keys w clock' Hw)|]. split; [exact (inv_prompts w clock' Hw)|].
  intros s x id t Hs Hk. destruct (inv_next w clock' Hw s x id t Hs Hk) as (u & ? & [? _] & _). by exists u.
Qed.
End runs.

(** The clock of a schedule every hour, claimed at its instant. *)
Definition hourly : ParsedSchedule := Interval 3600 (Some HOUR) "UTC".
Notation utc_run := (run utc utc (λ _ _ _, 0) []).
Definition started : list (Action * Z) :=
  [(ACreate 0 owner None "Sum up" hourly None None None None, 0); (AClaim (λ _, true) 10 CLAIM_LEASE_SECONDS, HOUR);
   (AJob 0 true, HOUR + 1); (AJob 0 true, HOUR + 2); (AJob 0 true, HOUR + 3); (AJob 0 true, HOUR + 4)].
Definition run_view (w : World) : option (Session * Z * option Z) :=
  s ← sessions w !! 0%nat; r ← rows w !! 0%nat; Some (s, run_count r, next_run_at r).

(** A job that outlives its claim is claimed again: the second finds the run of
    the first, prompts it a second time, queues it a second time and counts it
    a second time. *)
Lemma lease_outlived :
  run_view (utc_run (started ++ [(AClaim (λ _, true) 10 CLAIM_LEASE_SECONDS, HOUR + 31 * SECOND);
      (AJob 1 true, HOUR + 32 * SECOND); (AJob 1 true, HOUR + 33 * SECOND); (AJob 1 true, HOUR + 34 * SECOND); (AJob 1 true, HOUR + 35 * SECOND);
      (AJob 0 true, HOUR + 36 * SECOND); (AJob 1 true, HOUR + 37 * SECOND)]) empty_world)
  = Some (mk_session (Some (0%nat, Some HOUR)) None Active (HOUR + 2) (HOUR + 2) false ["Sum up"; "Sum up"], 2, Some (2 * HOUR)).
Proof. by vm_compute. Qed.

Definition told : list (Action * Z) := started ++ [(AJob 0 true, HOUR + 5)].
Ltac job_goes_on := intros job s r Hj Hst _; vm_compute in Hj; injection Hj as <-; discriminate Hst.
Lemma fires_once_witness :
  timely_run utc utc (λ _ _ _, 0) [] told (-1) empty_world
  ∧ run_view (utc_run told empty_world) = Some (mk_session (Some (0%nat, Some HOUR)) None Active (HOUR + 2) (HOUR + 2) false ["Sum up"], 1, Some (2 * HOUR))
  ∧ ∀ s x, sessions (utc_run told empty_world) !! s = Some x → (length (prompts x) <= 1)%nat.
Proof.
  assert (Ht : timely_run utc utc (λ _ _ _, 0) [] told (-1) empty_world).
  { split; [done|]. split; [done|]. split; [done|]. split; [intros j job Hj; by vm_compute in Hj|].
    do 5 (split; [done|]; split; [job_goes_on|]). done. }
  split; [exact Ht|]. split; [by vm_compute|].
  destruct (fires_once utc utc (λ _ _ _, 0) [] told (-1) Ht) as (_ & Hp & _). exact Hp.
Defined.
