(* ===== verification/Invitations.v ===== *)
(** * A step's invitation (programs/)

    A Program asks each person on its roster a question at its times.  The question
    to one person is a row, whose delivery, answer and escalation are three facts
    that move apart: the send pass claims the row and hands it to the outbox, the
    dispatcher and the provider report on it, the person answers, the agent closes
    it, the ticker sweeps what is past its deadline.

    The row and the updates of it come first, each [UPDATE ... WHERE] a function
    that leaves a row alone where its condition does not hold; then one row in the
    hands of any number of processes ([World], [act]).  A transaction is a step;
    times are in seconds.  The reports (record_outbox_result,
    apply_status_callback, advance_fallbacks) read the row with no lock and write
    the columns they changed when they commit; that nothing comes between is
    assumed of them, and [overlapping_reports_repeat] shows what does. *)

From S2P Require Import Prelude.
From stdpp Require Import options.
Local Open Scope Z_scope.

(** ** The row (db/models.py) *)

Inductive DeliveryState := queued | accepted | delivered | failed | undelivered | skipped | canceled.
#[global] Instance DeliveryState_eq_dec : EqDecision DeliveryState.
Proof. solve_decision. Defined.
Inductive ResponseState :=
  | not_started | awaiting_reply | replied | in_progress | completed | declined | skipped_by_agent | no_reply_by_deadline | incomplete | answered_by_other.
#[global] Instance ResponseState_eq_dec : EqDecision ResponseState.
Proof. solve_decision. Defined.
Inductive EscalationState := no_escalation | handled_by_agent | raised | escalation_failed.
#[global] Instance EscalationState_eq_dec : EqDecision EscalationState.
Proof. solve_decision. Defined.
(** A channel tried before. *)
Record Try := mk_try { try_platform : string; try_state : DeliveryState; try_error : option string; try_at : Z }.
(** How far the message got. *)
Record Sending := mk_sending {
  delivery_state : DeliveryState; platform : string; platform_user_id : string; channel_identifier : option string;
  fallback_platforms : list string;      (* none is NULL *)
  attempts : list Try; outbox_id : option Z; provider_message_id : option string; delivery_error : option string; read_at : option Z }.
(** What came back. *)
Record Answering := mk_answering { response_state : ResponseState; opened_at : option Z; deadline_at : option Z; outcome : option string }.
Record Invitation := mk_invitation {
  sending : Sending; answering : Answering; escalation_state : EscalationState;
  session_id : option Z; woken_at : option Z; deadline_woken_at : option Z; reason : option string }.

Definition with_sending (s : Sending) (r : Invitation) : Invitation :=
  mk_invitation s (answering r) (escalation_state r) (session_id r) (woken_at r) (deadline_woken_at r) (reason r).
Definition with_answering (a : Answering) (r : Invitation) : Invitation :=
  mk_invitation (sending r) a (escalation_state r) (session_id r) (woken_at r) (deadline_woken_at r) (reason r).
Definition with_delivery (d : DeliveryState) (r : Invitation) : Invitation :=
  let s := sending r in
  with_sending (mk_sending d (platform s) (platform_user_id s) (channel_identifier s) (fallback_platforms s) (attempts s) (outbox_id s) (provider_message_id s) (delivery_error s) (read_at s)) r.
Definition with_error (e : option string) (r : Invitation) : Invitation :=
  let s := sending r in
  with_sending (mk_sending (delivery_state s) (platform s) (platform_user_id s) (channel_identifier s) (fallback_platforms s) (attempts s) (outbox_id s) (provider_message_id s) e (read_at s)) r.
Definition with_outbox (o : option Z) (r : Invitation) : Invitation :=
  let s := sending r in
  with_sending (mk_sending (delivery_state s) (platform s) (platform_user_id s) (channel_identifier s) (fallback_platforms s) (attempts s) o (provider_message_id s) (delivery_error s) (read_at s)) r.
Definition with_provider (p : option string) (r : Invitation) : Invitation :=
  let s := sending r in
  with_sending (mk_sending (delivery_state s) (platform s) (platform_user_id s) (channel_identifier s) (fallback_platforms s) (attempts s) (outbox_id s) p (delivery_error s) (read_at s)) r.
Definition with_read (t : option Z) (r : Invitation) : Invitation :=
  let s := sending r in
  with_sending (mk_sending (delivery_state s) (platform s) (platform_user_id s) (channel_identifier s) (fallback_platforms s) (attempts s) (outbox_id s) (provider_message_id s) (delivery_error s) t) r.
Definition with_response (a : ResponseState) (r : Invitation) : Invitation :=
  with_answering (mk_answering a (opened_at (answering r)) (deadline_at (answering r)) (outcome (answering r))) r.
Definition with_deadline (d : option Z) (r : Invitation) : Invitation :=
  with_answering (mk_answering (response_state (answering r)) (opened_at (answering r)) d (outcome (answering r))) r.
Definition with_opened (o : option Z) (r : Invitation) : Invitation :=
  with_answering (mk_answering (response_state (answering r)) o (deadline_at (answering r)) (outcome (answering r))) r.
Definition with_outcome (o : option string) (r : Invitation) : Invitation :=
  with_answering (mk_answering (response_state (answering r)) (opened_at (answering r)) (deadline_at (answering r)) o) r.
Definition with_escalation (e : EscalationState) (r : Invitation) : Invitation :=
  mk_invitation (sending r) (answering r) e (session_id r) (woken_at r) (deadline_woken_at r) (reason r).
Definition with_session (s : option Z) (r : Invitation) : Invitation :=
  mk_invitation (sending r) (answering r) (escalation_state r) s (woken_at r) (deadline_woken_at r) (reason r).
Definition with_woken (t : option Z) (r : Invitation) : Invitation :=
  mk_invitation (sending r) (answering r) (escalation_state r) (session_id r) t (deadline_woken_at r) (reason r).
Definition with_deadline_woken (t : option Z) (r : Invitation) : Invitation :=
  mk_invitation (sending r) (answering r) (escalation_state r) (session_id r) (woken_at r) t (reason r).
Definition with_reason (x : option string) (r : Invitation) : Invitation :=
  mk_invitation (sending r) (answering r) (escalation_state r) (session_id r) (woken_at r) (deadline_woken_at r) x.
Notation delivery r := (delivery_state (sending r)).
Notation response r := (response_state (answering r)).
Notation deadline r := (deadline_at (answering r)).
Notation outbox r := (outbox_id (sending r)).
Notation fallbacks r := (fallback_platforms (sending r)).

Definition OPEN_RESPONSE_STATES : list ResponseState := [awaiting_reply; replied; in_progress].
Definition REACHED_STATES : list DeliveryState := [accepted; delivered].
Definition STARTED_STATES : list ResponseState := [replied; in_progress].
Definition is_open (r : Invitation) : bool := bool_decide (response r ∈ OPEN_RESPONSE_STATES).
Definition reached (r : Invitation) : bool := bool_decide (delivery r ∈ REACHED_STATES).
Definition past (t : option Z) (now : Z) : bool := match t with Some d => d <=? now | None => false end.

(** ** The updates of the send pass (materialize.py) *)

(** [_unsent]: nobody touched the row. *)
Definition unsent (r : Invitation) : bool :=
  bool_decide (delivery r = queued) && bool_decide (outbox r = None) && bool_decide (response r = not_started).
Definition claim (now window : Z) (r : Invitation) : Invitation :=
  with_opened (Some now) (with_deadline (Some (now + window)) (with_response awaiting_reply r)).
Definition skip_late (r : Invitation) : Invitation :=
  if unsent r then with_reason (Some "Opener not sent within the response window") (with_delivery skipped r) else r.
Definition cancel_withdrawn (r : Invitation) : Invitation :=
  if unsent r then with_reason (Some "Permission withdrawn before the opener was sent") (with_delivery canceled r) else r.
Definition fail (why : string) (r : Invitation) : Invitation :=
  if bool_decide (outbox r = None) then
    with_deadline None (with_response not_started (with_error (Some (String.substring 0 500 why)) (with_delivery failed r)))
  else r.
Definition release (r : Invitation) : Invitation :=
  if bool_decide (outbox r = None) then with_opened None (with_deadline None (with_response not_started r)) else r.
(** The waker's note, before the session is queued (opener.py). *)
Definition note_wake (session now : Z) (r : Invitation) : Invitation :=
  if bool_decide (outbox r = None) then with_woken (Some now) (with_session (Some session) r) else r.
(** [_cancel_unsent], of a Program that is stopped (store.py) *)
Definition cancel_unsent (r : Invitation) : Invitation :=
  if bool_decide (delivery r = queued) && bool_decide (outbox r = None) then
    with_reason (Some "Program stopped before the opener was sent") (with_response not_started (with_delivery canceled r))
  else r.
(** The claim of [wake_at_deadlines] *)
Definition claim_deadline (now : Z) (r : Invitation) : Invitation :=
  if bool_decide (deadline_woken_at r = None) && bool_decide (response r = no_reply_by_deadline) then with_deadline_woken (Some now) r else r.

(** ** The sweep (ticker.py) *)

Definition sweep_unanswered (now : Z) (r : Invitation) : Invitation :=
  if bool_decide (response r = awaiting_reply) && reached r && past (deadline r) now then with_response no_reply_by_deadline r else r.
Definition sweep_unfinished (now : Z) (r : Invitation) : Invitation :=
  if bool_decide (response r ∈ STARTED_STATES) && past (deadline r) now then with_response incomplete r else r.
Definition sweep_unreported (woken : bool) (error : string) (now : Z) (r : Invitation) : Invitation :=
  if bool_decide (response r = awaiting_reply) && bool_decide (delivery r = queued) && past (deadline r) now && Bool.eqb (bool_decide (woken_at r ≠ None)) woken
  then with_error (Some error) (with_delivery failed r) else r.
Definition sweep_never_asked (now : Z) (r : Invitation) : Invitation :=
  if bool_decide (response r = awaiting_reply) && negb (reached r) && past (deadline r) now then with_response not_started r else r.
Definition sweep_deadlines (now : Z) (r : Invitation) : Invitation :=
  sweep_never_asked now (sweep_unreported false "No delivery report by the deadline" now
    (sweep_unreported true "The agent wrote no message for this step" now (sweep_unfinished now (sweep_unanswered now r)))).

(** ** Another channel (journey.py) *)

(** Where a person can be written to first on a channel: the identity and the sender. *)
Definition Reach : Type := string → option (string * string).
Fixpoint next_channel (reach : Reach) (now : Z) (remaining : list string) (tries : list Try) : option (string * string * string * list string) * list Try :=
  match remaining with
  | [] => (None, tries)
  | p :: rest =>
    match reach p with
    | Some (user, sender) => (Some (p, user, sender, rest), tries)
    | None => next_channel reach now rest (tries ++ [mk_try p skipped (Some "No reachable identity or sender") now])
    end
  end.
Definition fall_back (reach : Reach) (now : Z) (r : Invitation) : bool * Invitation :=
  let s := sending r in
  match fallbacks r with
  | [] => (false, r)
  | remaining =>
    match next_channel reach now remaining (attempts s ++ [mk_try (platform s) (delivery_state s) (delivery_error s) now]) with
    | (Some (p, user, sender, rest), tries) =>
      (true, with_deadline None (with_response not_started
               (with_sending (mk_sending queued p user (Some sender) rest tries None None None None) r)))
    | (None, tries) =>
      (false, with_sending (mk_sending (delivery_state s) (platform s) (platform_user_id s) (channel_identifier s) [] tries (outbox_id s) (provider_message_id s)
                (delivery_error s) (read_at s)) r)
    end
  end.
Definition advance_fallbacks (reach : Reach) (now : Z) (r : Invitation) : bool * Invitation :=
  if negb (bool_decide (fallbacks r = [])) && bool_decide (delivery r ∈ [failed; undelivered]) && bool_decide (response r ∈ [not_started; awaiting_reply])
  then fall_back reach now r else (false, r).

(** ** Reports (delivery.py) *)

Definition order (d : DeliveryState) : Z :=
  match d with queued => 0 | accepted => 1 | delivered => 2 | failed | undelivered => 3 | skipped | canceled => -1 end.
(** [_advance]: forward only. *)
Definition advance (d : DeliveryState) (r : Invitation) : bool * Invitation :=
  if order d <? order (delivery r) then (false, r) else (true, with_delivery d r).
Definition not_awaited (r : Invitation) : Invitation := if bool_decide (response r = awaiting_reply) then with_response not_started r else r.
(** What the dispatcher reports, and whether the row moved to its next channel. *)
Definition record_outbox_result (reach : Reach) (receipts : list string) (provider_id error : option string) (now : Z) (r : Invitation) : bool * Invitation :=
  if match error with Some e => str_truthy e | None => false end then
    fall_back reach now (not_awaited (with_error (String.substring 0 500 <$> error) (snd (advance failed r))))
  else
    let r := match provider_id with Some p => with_provider (Some p) r | None => r end in
    (false, snd (advance (if bool_decide ("delivered" ∈ receipts) then accepted else delivered) r)).
(** A provider's word on a message: of the states, or that it was read. *)
Inductive Status := StatusDelivered | StatusFailed | StatusUndelivered | StatusRead.
Definition apply_status_callback (reach : Reach) (s : Status) (why : option string) (now : Z) (r : Invitation) : bool * Invitation :=
  match s with
  | StatusRead => let r := snd (advance delivered r) in (false, with_read (match read_at (sending r) with Some t => Some t | None => Some now end) r)
  | StatusDelivered => (false, snd (advance delivered r))
  | StatusFailed | StatusUndelivered =>
    let '(moved, r) := advance (match s with StatusFailed => failed | _ => undelivered end) r in
    if moved then
      let r := match why with Some w => if str_truthy w then with_error (Some (String.substring 0 500 w)) r else r | None => r end in
      fall_back reach now (not_awaited r)
    else (false, r)
  end.
(** Whether the message of event [said] is the turn's that took the step's context:
    the events up to it, the newest first. *)
Inductive LogEvent := Wake | StepContext (invitation : Z) | Written (synthetic : bool).
Fixpoint answers_the_wake (invitation : Z) (wakes : nat) (person_first : bool) (events : list LogEvent) : bool :=
  match events with
  | [] => false
  | Wake :: es => answers_the_wake invitation (S wakes) person_first es
  | StepContext i :: es => if i =? invitation then (wakes =? 1)%nat && negb person_first else answers_the_wake invitation wakes person_first es
  | Written synthetic :: es => answers_the_wake invitation wakes (person_first || negb synthetic && (0 <? wakes)%nat) es
  end.

(** ** The answer (inbound.py, tools/builtin/checkin.py) *)

Definition attach_reply (session : Z) (r : Invitation) : Invitation := with_session (Some session) (with_response replied r).
(** [_answered_for_all], of another recipient's row *)
Definition answered_for_all (why : string) (r : Invitation) : Invitation :=
  let r := if bool_decide (response r = awaiting_reply) then with_reason (Some why) (with_deadline None (with_response answered_by_other r)) else r in
  if bool_decide (response r = not_started) && bool_decide (delivery r = queued) && bool_decide (outbox r = None)
  then with_reason (Some why) (with_delivery canceled (with_response answered_by_other r)) else r.
Inductive StepOutcome := OutcomeCompleted | OutcomeDeclined | OutcomeSkipped.
Definition DECIDE_WITHIN : Z := 86400.
(** What the conversation [session] may close of its person. *)
Definition closable (session now : Z) (r : Invitation) : bool :=
  bool_decide (response r ∈ STARTED_STATES)
  || bool_decide (response r = awaiting_reply) && bool_decide (woken_at r ≠ None) && bool_decide (session_id r = Some session)
  || bool_decide (response r = no_reply_by_deadline) && match deadline_woken_at r with Some t => now - DECIDE_WITHIN <=? t | None => false end.
(** [label]: the label given, or the severity of the step's escalations. *)
Definition step_outcome (session now : Z) (o : StepOutcome) (label note : string) (r : Invitation) : Invitation :=
  let noted := λ r, if str_truthy note then with_reason (Some note) r else r in
  if negb (closable session now r) then r
  else
    match o with
    | OutcomeSkipped =>
      if bool_decide (response r ∈ STARTED_STATES) || negb (str_truthy note) then r
      else
        let r' := if bool_decide (response r = no_reply_by_deadline) then if bool_decide (escalation_state r = no_escalation) then with_escalation handled_by_agent r else r
                  else
                    let r := with_deadline None (with_response skipped_by_agent r) in
                    if bool_decide (outbox r = None) then with_delivery skipped r else r in
        noted (with_outcome None r')
    | _ =>
      let r := with_response (match o with OutcomeCompleted => completed | _ => declined end) r in
      noted (if str_truthy label then with_outcome (Some label) r else r)
    end.
(** The team's alert, and [_agent_acted] (missed.py) *)
Definition mark_escalation (e : EscalationState) (why : option string) (r : Invitation) : Invitation :=
  if bool_decide (escalation_state r = no_escalation) then
    let r := with_escalation e r in match why with Some w => with_reason (Some w) r | None => r end
  else r.

(** ** Its beginning (materialize.py) *)

(** What [choose_channel] or the Program's own channel makes of one recipient: where
    the row goes out, or why it does not. *)
Inductive Channel := Chosen (platform user sender : string) (others : list string) | NoIdentity | NoPermission | NoChannel.
Definition materialized (own : string) (own_sender : option string) (user : string) (c : Channel) (waiting : bool) (paused : option string) : Invitation :=
  let '(p, u, sender, others, why) :=
    match c with
    | Chosen p u s others => (p, u, Some s, others, if waiting then Some "An earlier step is still waiting for an answer" else paused)
    | NoIdentity => (own, "", own_sender, [], Some ("No " +:+ own +:+ " identity"))
    | NoPermission => (own, user, own_sender, [], Some "No permission to message")
    | NoChannel => (own, user, own_sender, [], Some "No reachable channel")
    end in
  mk_invitation (mk_sending (match why with Some _ => skipped | None => queued end) p u sender others [] None None None None)
    (mk_answering not_started None None None) no_escalation None None None why.
(** [_has_open_invitation]: a question of the person's that is open, or will be. *)
Definition waiting_question (r : Invitation) : bool := is_open r || bool_decide (delivery r = queued) && bool_decide (response r = not_started).

(** ** One row in many hands *)

(** A worker of the send pass, from its list of queued rows to the row's next state.
    It writes on the channel [p] the row had in its list.  [g] is the channel the row
    was on when it was claimed: the number of times it fell back. *)
Inductive Phase := Listed (p : string) | Claimed (g : nat) (p : string) | HasOutbox (g : nat) (o : Z) | Failing (g : nat) (why : string) | Releasing (g : nat).
(** What handing a claimed row over comes to: a row of the outbox, the agent woken
    to write it, or neither. *)
Inductive Handed := ToOutbox (o : Z) | ToAgent (session : Z) | Undeliverable (why : string) | Nothing | Raised (woken : option Z).
Record World := mk_world { row : Invitation; fell_back : nat; workers : gmap nat Phase; handed : list (nat * string) }.
Inductive Action :=
  | AList (i : nat) | ALate (i : nat) | AWithdrawn (i : nat) | AClaim (i : nat) (now window : Z) | AHand (i : nat) (now : Z) (h : Handed)
  | ARecord (i : nat) | ADie (i : nat)
  | ASweep (now : Z) | AResult (matched : bool) (o : Z) (reach : Reach) (receipts : list string) (provider_id error : option string) (now : Z)
  | AStatus (reach : Reach) (s : Status) (why : option string) (now : Z) | AAdvance (reach : Reach) (now : Z)
  | AReply (session : Z) | AStaleReply (session : Z) | AOther (why : string) | AOutcome (session now : Z) (o : StepOutcome) (label note : string)
  | AWakeAtDeadline (now : Z) | AStop | AEscalation (e : EscalationState) (why : option string).
Definition with_row (r : Invitation) (w : World) : World := mk_world r (fell_back w) (workers w) (handed w).
Definition with_worker (i : nat) (p : option Phase) (w : World) : World :=
  mk_world (row w) (fell_back w) (match p with Some p => <[i := p]> (workers w) | None => delete i (workers w) end) (handed w).
(** A report, which may have moved the row to its next channel. *)
Definition reported (r : bool * Invitation) (w : World) : World := mk_world r.2 (if r.1 then S (fell_back w) else fell_back w) (workers w) (handed w).
Definition hand (i : nat) (g : nat) (p : string) (now : Z) (h : Handed) (w : World) : World :=
  match h with
  | ToOutbox o => mk_world (row w) (fell_back w) (<[i := HasOutbox g o]> (workers w)) (handed w ++ [(g, p)])
  | ToAgent s => mk_world (note_wake s now (row w)) (fell_back w) (delete i (workers w)) (handed w ++ [(g, p)])
  | Undeliverable why => with_worker i (Some (Failing g why)) w
  | Nothing => with_worker i (Some (Releasing g)) w
  | Raised s => with_worker i (Some (Releasing g)) (match s with Some s => with_row (note_wake s now (row w)) w | None => w end)
  end.
Definition act (w : World) (a : Action) : World :=
  match a with
  | AList i => if unsent (row w) && bool_decide (workers w !! i = None) then with_worker i (Some (Listed (platform (sending (row w))))) w else w
  | ALate i => match workers w !! i with Some (Listed _) => with_worker i None (with_row (skip_late (row w)) w) | _ => w end
  | AWithdrawn i => match workers w !! i with Some (Listed _) => with_worker i None (with_row (cancel_withdrawn (row w)) w) | _ => w end
  | AClaim i now window =>
    match workers w !! i with
    | Some (Listed p) => if unsent (row w) then with_worker i (Some (Claimed (fell_back w) p)) (with_row (claim now window (row w)) w) else with_worker i None w
    | _ => w
    end
  | AHand i now h => match workers w !! i with Some (Claimed g p) => hand i g p now h w | _ => w end
  | ARecord i =>
    match workers w !! i with
    | Some (HasOutbox _ o) => with_worker i None (with_row (with_outbox (Some o) (row w)) w)
    | Some (Failing _ why) => with_worker i None (with_row (fail why (row w)) w)
    | Some (Releasing _) => with_worker i None (with_row (release (row w)) w)
    | _ => w
    end
  | ADie i => with_worker i None w
  | ASweep now => with_row (sweep_deadlines now (row w)) w
  | AResult wake o reach receipts provider error now =>
    if bool_decide (outbox (row w) = Some o) then reported (record_outbox_result reach receipts provider error now (row w)) w
    else if wake && bool_decide (woken_at (row w) ≠ None) && bool_decide (outbox (row w) = None) && bool_decide (response (row w) = awaiting_reply)
      then reported (record_outbox_result reach receipts provider error now (with_outbox (Some o) (row w))) w
    else w
  | AStatus reach s why now => if bool_decide (provider_message_id (sending (row w)) = None) then w else reported (apply_status_callback reach s why now (row w)) w
  | AAdvance reach now => reported (advance_fallbacks reach now (row w)) w
  | AReply s => if bool_decide (response (row w) = awaiting_reply) then with_row (attach_reply s (row w)) w else w
  | AStaleReply s => with_row (attach_reply s (row w)) w
  | AOther why => with_row (answered_for_all why (row w)) w
  | AOutcome s now o label note => with_row (step_outcome s now o label note (row w)) w
  | AWakeAtDeadline now => with_row (claim_deadline now (row w)) w
  | AStop => with_row (cancel_unsent (row w)) w
  | AEscalation e why => with_row (mark_escalation e why (row w)) w
  end.
Definition run (w : World) (acts : list Action) : World := List.fold_left act acts w.
Definition begin (r : Invitation) : World := mk_world r 0 ∅ [].

(** ** Updates that take nothing back *)

(** The row is not queued anew, and has no channel more to fall back on. *)
Record quiet (r r' : Invitation) : Prop := {
  quiet_unsent : unsent r' = true → unsent r = true;
  quiet_fallbacks : (length (fallbacks r') ≤ length (fallbacks r))%nat
}.
#[global] Instance quiet_preorder : PreOrder quiet.
Proof. split; [by split|]. intros r1 r2 r3 [H1 L1] [H2 L2]. split; [auto|lia]. Qed.
Lemma unsent_spec r : unsent r = true ↔ delivery r = queued ∧ outbox r = None ∧ response r = not_started.
Proof. unfold unsent. rewrite !andb_true_iff, !bool_decide_eq_true. tauto. Qed.
(** Of an update that only sets fields of the row. *)
Ltac quiet_update := split; [rewrite !unsent_spec; cbn; naive_solver|cbn; lia].
Lemma quiet_with_error e r : quiet r (with_error e r).
Proof. quiet_update. Qed.
Lemma quiet_with_reason e r : quiet r (with_reason e r).
Proof. quiet_update. Qed.
Lemma quiet_with_provider e r : quiet r (with_provider e r).
Proof. quiet_update. Qed.
Lemma quiet_with_read e r : quiet r (with_read e r).
Proof. quiet_update. Qed.
Lemma quiet_with_deadline e r : quiet r (with_deadline e r).
Proof. quiet_update. Qed.
Lemma quiet_with_outcome e r : quiet r (with_outcome e r).
Proof. quiet_update. Qed.
Lemma quiet_with_escalation e r : quiet r (with_escalation e r).
Proof. quiet_update. Qed.
Lemma quiet_set_session e r : quiet r (with_session e r).
Proof. quiet_update. Qed.
Lemma quiet_with_woken e r : quiet r (with_woken e r).
Proof. quiet_update. Qed.
Lemma quiet_with_deadline_woken e r : quiet r (with_deadline_woken e r).
Proof. quiet_update. Qed.
Lemma quiet_with_opened e r : quiet r (with_opened e r).
Proof. quiet_update. Qed.
Lemma quiet_with_outbox o r : quiet r (with_outbox (Some o) r).
Proof. quiet_update. Qed.
Lemma quiet_with_delivery d r : d ≠ queued → quiet r (with_delivery d r).
Proof. intros Hd. quiet_update. Qed.
Lemma quiet_with_response a r : a ≠ not_started → quiet r (with_response a r).
Proof. intros Ha. quiet_update. Qed.
(** Nobody is awaited of a message that is not queued. *)
Lemma quiet_not_started r : delivery r ≠ queued → quiet r (with_response not_started r).
Proof. intros Hd. quiet_update. Qed.
Create HintDb quiet.
#[export] Hint Resolve quiet_with_error quiet_with_reason quiet_with_provider quiet_with_read quiet_with_deadline quiet_with_outcome quiet_with_escalation
  quiet_set_session quiet_with_woken quiet_with_deadline_woken quiet_with_opened quiet_with_outbox quiet_with_delivery quiet_with_response quiet_not_started : quiet.
#[export] Hint Extern 1 (_ ≠ _) => discriminate : quiet.
(** One change after another, the last first. *)
Ltac quiet_steps := repeat (first [solve [eauto 3 with quiet]|reflexivity|etrans; [|solve [eauto 3 with quiet]]]).

Lemma quiet_skip_late r : quiet r (skip_late r).
Proof. unfold skip_late. destruct (unsent r); quiet_steps. Qed.
Lemma quiet_cancel_withdrawn r : quiet r (cancel_withdrawn r).
Proof. unfold cancel_withdrawn. destruct (unsent r); quiet_steps. Qed.
Lemma quiet_note_wake s now r : quiet r (note_wake s now r).
Proof. unfold note_wake. destruct (bool_decide _); quiet_steps. Qed.
Lemma quiet_claim now window r : quiet r (claim now window r).
Proof. unfold claim. quiet_steps. Qed.
Lemma quiet_claim_deadline now r : quiet r (claim_deadline now r).
Proof. unfold claim_deadline. destruct (_ && _); quiet_steps. Qed.
Lemma quiet_mark_escalation e why r : quiet r (mark_escalation e why r).
Proof. unfold mark_escalation. destruct (bool_decide _), why; quiet_steps. Qed.
Lemma quiet_attach s r : quiet r (attach_reply s r).
Proof. unfold attach_reply. quiet_steps. Qed.
Lemma quiet_answered why r : quiet r (answered_for_all why r).
Proof. unfold answered_for_all. cbv zeta. repeat case_match; quiet_steps. Qed.
Lemma quiet_fail why r : quiet r (fail why r).
Proof. unfold fail. destruct (bool_decide _); [|done]. split; [rewrite !unsent_spec; cbn; naive_solver|done]. Qed.
Lemma quiet_cancel_unsent r : quiet r (cancel_unsent r).
Proof. unfold cancel_unsent. destruct (_ && _); [|done]. split; [rewrite !unsent_spec; cbn; naive_solver|done]. Qed.
Lemma quiet_outcome s now o label note r : quiet r (step_outcome s now o label note r).
Proof. unfold step_outcome. cbv zeta. repeat case_match; quiet_steps. Qed.
Lemma quiet_advance d r : d ≠ queued → quiet r (advance d r).2.
Proof. intros Hd. unfold advance. destruct (_ <? _); cbn [snd]; [reflexivity|auto with quiet]. Qed.
(** The sweep of one row, its five statements at once. *)
Definition swept (now : Z) (r : Invitation) : Invitation :=
  if past (deadline r) now then
    match response r with
    | awaiting_reply =>
      if reached r then with_response no_reply_by_deadline r
      else with_response not_started
             (if bool_decide (delivery r = queued)
              then with_error (Some (if bool_decide (woken_at r = None) then "No delivery report by the deadline" else "The agent wrote no message for this step")) (with_delivery failed r)
              else r)
    | replied | in_progress => with_response incomplete r
    | _ => r
    end
  else r.
Lemma unanswered_idle now r : past (deadline r) now = false ∨ response r ≠ awaiting_reply ∨ reached r = false → sweep_unanswered now r = r.
Proof. unfold sweep_unanswered. case_bool_decide; [|done]. by intros [Hx|[Hx|Hx]]; rewrite ?Hx, ?andb_false_r. Qed.
Lemma unfinished_idle now r : past (deadline r) now = false ∨ response r ∉ STARTED_STATES → sweep_unfinished now r = r.
Proof. unfold sweep_unfinished. case_bool_decide; [|done]. by intros [Hx|Hx]; rewrite ?Hx. Qed.
Lemma unreported_idle woken e now r :
  past (deadline r) now = false ∨ response r ≠ awaiting_reply ∨ delivery r ≠ queued ∨ bool_decide (woken_at r ≠ None) ≠ woken → sweep_unreported woken e now r = r.
Proof.
  unfold sweep_unreported. intros H. destruct (_ && _) eqn:Hc; [|done].
  apply andb_prop in Hc as [[[Ha%bool_decide_eq_true Hd%bool_decide_eq_true]%andb_prop Hp]%andb_prop Hw]. apply Bool.eqb_prop in Hw. destruct H as [H|[H|[H|H]]]; congruence.
Qed.
Lemma never_asked_idle now r : past (deadline r) now = false ∨ response r ≠ awaiting_reply → sweep_never_asked now r = r.
Proof. unfold sweep_never_asked. case_bool_decide; [|done]. by intros [Hx|Hx]; rewrite ?Hx, ?andb_false_r. Qed.
Lemma sweep_swept now r : sweep_deadlines now r = swept now r.
Proof.
  unfold sweep_deadlines, swept. destruct (past (deadline r) now) eqn:Hp.
  2:{ rewrite (unanswered_idle now r) by (by left). rewrite (unfinished_idle now r) by (by left). rewrite (unreported_idle true _ now r), (unreported_idle false _ now r) by (by left). by rewrite never_asked_idle by (by left). }
  assert (∀ r', response r' ≠ awaiting_reply →
    sweep_never_asked now (sweep_unreported false "No delivery report by the deadline" now (sweep_unreported true "The agent wrote no message for this step" now r')) = r') as Hlate.
  { intros r' Hr'. rewrite (unreported_idle true _ now r'), (unreported_idle false _ now r') by (right; by left). by rewrite never_asked_idle by (by right). }
  assert (∀ a r', response r' = a → a ∉ OPEN_RESPONSE_STATES → sweep_unfinished now r' = r') as Hnot.
  { intros a r' <- Ha. apply unfinished_idle. right. intros Hs. apply Ha. unfold OPEN_RESPONSE_STATES, STARTED_STATES in *. set_solver. }
  destruct (response r) eqn:Hr.
  all: try by (rewrite (unanswered_idle now r) by (right; left; by rewrite Hr); rewrite (Hnot _ r Hr) by (unfold OPEN_RESPONSE_STATES; set_solver); apply Hlate; by rewrite Hr).
  2,3: rewrite (unanswered_idle now r) by (right; left; by rewrite Hr);
    assert (sweep_unfinished now r = with_response incomplete r) as -> by (unfold sweep_unfinished; by rewrite Hp, Hr, bool_decide_eq_true_2 by (unfold STARTED_STATES; set_solver)); by apply Hlate.
  destruct (reached r) eqn:Hreach.
  { assert (sweep_unanswered now r = with_response no_reply_by_deadline r) as -> by (unfold sweep_unanswered; by rewrite Hp, Hr, Hreach, bool_decide_eq_true_2).
    rewrite (Hnot no_reply_by_deadline) by (done || (unfold OPEN_RESPONSE_STATES; set_solver)). by apply Hlate. }
  rewrite (unanswered_idle now r) by (by right; right). rewrite (unfinished_idle now r) by (right; rewrite Hr; unfold STARTED_STATES; set_solver).
  assert (∀ r', response r' = awaiting_reply → past (deadline r') now = true → reached r' = false → sweep_never_asked now r' = with_response not_started r') as Hnever.
  { intros r' H1 H2 H3. unfold sweep_never_asked. by rewrite H1, H2, H3, bool_decide_eq_true_2. }
  destruct (decide (delivery r = queued)) as [Hq|Hq]; [rewrite (bool_decide_eq_true_2 _ Hq)|rewrite (bool_decide_eq_false_2 _ Hq); rewrite (unreported_idle true _ now r), (unreported_idle false _ now r) by (right; right; by left); by rewrite Hnever].
  assert (∀ w e, bool_decide (woken_at r ≠ None) = w → sweep_unreported w e now r = with_error (Some e) (with_delivery failed r)) as Hfail.
  { intros w e <-. unfold sweep_unreported. by rewrite Hp, Hr, Hq, !bool_decide_eq_true_2, Bool.eqb_reflx by done. }
  destruct (woken_at r) as [t|] eqn:Hw.
  - rewrite (Hfail true) by done. rewrite unreported_idle by (right; right; by left). by rewrite Hnever.
  - rewrite (unreported_idle true) by (right; right; right; by rewrite Hw). rewrite (Hfail false) by done. by rewrite Hnever.
Qed.
Lemma quiet_sweep now r : quiet r (sweep_deadlines now r).
Proof.
  rewrite sweep_swept. unfold swept. destruct (past _ _); [|reflexivity]. destruct (response r) eqn:Hr; try (quiet_steps; fail).
  destruct (reached r); [quiet_steps|]. case_bool_decide; [|by apply quiet_not_started]. etrans; [|by apply quiet_not_started]. quiet_steps.
Qed.

(** ** The next channel *)

Lemma next_channel_shorter reach now remaining tries p u s rest tries' :
  next_channel reach now remaining tries = (Some (p, u, s, rest), tries') → (length rest < length remaining)%nat ∧ p ∈ remaining.
Proof.
  revert tries. induction remaining as [|q remaining IH]; intros tries; cbn; [done|].
  destruct (reach q) as [[u' s']|].
  - intros [= <- <- <- <- <-]. split; [lia|by left].
  - intros H. apply IH in H as [? ?]. split; [lia|by right].
Qed.
Lemma fall_back_moved reach now r r' : fall_back reach now r = (true, r') → (length (fallbacks r') < length (fallbacks r))%nat ∧ unsent r' = true.
Proof.
  unfold fall_back. destruct (fallbacks r) as [|f fs] eqn:Hf; [done|].
  destruct (next_channel _ _ _ _) as [[[[[p u] s] rest]|] tries] eqn:Hn; [|done]. intros [= <-]. apply next_channel_shorter in Hn as [Hl _].
  split; [exact Hl|]. apply unsent_spec. by cbn.
Qed.
Lemma fall_back_stayed reach now r r' : fall_back reach now r = (false, r') → quiet r r'.
Proof.
  unfold fall_back. destruct (fallbacks r) as [|f fs] eqn:Hf; [intros [= <-]; reflexivity|].
  destruct (next_channel _ _ _ _) as [[[[[p u] s] rest]|] tries] eqn:Hn; [done|]. intros [= <-]. quiet_update.
Qed.
(** A row that is reported on moves to its next channel or takes nothing back. *)
Definition reported_well (r : Invitation) (x : bool * Invitation) : Prop :=
  if x.1 then (length (fallbacks x.2) < length (fallbacks r))%nat else quiet r x.2.
Lemma fall_back_reported reach now r r' : quiet r r' → reported_well r (fall_back reach now r').
Proof.
  intros Hq. unfold reported_well. destruct (fall_back reach now r') as [[] r2] eqn:Hf; cbn.
  - apply fall_back_moved in Hf as [Hlt _]. pose proof (quiet_fallbacks _ _ Hq). lia.
  - apply fall_back_stayed in Hf. by trans r'.
Qed.
Lemma quiet_not_awaited r : delivery r ≠ queued → quiet r (not_awaited r).
Proof. intros Hd. unfold not_awaited. case_bool_decide; [by apply quiet_not_started|reflexivity]. Qed.
Lemma advance_failed d r : order d = 3 → delivery (advance d r).2 = d.
Proof. intros Hd. unfold advance. destruct (Z.ltb_spec (order d) (order (delivery r))) as [Hlt|]; [|done]. destruct (delivery r); cbn in Hlt; lia. Qed.
Lemma record_reported reach receipts provider error now r : reported_well r (record_outbox_result reach receipts provider error now r).
Proof.
  unfold record_outbox_result. destruct (match error with Some e => _ | None => _ end).
  - apply fall_back_reported. etrans; [apply (quiet_advance failed); discriminate|]. etrans; [apply quiet_with_error|].
    apply quiet_not_awaited. cbn. by rewrite advance_failed.
  - unfold reported_well. cbn [fst snd]. etrans; [|apply quiet_advance; by case_bool_decide]. destruct provider; [apply quiet_with_provider|reflexivity].
Qed.
Lemma status_reported reach s why now r : reported_well r (apply_status_callback reach s why now r).
Proof.
  assert (∀ d, order d = 3 → d ≠ queued → reported_well r (let '(moved, r) := advance d r in
    if moved then fall_back reach now (not_awaited (match why with Some w => if str_truthy w then with_error (Some (String.substring 0 500 w)) r else r | None => r end)) else (false, r))) as Hfail.
  { intros d Ho Hd. pose proof (quiet_advance d r Hd) as Hq. pose proof (advance_failed d r Ho) as Ha. destruct (advance d r) as [[] r']; cbn in Hq, Ha; [|exact Hq].
    apply fall_back_reported. etrans; [exact Hq|]. destruct why as [w|]; [destruct (str_truthy w)|]; [etrans; [apply quiet_with_error|]|..]; apply quiet_not_awaited; cbn; congruence. }
  destruct s; cbn [apply_status_callback].
  - apply (quiet_advance delivered). discriminate.
  - by apply Hfail.
  - by apply Hfail.
  - unfold reported_well. cbn [fst snd]. etrans; [apply (quiet_advance delivered); discriminate|apply quiet_with_read].
Qed.
Lemma advance_fallbacks_reported reach now r : reported_well r (advance_fallbacks reach now r).
Proof. unfold advance_fallbacks. destruct (_ && _ && _); [by apply fall_back_reported|done]. Qed.

(** ** Handing over, once a move *)

Definition holding (p : Phase) : option nat := match p with Listed _ => None | Claimed g _ | HasOutbox g _ | Failing g _ | Releasing g => Some g end.
Definition handed_over (p : Phase) : bool := match p with HasOutbox _ _ => true | _ => false end.
Definition held (w : World) : Prop := ∃ i p g, workers w !! i = Some p ∧ holding p = Some g.
(** A row moves to its next channel only when no worker has its claim still. *)
Definition at_rest (w : World) : bool := forallb (λ ip, match holding ip.2 with None => true | Some _ => false end) (map_to_list (workers w)).
Fixpoint settled (w : World) (acts : list Action) : bool :=
  match acts with [] => true | a :: acts => ((fell_back (act w a) =? fell_back w)%nat || at_rest w) && settled (act w a) acts end.
Lemma at_rest_held w : at_rest w = true → ¬ held w.
Proof.
  unfold at_rest. rewrite forallb_forall. intros Hf (i & p & g & Hi & Hg). apply elem_of_map_to_list, list_elem_of_In in Hi. apply Hf in Hi. cbn in Hi. by rewrite Hg in Hi.
Qed.
Record once (n : nat) (w : World) : Prop := {
  once_handed : NoDup (handed w).*1;
  once_before : Forall (λ g, g ≤ fell_back w)%nat (handed w).*1;
  once_alone : ∀ i j p q g h, workers w !! i = Some p → holding p = Some g → workers w !! j = Some q → holding q = Some h → i = j;
  once_held : ∀ i p g, workers w !! i = Some p → holding p = Some g → g = fell_back w ∧ unsent (row w) = false ∧ (handed_over p = false → g ∉ (handed w).*1);
  once_unsent : unsent (row w) = true → fell_back w ∉ (handed w).*1;
  once_fallbacks : (fell_back w + length (fallbacks (row w)) ≤ n)%nat
}.
Lemma once_row n w r : once n w → quiet (row w) r → once n (with_row r w).
Proof.
  intros [H1 H2 H3 H4 H5 H6] [Hu Hl]. split; cbn; try done; [|by auto|lia].
  intros i p g Hi Hg. destruct (H4 i p g Hi Hg) as (-> & Hun & Hn). split_and!; [done| |done].
  destruct (unsent r); [|done]. by rewrite Hu in Hun.
Qed.
Lemma once_drop n w i : once n w → once n (with_worker i None w).
Proof.
  intros [H1 H2 H3 H4 H5 H6]. split; cbn; try done.
  - intros j k p q g h Hj Hg Hk Hh. apply lookup_delete_Some in Hj as [_ Hj], Hk as [_ Hk]. eauto.
  - intros j p g Hj Hg. apply lookup_delete_Some in Hj as [_ Hj]. eauto.
Qed.
(** The only holder of the claim goes on to another phase of it. *)
Lemma once_goes_on n w i p g p' :
  once n w → workers w !! i = Some p → holding p = Some g → holding p' = Some g → (handed_over p' = false → handed_over p = false) → once n (with_worker i (Some p') w).
Proof.
  intros [H1 H2 H3 H4 H5 H6] Hi Hg Hg' Hh. split; cbn; try done.
  - intros j k q q' g1 g2 Hj Hg1 Hk Hg2. apply lookup_insert_Some in Hj as [[-> <-]|[Hne Hj]], Hk as [[-> <-]|[Hne' Hk]]; eauto.
  - intros j q g1 Hj Hg1. apply lookup_insert_Some in Hj as [[<- <-]|[_ Hj]]; [|eauto]. assert (g1 = g) as -> by congruence.
    destruct (H4 i p g Hi Hg) as (-> & Hun & Hn). split_and!; auto.
Qed.
Lemma held_of w i p g : workers w !! i = Some p → holding p = Some g → held w.
Proof. by exists i, p, g. Qed.
Lemma once_reported n w x : once n w → reported_well (row w) x → (fell_back (reported x w) ≠ fell_back w → ¬ held w) → once n (reported x w).
Proof.
  intros Hw Hx Hs. destruct x as [[] r]; cbn in *; [|by apply (once_row n w r) in Hw].
  destruct Hw as [H1 H2 H3 H4 H5 H6]. split; cbn; try done.
  - eapply Forall_impl; [exact H2|]. cbn. lia.
  - intros i p g Hi Hg. exfalso. apply Hs; [lia|]. by exists i, p, g.
  - intros _ Hin. rewrite Forall_forall in H2. apply H2 in Hin. lia.
  - unfold reported_well in Hx. cbn in Hx. lia.
Qed.
Lemma once_listed n w i x : once n w → workers w !! i = None → once n (with_worker i (Some (Listed x)) w).
Proof.
  intros [H1 H2 H3 H4 H5 H6] Hi. split; cbn; try done.
  - intros j k p q g h Hj Hg Hk Hh. apply lookup_insert_Some in Hj as [[<- <-]|[_ Hj]]; [done|]. apply lookup_insert_Some in Hk as [[<- <-]|[_ Hk]]; [done|]. eauto.
  - intros j p g Hj Hg. apply lookup_insert_Some in Hj as [[<- <-]|[_ Hj]]; [done|]. eauto.
Qed.
Lemma once_claimed n w i x now window : once n w → unsent (row w) = true → once n (with_worker i (Some (Claimed (fell_back w) x)) (with_row (claim now window (row w)) w)).
Proof.
  intros [H1 H2 H3 H4 H5 H6] Hu. assert (∀ j p g, workers w !! j = Some p → holding p = Some g → False) as Hno.
  { intros j p g Hj Hg. destruct (H4 j p g Hj Hg) as (_ & Hf & _). congruence. }
  assert (unsent (claim now window (row w)) = false) as Hc.
  { destruct (unsent (claim _ _ _)) eqn:Hc; [|done]. apply unsent_spec in Hc as (_ & _ & Hc). by cbn in Hc. }
  split; cbn; try done.
  - intros j k p q g h Hj Hg Hk Hh. apply lookup_insert_Some in Hj as [[<- <-]|[_ Hj]], Hk as [[<- <-]|[_ Hk]]; [done|exfalso; eauto..].
  - intros j p g Hj Hg. apply lookup_insert_Some in Hj as [[<- <-]|[_ Hj]]; [|exfalso; eauto]. injection Hg as <-. split_and!; [done|done|]. intros _. auto.
  - congruence.
Qed.
(** The claim's holder hands the row over: the first time for this channel. *)
Lemma once_hand n w i g x r (m : gmap nat Phase) :
  once n w → workers w !! i = Some (Claimed g x) → quiet (row w) r → (∀ j p, m !! j = Some p → (j = i ∧ ∃ o, p = HasOutbox g o) ∨ (j ≠ i ∧ workers w !! j = Some p)) →
  once n (mk_world r (fell_back w) m (handed w ++ [(g, x)])).
Proof.
  intros [H1 H2 H3 H4 H5 H6] Hi [Hq Hl] Hm. destruct (H4 i _ g Hi eq_refl) as (-> & Hu & Hn). specialize (Hn eq_refl).
  assert (unsent r = false) as Hr by (destruct (unsent r); [by rewrite Hq in Hu|done]).
  assert (∀ j p h, m !! j = Some p → holding p = Some h → j = i) as Hone.
  { intros j p h Hj Hh. apply Hm in Hj as [[-> _]|[Hne Hj]]; [done|]. by specialize (H3 _ _ _ _ _ _ Hj Hh Hi eq_refl). }
  split; cbn.
  - rewrite fmap_app. apply NoDup_app. split_and!; [done| |apply NoDup_singleton]. intros y Hy ->%list_elem_of_singleton. done.
  - rewrite fmap_app. apply Forall_app. split; [done|]. by constructor.
  - intros j k p q g1 g2 Hj Hg1 Hk Hg2. by rewrite (Hone j p g1 Hj Hg1), (Hone k q g2 Hk Hg2).
  - intros j p h Hj Hh. pose proof (Hone j p h Hj Hh) as ->. apply Hm in Hj as [[_ [o ->]]|[? _]]; [|done]. injection Hh as <-. by split_and!.
  - congruence.
  - lia.
Qed.
Lemma once_release n w i g : once n w → workers w !! i = Some (Releasing g) → once n (with_worker i None (with_row (release (row w)) w)).
Proof.
  intros [H1 H2 H3 H4 H5 H6] Hi. destruct (H4 i _ g Hi eq_refl) as (-> & Hu & Hn). specialize (Hn eq_refl). split; cbn; try done.
  - intros j k p q g h Hj Hg Hk Hh. apply lookup_delete_Some in Hj as [_ Hj], Hk as [_ Hk]. eauto.
  - intros j p h Hj Hh. apply lookup_delete_Some in Hj as [Hne Hj]. by specialize (H3 _ _ _ _ _ _ Hj Hh Hi eq_refl).
  - unfold release. destruct (bool_decide _); cbn; lia.
Qed.
Lemma once_act n w a : once n w → (fell_back (act w a) ≠ fell_back w → ¬ held w) → once n (act w a).
Proof.
  intros Hw Hs. destruct a; cbn [act] in *; try (by apply once_row; auto using quiet_sweep, quiet_attach, quiet_answered, quiet_outcome, quiet_claim_deadline, quiet_cancel_unsent, quiet_mark_escalation).
  - destruct (unsent _ && _) eqn:Hc; [|done]. apply andb_prop in Hc as [_ Hc%bool_decide_eq_true]. by apply once_listed.
  - destruct (workers w !! i) as [[]|]; try done. by apply once_drop, once_row, quiet_skip_late.
  - destruct (workers w !! i) as [[]|]; try done. by apply once_drop, once_row, quiet_cancel_withdrawn.
  - destruct (workers w !! i) as [[]|]; try done. destruct (unsent (row w)) eqn:Hu; [by apply once_claimed|by apply once_drop].
  - destruct (workers w !! i) as [[|g x| | |]|] eqn:Hi; try done. destruct h as [o|s|why| |s]; cbn [hand].
    + eapply once_hand; [done|exact Hi|reflexivity|]. intros j p [[<- <-]|[? ?]]%lookup_insert_Some; eauto.
    + eapply once_hand; [done|exact Hi|apply quiet_note_wake|]. intros j p [? ?]%lookup_delete_Some. auto.
    + by eapply once_goes_on.
    + by eapply once_goes_on.
    + destruct s as [s|]; [|by eapply once_goes_on]. eapply once_goes_on; [apply (once_row n w _ Hw), quiet_note_wake|exact Hi|done..].
  - destruct (workers w !! i) as [[|g x|g o|g why|g]|] eqn:Hi; try done.
    + by apply once_drop, once_row, quiet_with_outbox.
    + by apply once_drop, once_row, quiet_fail.
    + by eapply once_release.
  - by apply once_drop.
  - destruct (bool_decide (outbox _ = _)); [apply once_reported; [done|apply record_reported|done]|].
    destruct (_ && _) eqn:Hc; [|done]. apply once_reported; [done| |done].
    pose proof (record_reported reach receipts provider_id error now (with_outbox (Some o) (row w))) as Hr. unfold reported_well in *.
    destruct (record_outbox_result _ _ _ _ _ _) as [[] r]; cbn in *; [done|]. etrans; [apply quiet_with_outbox|done].
  - destruct (bool_decide _); [done|]. apply once_reported; [done|apply status_reported|done].
  - apply once_reported; [done|apply advance_fallbacks_reported|done].
  - destruct (bool_decide _); [|done]. by apply once_row, quiet_attach.
Qed.
Lemma once_runs n w acts : once n w → settled w acts = true → once n (run w acts).
Proof.
  revert w. induction acts as [|a acts IH]; intros w Hw; [done|]. cbn. intros [Ha Hs]%andb_prop. apply IH; [|done]. apply once_act; [done|].
  intros Hne. apply orb_prop in Ha as [Ha%Nat.eqb_eq|Ha]; [done|]. by apply at_rest_held.
Qed.
(** Numbers below [n], none of them twice. *)
Lemma NoDup_bound (l : list nat) n : NoDup l → Forall (λ g, g ≤ n)%nat l → (length l ≤ S n)%nat.
Proof.
  intros Hd Hf. rewrite <-(length_seq (S n) 0). apply NoDup_incl_length; [by apply NoDup_ListNoDup|].
  intros g Hg. apply in_seq. rewrite Forall_forall in Hf. apply list_elem_of_In, Hf in Hg. lia.
Qed.

(** C35. However many workers pass over a queued step at once, stop between
    any two updates, and whatever the dispatcher, the provider, the person,
    the agent and the sweep do meanwhile, the step is handed over at most
    once, and once more each time it moves to its next channel, where a claim
    is given up before the step moves on and a report is written over the row
    it read. It is the moves that are counted: the channel is the one of the
    worker's list ([stale_list_repeats]). *)
Theorem step_handed_once r acts :
  settled (begin r) acts = true →
  let w := run (begin r) acts in
  NoDup (handed w).*1 ∧ (length (handed w) ≤ 1 + fell_back w)%nat ∧ (fell_back w ≤ length (fallbacks r))%nat.
Proof.
  intros Hs. assert (once (length (fallbacks r)) (begin r)) as H0.
  { split; cbn; try done; [constructor|set_solver]. }
  destruct (once_runs _ _ _ H0 Hs) as [H1 H2 _ _ _ H6]. cbn zeta. split_and!; [done| |lia].
  rewrite <-(length_fmap fst). by apply NoDup_bound.
Qed.

(** ** Nobody waits for good *)

(** An open question has a deadline. *)
Definition dated (r : Invitation) : Prop := is_open r = true → deadline r ≠ None.
Lemma dated_closed r : is_open r = false → dated r.
Proof. unfold dated. by intros ->. Qed.
(** A change of the row that leaves the answer's part of it alone. *)
Lemma dated_same r r' : response r' = response r → deadline r' = deadline r → dated r → dated r'.
Proof. unfold dated, is_open. by intros -> ->. Qed.
Lemma dated_response a r : bool_decide (a ∈ OPEN_RESPONSE_STATES) = false ∨ is_open r = true → dated r → dated (with_response a r).
Proof. unfold dated, is_open. cbn. intros [->|Ho] Hd; [done|]. intros _. by apply Hd. Qed.
Lemma dated_fall_back reach now r : dated r → dated (fall_back reach now r).2.
Proof.
  unfold fall_back. destruct (fallbacks r); [done|]. destruct (next_channel _ _ _ _) as [[[[[p us] sd] rest]|] tries]; cbn [snd]; intros Hd; [by apply dated_closed|].
  by eapply dated_same.
Qed.
Lemma dated_advance d r : dated r → dated (advance d r).2.
Proof. unfold advance. destruct (_ <? _); [done|]. by apply dated_same. Qed.
Lemma dated_not_awaited r : dated r → dated (not_awaited r).
Proof. unfold not_awaited. case_bool_decide; [|done]. apply dated_response. by left. Qed.
Lemma dated_record reach receipts provider error now r : dated r → dated (record_outbox_result reach receipts provider error now r).2.
Proof.
  intros Hd. unfold record_outbox_result. destruct (match error with Some e => _ | None => _ end); cbn [snd].
  - by apply dated_fall_back, dated_not_awaited, (dated_same (advance failed r).2), dated_advance.
  - apply dated_advance. destruct provider; [by apply (dated_same r)|done].
Qed.
Lemma dated_status reach s why now r : dated r → dated (apply_status_callback reach s why now r).2.
Proof.
  intros Hd. assert (∀ d, dated (let '(moved, r) := advance d r in
    if moved then fall_back reach now (not_awaited (match why with Some w => if str_truthy w then with_error (Some (String.substring 0 500 w)) r else r | None => r end)) else (false, r)).2) as Hfail.
  { intros d. pose proof (dated_advance d r Hd) as Ha. destruct (advance d r) as [[] r']; cbn [snd] in *; [|done]. apply dated_fall_back, dated_not_awaited.
    destruct why as [y|]; [destruct (str_truthy y)|]; [by apply (dated_same r')|done..]. }
  destruct s; cbn [apply_status_callback snd]; [by apply dated_advance|by apply Hfail..|].
  apply (dated_same (advance delivered r).2); [done..|]. by apply dated_advance.
Qed.
Lemma dated_sweep now r : dated r → dated (sweep_deadlines now r).
Proof.
  intros Hd. rewrite sweep_swept. unfold swept. destruct (past _ _); [|done].
  destruct (response r) eqn:Hr; try done; [|(apply dated_response; [by left|done])..].
  destruct (reached r); [apply dated_response; [by left|done]|]. by apply dated_closed.
Qed.
Lemma dated_answered why r : dated r → dated (answered_for_all why r).
Proof. intros Hd. unfold answered_for_all. cbv zeta. repeat case_match; try (by apply dated_closed); done. Qed.
Lemma dated_outcome s now o label note r : dated r → dated (step_outcome s now o label note r).
Proof.
  intros Hd. unfold step_outcome. destruct (closable _ _ _) eqn:Hc; cbn [negb]; [|done]. cbv zeta.
  repeat case_match; try done; try (by apply dated_closed); try (by eapply dated_same).
Qed.
Lemma dated_act w a : (∀ s, a ≠ AStaleReply s) → dated (row w) → dated (row (act w a)).
Proof.
  intros Hstale Hd. destruct a; cbn [act]; try done.
  - by destruct (_ && _).
  - destruct (workers w !! i) as [[]|]; try done. cbn. unfold skip_late. destruct (unsent _); [by apply (dated_same (row w))|done].
  - destruct (workers w !! i) as [[]|]; try done. cbn. unfold cancel_withdrawn. destruct (unsent _); [by apply (dated_same (row w))|done].
  - destruct (workers w !! i) as [[]|]; try done. destruct (unsent _); [|done]. cbn. unfold dated. by cbn.
  - destruct (workers w !! i) as [[|g x| | |]|]; try done. assert (∀ s, dated (note_wake s now (row w))) as Hn.
    { intros s. unfold note_wake. case_bool_decide; [by apply (dated_same (row w))|done]. }
    destruct h as [| | | |[]]; cbn; auto.
  - destruct (workers w !! i) as [[|g x|g o|g why|g]|]; try done; cbn; [unfold fail|unfold release]; case_bool_decide; try done; by apply dated_closed.
  - by apply dated_sweep.
  - destruct (bool_decide _); [by apply dated_record|]. destruct (_ && _); [|done]. apply dated_record. by apply (dated_same (row w)).
  - destruct (bool_decide _); [done|]. by apply dated_status.
  - cbn. unfold advance_fallbacks. destruct (_ && _); [by apply dated_fall_back|done].
  - case_bool_decide as Ha; [|done]. cbn. apply (dated_same (with_response replied (row w))); [done..|]. apply dated_response; [|done]. right. unfold is_open. by rewrite Ha.
  - by destruct (Hstale session).
  - by apply dated_answered.
  - by apply dated_outcome.
  - cbn. unfold claim_deadline. destruct (_ && _); [by apply (dated_same (row w))|done].
  - cbn. unfold cancel_unsent. destruct (_ && _); [by apply dated_closed|done].
  - cbn. unfold mark_escalation. destruct (bool_decide _), why; try done; by apply (dated_same (row w)).
Qed.
Definition fresh (a : Action) : bool := match a with AStaleReply _ => false | _ => true end.
Lemma dated_run w acts : forallb fresh acts = true → dated (row w) → dated (row (run w acts)).
Proof.
  revert w. induction acts as [|a acts IH]; intros w; cbn; [done|]. intros [Ha Hs]%andb_prop Hd. apply IH; [done|]. apply dated_act; [|done]. by intros s ->.
Qed.

(** C36. However a step's life goes, where a reply is taken for a step that is still
    open, a person who is being waited for has a deadline, and the first sweep past
    it ends the wait; it records a missing reply only of a person the message
    reached.  So no step keeps a person from the next one for good. *)
Theorem open_steps_close own own_sender user c waiting paused acts now :
  forallb fresh acts = true →
  let r := row (run (begin (materialized own own_sender user c waiting paused)) acts) in
  let r' := sweep_deadlines now r in
  (is_open r = true → ∃ d, deadline r = Some d ∧ (d <= now → is_open r' = false ∧ waiting_question r' = false)) ∧
  (response r' = no_reply_by_deadline → response r = no_reply_by_deadline ∨ response r = awaiting_reply ∧ reached r = true ∧ past (deadline r) now = true) ∧
  (is_open r = false → r' = r).
Proof.
  intros Hf. cbn zeta. set (r := row _). assert (dated r) as Hd.
  { apply dated_run; [done|]. unfold materialized, begin. destruct c; by apply dated_closed. }
  clearbody r. split_and!.
  - intros Ho. specialize (Hd Ho). destruct (deadline r) as [d|] eqn:Hdl; [|done]. exists d. split; [done|]. intros Hle%Z.leb_le.
    rewrite sweep_swept. unfold swept. rewrite Hdl. cbn [past]. rewrite Hle. unfold is_open in Ho.
    assert (∀ a, bool_decide (a ∈ OPEN_RESPONSE_STATES) = false → a ≠ not_started → is_open (with_response a r) = false ∧ waiting_question (with_response a r) = false) as Hclosed.
    { intros a Ha Hn. unfold waiting_question, is_open. cbn. rewrite Ha. by rewrite (bool_decide_eq_false_2 _ Hn), andb_false_r. }
    destruct (response r) eqn:Hr; try done; try (by apply Hclosed). destruct (reached r) eqn:Hre; [by apply Hclosed|]. split; [done|]. unfold waiting_question, is_open.
    destruct (decide (delivery r = queued)) as [Hq|Hq]; [rewrite (bool_decide_eq_true_2 _ Hq); by vm_compute|].
    rewrite (bool_decide_eq_false_2 _ Hq). cbn. by rewrite (bool_decide_eq_false_2 _ Hq).
  - rewrite sweep_swept. unfold swept. destruct (past _ _); [|by left]. destruct (response r) eqn:Hr; cbn; rewrite ?Hr; try (by left); try done; destruct (reached r); first [by right|done].
  - intros Ho. rewrite sweep_swept. unfold swept, is_open in *. destruct (past _ _); [|done]. by destruct (response r).
Qed.

(** ** Lives of a step *)

Definition ex_row : Invitation := materialized "whatsapp" (Some "+1") "+40" (Chosen "whatsapp" "+40" "+1" ["telegram"]) false None.
Definition ex_reach : Reach := λ p, if String.eqb p "telegram" then Some ("77", "bot") else None.
Definition ex_sent (i : nat) (o : Z) : list Action := [AList i; AClaim i 100 3600; AHand i 101 (ToOutbox o); ARecord i].
(** Two replicas, a message that fails, and the next channel. *)
Definition ex_life : list Action :=
  [AList 1; AList 2; AClaim 1 100 3600; AClaim 2 100 3600; AHand 1 101 (ToOutbox 7); ARecord 1;
   AResult false 7 ex_reach [] None (Some "no such number") 102] ++ ex_sent 2 8 ++ [AResult false 8 ex_reach [] (Some "m1") None 103; AReply 5].
Lemma step_handed_once_witness :
  settled (begin ex_row) ex_life = true ∧
  let w := run (begin ex_row) ex_life in
  NoDup (handed w).*1 ∧ (length (handed w) ≤ 1 + fell_back w)%nat ∧ (fell_back w ≤ length (fallbacks ex_row))%nat.
Proof. split; [by vm_compute|]. apply step_handed_once. by vm_compute. Defined.
Lemma open_steps_close_witness :
  forallb fresh ex_life = true ∧
  let r := row (run (begin ex_row) ex_life) in
  let r' := sweep_deadlines 5000 r in
  (is_open r = true → ∃ d, deadline r = Some d ∧ (d <= 5000 → is_open r' = false ∧ waiting_question r' = false)) ∧
  (response r' = no_reply_by_deadline → response r = no_reply_by_deadline ∨ response r = awaiting_reply ∧ reached r = true ∧ past (deadline r) 5000 = true) ∧
  (is_open r = false → r' = r).
Proof. split; [by vm_compute|]. apply (open_steps_close "whatsapp" (Some "+1") "+40" (Chosen "whatsapp" "+40" "+1" ["telegram"]) false None). by vm_compute. Defined.

(** A step that was answered and closed goes out again on the next channel when the
    provider's failure comes late. *)
Lemma late_failure_reopens :
  let w := run (begin ex_row) (ex_sent 1 7 ++ [AResult false 7 ex_reach ["delivered"] (Some "wamid") None 102; AReply 5; AOutcome 5 110 OutcomeCompleted "green" "";
    AStatus ex_reach StatusFailed None 120]) in
  unsent (row w) = true ∧ platform (sending (row w)) = "telegram" ∧ outcome (answering (row w)) = Some "green".
Proof. by vm_compute. Qed.
(** A worker writes on the channel its list had: the one that just failed, while the
    row is on the next. *)
Lemma stale_list_repeats :
  let w := run (begin ex_row) ([AList 2] ++ ex_sent 1 7 ++ [AResult false 7 ex_reach [] None (Some "no such number") 102; AClaim 2 103 3600; AHand 2 104 (ToOutbox 8)]) in
  handed w = [(0%nat, "whatsapp"); (1%nat, "whatsapp")] ∧ platform (sending (row w)) = "telegram".
Proof. by vm_compute. Qed.
(** Two reports of one failure overlap: each reads the row before the other's
    commit, and writes the columns it changed ([orm_write]).  The second puts the
    row back in the queue of a channel it was already sent on. *)
#[global] Instance Try_eq_dec : EqDecision Try.
Proof. solve_decision. Defined.
Definition column {A} `{EqDecision A} (f : Invitation → A) (read changed now : Invitation) : A := if decide (f changed = f read) then f now else f changed.
Definition orm_write (read changed now : Invitation) : Invitation :=
  let s {A} `{EqDecision A} (f : Sending → A) := column (λ r, f (sending r)) read changed now in
  let a {A} `{EqDecision A} (f : Answering → A) := column (λ r, f (answering r)) read changed now in
  mk_invitation
    (mk_sending (s delivery_state) (s platform) (s platform_user_id) (s channel_identifier) (s fallback_platforms) (s attempts) (s outbox_id) (s provider_message_id) (s delivery_error) (s read_at))
    (mk_answering (a response_state) (a opened_at) (a deadline_at) (a outcome))
    (column escalation_state read changed now) (column session_id read changed now) (column woken_at read changed now) (column deadline_woken_at read changed now) (column reason read changed now).
Lemma overlapping_reports_repeat :
  let sent := run (begin ex_row) (ex_sent 1 7) in
  let read := row sent in
  let moved := run (reported (record_outbox_result ex_reach [] None (Some "no such number") 102 read) sent) (ex_sent 2 8) in
  let late := (record_outbox_result ex_reach [] None (Some "no such number") 103 read).2 in
  let w := run (with_row (orm_write read late (row moved)) moved) (ex_sent 3 9) in
  (handed w).*2 = ["whatsapp"; "telegram"; "telegram"].
Proof. by vm_compute. Qed.
(** A report that comes before the row knows its outbox row is lost: a message that
    arrived is taken for one that did not, and goes out on the next channel too. *)
Lemma early_report_lost :
  let w := run (begin ex_row) [AList 1; AClaim 1 100 3600; AHand 1 101 (ToOutbox 7); AResult false 7 ex_reach [] (Some "m1") None 102; ARecord 1; ASweep 4000; AAdvance ex_reach 4001] in
  unsent (row w) = true ∧ platform (sending (row w)) = "telegram".
Proof. by vm_compute. Qed.
(** A reply that is attached after its opener failed has no deadline: no sweep ever
    closes it, and the person is asked nothing more. *)
Lemma stale_reply_stays :
  let r := row (run (begin (materialized "slack" None "U1" (Chosen "slack" "U1" "bot" []) false None))
    [AList 1; AClaim 1 100 3600; AHand 1 101 (Undeliverable "Slack: not_in_channel"); ARecord 1; AStaleReply 5]) in
  is_open r = true ∧ ∀ now, sweep_deadlines now r = r.
Proof. split; [by vm_compute|]. intros now. rewrite sweep_swept. by unfold swept. Qed.
(** [fall_back] is said to leave a row alone where no channel is left. *)
Lemma exhausted_row_touched : ∃ r reach now, (fall_back reach now r).1 = false ∧ (fall_back reach now r).2 ≠ r.
Proof. exists ex_row, (λ _, None), 0. split; [by vm_compute|]. intros H. by apply (f_equal (λ r, length (fallbacks r))) in H. Qed.
