(* ===== verification/Outbox.v ===== *)
(** * Delivery to the channels (channels/delivery.py, channels/dispatcher.py)

    What an agent writes reaches a person by a row of delivery_outbox: written
    once for an event, claimed by a dispatcher in batches, folded into bursts,
    sent by the platform, and marked delivered, to be retried or dropped.  With
    it, the message of a turn that is edited in place (channel_progress.py) and
    the files a text names (channel_media.py).

    Each statement on the outbox, call of the platform and access to Redis of a
    delivery is a step of its own ([Task]), between which anything else may
    happen, the steps of other dispatchers too; what the tenant's resolution,
    the vault, the platform, the storage, Redis and the database answer to a
    step is [Env].  Its reads, which are seen by no one, are one step with the
    choice of the message to edit ([start_item]).  [shown] is what the messages of
    the chat say, [sent] what was sent and [used] the ids given out: the
    platform's own, kept here to say what delivery does.  Reports to invitations
    and outreach, the marks that a message is the bot's, and files that follow a
    text are not modelled. *)

From S2P Require Import Prelude.
From S2P Require Import PyStr.
From S2P Require Import Cadence.
From stdpp Require Import gmap sorting options.
Local Open Scope Z_scope.

(** ** Rows *)

Inductive OutStatus := Pending | Claimed | Delivered | Dead.
#[global] Instance OutStatus_eq_dec : EqDecision OutStatus.
Proof. solve_decision. Defined.
Definition Payload : Type := list (string * pyval).
Record OutRow := mk_out {
  session_id : nat; event_id : nat; channel : string; destination : gmap string string; payload : Payload;
  out_status : OutStatus; available_at : option Z; created_at : Z
}.
Definition with_out (r : OutRow) (s : OutStatus) (at_ : option Z) : OutRow :=
  mk_out (session_id r) (event_id r) (channel r) (destination r) (payload r) s at_ (created_at r).

(** [OutboxItem]: a row as claimed. *)
Record Item := mk_item { item_id : nat; item_session : nat; item_destination : gmap string string; item_payload : Payload; item_created : Z }.
Definition with_payload (i : Item) (p : Payload) : Item := mk_item (item_id i) (item_session i) (item_destination i) p (item_created i).
Definition item_of (id : nat) (r : OutRow) : Item := mk_item id (session_id r) (destination r) (payload r) (created_at r).

Definition get (p : Payload) (key : string) : pyval := default VNone (dict_get key p).
(** [payload.get("content") or ""] *)
Definition text_of (p : Payload) : string := match get p "content" with VStr s => s | _ => "" end.
Definition set_text (p : Payload) (s : string) : Payload := dict_set "content" (VStr s) p.

(** [enqueue]: the row of the event on the channel, or the one there is. *)
Definition same_event (ch : string) (ev : nat) (r : OutRow) : bool := String.eqb (channel r) ch && (event_id r =? ev)%nat.
Definition next_id (rows : gmap nat OutRow) : nat := S (foldr Nat.max 0%nat (map_to_list rows).*1).
Definition enqueue (session ev : nat) (ch : string) (dest : gmap string string) (p : Payload) (now : Z) (rows : gmap nat OutRow) : gmap nat OutRow * nat :=
  match List.find (λ x, same_event ch ev x.2) (map_to_list rows) with
  | Some (id, _) => (rows, id)
  | None => (<[next_id rows := mk_out session ev ch dest p Pending None now]> rows, next_id rows)
  end.

(** [claim_batch]: [free] says which rows no other transaction holds. *)
Definition claimable (ch : string) (now : Z) (free : nat → bool) (x : nat * OutRow) : bool :=
  String.eqb (channel x.2) ch && bool_decide (out_status x.2 = Pending)
  && match available_at x.2 with Some t => t <=? now | None => true end && free x.1.
Definition by_id (x y : nat * OutRow) : Prop := (x.1 <= y.1)%nat.
#[global] Instance by_id_dec : RelDecision by_id.
Proof. intros x y. unfold by_id. apply _. Defined.
Definition batch (ch : string) (limit : nat) (now : Z) (free : nat → bool) (rows : gmap nat OutRow) : list (nat * OutRow) :=
  take limit (merge_sort by_id (List.filter (claimable ch now free) (map_to_list rows))).
Definition set_status (s : OutStatus) (at_ : option Z) (ids : list nat) (rows : gmap nat OutRow) : gmap nat OutRow :=
  foldr (λ id rows, alter (λ r, with_out r s at_) id rows) rows ids.
Definition keep_at (s : OutStatus) (ids : list nat) (rows : gmap nat OutRow) : gmap nat OutRow :=
  foldr (λ id rows, alter (λ r, with_out r s (available_at r)) id rows) rows ids.
Definition claim_batch (ch : string) (limit : nat) (now : Z) (free : nat → bool) (rows : gmap nat OutRow) : gmap nat OutRow * list Item :=
  let b := batch ch limit now free rows in
  (keep_at Claimed b.*1 rows, (λ x, item_of x.1 x.2) <$> b).

Definition RETRY_SECONDS : Z := 30.
Definition mark_delivered (ids : list nat) (rows : gmap nat OutRow) : gmap nat OutRow := keep_at Delivered ids rows.
Definition mark_failed (ids : list nat) (now : Z) (rows : gmap nat OutRow) : gmap nat OutRow :=
  set_status Pending (Some (now + RETRY_SECONDS * SECOND)) ids rows.
Definition mark_dead (id : nat) (rows : gmap nat OutRow) : gmap nat OutRow := keep_at Dead [id] rows.

(** ** Which failures are for good *)

Definition PERMANENT_DELIVERY_ERRORS : list string :=
  ["restricted_action_read_only_channel"; "is_archived"; "not_in_channel"; "cannot_dm_bot"; "msg_too_long"; "no_text";
   "account_inactive"; "token_revoked"; "invalid_auth";
   "discord error 10003 ("; "discord error 50001 ("; "discord error 50007 ("; "discord error 50013 (";
   "bot was blocked by the user"; "user is deactivated"; "bot was kicked";
   "graph error 190 ("; "graph error 100 ("; "graph error 131026 ("; "graph error 131047 ("; "graph error 132000 (";
   "graph error 132001 ("; "graph error 132005 ("; "graph error 132007 ("; "graph error 132012 ("; "graph error 132015 (";
   "graph error 132016 ("; "template payload incomplete";
   "messagewritesblocked"; "conversationblockedbyuser"; "botnotinconversationroster"; "messagesizetoobig"; "teams error 404 ";
   "no teams conversation reference"; "invalid_client"].
Definition MAX_DELIVERY_AGE : Z := 30 * MINUTE.
Definition is_permanent_delivery_error (error : string) : bool :=
  str_truthy error && existsb (λ code, str_contains code (str_lower error)) PERMANENT_DELIVERY_ERRORS.
Definition delivery_exhausted (created now : Z) : bool := MAX_DELIVERY_AGE <? now - created.
(** [_record_delivery_failure] *)
Definition record_failure (i : Item) (error : string) (now : Z) (rows : gmap nat OutRow) : gmap nat OutRow :=
  if is_permanent_delivery_error error || delivery_exhausted (item_created i) now then mark_dead (item_id i) rows
  else mark_failed [item_id i] now rows.

(** ** Bursts *)

(** [_narration_only] *)
Definition narration_only (p : Payload) : bool :=
  truthy (get p "intermediate")
  && match get p "content" with VStr s => str_truthy (strip s) && negb (str_contains "MEDIA:" s) | _ => false end
  && forallb (λ k, startswith k "_" || bool_decide (k ∈ ["content"; "intermediate"])) (dict_keys p).

Record Burst := mk_burst { head : Item; absorbed : list Item }.
Definition BURST_WINDOW : Z := SECOND.
Definition nl2 : string := String "010" (String "010" "").
Definition joins (i : Item) (h : Item) : bool :=
  narration_only (item_payload i) && bool_decide (item_destination i = item_destination h) && (item_created i - item_created h <=? BURST_WINDOW).
Definition absorb (b : Burst) (i : Item) : Burst :=
  mk_burst (with_payload (head b) (set_text (item_payload (head b)) (text_of (item_payload (head b)) +:+ nl2 +:+ text_of (item_payload i))))
    (absorbed b ++ [i]).
(** [open]: the burst of a session that its next narration may join. *)
Definition burst_step (s : list Burst * gmap nat (option nat)) (i : Item) : list Burst * gmap nat (option nat) :=
  let '(groups, open) := s in
  let push := (groups ++ [mk_burst i []], <[item_session i := if narration_only (item_payload i) then Some (length groups) else None]> open) in
  match mjoin (open !! item_session i) with
  | Some n =>
    match groups !! n with
    | Some b => if joins i (head b) then (<[n := absorb b i]> groups, open) else push
    | None => push
    end
  | None => push
  end.
Definition bursts (items : list Item) : list Burst := (foldl burst_step ([], ∅) items).1.

(** ** Files named in a text (channel_media.py) *)

Definition is_quote (a : ascii) : bool := bool_decide (a ∈ ["`"; "034"; "'"]%char).
Definition drop_quote (s : string) : string := match s with String a r => if is_quote a then r else s | EmptyString => "" end.
Definition path_char (a : ascii) : bool := negb (is_space a) && negb (is_quote a).
Fixpoint span_path (s : string) : string * string :=
  match s with
  | String a r => if path_char a then let '(p, rest) := span_path r in (String a p, rest) else ("", s)
  | EmptyString => ("", "")
  end.
(** [_MEDIA_RE] at the front of a text: the path, and what follows. *)
Definition media_at (s : string) : option (string * string) :=
  r ← drop_prefix "MEDIA:" (drop_quote s);
  let '(p, rest) := span_path (lstrip r) in
  if String.eqb p "" then None else Some (p, drop_quote rest).
Fixpoint take_markers (fuel : nat) (s : string) : list string * string :=
  match fuel, s with
  | S fuel, String a r =>
    match media_at s with
    | Some (p, rest) => let '(ps, c) := take_markers fuel rest in (p :: ps, c)
    | None => let '(ps, c) := take_markers fuel r in (ps, String a c)
    end
  | _, _ => ([], "")
  end.
(** A marker without a path, at the end. *)
Definition dangles (s : string) : bool :=
  match drop_prefix "MEDIA:" (drop_quote s) with Some r => String.eqb (strip (drop_quote r)) "" | None => false end.
Fixpoint drop_dangling (s : string) : string :=
  match s with String a r => if dangles s then "" else String a (drop_dangling r) | EmptyString => "" end.
(** Two blanks or more become one space; [run] holds the blanks just read. *)
Definition is_blank (a : ascii) : bool := bool_decide (a ∈ [" "; "009"]%char).
Definition flush (run : option (option ascii)) : string :=
  match run with None => "" | Some (Some a) => String a "" | Some None => " " end.
Fixpoint collapse (run : option (option ascii)) (s : string) : string :=
  match s with
  | String a r =>
    if is_blank a then collapse (match run with None => Some (Some a) | Some _ => Some None end) r
    else flush run +:+ String a (collapse None r)
  | EmptyString => flush run
  end.
Definition parse_media_markers (text : string) : list string * string :=
  if str_contains "MEDIA:" text then
    let '(paths, cleaned) := take_markers (String.length text) text in (paths, strip (collapse None (drop_dangling cleaned)))
  else ([], text).

(** ** The message edited in place (channel_progress.py) *)

Record Progress := mk_progress { p_channel : string; p_ts : string; p_text : option string }.
Record Redis := mk_redis { placeholders : gmap nat Progress; code_runs : gmap (nat * string) (string * string) }.
Definition set_placeholder (session : nat) (ch ts text : string) (r : Redis) : Redis :=
  mk_redis (<[session := mk_progress ch ts (if str_truthy text then Some text else None)]> (placeholders r)) (code_runs r).
Definition clear_placeholder (session : nat) (r : Redis) : Redis := mk_redis (delete session (placeholders r)) (code_runs r).
Definition take_progress_update (session : nat) (ch : string) (r : Redis) : Redis * option Progress :=
  match placeholders r !! session with
  | None => (r, None)
  | Some p =>
    if negb (String.eqb (p_channel p) ch) then (clear_placeholder session r, None)
    else (r, if str_truthy (p_ts p) then Some p else None)
  end.
Definition read_code_run_ts (session : nat) (run ch : string) (r : Redis) : option string :=
  match code_runs r !! (session, run) with
  | Some (c, ts) => if String.eqb c ch && str_truthy ts then Some ts else None
  | None => None
  end.
Definition set_code_run_ts (session : nat) (run ch ts : string) (r : Redis) : Redis :=
  mk_redis (placeholders r) (<[(session, run) := (ch, ts)]> (code_runs r)).
(** [post_placeholder_once]: [posted] is the message posted, where one was. *)
Definition post_placeholder_once (session : nat) (ch : string) (posted : option string) (r : Redis) : Redis :=
  match placeholders r !! session with
  | Some _ => r
  | None => match posted with
            | Some ts => if str_truthy ts then set_placeholder session ch ts "" r else r
            | None => r
            end
  end.

(** ** Sending an item *)

(** A platform: whether it edits messages and uploads files, and the longest
    message it edits. *)
Record Platform := mk_platform { supports_edit : bool; uploads : bool; max_chars : Z }.

(** What the platform does: it raises, answers a failure, posts a message, or
    edits the one named; a post may come back without its id. A call that raises
    may have gone out all the same, as an edit or under the id given. *)
Inductive SendAnswer :=
| SendRaises (error : string) (out : option (option string))
| SendFails (error : option string)
| Posts (ts : string) (told : bool)
| Edits (told : bool).

(** What a step of a delivery is answered: whether its tenant is found,
    whether the credentials come, whether Redis is read, the files found
    and those uploaded ([None]: it raises), whether the placeholder is deleted,
    the send, whether Redis is written after it, and whether the outbox takes the
    mark, a second one, and that of the texts folded into it. *)
Record Env := mk_env {
  e_tenant : bool; e_creds : bool; e_redis : bool;
  e_files : list string → list nat; e_uploaded : option (list string); e_deleted : bool;
  e_send : SendAnswer; e_redis_after : bool; e_mark : bool; e_mark_again : bool; e_mark_absorbed : bool
}.

(** A message, by its channel and its id there; and what went out: the row, the
    message, what it says and the coding run it tells of. [used]: the ids that
    the platform has given. *)
Definition Place : Type := string * string.
Record Sent := mk_sent { sent_for : nat; sent_at : Place; sent_text : string; sent_run : option string }.
Record World := mk_world {
  rows : gmap nat OutRow;
  redis : Redis;
  shown : gmap Place string;
  sent : list Sent;
  used : gset Place
}.
Definition set_rows (w : World) (r : gmap nat OutRow) : World := mk_world r (redis w) (shown w) (sent w) (used w).
Definition set_redis (w : World) (r : Redis) : World := mk_world (rows w) r (shown w) (sent w) (used w).

Definition missing (key : string) (d : gmap string string) : string := default "" (d !! key).
Definition is_intermediate (p : Payload) : bool := truthy (get p "intermediate").
Definition code_run_of (p : Payload) : option string := match get p "code_run" with VStr s => if str_truthy s then Some s else None | _ => None end.

(** What is edited, with the text it already has. *)
Definition appends (pl : Platform) (p : Payload) (said : string) : bool :=
  narration_only p && (Z.of_nat (String.length said) + 2 + Z.of_nat (String.length (text_of p)) <=? max_chars pl).
Definition choose_edit (pl : Platform) (i : Item) (r : Redis) : Redis * option string * option string :=
  let ch := missing "channel_id" (item_destination i) in
  match code_run_of (item_payload i) with
  | Some run => (r, if supports_edit pl then read_code_run_ts (item_session i) run ch r else None, None)
  | None =>
    let '(r, p) := take_progress_update (item_session i) ch r in
    match p with
    | None => (r, None, None)
    | Some p =>
      match p_text p with
      | Some said => (r, if appends pl (item_payload i) said then Some (p_ts p) else None, Some said)
      | None => (r, Some (p_ts p), None)
      end
    end
  end.

(** What Redis holds after a message went out. [result.message_id or update_ts] *)
Definition recorded_ts (update_ts message_id : option string) : option string :=
  match message_id with Some m => if str_truthy m then Some m else update_ts | None => update_ts end.
Definition record_progress (pl : Platform) (i : Item) (update_ts said message_id : option string) (r : Redis) : Redis :=
  let ch := missing "channel_id" (item_destination i) in
  let ts := recorded_ts update_ts message_id in
  match code_run_of (item_payload i) with
  | Some run =>
    if supports_edit pl then match ts with Some ts => if str_truthy ts then set_code_run_ts (item_session i) run ch ts r else r | None => r end
    else r
  | None =>
    if is_intermediate (item_payload i) && supports_edit pl then
      let text := text_of (item_payload i) in
      match ts with
      | Some ts => if str_truthy ts && (Z.of_nat (String.length text) <=? max_chars pl) then set_placeholder (item_session i) ch ts text r
                   else clear_placeholder (item_session i) r
      | None => clear_placeholder (item_session i) r
      end
    else if bool_decide (update_ts ≠ None) || bool_decide (said ≠ None) then clear_placeholder (item_session i) r
    else r
  end.

(** Where the message is, what the chat shows after it, and the id that comes
    back. *)
Definition at_channel (i : Item) (ts : string) : Place := (missing "channel_id" (item_destination i), ts).
Definition message_of (update_ts : option string) (a : SendAnswer) : option string :=
  match a with Posts ts told => if told then Some ts else None | Edits told => if told then update_ts else None | _ => None end.
Definition log_sent (at_ : Place) (i : Item) (w : World) : World :=
  let text := text_of (item_payload i) in
  mk_world (rows w) (redis w) (<[at_ := text]> (shown w)) (sent w ++ [mk_sent (item_id i) at_ text (code_run_of (item_payload i))]) ({[at_]} ∪ used w).

Definition MEDIA_UPLOAD_FAILED_MSG : string := "I couldn't upload the referenced file.".
(** [update_ts is not None and narration] *)
Definition prepend_said (update_ts said : option string) (i : Item) : Item :=
  match update_ts, said with
  | Some _, Some s => with_payload i (set_text (item_payload i) (s +:+ nl2 +:+ text_of (item_payload i)))
  | _, _ => i
  end.

(** A text that is its files alone: they are the reply, and the placeholder goes.
    Files that follow a text are not kept in [sent]. *)
Definition delete_placeholder (e : Env) (i : Item) (update_ts : option string) (w : World) : World :=
  match update_ts with
  | Some ts => mk_world (rows w) (redis w) (if e_deleted e then delete (at_channel i ts) (shown w) else shown w) (sent w) (used w)
  | None => w
  end.
Definition forget_placeholder (e : Env) (i : Item) (update_ts : option string) (w : World) : World :=
  match update_ts with
  | Some _ => if e_redis_after e then set_redis w (clear_placeholder (item_session i) (redis w)) else w
  | None => w
  end.
Definition log_files (i : Item) (id : string) (w : World) : World :=
  mk_world (rows w) (redis w) (shown w) (sent w ++ [mk_sent (item_id i) (at_channel i id) "" (code_run_of (item_payload i))]) ({[at_channel i id]} ∪ used w).

(** The files a text names: none where it names none. *)
Definition files_for (e : Env) (paths : list string) : list nat := match paths with [] => [] | _ => e_files e paths end.
Definition asks_redis (pl : Platform) (i : Item) : bool := match code_run_of (item_payload i) with Some _ => supports_edit pl | None => true end.

(** What is next of a delivery: the upload of a text that is its files; the
    placeholder deleted and forgotten after it; the send; the mark that it went
    out, with what Redis is to record of it; that record; the mark of a failure,
    or of an exception; or the texts folded into it, to be marked as it was. *)
Inductive Task :=
| TFiles (i : Item) (update_ts said : option string) (files : list nat)
| TDrop (i : Item) (update_ts : option string)
| TForget (i : Item) (update_ts : option string)
| TSend (i : Item) (update_ts said : option string)
| TMark (i : Item) (after : option (option string * option string * option string))
| TRecord (i : Item) (update_ts said message_id : option string)
| TFail (error : string)
| TRaised (error : string)
| TDone (delivered : bool).

(** [_deliver_item], up to its first call that is seen outside: the tenant, the
    credentials and Redis are read, and the message to edit is chosen. *)
Definition start_item (pl : Platform) (e : Env) (i : Item) (w : World) : World * Task :=
  if negb (str_truthy (missing "channel_identifier" (item_destination i))) then (w, TFail "missing channel_identifier")
  else if negb (e_tenant e) then (w, TFail ("channel deprovisioned: " +:+ missing "channel_identifier" (item_destination i)))
  else if negb (e_creds e) then (w, TRaised "credentials")
  else if asks_redis pl i && negb (e_redis e) then (w, TRaised "redis")
  else
    let '(r, update_ts, said) := choose_edit pl i (redis w) in
    let w := set_redis w r in
    if uploads pl && str_contains "MEDIA:" (text_of (item_payload i)) then
      let '(paths, cleaned) := parse_media_markers (text_of (item_payload i)) in
      let i := with_payload i (set_text (item_payload i) cleaned) in
      if str_truthy (strip cleaned) then (w, TSend (prepend_said update_ts said i) update_ts said)
      else (w, TFiles i update_ts said (files_for e paths))
    else (w, TSend (prepend_said update_ts said i) update_ts said).

(** [platform.send] *)
Definition send_text (e : Env) (i : Item) (update_ts said : option string) (w : World) : World * Task :=
  match e_send e with
  | SendRaises err out =>
    (match out with Some (Some ts) => log_sent (at_channel i ts) i w | Some None => log_sent (at_channel i (default "" update_ts)) i w | None => w end, TFail err)
  | SendFails err => (w, TFail (opt_or err "send failed"))
  | Posts ts told => (log_sent (at_channel i ts) i w, TMark i (Some (update_ts, said, message_of update_ts (Posts ts told))))
  | Edits told =>
    (log_sent (at_channel i (default "" update_ts)) i w, TMark i (Some (update_ts, said, message_of update_ts (Edits told))))
  end.

(** The rest of [_deliver_item], and what [deliver_batch] does of its exception:
    [h] is the item as it was claimed. *)
Definition item_step (pl : Platform) (e : Env) (now : Z) (h : Item) (t : Task) (w : World) : World * Task :=
  match t with
  | TFiles i update_ts said files =>
    match (if bool_decide (files = []) then None else e_uploaded e) with
    | Some (id :: _) => (log_files i id w, TDrop i update_ts)
    | _ => (w, TSend (prepend_said update_ts said (with_payload i (set_text (item_payload i) MEDIA_UPLOAD_FAILED_MSG))) update_ts said)
    end
  | TDrop i update_ts => (delete_placeholder e i update_ts w, TForget i update_ts)
  | TForget i update_ts => (forget_placeholder e i update_ts w, TMark i None)
  | TSend i update_ts said => send_text e i update_ts said w
  | TMark i after =>
    if e_mark e then
      (set_rows w (mark_delivered [item_id h] (rows w)),
       match after with Some (update_ts, said, message_id) => TRecord i update_ts said message_id | None => TDone true end)
    else (w, TRaised "the outbox is not written")
  | TRecord i update_ts said message_id =>
    (if e_redis_after e then set_redis w (record_progress pl i update_ts said message_id (redis w)) else w, TDone true)
  | TFail err =>
    if e_mark e then (set_rows w (record_failure h err now (rows w)), TDone false) else (w, TRaised "the outbox is not written")
  | TRaised err => (if e_mark_again e then set_rows w (record_failure h err now (rows w)) else w, TDone false)
  | TDone delivered => (w, TDone delivered)
  end.

(** The texts folded into a burst go its head's way. *)
Definition settle_absorbed (e : Env) (now : Z) (b : Burst) (delivered : bool) (w : World) : World :=
  match absorbed b with
  | [] => w
  | others =>
    if e_mark_absorbed e then
      let ids := item_id <$> others in
      set_rows w (if delivered then mark_delivered ids (rows w) else mark_failed ids now (rows w))
    else w
  end.

(** ** A chat *)

(** The dispatchers of a platform's kind, each with the burst it delivers and
    those it still has to; an inbound message posts a placeholder, and records
    in Redis expire. *)
Record Hand := mk_hand { current : option (Burst * Task); todo : list Burst }.
Record System := mk_system { world : World; hands : gmap nat Hand }.
Inductive Action :=
| AEnqueue (session ev : nat) (dest : gmap string string) (p : Payload)
| AInbound (session : nat) (ch : string) (posted : option string) (says : string)
| AExpire (session : nat)
| AExpireRun (session : nat) (run : string)
| AClaim (worker : nat) (free : nat → bool) (order : list Item → list Item)
| ADeliver (worker : nat) (e : Env)
| ACrash (worker : nat).
Definition BATCH_LIMIT : nat := 20.
Definition set_world (s : System) (w : World) : System := mk_system w (hands s).
Definition set_hand (s : System) (worker : nat) (w : World) (h : Hand) : System := mk_system w (<[worker := h]> (hands s)).
Definition inbound (session : nat) (ch : string) (posted : option string) (says : string) (w : World) : World :=
  match placeholders (redis w) !! session, posted with
  | None, Some ts => mk_world (rows w) (post_placeholder_once session ch posted (redis w)) (<[(ch, ts) := says]> (shown w)) (sent w) ({[(ch, ts)]} ∪ used w)
  | _, _ => w
  end.
Definition idle (h : option Hand) : bool := match h with Some (mk_hand (Some _) _) | Some (mk_hand None (_ :: _)) => false | _ => true end.

(** The next step of a dispatcher that has claimed: [deliver_batch]. *)
Definition deliver_step (pl : Platform) (e : Env) (now : Z) (h : Hand) (w : World) : World * Hand :=
  match h with
  | mk_hand None [] => (w, h)
  | mk_hand None (b :: rest) => let '(w, t) := start_item pl e (head b) w in (w, mk_hand (Some (b, t)) rest)
  | mk_hand (Some (b, TDone delivered)) rest => (settle_absorbed e now b delivered w, mk_hand None rest)
  | mk_hand (Some (b, t)) rest => let '(w, t) := item_step pl e now (head b) t w in (w, mk_hand (Some (b, t)) rest)
  end.

Definition step (pl : Platform) (kind : string) (a : Action) (now : Z) (s : System) : System :=
  let w := world s in
  match a with
  | AEnqueue session ev dest p => set_world s (set_rows w (enqueue session ev kind dest p now (rows w)).1)
  | AInbound session ch posted says => set_world s (inbound session ch posted says w)
  | AExpire session => set_world s (set_redis w (clear_placeholder session (redis w)))
  | AExpireRun session run => set_world s (set_redis w (mk_redis (placeholders (redis w)) (delete (session, run) (code_runs (redis w)))))
  | AClaim worker free order =>
    if idle (hands s !! worker) then
      let '(rs, items) := claim_batch kind BATCH_LIMIT now free (rows w) in
      set_hand s worker (set_rows w rs) (mk_hand None (bursts (order items)))
    else s
  | ADeliver worker e =>
    match hands s !! worker with
    | Some h => let '(w, h) := deliver_step pl e now h w in set_hand s worker w h
    | None => s
    end
  | ACrash worker => mk_system w (delete worker (hands s))
  end.
Definition run (pl : Platform) (kind : string) (acts : list (Action * Z)) (s : System) : System :=
  foldl (λ s a, step pl kind a.1 a.2 s) s acts.
Definition empty_system : System := mk_system (mk_world ∅ (mk_redis ∅ ∅) ∅ [] ∅) ∅.

(** ** Bursts hold what was claimed *)

Definition burst_items (b : Burst) : list nat := item_id (head b) :: (item_id <$> absorbed b).
Lemma bind_insert {A B} (f : A → list B) (l : list A) n x y :
  l !! n = Some x → (<[n := y]> l ≫= f) ++ f x ≡ₚ (l ≫= f) ++ f y.
Proof.
  revert n. induction l as [|a l IH]; intros [|n] Hx; csimpl; [done|done| |].
  - injection Hx as ->. solve_Permutation.
  - specialize (IH n Hx). rewrite <-!app_assoc. by rewrite IH.
Qed.
Lemma burst_step_items s i : (burst_step s i).1 ≫= burst_items ≡ₚ (s.1 ≫= burst_items) ++ [item_id i].
Proof.
  destruct s as [groups open]. unfold burst_step.
  assert (Hpush : (groups ++ [mk_burst i []]) ≫= burst_items ≡ₚ (groups ≫= burst_items) ++ [item_id i]) by (rewrite bind_app; csimpl; done).
  destruct (mjoin (open !! item_session i)) as [n|]; [|exact Hpush]. destruct (groups !! n) as [b|] eqn:Hn; [|exact Hpush].
  destruct (joins i (head b)); [|exact Hpush]. cbn [fst].
  pose proof (bind_insert burst_items groups n b (absorb b i) Hn) as Hp.
  assert (Habs : burst_items (absorb b i) = burst_items b ++ [item_id i]) by (unfold burst_items; cbn; by rewrite fmap_app).
  rewrite Habs, app_assoc in Hp. apply (Permutation_app_inv_r (burst_items b)).
  rewrite Hp. solve_Permutation.
Qed.
Lemma bursts_items items : bursts items ≫= burst_items ≡ₚ item_id <$> items.
Proof.
  unfold bursts. assert (Hg : ∀ s, (foldl burst_step s items).1 ≫= burst_items ≡ₚ (s.1 ≫= burst_items) ++ (item_id <$> items)); [|apply (Hg ([], ∅))].
  induction items as [|i items IH]; intros s; csimpl; [by rewrite app_nil_r|]. rewrite IH, burst_step_items. by rewrite <-app_assoc.
Qed.

(** A burst is of its first item: it says what its items say, in order, and
    those folded into it are narration of its session, for its destination,
    within its window. *)
Record burst_of (items : list Item) (h : Item) (b : Burst) : Prop := {
  of_item : h ∈ items;
  of_id : item_id (head b) = item_id h;
  of_session : item_session (head b) = item_session h;
  of_destination : item_destination (head b) = item_destination h;
  of_created : item_created (head b) = item_created h;
  of_text : text_of (item_payload (head b)) = PyStr.join nl2 ((λ i, text_of (item_payload i)) <$> h :: absorbed b);
  of_absorbed : Forall (λ i, i ∈ items ∧ narration_only (item_payload i) = true ∧ item_session i = item_session h
    ∧ item_destination i = item_destination h ∧ item_created i - item_created h <= BURST_WINDOW) (absorbed b);
  of_narration : absorbed b ≠ [] → narration_only (item_payload h) = true
}.
Lemma join_snoc sep x ws w : PyStr.join sep ((x :: ws) ++ [w]) = PyStr.join sep (x :: ws) +:+ sep +:+ w.
Proof.
  revert x. induction ws as [|y ws IH]; intros x; [done|]. change (x +:+ sep +:+ PyStr.join sep ((y :: ws) ++ [w]) = (x +:+ sep +:+ PyStr.join sep (y :: ws)) +:+ sep +:+ w).
  rewrite IH. by rewrite !string_app_assoc.
Qed.
Lemma text_of_set p s : text_of (set_text p s) = s.
Proof. unfold text_of, get, set_text. by rewrite dict_get_set_eq. Qed.
Definition well_open (items : list Item) (s : list Burst * gmap nat (option nat)) : Prop :=
  (∀ sess n, s.2 !! sess = Some (Some n) → (n < length s.1)%nat)
  ∧ ∀ n b, s.1 !! n = Some b → ∃ h, burst_of items h b
      ∧ ∀ sess, s.2 !! sess = Some (Some n) → narration_only (item_payload h) = true ∧ item_session h = sess.
Lemma burst_push items groups open i (P := narration_only (item_payload i)) :
  i ∈ items → well_open items (groups, open) →
  well_open items (groups ++ [mk_burst i []], <[item_session i := if P then Some (length groups) else None]> open).
Proof.
  intros Hi [Hn Hb]. split; cbn [fst snd] in *.
  - intros sess n. rewrite length_app, lookup_insert. cbn [length]. case_decide; [destruct P; naive_solver lia|]. intros Ho. specialize (Hn _ _ Ho). lia.
  - intros n b [Hl|[Hl Hs]]%lookup_app_Some.
    + destruct (Hb n b Hl) as (h & Hh & Ho). exists h. split; [done|]. intros sess. rewrite lookup_insert.
      apply lookup_lt_Some in Hl. case_decide; [destruct P; naive_solver lia|]. apply Ho.
    + apply list_lookup_singleton_Some in Hs as [Hz <-]. exists i. split; [by split|]. intros sess. rewrite lookup_insert.
      case_decide; [by destruct P eqn:HP|]. intros Ho. specialize (Hn _ _ Ho). lia.
Qed.
Lemma burst_step_open items s i : i ∈ items → well_open items s → well_open items (burst_step s i).
Proof.
  intros Hi Hs. destruct s as [groups open]. pose proof (burst_push items groups open i Hi Hs) as Hpush. unfold burst_step.
  destruct (open !! item_session i) as [[n|]|] eqn:Ho; cbn [mjoin option_join]; [|exact Hpush|exact Hpush].
  destruct (groups !! n) as [b|] eqn:Hn; [|exact Hpush]. destruct (joins i (head b)) eqn:Hj; [|exact Hpush]. clear Hpush.
  unfold joins in Hj. apply andb_prop in Hj as [[Hnar Hd%bool_decide_eq_true]%andb_prop Hw%Z.leb_le].
  destruct Hs as [Hlt Hb]. cbn [fst snd] in *. destruct (Hb n b Hn) as (h & Hh & Hop). destruct (Hop _ Ho) as [Hhn Hhs]. destruct Hh as [H1 H2 H3 H4 H5 H6 H7 H8].
  split; [intros sess m Hm; cbn; rewrite length_insert; eauto|]. intros m b'. cbn [fst snd].
  rewrite list_lookup_insert. case_decide as Hc; [destruct Hc as [<- _]; intros [= <-]|apply Hb]. exists h. split; [|done].
  split; cbn [absorb head absorbed item_id item_session item_destination item_created item_payload with_payload]; try done.
  - rewrite text_of_set, H6. change (absorbed (absorb b i)) with (absorbed b ++ [i]). rewrite !fmap_cons, fmap_app. cbn [fmap list_fmap]. by rewrite <-join_snoc.
  - apply Forall_app. split; [done|]. constructor; [|done]. rewrite <-H4, <-H5. by rewrite Hhs.
Qed.
Lemma bursts_of items b : b ∈ bursts items → ∃ h, burst_of items h b.
Proof.
  unfold bursts. assert (Hg : ∀ todo s, (∀ i, i ∈ todo → i ∈ items) → well_open items s → well_open items (foldl burst_step s todo)).
  { intros todo. induction todo as [|i todo IH]; intros s Hin Hs; [done|]. cbn [foldl]. apply IH; [intros j Hj; apply Hin; by right|].
    apply burst_step_open; [apply Hin; left|done]. }
  destruct (Hg items ([], ∅)) as [_ Hb]; [done| |].
  - split; [intros sess n; cbn; by rewrite lookup_empty|by intros n b'].
  - intros [n Hn]%list_elem_of_lookup. destruct (Hb n b Hn) as (h & ? & _). by exists h.
Qed.

Definition has (t s : string) : Prop := ∃ a b, s = a +:+ t +:+ b.
Lemma has_refl t : has t t.
Proof. exists "", "". cbn. by rewrite string_app_nil_r. Qed.
Lemma has_app_l t s u : has t s → has t (u +:+ s).
Proof. intros (a & b & ->). exists (u +:+ a), b. by rewrite <-string_app_assoc. Qed.
Lemma has_app_r t s u : has t s → has t (s +:+ u).
Proof. intros (a & b & ->). exists a, (b +:+ u). by rewrite <-!string_app_assoc. Qed.
Lemma has_trans t s u : has t s → has s u → has t u.
Proof. intros Ht (a & b & ->). by apply has_app_l, has_app_r. Qed.

Lemma has_join sep w ws : w ∈ ws → has w (PyStr.join sep ws).
Proof.
  induction ws as [|x [|y ws] IH]; [by intros ?%elem_of_nil| |].
  - intros ->%list_elem_of_singleton. apply has_refl.
  - change (w ∈ x :: y :: ws → has w (x +:+ sep +:+ PyStr.join sep (y :: ws))).
    intros [->|Hw]%elem_of_cons; [apply has_app_r, has_refl|by apply has_app_l, has_app_l, IH].
Qed.
Fixpoint absent (c : ascii) (s : string) : bool := match s with String a r => negb (Ascii.eqb a c) && absent c r | EmptyString => true end.
Lemma prefix_cut p c a b : absent c p = true → String.prefix p (a +:+ String c b) = true → String.prefix p a = true.
Proof.
  revert a. induction p as [|x p IH]; intros a Hp; [by destruct a|]. cbn [absent] in Hp. apply andb_prop in Hp as [Hx Hp].
  destruct a as [|y a].
  - change ((if ascii_dec x c then String.prefix p b else false) = true → false = true).
    destruct (ascii_dec x c) as [->|]; [by rewrite Ascii.eqb_refl in Hx|done].
  - change ((if ascii_dec x y then String.prefix p (a +:+ String c b) else false) = true → (if ascii_dec x y then String.prefix p a else false) = true).
    destruct (ascii_dec x y); [by apply IH|done].
Qed.
Lemma contains_cut p c a b :
  absent c p = true → str_contains p (a +:+ String c b) = true → str_contains p a = true ∨ str_contains p (String c b) = true.
Proof.
  intros Hp. induction a as [|x a IH]; [by right|].
  change (String.prefix p (String x (a +:+ String c b)) || str_contains p (a +:+ String c b) = true → str_contains p (String x a) = true ∨ str_contains p (String c b) = true).
  intros [Hpre|Hc]%orb_prop.
  - left. apply orb_true_iff. left. by apply (prefix_cut p c (String x a) b).
  - destruct (IH Hc) as [Ha|]; [|by right]. left. apply orb_true_iff. by right.
Qed.
Lemma no_media_join ws :
  Forall (λ w, str_contains "MEDIA:" w = false) ws → str_contains "MEDIA:" (PyStr.join nl2 ws) = false.
Proof.
  induction 1 as [|w ws Hw Hws IH]; [done|]. destruct ws as [|x ws]; [done|].
  change (str_contains "MEDIA:" (w +:+ String "010" (String "010" (PyStr.join nl2 (x :: ws)))) = false).
  apply not_true_is_false. intros [Hc|Hc]%contains_cut; [congruence| |done]. cbn in Hc, IH. congruence.
Qed.

(** ** What the writes do to a row *)

Lemma alter_all (f : OutRow → OutRow) (ids : list nat) (rows : gmap nat OutRow) id (Hf : ∀ r, f (f r) = f r) :
  foldr (λ id rows, alter f id rows) rows ids !! id = if bool_decide (id ∈ ids) then f <$> rows !! id else rows !! id.
Proof.
  induction ids as [|j ids IH]; [done|]. cbn [foldr]. destruct (decide (id = j)) as [->|Hne].
  - rewrite lookup_alter_eq, IH, (bool_decide_true (j ∈ j :: ids)) by left. case_bool_decide; [|done]. destruct (rows !! j); [|done]. cbn. by rewrite Hf.
  - rewrite lookup_alter_ne, IH by done. by rewrite (bool_decide_ext (id ∈ j :: ids) (id ∈ ids)) by set_solver.
Qed.
Lemma keep_at_lookup st ids rows id :
  keep_at st ids rows !! id = if bool_decide (id ∈ ids) then (λ r, with_out r st (available_at r)) <$> rows !! id else rows !! id.
Proof. by apply alter_all. Qed.
Lemma set_status_lookup st at_ ids rows id :
  set_status st at_ ids rows !! id = if bool_decide (id ∈ ids) then (λ r, with_out r st at_) <$> rows !! id else rows !! id.
Proof. by apply alter_all. Qed.

(** [moves ids P rows rows']: the rows of [ids] got a status of [P] and kept
    their event and their text; the others are as they were. *)
Definition same_text (r r' : OutRow) : Prop := event_id r = event_id r' ∧ channel r = channel r' ∧ session_id r = session_id r' ∧ payload r = payload r'.
Definition moves (ids : list nat) (P : OutStatus → Prop) (rows rows' : gmap nat OutRow) : Prop :=
  ∀ id, (id ∉ ids → rows' !! id = rows !! id)
    ∧ (id ∈ ids → match rows !! id with Some r => ∃ r', rows' !! id = Some r' ∧ same_text r r' ∧ P (out_status r') | None => rows' !! id = None end).
Lemma moves_keep_at st ids rows : moves ids (λ st', st' = st) rows (keep_at st ids rows).
Proof. intros id. rewrite keep_at_lookup. split; intros Hid; case_bool_decide; try done. destruct (rows !! id); [|done]. by eexists. Qed.
Lemma moves_set_status st at_ ids rows : moves ids (λ st', st' = st) rows (set_status st at_ ids rows).
Proof. intros id. rewrite set_status_lookup. split; intros Hid; case_bool_decide; try done. destruct (rows !! id); [|done]. by eexists. Qed.
Lemma moves_weaken ids (P Q : OutStatus → Prop) rows rows' : moves ids P rows rows' → (∀ st, P st → Q st) → moves ids Q rows rows'.
Proof.
  intros Hm HPQ id. destruct (Hm id) as [H1 H2]. split; [done|]. intros Hid. specialize (H2 Hid). destruct (rows !! id); [|done].
  destruct H2 as (r' & ? & ? & ?). eauto.
Qed.
Lemma moves_app ids ids' P rows rows' rows'' : moves ids P rows rows' → moves ids' P rows' rows'' → moves (ids ++ ids') P rows rows''.
Proof.
  intros H1 H2 id. destruct (H1 id) as [H1o H1i], (H2 id) as [H2o H2i]. split.
  - intros [? ?]%not_elem_of_app. by rewrite H2o, H1o.
  - intros [Hid|Hid]%elem_of_app; [|destruct (decide (id ∈ ids)) as [Hid1|Hid1]].
    + specialize (H1i Hid). destruct (decide (id ∈ ids')) as [Hid2|Hid2].
      * specialize (H2i Hid2). destruct (rows !! id).
        -- destruct H1i as (r1 & Hr1 & Hs1 & _). rewrite Hr1 in H2i. destruct H2i as (r2 & Hr2 & Hs2 & HP).
           exists r2. unfold same_text in *. intuition congruence.
        -- by rewrite H1i in H2i.
      * rewrite H2o by done. done.
    + specialize (H1i Hid1). specialize (H2i Hid). destruct (rows !! id).
      * destruct H1i as (r1 & Hr1 & Hs1 & _). rewrite Hr1 in H2i. destruct H2i as (r2 & Hr2 & Hs2 & HP).
        exists r2. unfold same_text in *. intuition congruence.
      * by rewrite H1i in H2i.
    + rewrite H1o in H2i by done. by apply H2i.
Qed.
Lemma moves_nil P rows : moves [] P rows rows.
Proof. intros id. split; [done|]. by intros ?%elem_of_nil. Qed.
Lemma moves_same ids (P : OutStatus → Prop) rows : (∀ id r, id ∈ ids → rows !! id = Some r → P (out_status r)) → moves ids P rows rows.
Proof.
  intros HP id. split; [done|]. intros Hid. destruct (rows !! id) as [r|] eqn:Hr; [|done]. exists r. split_and!; eauto. by split_and!.
Qed.
Lemma moves_record_failure i err now rows : moves [item_id i] (λ st, st = Dead ∨ st = Pending) rows (record_failure i err now rows).
Proof.
  unfold record_failure. destruct (_ || _); eapply moves_weaken; [apply moves_keep_at| |apply moves_set_status|]; naive_solver.
Qed.

(** ** What a delivery does *)

(** [i'] goes out for [i], whose text it says, where that names no files. *)
Definition sends_for (i i' : Item) : Prop :=
  item_id i' = item_id i ∧ (str_contains "MEDIA:" (text_of (item_payload i)) = false → has (text_of (item_payload i)) (text_of (item_payload i'))).
Lemma sends_for_refl i : sends_for i i.
Proof. split; [done|]. intros _. apply has_refl. Qed.
Lemma prepend_sends update_ts said i i' : sends_for i i' → sends_for i (prepend_said update_ts said i').
Proof.
  intros [Hid Ht]. unfold prepend_said. destruct update_ts, said; try done. split; [done|]. intros Hm.
  cbn [item_payload with_payload]. rewrite text_of_set. apply has_app_l, has_app_l. auto.
Qed.
Lemma settle_absorbed_moves e now b delivered w :
  sent (settle_absorbed e now b delivered w) = sent w
  ∧ (rows (settle_absorbed e now b delivered w) = rows w
     ∨ moves (item_id <$> absorbed b) (λ st, st = if delivered then Delivered else Pending) (rows w) (rows (settle_absorbed e now b delivered w))).
Proof.
  unfold settle_absorbed. destruct (absorbed b) as [|x xs]; [split; [done|by left]|]. destruct (e_mark_absorbed e); [|split; [done|by left]].
  split; [done|right]. destruct delivered; [apply moves_keep_at|apply moves_set_status].
Qed.

(** ** Once each *)

Lemma narration_only_media p : narration_only p = true → str_contains "MEDIA:" (text_of p) = false.
Proof.
  unfold narration_only, text_of. intros [[_ Hc]%andb_prop _]%andb_prop. destruct (get p "content"); try done.
  apply andb_prop in Hc as [_ Hc]. by apply negb_true_iff.
Qed.
Section burst.
Context {items : list Item} {h : Item} {b : Burst} (Hb : burst_of items h b).
Lemma burst_has i : i ∈ h :: absorbed b → has (text_of (item_payload i)) (text_of (item_payload (head b))).
Proof using All. intros Hi. rewrite (of_text _ _ _ Hb). by apply has_join, (list_elem_of_fmap_2 (λ i, text_of (item_payload i))). Qed.
Lemma burst_media : absorbed b ≠ [] → str_contains "MEDIA:" (text_of (item_payload (head b))) = false.
Proof using All.
  intros Hne. rewrite (of_text _ _ _ Hb). apply no_media_join, Forall_fmap. constructor.
  - by apply narration_only_media, (of_narration _ _ _ Hb).
  - eapply Forall_impl; [exact (of_absorbed _ _ _ Hb)|]. intros i (_ & Hn & _). by apply narration_only_media.
Qed.
End burst.

(** An item in hand is of a row that is claimed; [m] says its first item's is
    marked already. *)
Definition of_row (rows : gmap nat OutRow) (i : Item) : Prop :=
  ∃ r, rows !! item_id i = Some r ∧ out_status r = Claimed ∧ payload r = item_payload i.
Definition left_items (m : bool) (h : Item) (b : Burst) : list Item := if m then absorbed b else h :: absorbed b.
Definition left_ids (m : bool) (b : Burst) : list nat := if m then item_id <$> absorbed b else burst_items b.
Definition held (m : bool) (rows : gmap nat OutRow) (b : Burst) : Prop :=
  ∃ items h, burst_of items h b ∧ Forall (of_row rows) (left_items m h b).

(** A delivery whose head is marked, one that went out and whose mark is next,
    and one that went out. *)
Definition head_marked (t : Task) : bool := match t with TRecord _ _ _ _ | TDone _ => true | _ => false end.
Definition to_mark (t : Task) : bool := match t with TDrop _ _ | TForget _ _ | TMark _ _ => true | _ => false end.
Definition went_out (t : Task) : bool := match t with TRecord _ _ _ _ | TDone true => true | _ => to_mark t end.
Definition in_hand (h : Hand) : list nat :=
  match current h with Some (b, t) => left_ids (head_marked t) b | None => [] end ++ (todo h ≫= burst_items).

(** What tells a row: its own message, or that of the narration it is folded into. *)
Definition tells (id : nat) (r : OutRow) (x : Sent) : Prop :=
  sent_for x = id ∨ (narration_only (payload r) = true ∧ has (text_of (payload r)) (sent_text x)).
Definition said_by (b : Burst) (x : Sent) : Prop :=
  sent_for x = item_id (head b)
  ∧ (str_contains "MEDIA:" (text_of (item_payload (head b))) = false → has (text_of (item_payload (head b))) (sent_text x)).
Definition task_ok (b : Burst) (t : Task) : Prop :=
  match t with
  | TFiles i _ _ _ => item_id i = item_id (head b) ∧ str_contains "MEDIA:" (text_of (item_payload (head b))) = true
  | TSend i _ _ => sends_for (head b) i
  | _ => True
  end.
Record delivering (w : World) (b : Burst) (t : Task) : Prop := {
  del_task : task_ok b t;
  del_held : held (head_marked t) (rows w) b;
  del_said : went_out t = true → ∃ x, x ∈ sent w ∧ said_by b x;
  del_marked : went_out t = true → head_marked t = true → ∃ r, rows w !! item_id (head b) = Some r ∧ out_status r = Delivered
}.
Definition being_marked (s : System) (x : Sent) : Prop :=
  ∀ v h, hands s !! v = Some h → sent_for x ∈ in_hand h → ∃ b t, current h = Some (b, t) ∧ to_mark t = true ∧ sent_for x = item_id (head b).
Record once_inv (s : System) : Prop := {
  inv_todo : ∀ v h, hands s !! v = Some h → Forall (held false (rows (world s))) (todo h);
  inv_current : ∀ v h b t, hands s !! v = Some h → current h = Some (b, t) → delivering (world s) b t;
  inv_hand : ∀ v h, hands s !! v = Some h → NoDup (in_hand h);
  inv_apart : ∀ v1 v2 h1 h2 id, hands s !! v1 = Some h1 → hands s !! v2 = Some h2 → id ∈ in_hand h1 → id ∈ in_hand h2 → v1 = v2;
  inv_sent : NoDup (sent_for <$> sent (world s));
  inv_out : ∀ x, x ∈ sent (world s) → ∃ r, rows (world s) !! sent_for x = Some r
    ∧ (out_status r = Delivered ∨ out_status r = Claimed ∧ being_marked s x);
  inv_told : ∀ id r, rows (world s) !! id = Some r → out_status r = Delivered → ∃ x, x ∈ sent (world s) ∧ tells id r x
}.

Lemma batch_elem ch limit now free rows id r :
  (id, r) ∈ batch ch limit now free rows → rows !! id = Some r ∧ out_status r = Pending.
Proof.
  unfold batch. intros Hin.
  assert (Hin' : (id, r) ∈ List.filter (claimable ch now free) (map_to_list rows)).
  { rewrite <-(merge_sort_Permutation by_id). eapply elem_of_sublist; [exact Hin|apply sublist_take]. }
  apply list_elem_of_In, filter_In in Hin' as [Hin' Hc]. apply list_elem_of_In, elem_of_map_to_list in Hin'. split; [done|].
  unfold claimable in Hc. by apply andb_prop in Hc as [[[_ Hp%bool_decide_eq_true]%andb_prop _]%andb_prop _].
Qed.
Lemma batch_NoDup ch limit now free rows : NoDup (batch ch limit now free rows).*1.
Proof.
  unfold batch. eapply sublist_NoDup; [|apply fmap_sublist, sublist_take].
  eapply NoDup_Permutation_proper; [apply fmap_Permutation, merge_sort_Permutation|]. apply fst_filter_NoDup, NoDup_fst_map_to_list.
Qed.
Lemma next_id_fresh (rows : gmap nat OutRow) : rows !! next_id rows = None.
Proof.
  apply eq_None_not_Some. intros [r Hr]. apply elem_of_map_to_list in Hr.
  assert (Hle : ∀ l : list nat, ∀ n, n ∈ l → (n <= foldr Nat.max 0 l)%nat).
  { intros l. induction l as [|x l IH]; intros n; [by intros ?%elem_of_nil|]. cbn. intros [->|Hn]%elem_of_cons; [lia|]. specialize (IH n Hn). lia. }
  specialize (Hle (map_to_list rows).*1 (next_id rows) (list_elem_of_fmap_2 fst _ _ Hr)). unfold next_id in Hle. lia.
Qed.
Lemma enqueue_keeps session ev ch dest p now rows id r :
  rows !! id = Some r → (enqueue session ev ch dest p now rows).1 !! id = Some r.
Proof.
  intros Hr. unfold enqueue. destruct (List.find _ _) as [[n r']|]; [done|]. cbn. rewrite lookup_insert_ne; [done|].
  intros <-. by rewrite next_id_fresh in Hr.
Qed.
Lemma enqueue_new session ev ch dest p now rows id r :
  (enqueue session ev ch dest p now rows).1 !! id = Some r → rows !! id = Some r ∨ out_status r = Pending.
Proof.
  unfold enqueue. destruct (List.find _ _) as [[n r']|]; [by left|]. cbn. rewrite lookup_insert. case_decide; [intros [= <-]; by right|by left].
Qed.

Lemma left_ids_items m items h b : burst_of items h b → left_ids m b = item_id <$> left_items m h b.
Proof. intros Hb. destruct m; [done|]. unfold left_ids, left_items, burst_items. rewrite fmap_cons. by rewrite (of_id _ _ _ Hb). Qed.
Lemma held_ids m rows b id : held m rows b → id ∈ left_ids m b → ∃ r, rows !! id = Some r ∧ out_status r = Claimed.
Proof.
  intros (items & h & Hb & Hrows). rewrite (left_ids_items _ _ _ _ Hb). intros (i & -> & Hi)%list_elem_of_fmap.
  rewrite Forall_forall in Hrows. destruct (Hrows i Hi) as (r & ? & ? & _). by exists r.
Qed.
Lemma held_mono m (rows rows' : gmap nat OutRow) b :
  (∀ id r, id ∈ left_ids m b → rows !! id = Some r → out_status r = Claimed → rows' !! id = Some r) → held m rows b → held m rows' b.
Proof.
  intros Hmono (items & h & Hb & Hrows). exists items, h. split; [done|]. rewrite Forall_forall in Hrows |- *. intros i Hi.
  destruct (Hrows i Hi) as (r & Hr & Hc & Hp). exists r. split_and!; try done. apply Hmono; [|done|done].
  rewrite (left_ids_items _ _ _ _ Hb). exact (list_elem_of_fmap_2 item_id _ i Hi).
Qed.
Lemma held_marked rows b : held false rows b → held true rows b.
Proof. intros (items & h & Hb & Hrows%Forall_cons_1). exists items, h. by destruct Hrows. Qed.
Lemma elem_bind_items b (bs : list Burst) id : b ∈ bs → id ∈ burst_items b → id ∈ bs ≫= burst_items.
Proof. intros Hb Hid. apply list_elem_of_bind. by exists b. Qed.

(** A text folded into a burst is said by what says the burst. *)
Lemma absorbed_told m rows b id x : held m rows b → said_by b x → id ∈ item_id <$> absorbed b →
  ∃ r, rows !! id = Some r ∧ out_status r = Claimed ∧ narration_only (payload r) = true ∧ has (text_of (payload r)) (sent_text x).
Proof.
  intros (items & h & Hb & Hrows) [_ Hsay] (i & -> & Hi)%list_elem_of_fmap. pose proof (burst_has Hb i) as Hh. specialize (Hh ltac:(by right)).
  assert (Hi' : i ∈ left_items m h b) by (unfold left_items; destruct m; [done|by right]).
  rewrite Forall_forall in Hrows. destruct (Hrows i Hi') as (r & Hr & Hc & Hp). exists r. split_and!; try done; rewrite Hp.
  - pose proof (of_absorbed _ _ _ Hb) as Ha. rewrite Forall_forall in Ha. by destruct (Ha i Hi) as (_ & Hn & _).
  - eapply has_trans; [exact Hh|]. apply Hsay, (burst_media Hb). by intros He; rewrite He in Hi; apply elem_of_nil in Hi.
Qed.

Section hand.
Context (s : System) (Hs : once_inv s) (v : nat) (h : Hand) (Hv : hands s !! v = Some h).
Lemma in_hand_claimed id : id ∈ in_hand h → ∃ r, rows (world s) !! id = Some r ∧ out_status r = Claimed.
Proof using All.
  unfold in_hand. intros [Hid|(b & Hid & Hb)%list_elem_of_bind]%elem_of_app.
  - destruct (current h) as [[b t]|] eqn:Hc; [|by apply elem_of_nil in Hid].
    by eapply held_ids, Hid; eapply del_held, inv_current.
  - pose proof (inv_todo s Hs v h Hv) as Ht. rewrite Forall_forall in Ht. by apply (held_ids false _ b id (Ht b Hb)).
Qed.
Lemma in_hand_unsent b t x : current h = Some (b, t) → to_mark t = false → head_marked t = false → x ∈ sent (world s) → sent_for x ≠ item_id (head b).
Proof using All.
  intros Hc Ht Hm Hx Heq. assert (Hid : sent_for x ∈ in_hand h).
  { unfold in_hand. rewrite Hc, Hm, Heq. apply elem_of_app. left. left. }
  destruct (in_hand_claimed _ Hid) as (r & Hr & Hcl). destruct (inv_out s Hs x Hx) as (r' & Hr' & [Hd|[_ Hb]]); [congruence|].
  destruct (Hb v h Hv Hid) as (b' & t' & Hc' & Ht' & _). congruence.
Qed.
Lemma head_unsent b rest x : todo h = b :: rest → x ∈ sent (world s) → sent_for x ∉ burst_items b.
Proof using All.
  intros Hb Hx Hid. assert (Hin : sent_for x ∈ todo h ≫= burst_items) by (rewrite Hb; by eapply elem_bind_items; [left|]).
  assert (Hid' : sent_for x ∈ in_hand h) by (apply elem_of_app; by right).
  destruct (in_hand_claimed _ Hid') as (r & Hr & Hcl). destruct (inv_out s Hs x Hx) as (r' & Hr' & [Hd|[_ Hm]]); [congruence|].
  destruct (Hm v h Hv Hid') as (b' & t' & Hc' & Ht' & Heq). pose proof (inv_hand s Hs v h Hv) as Hnd. unfold in_hand in Hnd. rewrite Hc' in Hnd.
  assert (Hmk : head_marked t' = false) by by destruct t'. rewrite Hmk in Hnd. apply NoDup_app in Hnd as (_ & Hd & _). apply (Hd (sent_for x)); [|done].
  rewrite Heq. left.
Qed.

(** The hand goes on: [ids] are marked and leave it. *)
Context (h' : Hand) (w' : World) (ids : list nat) (P : OutStatus → Prop).
Hypothesis (Hids : in_hand h ≡ₚ ids ++ in_hand h') (Hmoves : moves ids P (rows (world s)) (rows w')).
Lemma left_rows v2 h2 id : <[v := h']> (hands s) !! v2 = Some h2 → id ∈ in_hand h2 → rows w' !! id = rows (world s) !! id.
Proof using All.
  intros Hv2 Hid. apply (Hmoves id). intros Hin. assert (Hinh : id ∈ in_hand h) by (rewrite Hids; apply elem_of_app; by left).
  revert Hv2. rewrite lookup_insert. case_decide as Hvv.
  - intros [= <-]. pose proof (inv_hand s Hs v h Hv) as Hnd. rewrite Hids in Hnd. apply NoDup_app in Hnd as (_ & Hd & _). by apply (Hd id).
  - intros Hv2. apply Hvv. by eapply (inv_apart s Hs).
Qed.
Lemma once_hands :
  (∀ b, b ∈ todo h' → b ∈ todo h) →
  (∀ v2 h2, <[v := h']> (hands s) !! v2 = Some h2 → Forall (held false (rows w')) (todo h2))
  ∧ (∀ v2 h2, <[v := h']> (hands s) !! v2 = Some h2 → NoDup (in_hand h2))
  ∧ (∀ v1 v2 h1 h2 id, <[v := h']> (hands s) !! v1 = Some h1 → <[v := h']> (hands s) !! v2 = Some h2 → id ∈ in_hand h1 → id ∈ in_hand h2 → v1 = v2).
Proof using All.
  intros Htodo. split_and!.
  - intros v2 h2 Hv2. apply Forall_forall. intros b Hb. eapply held_mono.
    + intros id r Hid Hr _. rewrite (left_rows v2 h2 id Hv2); [done|]. apply elem_of_app. right. by eapply elem_bind_items.
    + revert Hv2. rewrite lookup_insert. case_decide; intros Hv2; [injection Hv2 as <-; apply Htodo in Hb|].
      * pose proof (inv_todo s Hs v h Hv) as Ht. rewrite Forall_forall in Ht. auto.
      * pose proof (inv_todo s Hs v2 h2 Hv2) as Ht. rewrite Forall_forall in Ht. auto.
  - intros v2 h2. rewrite lookup_insert. case_decide; [intros [= <-]|apply (inv_hand s Hs)].
    pose proof (inv_hand s Hs v h Hv) as Hnd. rewrite Hids in Hnd. by apply NoDup_app in Hnd as (_ & _ & ?).
  - assert (Hold : ∀ v2 h2 id, <[v := h']> (hands s) !! v2 = Some h2 → id ∈ in_hand h2 → ∃ h3, hands s !! v2 = Some h3 ∧ id ∈ in_hand h3).
    { intros v2 h2 id. rewrite lookup_insert. case_decide; [subst v2; intros [= <-] Hid; exists h; split; [done|rewrite Hids; apply elem_of_app; by right]|eauto]. }
    intros v1 v2 h1 h2 id H1 H2 Hi1 Hi2. destruct (Hold v1 h1 id H1 Hi1) as (? & ? & ?), (Hold v2 h2 id H2 Hi2) as (? & ? & ?). by eapply (inv_apart s Hs).
Qed.
Lemma current_stays :
  (∀ x, x ∈ sent (world s) → x ∈ sent w') →
  (∀ b t, current h' = Some (b, t) → delivering w' b t) →
  ∀ v2 h2 b t, <[v := h']> (hands s) !! v2 = Some h2 → current h2 = Some (b, t) → delivering w' b t.
Proof using All.
  intros Hsent Hcur v2 h2 b t Hv2 Hc. pose proof (left_rows v2 h2) as Hleft. specialize (Hleft) with (1 := Hv2).
  revert Hv2. rewrite lookup_insert. case_decide; [intros [= <-]; by apply Hcur|]. intros Hv2.
  destruct (inv_current s Hs v2 h2 b t Hv2 Hc) as [Ht Hh Hsay Hmk]. split; [done| | |].
  - eapply held_mono; [|exact Hh]. intros id r Hid Hr _. rewrite Hleft; [done|]. unfold in_hand. rewrite Hc. apply elem_of_app. by left.
  - intros Hw. destruct (Hsay Hw) as (x & ? & ?). exists x. auto.
  - intros Hw Hm. destruct (Hmk Hw Hm) as (r & Hr & Hd). exists r. split; [|done].
    rewrite (proj1 (Hmoves (item_id (head b)))); [done|]. intros Hin.
    destruct (in_hand_claimed (item_id (head b))) as (r' & Hr' & Hcl); [rewrite Hids; apply elem_of_app; by left|]. congruence.
Qed.

(** Nothing more went out. *)
Lemma once_marks :
  sent w' = sent (world s) → (∀ b, b ∈ todo h' → b ∈ todo h) →
  (∀ b t, current h' = Some (b, t) → delivering w' b t) →
  (∀ b t, current h = Some (b, t) → to_mark t = true →
     (item_id (head b) ∈ ids ∧ ∀ st, P st → st = Delivered)
     ∨ (item_id (head b) ∉ ids ∧ ∃ t', current h' = Some (b, t') ∧ to_mark t' = true)) →
  (∀ id r, id ∈ ids → rows w' !! id = Some r → out_status r = Delivered → ∃ x, x ∈ sent (world s) ∧ tells id r x) →
  once_inv (set_hand s v w' h').
Proof using All.
  intros Hsent Htodo Hcur Hmark Htell. destruct (once_hands Htodo) as (H1 & H2 & H3).
  split; cbn [world hands set_hand]; rewrite ?Hsent; [exact H1| |exact H2|exact H3|exact (inv_sent s Hs)| |].
  - apply current_stays; [by rewrite Hsent|done].
  - intros x Hx. destruct (inv_out s Hs x Hx) as (r & Hr & Hst). destruct (decide (sent_for x ∈ ids)) as [Hin|Hout].
    + assert (Hinh : sent_for x ∈ in_hand h) by (rewrite Hids; apply elem_of_app; by left).
      destruct (in_hand_claimed _ Hinh) as (r' & Hr' & Hcl). destruct Hst as [Hd|[_ Hbm]]; [congruence|].
      destruct (Hbm v h Hv Hinh) as (b & t & Hc & Ht & Heq). rewrite Heq in *.
      destruct (Hmark b t Hc Ht) as [[_ HP]|[Hno _]]; [|done]. destruct (Hmoves (item_id (head b))) as [_ Hm]. specialize (Hm Hin). rewrite Hr in Hm.
      destruct Hm as (r2 & Hr2 & _ & HPr). exists r2. split; [done|]. left. by apply HP.
    + exists r. rewrite (proj1 (Hmoves _) Hout). split; [done|]. destruct Hst as [Hd|[Hcl Hbm]]; [by left|right]. split; [done|].
      intros v2 h2. cbn [hands set_hand]. rewrite lookup_insert. case_decide; [intros [= <-] Hin|apply Hbm].
      destruct (Hbm v h Hv) as (b & t & Hc & Ht & Heq); [rewrite Hids; apply elem_of_app; by right|].
      destruct (Hmark b t Hc Ht) as [[Hno _]|[_ (t' & Hc' & Ht')]]; [by rewrite <-Heq in Hno|]. by exists b, t'.
  - intros id r Hr Hd. destruct (decide (id ∈ ids)) as [Hin|Hout]; [by eapply Htell|].
    rewrite (proj1 (Hmoves _) Hout) in Hr. by apply (inv_told s Hs).
Qed.
End hand.

(** The message of a burst's head goes out. *)
Lemma once_sends s v h b t t' rest w' x :
  once_inv s → hands s !! v = Some h → h = mk_hand (Some (b, t)) rest → to_mark t = false → head_marked t = false → to_mark t' = true →
  rows w' = rows (world s) → sent w' = sent (world s) ++ [x] → said_by b x →
  once_inv (set_hand s v w' (mk_hand (Some (b, t')) rest)).
Proof.
  intros Hs Hv Hh Ht Hm Ht' Hrows Hsent Hx. assert (Hm' : head_marked t' = false) by by destruct t'.
  assert (Hcur : current h = Some (b, t)) by by rewrite Hh.
  assert (Hids : in_hand h ≡ₚ [] ++ in_hand (mk_hand (Some (b, t')) rest)) by (rewrite Hh; unfold in_hand; cbn; by rewrite Hm, Hm').
  assert (Hmv : moves [] (λ _, False) (rows (world s)) (rows w')) by (rewrite Hrows; apply moves_nil).
  assert (Hhead : item_id (head b) ∈ in_hand h) by (rewrite Hh; unfold in_hand; cbn; rewrite Hm; apply elem_of_app; left; left).
  destruct (once_hands s Hs v h Hv _ w' [] _ Hids Hmv) as (H1 & H2 & H3); [by rewrite Hh|].
  split; cbn [world hands set_hand]; rewrite ?Hsent; [exact H1| |exact H2|exact H3| | |].
  - apply (current_stays s Hs v h Hv _ w' [] _ Hids Hmv); [intros y Hy; rewrite Hsent; apply elem_of_app; by left|].
    intros b2 t2 [= <- <-]. destruct (inv_current s Hs v h b t Hv Hcur) as [_ Hheld _ _]. rewrite Hm in Hheld. split; rewrite ?Hm', ?Hrows; try done.
    + by destruct t'.
    + intros _. exists x. rewrite Hsent. split; [apply elem_of_app; right; left|done].
  - rewrite fmap_app. apply NoDup_app. split; [exact (inv_sent s Hs)|]. split; [|apply NoDup_singleton].
    intros id (y & -> & Hy)%list_elem_of_fmap Hid%list_elem_of_singleton. eapply (in_hand_unsent s Hs v h Hv b t y); [done..|]. rewrite Hid. apply Hx.
  - intros y [Hy| ->%list_elem_of_singleton]%elem_of_app; rewrite Hrows.
    + destruct (inv_out s Hs y Hy) as (r & Hr & [Hd|[Hcl Hb]]); exists r; (split; [done|]); [by left|right]. split; [done|].
      intros v2 h2. cbn [hands set_hand]. rewrite lookup_insert. case_decide; [intros [= <-] Hin|apply Hb].
      destruct (Hb v h Hv) as (b2 & t2 & Hc2 & Ht2 & _); [by rewrite Hids|]. congruence.
    + destruct (in_hand_claimed s Hs v h Hv _ Hhead) as (r & Hr & Hcl). exists r. destruct Hx as [Hxid _]. rewrite Hxid. split; [done|right]. split; [done|].
      intros v2 h2. cbn [hands set_hand]. rewrite lookup_insert. case_decide; [intros [= <-] _; by exists b, t'|].
      intros Hv2 Hin. exfalso. assert (v = v2); [|done]. eapply (inv_apart s Hs); [exact Hv|exact Hv2|exact Hhead|]. by rewrite <-Hxid.
  - intros id r. rewrite Hrows. intros Hr Hd. destruct (inv_told s Hs id r Hr Hd) as (y & Hy & ?). exists y. split; [apply elem_of_app; by left|done].
Qed.

(** A dispatcher's next step. The outbox takes the marks of a delivery, and a
    send that raised sent nothing. *)
Definition marks (e : Env) : Prop := e_mark e = true ∧ ∀ err out, e_send e = SendRaises err out → out = None.
Lemma start_item_ok pl e b w : let '(w', t) := start_item pl e (head b) w in
  rows w' = rows w ∧ sent w' = sent w ∧ task_ok b t ∧ to_mark t = false ∧ head_marked t = false ∧ went_out t = false.
Proof.
  unfold start_item. destruct (negb (str_truthy _)); [done|]. destruct (negb (e_tenant e)); [done|]. destruct (negb (e_creds e)); [done|].
  destruct (asks_redis pl _ && _); [done|]. destruct (choose_edit pl (head b) (redis w)) as [[r u] said].
  destruct (uploads pl && _) eqn:Hm; [|split_and!; try done; apply prepend_sends, sends_for_refl].
  apply andb_prop in Hm as [_ Hm]. destruct (parse_media_markers _) as [paths cleaned]. destruct (str_truthy (strip cleaned)); split_and!; try done.
  apply prepend_sends. split; [done|]. by rewrite Hm.
Qed.
Section steps.
Context (s : System) (Hs : once_inv s) (v : nat) (b : Burst) (t : Task) (rest : list Burst).
Context (Hv : hands s !! v = Some (mk_hand (Some (b, t)) rest)).
Lemma once_carries_on t' w' :
  head_marked t' = head_marked t → task_ok b t' → (to_mark t = true → to_mark t' = true) → (went_out t' = true → went_out t = true) →
  rows w' = rows (world s) → sent w' = sent (world s) → once_inv (set_hand s v w' (mk_hand (Some (b, t')) rest)).
Proof using All.
  intros Hm Hok Ht Hw Hrows Hsent. pose proof (inv_current s Hs v _ b t Hv eq_refl) as [_ Hheld Hsay Hmk].
  apply (once_marks s Hs v _ Hv (mk_hand (Some (b, t')) rest) w' [] (λ _, False)); try done.
  - unfold in_hand. cbn. by rewrite Hm.
  - rewrite Hrows. apply moves_nil.
  - intros b2 t2 [= <- <-]. split; rewrite ?Hm, ?Hrows, ?Hsent; auto.
  - intros b2 t2 [= <- <-] Ht2. right. split; [by intros ?%elem_of_nil|]. exists t'. auto.
  - by intros id r ?%elem_of_nil.
Qed.
Lemma once_head t' w' P :
  head_marked t = false → head_marked t' = true → task_ok b t' → moves [item_id (head b)] P (rows (world s)) (rows w') → sent w' = sent (world s) →
  ((∀ st, P st → st ≠ Delivered) ∧ to_mark t = false ∧ went_out t' = false) ∨ ((∀ st, P st → st = Delivered) ∧ to_mark t = true) →
  once_inv (set_hand s v w' (mk_hand (Some (b, t')) rest)).
Proof using All.
  intros Hm Hm' Hok Hmv Hsent Hcase. pose proof (inv_current s Hs v _ b t Hv eq_refl) as [_ Hheld Hsay _]. rewrite Hm in Hheld.
  assert (Hids : in_hand (mk_hand (Some (b, t)) rest) ≡ₚ [item_id (head b)] ++ in_hand (mk_hand (Some (b, t')) rest)) by (unfold in_hand; cbn; by rewrite Hm, Hm').
  assert (Hheld' : held true (rows w') b).
  { eapply held_mono; [|by apply held_marked]. intros id r Hid Hr _. rewrite (proj1 (Hmv id)); [done|].
    intros ->%list_elem_of_singleton. pose proof (inv_hand s Hs v _ Hv) as Hnd. unfold in_hand in Hnd. cbn in Hnd. rewrite Hm in Hnd.
    apply NoDup_app in Hnd as (Hnd & _ & _). by apply NoDup_cons in Hnd as [? _]. }
  destruct (held_ids false (rows (world s)) b (item_id (head b)) Hheld) as (r & Hr & Hcl); [left|].
  destruct (Hmv (item_id (head b))) as [_ Hmh]. specialize (Hmh ltac:(left)). rewrite Hr in Hmh. destruct Hmh as (r' & Hr' & _ & HP).
  apply (once_marks s Hs v _ Hv _ w' [item_id (head b)] P Hids Hmv); try done.
  - intros b2 t2 [= <- <-]. split; rewrite ?Hm', ?Hsent; try done.
    + intros Hw. destruct Hcase as [(_ & _ & Hno)|[_ Ht]]; [congruence|]. apply Hsay. by destruct t.
    + intros Hw _. destruct Hcase as [(_ & _ & Hno)|[Hd _]]; [congruence|]. exists r'. auto.
  - intros b2 t2 [= <- <-] Ht2. left. split; [left|]. destruct Hcase as [(_ & Hno & _)|[Hd _]]; [congruence|done].
  - intros id r2 ->%list_elem_of_singleton Hr2 Hd. destruct Hcase as [(Hno & _)|[_ Ht]]; [destruct (Hno _ HP); congruence|].
    destruct Hsay as (x & Hx & Hfor & _); [by destruct t|]. exists x. split; [done|]. by left.
Qed.
End steps.

Lemma once_settled s v b d rest w' :
  once_inv s → hands s !! v = Some (mk_hand (Some (b, TDone d)) rest) → sent w' = sent (world s) →
  (rows w' = rows (world s) ∨ moves (item_id <$> absorbed b) (λ st, st = if d then Delivered else Pending) (rows (world s)) (rows w')) →
  once_inv (set_hand s v w' (mk_hand None rest)).
Proof.
  intros Hs Hv Hsent Hrows. pose proof (inv_current s Hs v _ b _ Hv eq_refl) as [_ Hheld Hsay _].
  assert (Hmv : moves (item_id <$> absorbed b) (λ st, st = Claimed ∨ st = if d then Delivered else Pending) (rows (world s)) (rows w')).
  { destruct Hrows as [->|Hm]; [|eapply moves_weaken; [exact Hm|by right]]. apply moves_same. intros id r Hid Hr. left.
    destruct (held_ids true _ b id Hheld Hid) as (r' & ? & ?). congruence. }
  assert (Hids : in_hand (mk_hand (Some (b, TDone d)) rest) ≡ₚ (item_id <$> absorbed b) ++ in_hand (mk_hand None rest)) by done.
  apply (once_marks s Hs v _ Hv (mk_hand None rest) w' _ _ Hids Hmv); try done; [by intros b2 t2 [= <- <-]|].
  intros id r Hid Hr Hd. destruct (Hmv id) as [_ Hm]. specialize (Hm Hid). destruct (held_ids true _ b id Hheld Hid) as (r0 & Hr0 & _).
  rewrite Hr0 in Hm. destruct Hm as (r' & Hr' & (_ & _ & _ & Hp) & HP). assert (r' = r) as -> by congruence.
  destruct d; [|destruct HP; congruence]. destruct (Hsay eq_refl) as (x & Hx & Hxb). exists x. split; [done|right].
  destruct (absorbed_told true _ b id x Hheld Hxb Hid) as (r1 & Hr1 & _ & ? & ?). assert (r1 = r0) as -> by congruence. by rewrite <-Hp.
Qed.

Lemma once_deliver pl e now s v h :
  marks e → once_inv s → hands s !! v = Some h →
  once_inv (let '(w, h) := deliver_step pl e now h (world s) in set_hand s v w h).
Proof.
  intros [He Hraise] Hs Hv. destruct h as [[[b t]|] rest]; cbn [deliver_step].
  - assert (Hgo : ∀ t' w', head_marked t' = head_marked t → task_ok b t' → (to_mark t = true → to_mark t' = true) → (went_out t' = true → went_out t = true) →
      rows w' = rows (world s) → sent w' = sent (world s) → once_inv (set_hand s v w' (mk_hand (Some (b, t')) rest))) by (by apply once_carries_on).
    pose proof (once_head s Hs v b t rest Hv) as Hhead. pose proof (del_task _ _ _ (inv_current s Hs v _ b t Hv eq_refl)) as Hok.
    destruct t as [i u said files|i u|i u|i u said|i after|i u said m|err|err|d]; cbn [item_step].
    + destruct Hok as [Hid Hmed]. destruct (if bool_decide _ then None else e_uploaded e) as [[|id ids]|].
      * apply Hgo; try done. apply prepend_sends. split; [done|]. by rewrite Hmed.
      * eapply (once_sends s v _ b _ (TDrop i u) rest); [exact Hs|exact Hv|done|done|done|done|done|done|]. split; [done|]. by rewrite Hmed.
      * apply Hgo; try done. apply prepend_sends. split; [done|]. by rewrite Hmed.
    + apply Hgo; try done; unfold delete_placeholder; by destruct u.
    + apply Hgo; try done; unfold forget_placeholder; destruct u, (e_redis_after e); done.
    + assert (Hsend : ∀ at_ m, once_inv (set_hand s v (log_sent at_ i (world s)) (mk_hand (Some (b, TMark i m)) rest))).
      { intros at_ m. destruct Hok as [Hid Htext]. eapply (once_sends s v _ b _ (TMark i m) rest); [exact Hs|exact Hv|done|done|done|done|done|done|]. by split. }
      unfold send_text. destruct (e_send e) as [err out|err|ts told|told] eqn:Ha; [rewrite (Hraise err out eq_refl); by apply Hgo|by apply Hgo|apply Hsend|apply Hsend].
    + rewrite He. eapply Hhead; [done|by destruct after as [[[? ?] ?]|]|by destruct after as [[[? ?] ?]|]|apply moves_keep_at|done|]. right. by split.
    + apply Hgo; try done; by destruct (e_redis_after e).
    + rewrite He. eapply Hhead; [done|done|done|apply moves_record_failure|done|]. left. split; [by intros st [->| ->]|done].
    + destruct (e_mark_again e).
      * eapply Hhead; [done|done|done|apply moves_record_failure|done|]. left. split; [by intros st [->| ->]|done].
      * eapply (Hhead _ _ (λ st, st = Claimed)); [done|done|done| |done|]; [|left; split; [by intros st ->|done]].
        apply moves_same. intros id r ->%list_elem_of_singleton Hr. destruct (in_hand_claimed s Hs v _ Hv (item_id (head b))) as (r' & ? & ?); [left|congruence].
    + destruct (settle_absorbed_moves e now b d (world s)). by eapply once_settled.
  - destruct rest as [|b rest].
    + unfold set_hand. rewrite insert_id by done. by destruct s.
    + pose proof (start_item_ok pl e b (world s)) as Hst. destruct (start_item pl e (head b) (world s)) as [w' t].
      destruct Hst as (Hrows & Hsent & Hok & Ht & Hm & Hw). pose proof (inv_todo s Hs v _ Hv) as Htodo. apply Forall_cons_1 in Htodo as [Hb _].
      apply (once_marks s Hs v _ Hv (mk_hand (Some (b, t)) rest) w' [] (λ _, False)); try done.
      * unfold in_hand. cbn. by rewrite Hm.
      * rewrite Hrows. apply moves_nil.
      * intros b2 Hb2. by right.
      * intros b2 t2 [= <- <-]. split; rewrite ?Hm, ?Hw, ?Hrows; done.
      * by intros id r ?%elem_of_nil.
Qed.

Lemma claimed_rows kind limit now free rows id r :
  rows !! id = Some r → out_status r ≠ Pending → (claim_batch kind limit now free rows).1 !! id = Some r.
Proof.
  intros Hr Hst. cbn. rewrite keep_at_lookup. case_bool_decide as Hid; [|done].
  apply list_elem_of_fmap in Hid as ([id' r'] & -> & Hin). apply batch_elem in Hin as [Hr' Hp]. cbn in *. congruence.
Qed.
Lemma once_claim kind worker free order now s :
  (∀ l, order l ≡ₚ l) → once_inv s →
  let c := claim_batch kind BATCH_LIMIT now free (rows (world s)) in
  once_inv (set_hand s worker (set_rows (world s) c.1) (mk_hand None (bursts (order c.2)))).
Proof.
  intros Hord Hs c.
  assert (Hlook : ∀ id, c.1 !! id = if bool_decide (id ∈ (batch kind BATCH_LIMIT now free (rows (world s))).*1)
    then (λ r, with_out r Claimed (available_at r)) <$> rows (world s) !! id else rows (world s) !! id) by (intros id; apply keep_at_lookup).
  assert (Hitem : ∀ i, i ∈ order c.2 → of_row c.1 i ∧ ∃ r, rows (world s) !! item_id i = Some r ∧ out_status r = Pending).
  { intros i Hi. rewrite Hord in Hi. apply list_elem_of_fmap in Hi as ([id r] & -> & Hin). pose proof (batch_elem _ _ _ _ _ _ _ Hin) as [Hr Hp].
    split; [|by exists r]. exists (with_out r Claimed (available_at r)). split_and!; try done. cbn [item_id item_of]. rewrite Hlook.
    rewrite bool_decide_true by exact (list_elem_of_fmap_2 fst _ _ Hin). cbn [fst]. by rewrite Hr. }
  assert (Hids : ∀ id, id ∈ in_hand (mk_hand None (bursts (order c.2))) → ∃ r, rows (world s) !! id = Some r ∧ out_status r = Pending).
  { intros id Hid. change (id ∈ bursts (order c.2) ≫= burst_items) in Hid. rewrite bursts_items in Hid. apply list_elem_of_fmap in Hid as (i & -> & Hi). by apply Hitem. }
  assert (Hfree : ∀ v h id, hands s !! v = Some h → id ∈ in_hand h → id ∉ in_hand (mk_hand None (bursts (order c.2)))).
  { intros v h id Hv Hid (r & Hr & Hp)%Hids. destruct (in_hand_claimed s Hs v h Hv id Hid) as (r' & ? & ?). congruence. }
  assert (Hkeep : ∀ id r, rows (world s) !! id = Some r → out_status r ≠ Pending → c.1 !! id = Some r) by (intros id r; apply claimed_rows).
  split; cbn [world hands sent set_rows set_hand rows].
  - intros v h. rewrite lookup_insert. case_decide; [intros [= <-]|intros Hv].
    + apply Forall_forall. intros b (h0 & Hb)%bursts_of. exists (order c.2), h0. split; [done|]. constructor; [apply Hitem, (of_item _ _ _ Hb)|].
      eapply Forall_impl; [exact (of_absorbed _ _ _ Hb)|]. intros i (Hi & _). by apply Hitem.
    + eapply Forall_impl; [exact (inv_todo s Hs v h Hv)|]. intros b. apply held_mono. intros id r _ Hr Hc. apply Hkeep; [done|by rewrite Hc].
  - intros v h b t. rewrite lookup_insert. case_decide; [intros [= <-]; done|intros Hv Hc].
    destruct (inv_current s Hs v h b t Hv Hc) as [Hok Hheld Hsay Hmk]. split; [done| |done|].
    + eapply held_mono; [|exact Hheld]. intros id r _ Hr Hcl. apply Hkeep; [done|by rewrite Hcl].
    + intros Hw Hm. destruct (Hmk Hw Hm) as (r & Hr & Hd). exists r. split; [|done]. apply Hkeep; [done|by rewrite Hd].
  - intros v h. rewrite lookup_insert. case_decide; [intros [= <-]|apply (inv_hand s Hs)]. change (NoDup (bursts (order c.2) ≫= burst_items)). rewrite bursts_items, Hord.
    change c.2 with ((λ x, item_of x.1 x.2) <$> batch kind BATCH_LIMIT now free (rows (world s))). rewrite <-list_fmap_compose. apply batch_NoDup.
  - intros v1 v2 h1 h2 id. rewrite !lookup_insert. do 2 case_decide; subst; try done.
    + intros [= <-] Hv2 Hid Hid2. by destruct (Hfree _ _ _ Hv2 Hid2).
    + intros Hv1 [= <-] Hid1 Hid. by destruct (Hfree _ _ _ Hv1 Hid1).
    + apply (inv_apart s Hs).
  - exact (inv_sent s Hs).
  - intros x Hx. destruct (inv_out s Hs x Hx) as (r & Hr & Hst). exists r. split; [apply Hkeep; [done|]; by destruct Hst as [->|[-> _]]|].
    destruct Hst as [Hd|[Hcl Hb]]; [by left|right]. split; [done|]. intros v h. cbn [hands set_hand]. rewrite lookup_insert.
    case_decide; [intros [= <-] Hin; exfalso|apply Hb]. destruct (Hids _ Hin) as (r' & ? & ?). congruence.
  - intros id r Hr Hd. apply (inv_told s Hs id r); [|done]. revert Hr. rewrite Hlook. case_bool_decide; [|done].
    intros (r0 & _ & ->)%fmap_Some. done.
Qed.
Lemma once_world s w' :
  once_inv s → sent w' = sent (world s) →
  (∀ id r, rows (world s) !! id = Some r → rows w' !! id = Some r) →
  (∀ id r, rows w' !! id = Some r → rows (world s) !! id = Some r ∨ out_status r = Pending) → once_inv (set_world s w').
Proof.
  intros Hs Hsent Hkeep Hnew. split; cbn [world hands set_world]; rewrite ?Hsent.
  - intros v h Hv. eapply Forall_impl; [exact (inv_todo s Hs v h Hv)|]. intros b. apply held_mono. eauto.
  - intros v h b t Hv Hc. destruct (inv_current s Hs v h b t Hv Hc) as [Hok Hheld Hsay Hmk]. split; rewrite ?Hsent; try done.
    + eapply held_mono; [|exact Hheld]. eauto.
    + intros Hw Hm. destruct (Hmk Hw Hm) as (r & ? & ?). eauto.
  - apply (inv_hand s Hs).
  - apply (inv_apart s Hs).
  - exact (inv_sent s Hs).
  - intros x Hx. destruct (inv_out s Hs x Hx) as (r & ? & ?). eauto.
  - intros id r Hr Hd. destruct (Hnew id r Hr) as [Hr'|Hp]; [by apply (inv_told s Hs)|by rewrite Hd in Hp].
Qed.
Lemma once_crash worker s : once_inv s → once_inv (mk_system (world s) (delete worker (hands s))).
Proof.
  intros [H1 H2 H3 H4 H5 H6 H7]. split; cbn [world hands]; try done.
  - intros v h [_ Hv]%lookup_delete_Some. eauto.
  - intros v h b t [_ Hv]%lookup_delete_Some. eauto.
  - intros v h [_ Hv]%lookup_delete_Some. eauto.
  - intros v1 v2 h1 h2 id [_ Hv1]%lookup_delete_Some [_ Hv2]%lookup_delete_Some. eauto.
  - intros x Hx. destruct (H6 x Hx) as (r & Hr & [Hd|[Hcl Hb]]); exists r; (split; [done|]); [by left|right]. split; [done|].
    intros v h Hv. cbn [hands] in Hv. apply lookup_delete_Some in Hv as [_ Hv]. exact (Hb v h Hv).
Qed.
Lemma once_empty : once_inv empty_system.
Proof. split; cbn; [by intros..|apply NoDup_nil_2|by intros x ?%elem_of_nil|by intros]. Qed.

(** A claim is answered with its rows, in an order SQL leaves open. *)
Definition marks_taken (a : Action) : Prop :=
  match a with
  | AClaim _ _ order => ∀ l, order l ≡ₚ l
  | ADeliver _ e => marks e
  | _ => True
  end.
Lemma inbound_rows session ch posted says w : rows (inbound session ch posted says w) = rows w ∧ sent (inbound session ch posted says w) = sent w.
Proof. unfold inbound. by destruct (placeholders _ !! _), posted. Qed.
Lemma once_step pl kind a now s : marks_taken a → once_inv s → once_inv (step pl kind a now s).
Proof.
  intros Ha Hs. destruct a as [session ev dest p|session ch posted says|session|session run|worker free order|worker e|worker]; cbn [step].
  - apply once_world; [done|done|intros *; apply enqueue_keeps|intros *; apply enqueue_new].
  - destruct (inbound_rows session ch posted says (world s)) as [Hr Hn]. apply once_world; [done|done| |]; rewrite Hr; auto.
  - apply once_world; auto.
  - apply once_world; auto.
  - destruct (idle _); [|done]. pose proof (once_claim kind worker free order now s Ha Hs) as Hcl. by destruct (claim_batch _ _ _ _ _) as [rs items].
  - destruct (hands s !! worker) as [h|] eqn:Hh; [|done]. by apply once_deliver.
  - by apply once_crash.
Qed.
Lemma once_run pl kind acts s : Forall (λ a, marks_taken a.1) acts → once_inv s → once_inv (run pl kind acts s).
Proof.
  intros Hacts. revert s. induction Hacts as [|[a now] acts Ha _ IH]; intros s Hs; [done|]. by apply IH, once_step.
Qed.


(** A dispatcher writes to the rows in its hands, and takes up no other. *)
Lemma record_failure_other i err now rows id : id ≠ item_id i → record_failure i err now rows !! id = rows !! id.
Proof. intros Hne. apply (moves_record_failure i err now rows id). by intros ->%list_elem_of_singleton. Qed.
Lemma item_step_others pl e now b t w w' t' id :
  item_step pl e now (head b) t w = (w', t') →
  (id ∉ left_ids (head_marked t) b → rows w' !! id = rows w !! id) ∧ (head_marked t = true → head_marked t' = true).
Proof.
  intros Hst. split; [|destruct t; try done; by injection Hst as <- <-]. intros Hno.
  assert (Hne : head_marked t = false → id ≠ item_id (head b)) by (intros Hm ->; rewrite Hm in Hno; apply Hno; left).
  destruct t as [i u said files|i u|i u|i u said|i after|i u said m|err|err|d]; cbn [item_step] in Hst; try specialize (Hne eq_refl).
  - destruct (if bool_decide _ then None else e_uploaded e) as [[|? ?]|]; by injection Hst as <- <-.
  - injection Hst as <- <-. unfold delete_placeholder. by destruct u.
  - injection Hst as <- <-. unfold forget_placeholder. by destruct u, (e_redis_after e).
  - unfold send_text in Hst. by destruct (e_send e) as [err [[ts|]|]| | |]; injection Hst as <- <-.
  - destruct (e_mark e); injection Hst as <- <-; [|done]. apply (moves_keep_at Delivered [item_id (head b)] (rows w) id). by intros ->%list_elem_of_singleton.
  - injection Hst as <- <-. by destruct (e_redis_after e).
  - destruct (e_mark e); injection Hst as <- <-; [by apply record_failure_other|done].
  - destruct (e_mark_again e); injection Hst as <- <-; [by apply record_failure_other|done].
  - by injection Hst as <- <-.
Qed.
Lemma deliver_step_others pl e now h w w' h' id :
  deliver_step pl e now h w = (w', h') →
  (id ∉ in_hand h → rows w' !! id = rows w !! id) ∧ (id ∈ in_hand h' → id ∈ in_hand h).
Proof.
  destruct h as [[[b t]|] rest].
  - assert (Hgo : ∀ w2 t2, item_step pl e now (head b) t w = (w2, t2) → (w2, mk_hand (Some (b, t2)) rest) = (w', h') →
      (id ∉ in_hand (mk_hand (Some (b, t)) rest) → rows w' !! id = rows w !! id) ∧ (id ∈ in_hand h' → id ∈ in_hand (mk_hand (Some (b, t)) rest))).
    { intros w2 t2 Hst [= <- <-]. destruct (item_step_others pl e now b t w w2 t2 id Hst) as [Hrows Hm]. unfold in_hand. cbn. split.
      - intros [Hno _]%not_elem_of_app. auto.
      - rewrite !elem_of_app. intros [Hin|Hin]; [left|by right]. destruct (head_marked t); [by rewrite Hm in Hin|].
        destruct (head_marked t2); [by right|done]. }
    cbn [deliver_step]. destruct t as [i u said files|i u|i u|i u said|i after|i u said m|err|err|d];
      try (destruct (item_step _ _ _ _ _ _) as [w2 t2] eqn:Hst; by apply Hgo).
    destruct (settle_absorbed_moves e now b d w) as [_ Hmv]. intros [= <- <-]. split; [|intros Hid; apply elem_of_app; by right].
    intros Hid. destruct Hmv as [->|Hmv]; [done|]. apply (Hmv id). intros Hin. apply Hid, elem_of_app. by left.
  - cbn [deliver_step]. destruct rest as [|b rest]; [by intros [= <- <-]|].
    pose proof (start_item_ok pl e b w) as Hst. destruct (start_item pl e (head b) w) as [w2 t]. destruct Hst as (Hrows & _ & _ & _ & Hm & _).
    intros [= <- <-]. rewrite Hrows. split; [done|]. unfold in_hand. cbn. by rewrite Hm.
Qed.

Lemma deliver_step_sent pl e now s v h w' h' x :
  once_inv s → hands s !! v = Some h → deliver_step pl e now h (world s) = (w', h') →
  x ∈ sent w' → x ∈ sent (world s) ∨ sent_for x ∈ in_hand h.
Proof.
  intros Hs Hv. destruct h as [[[b t]|] rest]; cbn [deliver_step].
  - pose proof (del_task _ _ _ (inv_current s Hs v _ b t Hv eq_refl)) as Hok.
    assert (Hhead : head_marked t = false → item_id (head b) ∈ in_hand (mk_hand (Some (b, t)) rest)) by (intros Hm; unfold in_hand; cbn; rewrite Hm; left).
    assert (Hlog : ∀ i at_, head_marked t = false → item_id i = item_id (head b) → x ∈ sent (log_sent at_ i (world s)) →
      x ∈ sent (world s) ∨ sent_for x ∈ in_hand (mk_hand (Some (b, t)) rest)).
    { intros i at_ Hm Hi [Hx| ->%list_elem_of_singleton]%elem_of_app; [by left|right]. cbn [sent_for]. rewrite Hi. by apply Hhead. }
    destruct t as [i u said files|i u|i u|i u said|i after|i u said m|err|err|d]; cbn [item_step].
    + destruct Hok as [Hi _]. destruct (if bool_decide _ then None else e_uploaded e) as [[|id ids]|]; intros [= <- <-]; [by left| |by left].
      intros [Hx| ->%list_elem_of_singleton]%elem_of_app; [by left|right]. cbn [sent_for]. rewrite Hi. by apply Hhead.
    + intros [= <- <-]. unfold delete_placeholder. destruct u; by left.
    + intros [= <- <-]. unfold forget_placeholder. destruct u, (e_redis_after e); by left.
    + destruct Hok as [Hi _]. unfold send_text. destruct (e_send e) as [err [[ts|]|]| | |]; intros [= <- <-]; try (by apply Hlog); by left.
    + destruct (e_mark e); intros [= <- <-]; by left.
    + intros [= <- <-]. destruct (e_redis_after e); by left.
    + destruct (e_mark e); intros [= <- <-]; by left.
    + intros [= <- <-]. destruct (e_mark_again e); by left.
    + intros [= <- <-]. rewrite (proj1 (settle_absorbed_moves e now b d (world s))). by left.
  - destruct rest as [|b rest]; [intros [= <- <-]; by left|].
    pose proof (start_item_ok pl e b (world s)) as Hst. destruct (start_item pl e (head b) (world s)) as [w2 t]. destruct Hst as (_ & Hsent & _).
    intros [= <- <-]. rewrite Hsent. by left.
Qed.

(** A row of a dispatcher that crashed: claimed, and in nobody's hands. *)
Definition stranded (id : nat) (s : System) : Prop :=
  (∃ r, rows (world s) !! id = Some r ∧ out_status r = Claimed) ∧ ∀ v h, hands s !! v = Some h → id ∉ in_hand h.
Lemma stranded_step pl kind a now s id : marks_taken a → stranded id s → stranded id (step pl kind a now s).
Proof.
  intros Ha Hst. pose proof Hst as [(r & Hr & Hc) Hno]. destruct a as [session ev dest p|session ch posted says|session|session run|worker free order|worker e|worker]; cbn [step].
  - split; [|done]. exists r. split; [|done]. by apply enqueue_keeps.
  - destruct (inbound_rows session ch posted says (world s)) as [Hrows _]. split; [|done]. cbn. rewrite Hrows. by exists r.
  - split; [by exists r|done].
  - split; [by exists r|done].
  - destruct (idle _); [|done]. assert (Hcl : let c := claim_batch kind BATCH_LIMIT now free (rows (world s)) in
      stranded id (set_hand s worker (set_rows (world s) c.1) (mk_hand None (bursts (order c.2))))).
    { split; [exists r; split; [|done]; apply claimed_rows; [done|by rewrite Hc]|]. cbn [hands set_hand]. intros v h. rewrite lookup_insert.
      case_decide; [intros [= <-]|apply Hno]. change (id ∉ bursts (order (claim_batch kind BATCH_LIMIT now free (rows (world s))).2) ≫= burst_items).
      rewrite bursts_items, Ha. intros (i & -> & Hi)%list_elem_of_fmap.
      apply list_elem_of_fmap in Hi as ([id r'] & -> & [Hr' Hp]%batch_elem). cbn in Hr. congruence. }
    by destruct (claim_batch _ _ _ _ _) as [rs items].
  - destruct (hands s !! worker) as [h|] eqn:Hh; [|done]. destruct (deliver_step pl e now h (world s)) as [w' h'] eqn:Hd.
    destruct (deliver_step_others _ _ _ _ _ _ _ id Hd) as [Hrows Hin]. split; cbn [world hands set_hand].
    + exists r. rewrite Hrows; [done|]. by eapply Hno.
    + intros v h2. rewrite lookup_insert. case_decide; [intros [= <-] Hid|apply Hno]. by apply (Hno _ _ Hh), Hin.
  - split; [by exists r|]. cbn [hands]. intros v h [_ Hv]%lookup_delete_Some. by eapply Hno.
Qed.
Lemma stranded_unsent pl kind a now s id :
  once_inv s → stranded id s → id ∉ sent_for <$> sent (world s) → id ∉ sent_for <$> sent (world (step pl kind a now s)).
Proof.
  intros Hs [_ Hno] Hun. destruct a as [session ev dest p|session ch posted says|session|session run|worker free order|worker e|worker]; cbn [step]; try done.
  - cbn. by rewrite (proj2 (inbound_rows session ch posted says (world s))).
  - destruct (idle _); [|done]. by destruct (claim_batch _ _ _ _ _).
  - destruct (hands s !! worker) as [h|] eqn:Hh; [|done]. destruct (deliver_step pl e now h (world s)) as [w' h'] eqn:Hd.
    intros (x & -> & Hx)%list_elem_of_fmap. destruct (deliver_step_sent _ _ _ _ _ _ _ _ x Hs Hh Hd Hx) as [Hold|Hin]; [|by apply (Hno _ _ Hh)].
    by apply Hun, (list_elem_of_fmap_2 sent_for).
Qed.
(** Nothing takes it up again: no later step sends it, retries it or drops it. *)
Lemma stranded_for_good pl kind acts id s :
  Forall (λ a, marks_taken a.1) acts → once_inv s → stranded id s → id ∉ sent_for <$> sent (world s) →
  stranded id (run pl kind acts s) ∧ id ∉ sent_for <$> sent (world (run pl kind acts s)).
Proof.
  intros Ha. revert s. induction Ha as [|[a now] acts Hm _ IH]; intros s Hs Hst Hun; [done|].
  apply IH; [by apply once_step|by apply stranded_step|by apply stranded_unsent].
Qed.

(** ** What was said stays *)

(** [kept]: each text that went out begins what its message says, and so does
    what Redis holds of that message; a message is of one session's record or of
    coding runs, and of an id the platform gave. *)
Definition plain (x : Sent) : Prop := sent_run x = None ∧ sent_text x ≠ "".
Definition p_place (p : Progress) : Place := (p_channel p, p_ts p).
Definition begins (t s : string) : Prop := ∃ rest, s = t +:+ rest.
Record kept (w : World) : Prop := {
  kept_shown : ∀ x, x ∈ sent w → plain x → ∃ s, shown w !! sent_at x = Some s ∧ begins (sent_text x) s;
  kept_record : ∀ x sess p, x ∈ sent w → plain x → placeholders (redis w) !! sess = Some p → p_place p = sent_at x →
    ∃ s, p_text p = Some s ∧ begins (sent_text x) s;
  kept_runs : ∀ x k, x ∈ sent w → plain x → code_runs (redis w) !! k ≠ Some (sent_at x);
  kept_apart : ∀ sess p k, placeholders (redis w) !! sess = Some p → code_runs (redis w) !! k ≠ Some (p_place p);
  kept_own : ∀ s1 s2 p1 p2, placeholders (redis w) !! s1 = Some p1 → placeholders (redis w) !! s2 = Some p2 → p_place p1 = p_place p2 → s1 = s2;
  kept_used : ∀ x, x ∈ sent w → sent_at x ∈ used w;
  kept_used_record : ∀ sess p, placeholders (redis w) !! sess = Some p → p_place p ∈ used w;
  kept_used_run : ∀ k at_, code_runs (redis w) !! k = Some at_ → at_ ∈ used w
}.
Lemma begins_refl t : begins t t.
Proof. exists "". by rewrite string_app_nil_r. Qed.
Lemma begins_app t s u : begins t s → begins t (s +:+ u).
Proof. intros [r ->]. exists (r +:+ u). by rewrite string_app_assoc. Qed.
Lemma kept_as w w' : redis w' = redis w → shown w' = shown w → sent w' = sent w → used w' = used w → kept w → kept w'.
Proof. intros Hr Hs Hn Hu [H1 H2 H3 H4 H5 H6 H7 H8]. split; rewrite ?Hr, ?Hs, ?Hn, ?Hu; auto. Qed.

(** [r] holds no more than [r']. *)
Definition fewer (r r' : Redis) : Prop := placeholders r ⊆ placeholders r' ∧ code_runs r ⊆ code_runs r'.
#[global] Instance fewer_preorder : PreOrder fewer.
Proof. split; [by intros r|]. intros r1 r2 r3 [] []. split; by etrans. Qed.
Lemma fewer_record r r' sess p : fewer r r' → placeholders r !! sess = Some p → placeholders r' !! sess = Some p.
Proof. intros [Hp _] Hs. by eapply lookup_weaken. Qed.
Lemma fewer_run r r' k a : fewer r r' → code_runs r !! k = Some a → code_runs r' !! k = Some a.
Proof. intros [_ Hc] Hk. by eapply lookup_weaken. Qed.
Lemma fewer_clear sess r : fewer (clear_placeholder sess r) r.
Proof. split; [apply delete_subseteq|done]. Qed.
Lemma kept_forget w r : fewer r (redis w) → kept w → kept (set_redis w r).
Proof.
  intros Hf [H1 H2 H3 H4 H5 H6 H7 H8].
  assert (Hp : ∀ s p, placeholders r !! s = Some p → placeholders (redis w) !! s = Some p) by (intros s p; by apply fewer_record).
  assert (Hc : ∀ k a, code_runs r !! k = Some a → code_runs (redis w) !! k = Some a) by (intros k a; by apply fewer_run).
  split; cbn; [auto|eauto|intros x k Hx Hpl Hk; eapply H3; eauto|intros s p k Hs Hk; eapply H4; eauto|eauto|auto|eauto|eauto].
Qed.
Lemma kept_clear w sess : kept w → kept (set_redis w (clear_placeholder sess (redis w))).
Proof. apply kept_forget, fewer_clear. Qed.
Lemma str_truthy_app s t : str_truthy s = true → str_truthy (s +:+ t) = true.
Proof. by destruct s. Qed.
Lemma str_truthy_ne s : str_truthy s = true → s ≠ "".
Proof. by intros Hs ->. Qed.

(** Where a message is written to: what is there begins [bound], and it is
    nobody else's. *)
Definition fresh (w : World) (at_ : Place) : Prop := at_ ∉ used w ∧ at_.2 ≠ "".
Definition carries (w : World) (at_ : Place) (bound : option string) : Prop :=
  ∀ x, x ∈ sent w → plain x → sent_at x = at_ → ∃ t, bound = Some t ∧ begins (sent_text x) t.
Definition is_run (i : Item) : Prop := code_run_of (item_payload i) ≠ None.
Record aims (w : World) (i : Item) (bound : option string) (ts : string) : Prop := {
  aim_ts : ts ≠ "";
  aim_carries : carries w (at_channel i ts) bound;
  aim_run : is_run i → ∀ s p, placeholders (redis w) !! s = Some p → p_place p ≠ at_channel i ts;
  aim_run_empty : is_run i → ∀ x, x ∈ sent w → plain x → sent_at x ≠ at_channel i ts;
  aim_plain : ¬ is_run i → ∀ k, code_runs (redis w) !! k ≠ Some (at_channel i ts);
  aim_own : ¬ is_run i → ∀ s p, placeholders (redis w) !! s = Some p → p_place p = at_channel i ts → s = item_session i
}.
Lemma fresh_aims w i bound ts : kept w → fresh w (at_channel i ts) → aims w i bound ts.
Proof.
  intros Hw [Hno Hts]. assert (Hx : ∀ x, x ∈ sent w → sent_at x ≠ at_channel i ts) by (intros x Hx Hat; apply Hno; rewrite <-Hat; by apply kept_used).
  assert (Hp : ∀ s p, placeholders (redis w) !! s = Some p → p_place p ≠ at_channel i ts) by (intros s p Hs Hat; apply Hno; rewrite <-Hat; by eapply kept_used_record).
  split; try done; [intros x Hin _ Hat; by destruct (Hx x Hin)|auto|intros _ k Hk; by eapply Hno, kept_used_run|intros _ s p Hs Hat; by destruct (Hp s p Hs)].
Qed.

Lemma kept_placeholder w sess ch ts text :
  kept w → (∀ x, x ∈ sent w → plain x → sent_at x = (ch, ts) → begins (sent_text x) text) →
  (∀ k, code_runs (redis w) !! k ≠ Some (ch, ts)) →
  (∀ s p, placeholders (redis w) !! s = Some p → p_place p = (ch, ts) → s = sess) → (ch, ts) ∈ used w →
  kept (set_redis w (set_placeholder sess ch ts text (redis w))).
Proof.
  intros [H1 H2 H3 H4 H5 H6 H7 H8] Ht Hc Hp Hu. split; cbn; try done.
  - intros x s p Hx Hpl. rewrite lookup_insert. case_decide; [intros [= <-] Hat|eauto]. cbn. destruct (Ht x Hx Hpl (eq_sym Hat)) as [rest ->].
    destruct Hpl as [_ Hne]. exists (sent_text x +:+ rest). split; [|by exists rest].
    rewrite str_truthy_app; [done|]. revert Hne. by destruct (sent_text x).
  - intros s p k. rewrite lookup_insert. case_decide; [intros [= <-]; apply Hc|apply H4].
  - intros s1 s2 p1 p2. rewrite !lookup_insert. do 2 case_decide; subst; try done.
    + intros [= <-] H2' Heq. symmetry. eapply Hp; [exact H2'|]. by rewrite <-Heq.
    + intros H1' [= <-] Heq. eapply Hp; [exact H1'|by rewrite Heq].
    + apply H5.
  - intros s p. rewrite lookup_insert. case_decide; [by intros [= <-]|apply H7].
Qed.
Lemma kept_code_run w sess run ch ts :
  kept w → (∀ x, x ∈ sent w → plain x → sent_at x ≠ (ch, ts)) → (∀ s p, placeholders (redis w) !! s = Some p → p_place p ≠ (ch, ts)) →
  (ch, ts) ∈ used w → kept (set_redis w (set_code_run_ts sess run ch ts (redis w))).
Proof.
  intros [H1 H2 H3 H4 H5 H6 H7 H8] Hx Hp Hu. split; cbn; try done.
  - intros x k Hin Hpl. rewrite lookup_insert. case_decide; [intros [= Heq]; by apply (Hx x Hin Hpl), eq_sym|by apply H3].
  - intros s p k Hs. rewrite lookup_insert. case_decide; [intros Heq; apply (Hp s p Hs); congruence|by apply (H4 s p)].
  - intros k a. rewrite lookup_insert. case_decide; [by intros [= <-]|apply H8].
Qed.
Lemma kept_log w at_ i (text := text_of (item_payload i)) :
  kept w → carries w at_ (Some text) →
  (¬ is_run i → (∀ k, code_runs (redis w) !! k ≠ Some at_) ∧ ∀ s p, placeholders (redis w) !! s = Some p → p_place p ≠ at_) →
  kept (log_sent at_ i w).
Proof.
  intros [H1 H2 H3 H4 H5 H6 H7 H8] Hold Hnew.
  assert (Hrun : ∀ x, x = mk_sent (item_id i) at_ text (code_run_of (item_payload i)) → plain x → ¬ is_run i) by (intros x -> [Hp _]; unfold is_run; cbn in Hp; congruence).
  split; cbn; try done.
  - intros x [Hx| ->%list_elem_of_singleton]%elem_of_app Hpl; cbn; rewrite lookup_insert.
    + case_decide as Hat; [|by apply H1]. exists text. split; [done|]. destruct (Hold x Hx Hpl (eq_sym Hat)) as (t & [= <-] & ?). done.
    + case_decide; [|done]. exists text. split; [done|apply begins_refl].
  - intros x s p [Hx|Hx%list_elem_of_singleton]%elem_of_app Hpl Hs Hat; [by eapply H2|].
    destruct (Hnew (Hrun x Hx Hpl)) as [_ Hno]. rewrite Hx in Hat. by destruct (Hno s p Hs).
  - intros x k [Hx|Hx%list_elem_of_singleton]%elem_of_app Hpl; [by apply H3|]. destruct (Hnew (Hrun x Hx Hpl)) as [Hno _]. rewrite Hx. apply Hno.
  - intros x [Hx| ->%list_elem_of_singleton]%elem_of_app; [apply H6 in Hx|]; set_solver.
  - intros s p Hs. apply H7 in Hs. set_solver.
  - intros k a Hk. apply H8 in Hk. set_solver.
Qed.
Lemma kept_files i id w : kept w → kept (log_files i id w).
Proof.
  intros [H1 H2 H3 H4 H5 H6 H7 H8].
  assert (Hin : ∀ x, x ∈ sent (log_files i id w) → plain x → x ∈ sent w).
  { intros x [Hx| ->%list_elem_of_singleton]%elem_of_app [_ Hpl]; done. }
  split; cbn [redis shown used log_files]; eauto.
  - intros x [Hx| ->%list_elem_of_singleton]%elem_of_app; [apply H6 in Hx|]; set_solver.
  - intros s p Hs. apply H7 in Hs. set_solver.
  - intros k a Hk. apply H8 in Hk. set_solver.
Qed.
Lemma kept_drop e i update_ts w :
  kept w → (∀ ts, update_ts = Some ts → carries w (at_channel i ts) None) → kept (delete_placeholder e i update_ts w).
Proof.
  intros Hw Hno. unfold delete_placeholder. destruct update_ts as [ts|]; [|done].
  destruct Hw as [H1 H2 H3 H4 H5 H6 H7 H8]. split; cbn; try done. intros x Hx Hpl. destruct (e_deleted e); [|by apply H1].
  rewrite lookup_delete_ne; [by apply H1|]. intros Hat. by destruct (Hno ts eq_refl x Hx Hpl (eq_sym Hat)) as (t & ? & _).
Qed.

(** The message an item edits, and what it says: its coding run's, or the
    placeholder of its session. *)
Definition edits (i : Item) (r : Redis) (update_ts said : option string) : Prop :=
  match update_ts, code_run_of (item_payload i) with
  | None, _ => True
  | Some ts, Some run => said = None ∧ code_runs r !! (item_session i, run) = Some (at_channel i ts) ∧ ts ≠ ""
  | Some ts, None => ∃ p, placeholders r !! item_session i = Some p ∧ p_place p = at_channel i ts ∧ p_text p = said ∧ ts ≠ ""
  end.
Lemma choose_edit_edits pl i r r' update_ts said :
  choose_edit pl i r = (r', update_ts, said) →
  edits i r' update_ts said ∧ fewer r' r
  ∧ (update_ts ≠ None → said ≠ None → narration_only (item_payload i) = true).
Proof.
  unfold choose_edit, edits. destruct (code_run_of (item_payload i)) as [run|].
  - intros [= <- <- <-]. split; [|by split]. destruct (supports_edit pl); [|done].
    unfold read_code_run_ts. destruct (code_runs r !! _) as [[c ts]|] eqn:Hk; [|done]. destruct (_ && _) eqn:Hc; [|done].
    apply andb_prop in Hc as [->%String.eqb_eq Hts%str_truthy_ne]. by split_and!.
  - unfold take_progress_update. destruct (placeholders r !! item_session i) as [p|] eqn:Hp; [|by intros [= <- <- <-]].
    destruct (String.eqb (p_channel p) _) eqn:Hc; cbn [negb]; [|intros [= <- <- <-]; split_and!; [done|apply fewer_clear|done]].
    apply String.eqb_eq in Hc. destruct (str_truthy (p_ts p)) eqn:Hts; [|by intros [= <- <- <-]].
    apply str_truthy_ne in Hts. assert (Hpl : p_place p = at_channel i (p_ts p)) by (unfold p_place, at_channel; by rewrite Hc).
    destruct (p_text p) as [t|] eqn:Ht; intros [= <- <- <-]; (split; [|split; [done|]]); [| |by exists p|done].
    + destruct (appends _ _ _); [by exists p|done].
    + unfold appends. by destruct (narration_only (item_payload i)).
Qed.
Lemma edits_aims i w ts said :
  kept w → edits i (redis w) (Some ts) said → aims w i said ts ∧ at_channel i ts ∈ used w.
Proof.
  intros Hw. unfold edits. destruct (code_run_of (item_payload i)) as [run|] eqn:Hrun.
  - assert (Hr : is_run i) by (unfold is_run; congruence). intros (-> & Hk & Hts). split; [|by eapply kept_used_run]. split; try done.
    + intros x Hx Hpl Hat. rewrite <-Hat in Hk. by destruct (kept_runs w Hw x _ Hx Hpl Hk).
    + intros _ s p Hs Hat. rewrite <-Hat in Hk. by destruct (kept_apart w Hw s p _ Hs Hk).
    + intros _ x Hx Hpl Hat. rewrite <-Hat in Hk. by destruct (kept_runs w Hw x _ Hx Hpl Hk).
  - assert (Hr : ¬ is_run i) by (intros Hr; by apply Hr). intros (p & Hp & Hat & Hsaid & Hts).
    split; [|rewrite <-Hat; by eapply kept_used_record]. split; try done.
    + intros x Hx Hpl Hx'. rewrite <-Hsaid. eapply (kept_record w Hw x); [done|done|exact Hp|congruence].
    + intros _ k. rewrite <-Hat. by eapply (kept_apart w Hw).
    + intros _ s p' Hs Hat'. apply (kept_own w Hw s (item_session i) p' p Hs Hp). congruence.
Qed.

(** [j] is [i] with another text. *)
Definition retold (i j : Item) : Prop :=
  item_session j = item_session i ∧ item_destination j = item_destination i ∧ code_run_of (item_payload j) = code_run_of (item_payload i).
Lemma code_run_set_text p s : code_run_of (set_text p s) = code_run_of p.
Proof. unfold code_run_of, get, set_text. by rewrite dict_get_set_ne. Qed.
Lemma retold_set_text i s : retold i (with_payload i (set_text (item_payload i) s)).
Proof. split_and!; try done. cbn. apply code_run_set_text. Qed.
Lemma retold_prepend update_ts said i j : retold i j → retold i (prepend_said update_ts said j).
Proof. intros (H1 & H2 & H3). unfold prepend_said. destruct update_ts, said; try done. split_and!; try done. cbn. by rewrite code_run_set_text. Qed.
Lemma retold_at i j ts : retold i j → at_channel j ts = at_channel i ts.
Proof. intros (_ & H2 & _). unfold at_channel. by rewrite H2. Qed.
Lemma retold_run i j : retold i j → is_run j ↔ is_run i.
Proof. intros (_ & _ & H3). unfold is_run. by rewrite H3. Qed.
Lemma retold_aims w i j bound bound' ts :
  retold i j → aims w i bound ts → (∀ t, bound = Some t → ∃ t', bound' = Some t' ∧ begins t t') → aims w j bound' ts.
Proof.
  intros Hij [H1 H2 H3 H4 H5 H6] Hb. pose proof (retold_at i j ts Hij) as Hat. pose proof (retold_run i j Hij) as Hr. destruct Hij as (Hs & _).
  split; rewrite ?Hat, ?Hs, ?Hr; try done. intros x Hx Hpl Hx'. destruct (H2 x Hx Hpl Hx') as (t & Ht & rest & ->).
  destruct (Hb _ Ht) as (t' & -> & rest' & ->). eexists. split; [done|]. apply begins_app, begins_app, begins_refl.
Qed.
Lemma prepend_begins ts said i t : said = Some t → begins t (text_of (item_payload (prepend_said (Some ts) said i))).
Proof. intros ->. cbn. rewrite text_of_set. by eexists. Qed.

(** What a write of Redis does is of its session's keys. *)
Definition put (sess : nat) (p : option (option Progress)) (c : option (string * Place)) (r : Redis) : Redis :=
  mk_redis (match p with Some o => partial_alter (λ _, o) sess (placeholders r) | None => placeholders r end)
    (match c with Some (run, at_) => <[(sess, run) := at_]> (code_runs r) | None => code_runs r end).
Lemma put_none sess r : put sess None None r = r.
Proof. by destruct r. Qed.
Lemma put_comm s1 s2 p1 p2 c1 c2 r : s1 ≠ s2 → put s1 p1 c1 (put s2 p2 c2 r) = put s2 p2 c2 (put s1 p1 c1 r).
Proof.
  intros Hne. unfold put. cbn. f_equal.
  - destruct p1, p2; try done. by apply partial_alter_partial_alter_ne.
  - destruct c1 as [[r1 a1]|], c2 as [[r2 a2]|]; try done. apply insert_insert_ne. congruence.
Qed.
Lemma put_mono sess p c r r' : fewer r r' → fewer (put sess p c r) (put sess p c r').
Proof.
  intros [Hp Hc]. split; cbn.
  - destruct p as [[p|]|]; [exact (insert_mono _ _ _ _ Hp)|exact (delete_mono _ _ _ Hp)|done].
  - destruct c as [[run a]|]; [by apply insert_mono|done].
Qed.
Lemma put_other sess p c r s2 : s2 ≠ sess → placeholders (put sess p c r) !! s2 = placeholders r !! s2.
Proof. intros Hne. cbn. destruct p; [|done]. by apply lookup_partial_alter_ne. Qed.
Lemma put_other_run sess p c r s2 run : s2 ≠ sess → code_runs (put sess p c r) !! (s2, run) = code_runs r !! (s2, run).
Proof. intros Hne. cbn. destruct c as [[run' a]|]; [|done]. apply lookup_insert_ne. congruence. Qed.
(** A placeholder posted is there, or is written over. *)
Lemma put_posted sess p c s2 ch ts r :
  put sess p c (set_placeholder s2 ch ts "" r) = put sess p c r ∨ put sess p c (set_placeholder s2 ch ts "" r) = set_placeholder s2 ch ts "" (put sess p c r).
Proof.
  destruct (decide (s2 = sess)) as [->|Hne].
  - destruct p as [o|]; [left|by right]. unfold put, set_placeholder. cbn. f_equal. by rewrite partial_alter_insert_eq.
  - right. apply (put_comm sess s2 p (Some (Some (mk_progress ch ts None))) c None r). done.
Qed.

(** What is recorded of a message is its place, of its session or its run. *)
Lemma record_put pl i update_ts said m :
  ∃ p c, (∀ r, record_progress pl i update_ts said m r = put (item_session i) p c r)
    ∧ (∀ p', p = Some (Some p') → ¬ is_run i ∧ ∃ ts, recorded_ts update_ts m = Some ts ∧ p' = mk_progress (missing "channel_id" (item_destination i)) ts (if str_truthy (text_of (item_payload i)) then Some (text_of (item_payload i)) else None))
    ∧ (∀ run at_, c = Some (run, at_) → is_run i ∧ ∃ ts, recorded_ts update_ts m = Some ts ∧ at_ = at_channel i ts)
    ∧ (¬ is_run i → update_ts ≠ None → p ≠ None).
Proof.
  unfold record_progress, is_run. destruct (code_run_of (item_payload i)) as [run|].
  - destruct (supports_edit pl); [destruct (recorded_ts update_ts m) as [ts|]; [destruct (str_truthy ts)|]|].
    1: exists None, (Some (run, at_channel i ts)); split_and!; [done|done|intros run' a [= <- <-]; split; [done|by exists ts]|intros Hn; by destruct Hn].
    all: exists None, None; split_and!; try done; intros Hn; by destruct Hn.
  - assert (Hkeep : ∃ p c, (∀ r, clear_placeholder (item_session i) r = put (item_session i) p c r) ∧ c = None ∧ p = Some None) by (by exists (Some None), None).
    destruct (_ && supports_edit pl); [destruct (recorded_ts update_ts m) as [ts|]; [destruct (_ && _)|]|destruct (_ || _) eqn:Hu].
    1: exists (Some (Some (mk_progress (missing "channel_id" (item_destination i)) ts (if str_truthy (text_of (item_payload i)) then Some (text_of (item_payload i)) else None)))), None;
      split_and!; [done|intros p' [= <-]; split; [by intros Hn; apply Hn|by exists ts]|done|done].
    1, 2, 3: exists (Some None), None; by split_and!.
    exists None, None. split_and!; [intros r; by rewrite put_none|done|done|]. apply orb_false_iff in Hu as [Hu%bool_decide_eq_false _]. naive_solver.
Qed.

(** Where a send goes: a new message, or the one it edits. *)
Section sending.
Context (pl : Platform) (i : Item) (w : World) (update_ts said : option string) (Hw : kept w).
Context (Haim : ∀ ts, update_ts = Some ts → aims w i (Some (text_of (item_payload i))) ts ∧ at_channel i ts ∈ used w).
Definition goes_to (ts : string) : Prop := fresh w (at_channel i ts) ∨ update_ts = Some ts.
Lemma goes_aims ts : goes_to ts → aims w i (Some (text_of (item_payload i))) ts.
Proof using Hw Haim. intros [Hf|Hu]; [by apply fresh_aims|by apply Haim]. Qed.
Lemma kept_sent ts m :
  goes_to ts → (∀ t, recorded_ts update_ts m = Some t → t = ts ∨ update_ts = Some t) →
  kept (set_redis (log_sent (at_channel i ts) i w) (record_progress pl i update_ts said m (redis w))).
Proof using Hw Haim.
  intros Hts Hm. destruct (record_put pl i update_ts said m) as (p & c & Hput & Hp & Hc & Htouch). rewrite Hput.
  pose proof (goes_aims ts Hts) as [_ Hcar Hrun Hrun0 Hpl Hown].
  assert (Hrec : ∀ t, recorded_ts update_ts m = Some t → goes_to t ∧ at_channel i t ∈ {[at_channel i ts]} ∪ used w).
  { intros t Ht. destruct (Hm t Ht) as [->|Hu]; [split; [done|set_solver]|]. split; [by right|]. apply Haim in Hu as [_ Hu]. set_solver. }
  destruct (decide (is_run i)) as [Hr|Hr].
  - assert (Hk : kept (log_sent (at_channel i ts) i w)) by (by apply kept_log).
    assert (p = None ∨ p = Some None) as Hp0. { destruct p as [[p|]|]; [|by right|by left]. by destruct (Hp p eq_refl). }
    destruct c as [[run a]|].
    + destruct (Hc run a eq_refl) as (_ & t & Ht & ->). destruct (Hrec t Ht) as [Htg Htu]. pose proof (goes_aims t Htg) as [_ _ Hrun' Hrun0' _ _].
      assert (Hk' : kept (set_redis (log_sent (at_channel i ts) i w) (set_code_run_ts (item_session i) run (missing "channel_id" (item_destination i)) t (redis w)))).
      { apply (kept_code_run (log_sent (at_channel i ts) i w)); [done| |by apply Hrun'|exact Htu].
        intros x [Hx| ->%list_elem_of_singleton]%elem_of_app Hx'; [by apply Hrun0'|]. by destruct Hx' as [Hx' _]. }
      refine (kept_forget _ _ _ Hk'). destruct Hp0 as [->| ->]; [done|]. split; [apply delete_subseteq|done].
    + apply (kept_forget (log_sent (at_channel i ts) i w)); [|done]. destruct Hp0 as [->| ->]; [by split|]. split; [apply delete_subseteq|done].
  - assert (c = None) as ->. { destruct c as [[run a]|]; [|done]. by destruct (Hc run a eq_refl). }
    assert (Hclear : kept (set_redis (log_sent (at_channel i ts) i w) (clear_placeholder (item_session i) (redis w)))).
    { apply (kept_log (set_redis w (clear_placeholder (item_session i) (redis w)))); [by apply kept_clear|exact Hcar|].
      intros _. split; [by apply Hpl|]. cbn. intros s p' [Hne Hs]%lookup_delete_Some Hat. apply Hne. by rewrite (Hown Hr s p' Hs Hat). }
    destruct p as [[p|]|]; [|exact Hclear|].
    + destruct (Hp p eq_refl) as (_ & t & Ht & ->). destruct (Hrec t Ht) as [Htg Htu]. pose proof (goes_aims t Htg) as [_ Hcar' _ _ Hpl' Hown'].
      pose proof (kept_placeholder _ (item_session i) (missing "channel_id" (item_destination i)) t (text_of (item_payload i)) Hclear) as Hk.
      cbn in Hk. unfold set_placeholder in Hk. cbn in Hk. rewrite insert_delete_eq in Hk. apply Hk; [|by apply Hpl'| |exact Htu].
      * intros x [Hx| ->%list_elem_of_singleton]%elem_of_app Hx' Hat; [|apply begins_refl]. destruct (Hcar' x Hx Hx' Hat) as (t' & [= <-] & ?). done.
      * intros s p' [_ Hs]%lookup_delete_Some. by apply Hown'.
    + rewrite put_none. destruct Hts as [Hf|Hu]; [|destruct (Htouch Hr); congruence].
      apply (kept_as (log_sent (at_channel i ts) i w)); try done. apply kept_log; [done|exact Hcar|]. intros _. split; [by apply Hpl|].
      intros s p' Hs Hat. destruct Hf as [Hf _]. apply Hf. rewrite <-Hat. by eapply kept_used_record.
Qed.
End sending.

(** A step that leaves what is known of a message [at_] as it was. *)
Record spares (w w' : World) (at_ : Place) (run : Prop) : Prop := {
  spare_sent : ∀ x, x ∈ sent w' → plain x → sent_at x = at_ → x ∈ sent w;
  spare_record : ∀ s p, placeholders (redis w') !! s = Some p → p_place p = at_ → placeholders (redis w) !! s = Some p;
  spare_run : ¬ run → ∀ k, code_runs (redis w') !! k = Some at_ → code_runs (redis w) !! k = Some at_
}.
Lemma spares_aims w w' i bound ts : spares w w' (at_channel i ts) (is_run i) → aims w i bound ts → aims w' i bound ts.
Proof.
  intros [S1 S2 S3] [H1 H2 H3 H4 H5 H6]. split; [done| | | | |].
  - intros x Hx Hpl Hat. apply H2; auto.
  - intros Hr s p Hs Hat. eapply H3; eauto.
  - intros Hr x Hx Hpl Hat. eapply H4; eauto.
  - intros Hr k Hk. eapply H5; eauto.
  - intros Hr s p Hs Hat. eapply H6; eauto.
Qed.
Lemma spares_fewer w w' at_ run :
  (∀ x, x ∈ sent w' → plain x → x ∈ sent w) → fewer (redis w') (redis w) → spares w w' at_ run.
Proof. intros Hs Hf. split; [auto|intros s p Hs' _; by eapply fewer_record|intros _ k Hk; by eapply fewer_run]. Qed.
Lemma sent_spares pl i w update_ts said ts m at2 run2 :
  goes_to i w update_ts ts → (∀ t, recorded_ts update_ts m = Some t → t = ts ∨ update_ts = Some t) → at2 ∈ used w →
  (∀ t, update_ts = Some t → at_channel i t = at2 → is_run i ∧ run2) →
  spares w (set_redis (log_sent (at_channel i ts) i w) (record_progress pl i update_ts said m (redis w))) at2 run2.
Proof.
  intros Hts Hm Hu Hne. destruct (record_put pl i update_ts said m) as (p & c & Hput & Hp & Hc & _). rewrite Hput.
  assert (Hat : ∀ t, goes_to i w update_ts t → at_channel i t = at2 → is_run i ∧ run2) by (intros t [[Hf _]|Hut] Hat; [by rewrite Hat in Hf|by eapply Hne]).
  assert (Hrec : ∀ t, recorded_ts update_ts m = Some t → at_channel i t = at2 → is_run i ∧ run2) by (intros t Ht; apply Hat; destruct (Hm t Ht) as [->|]; [done|by right]).
  split; cbn.
  - intros x [Hx| ->%list_elem_of_singleton]%elem_of_app Hpl Hx'; [done|]. destruct Hpl as [Hpl _]. by destruct (Hat ts Hts Hx') as [Hr _].
  - intros s p'. destruct p as [o|]; [|done]. rewrite lookup_partial_alter. case_decide; [|done]. intros -> Hp'.
    destruct (Hp p' eq_refl) as (Hr & t & Ht & ->). by destruct (Hrec t Ht Hp').
  - intros Hr2 k. destruct c as [[run a]|]; [|done]. rewrite lookup_insert. case_decide; [|done]. intros [= ->].
    destruct (Hc run at2 eq_refl) as (_ & t & Ht & ->). by destruct (Hrec t Ht eq_refl).
Qed.

(** A message that was sent and not yet recorded: what Redis is to hold of it,
    and of those of all the dispatchers. *)
Definition due_record (pl : Platform) (h : Hand) (r : Redis) : Redis :=
  match current h with
  | Some (_, TMark i (Some (update_ts, said, m))) | Some (_, TRecord i update_ts said m) => record_progress pl i update_ts said m r
  | _ => r
  end.
Definition due (pl : Platform) (hs : gmap nat Hand) (r : Redis) : Redis := map_fold (λ _, due_record pl) r hs.
Definition once_recorded (pl : Platform) (s : System) : World := set_redis (world s) (due pl (hands s) (redis (world s))).

(** A task is of its burst's session, and a session has one burst being
    delivered. *)
Definition task_item (t : Task) : option Item :=
  match t with
  | TFiles i _ _ _ | TDrop i _ | TForget i _ | TSend i _ _ | TMark i _ | TRecord i _ _ _ => Some i
  | TFail _ | TRaised _ | TDone _ => None
  end.
Definition tasked (b : Burst) (t : Task) : Prop := ∀ i, task_item t = Some i → item_session i = item_session (head b).
Definition away (hs : gmap nat Hand) (sess : nat) : Prop :=
  ∀ v h b t, hs !! v = Some h → current h = Some (b, t) → item_session (head b) ≠ sess.
Record hands_ok (hs : gmap nat Hand) : Prop := {
  ok_tasked : ∀ v h b t, hs !! v = Some h → current h = Some (b, t) → tasked b t;
  ok_away : ∀ v h b t, hs !! v = Some h → current h = Some (b, t) → away (delete v hs) (item_session (head b))
}.
Lemma hands_ok_delete hs v : hands_ok hs → hands_ok (delete v hs).
Proof.
  intros [H1 H2]. split; intros v1 h b t [_ Hv]%lookup_delete_Some Hc; [by eapply H1|].
  intros v2 h2 b2 t2 [Hne [_ Hv2]%lookup_delete_Some]%lookup_delete_Some. eapply (H2 v1 h b t Hv Hc v2). by apply lookup_delete_Some.
Qed.
Lemma hands_ok_set hs v h :
  hands_ok (delete v hs) → (∀ b t, current h = Some (b, t) → tasked b t ∧ away (delete v hs) (item_session (head b))) → hands_ok (<[v := h]> hs).
Proof.
  intros [H1 H2] Hh. split; intros v1 h1 b t [[<- <-]|[Hne Hv]]%lookup_insert_Some Hc.
  - by apply Hh.
  - eapply H1; [|done]. by apply lookup_delete_Some.
  - rewrite delete_insert_eq. by apply (Hh b t).
  - intros v2 h2 b2 t2 [Hne2 [[<- <-]|[Hne3 Hv2]]%lookup_insert_Some]%lookup_delete_Some Hc2.
    + intros Heq. apply (proj2 (Hh b2 t2 Hc2) v1 h1 b t); [by apply lookup_delete_Some|done|done].
    + apply (H2 v1 h1 b t) with (v := v2) (h := h2) (t := t2); [by apply lookup_delete_Some|done|by rewrite !lookup_delete_Some|done].
Qed.
Lemma due_record_put pl h : (∀ b t, current h = Some (b, t) → tasked b t) →
  (∀ r, due_record pl h r = r) ∨ ∃ b t p c, current h = Some (b, t) ∧ ∀ r, due_record pl h r = put (item_session (head b)) p c r.
Proof.
  intros Ht. unfold due_record. destruct (current h) as [[b t]|]; [|by left]. specialize (Ht b t eq_refl).
  assert (Hrec : ∀ i u said m, item_session i = item_session (head b) →
    ∃ b' t' p c, Some (b, t) = Some (b', t') ∧ ∀ r, record_progress pl i u said m r = put (item_session (head b')) p c r).
  { intros i u said m Hi. destruct (record_put pl i u said m) as (p & c & Hput & _). exists b, t, p, c. rewrite <-Hi. done. }
  destruct t as [i u said files|i u|i u|i u said|i [[[u said] m]|]|i u said m|err|err|d]; try (by left); right; by apply Hrec, Ht.
Qed.

Section due.
Context (pl : Platform).
Lemma due_rel (R : Redis → Redis → Prop) hs r r' :
  (∀ v h a a', hs !! v = Some h → R a a' → R (due_record pl h a) (due_record pl h a')) → R r r' → R (due pl hs r) (due pl hs r').
Proof.
  unfold due. rewrite !map_fold_foldr. intros Hstep Hr.
  assert (Hl : ∀ x, x ∈ map_to_list hs → hs !! x.1 = Some x.2) by (intros [v h]; apply elem_of_map_to_list).
  revert Hl. induction (map_to_list hs) as [|[v h] l IH]; intros Hl; [done|]. cbn. eapply Hstep; [apply (Hl (v, h)); left|].
  apply IH. intros x Hx. apply Hl. by right.
Qed.
(** Those of other sessions leave a session's keys. *)
Section away.
Context (hs : gmap nat Hand) (Hok : hands_ok hs) (sess : nat) (Haway : away hs sess).
Lemma away_put v h : hs !! v = Some h → ∃ s2 p c, s2 ≠ sess ∧ ∀ r, due_record pl h r = put s2 p c r.
Proof using Hok Haway.
  intros Hv. destruct (due_record_put pl h) as [Hid|(b & t & p & c & Hc & Hput)].
  - intros b t Hc. by eapply (ok_tasked _ Hok).
  - exists (S sess), None, None. split; [lia|]. intros r. by rewrite Hid, put_none.
  - exists (item_session (head b)), p, c. split; [|done]. by eapply Haway.
Qed.
Lemma due_same r : placeholders (due pl hs r) !! sess = placeholders r !! sess ∧ ∀ run, code_runs (due pl hs r) !! (sess, run) = code_runs r !! (sess, run).
Proof using Hok Haway.
  apply (due_rel (λ a _, placeholders a !! sess = placeholders r !! sess ∧ ∀ run, code_runs a !! (sess, run) = code_runs r !! (sess, run)) hs r r); [|done].
  intros v h a _ Hv [Hp Hc]. destruct (away_put v h Hv) as (s2 & p & c & Hne & ->). split; [by rewrite put_other|]. intros run. by rewrite put_other_run.
Qed.
Lemma due_put p c r : due pl hs (put sess p c r) = put sess p c (due pl hs r).
Proof using Hok Haway.
  apply (due_rel (λ a a', a = put sess p c a')); [|done]. intros v h a a' Hv ->. destruct (away_put v h Hv) as (s2 & p2 & c2 & Hne & Hput).
  rewrite !Hput. by apply put_comm.
Qed.
End away.
Lemma due_fewer hs r r' : hands_ok hs → fewer r r' → fewer (due pl hs r) (due pl hs r').
Proof.
  intros Hok. apply due_rel. intros v h a a' Hv Ha. destruct (due_record_put pl h) as [Hid|(b & t & p & c & Hc & Hput)].
  - intros b t Hc. by eapply (ok_tasked _ Hok).
  - by rewrite !Hid.
  - rewrite !Hput. by apply put_mono.
Qed.
Lemma due_posted hs s2 ch ts r : hands_ok hs →
  due pl hs (set_placeholder s2 ch ts "" r) = due pl hs r ∨ due pl hs (set_placeholder s2 ch ts "" r) = set_placeholder s2 ch ts "" (due pl hs r).
Proof.
  intros Hok. apply (due_rel (λ a a', a = a' ∨ a = set_placeholder s2 ch ts "" a')); [|by right].
  intros v h a a' Hv [->| ->]; [by left|]. destruct (due_record_put pl h) as [Hid|(b & t & p & c & Hc & Hput)].
  - intros b t Hc. by eapply (ok_tasked _ Hok).
  - right. by rewrite !Hid.
  - rewrite !Hput. apply put_posted.
Qed.
Lemma due_swap hs v1 v2 h1 h2 r : hands_ok hs → v1 ≠ v2 → hs !! v1 = Some h1 → hs !! v2 = Some h2 →
  due_record pl h1 (due_record pl h2 r) = due_record pl h2 (due_record pl h1 r).
Proof.
  intros Hok Hne Hv1 Hv2.
  destruct (due_record_put pl h1) as [Hid|(b & t & p & c & Hc & Hput)]; [intros b t Hc; exact (ok_tasked _ Hok v1 h1 b t Hv1 Hc)|by rewrite !Hid|].
  destruct (away_put (delete v1 hs) (hands_ok_delete hs v1 Hok) (item_session (head b)) (ok_away _ Hok v1 h1 b t Hv1 Hc) v2 h2) as (s2 & p2 & c2 & Hs & Hput2).
  { by apply lookup_delete_Some. }
  rewrite !Hput, !Hput2. by apply put_comm.
Qed.
Lemma due_set hs v h r : hands_ok (<[v := h]> hs) → due pl (<[v := h]> hs) r = due_record pl h (due pl (delete v hs) r).
Proof.
  intros Hok. unfold due. rewrite <-insert_delete_eq. apply (map_fold_insert_L (λ _, due_record pl)); [|apply lookup_delete_eq].
  rewrite insert_delete_eq. intros v1 v2 h1 h2 y Hne. by apply due_swap.
Qed.
Lemma due_get hs v h r : hands_ok hs → hs !! v = Some h → due pl hs r = due_record pl h (due pl (delete v hs) r).
Proof. intros Hok Hv. rewrite <-due_set; rewrite insert_id by done; done. Qed.
End due.

(** What the next writes of a delivery go to, and what is there begins. *)
Definition aim_of (h : Hand) : option (Item * option string * string) :=
  match current h with
  | Some (_, TFiles i (Some ts) _ _) | Some (_, TDrop i (Some ts)) => Some (i, None, ts)
  | Some (_, TSend i (Some ts) _) => Some (i, Some (text_of (item_payload i)), ts)
  | _ => None
  end.
Record sys_kept (pl : Platform) (s : System) : Prop := {
  sk_hands : hands_ok (hands s);
  sk_kept : kept (once_recorded pl s);
  sk_aims : ∀ v h i bound ts, hands s !! v = Some h → aim_of h = Some (i, bound, ts) →
    aims (once_recorded pl s) i bound ts ∧ at_channel i ts ∈ used (world s);
  sk_apart : ∀ v1 v2 h1 h2 i1 i2 bound1 bound2 ts1 ts2, v1 ≠ v2 → hands s !! v1 = Some h1 → hands s !! v2 = Some h2 →
    aim_of h1 = Some (i1, bound1, ts1) → aim_of h2 = Some (i2, bound2, ts2) → at_channel i1 ts1 = at_channel i2 ts2 → is_run i1 ∧ is_run i2
}.
Lemma aim_session h i bound ts b t : tasked b t → current h = Some (b, t) → aim_of h = Some (i, bound, ts) → item_session i = item_session (head b).
Proof.
  intros Ht Hc. unfold aim_of. rewrite Hc. destruct t as [j [u|] said files|j [u|]|j u|j [u|] said|j after|j u said m|err|err|d]; try done; intros [= <- <- <-]; by apply Ht.
Qed.
Lemma sk_set pl s v w' h' (w2 := set_redis w' (due_record pl h' (due pl (delete v (hands s)) (redis w')))) :
  sys_kept pl s → hands_ok (<[v := h']> (hands s)) → kept w2 → used (world s) ⊆ used w' →
  (∀ v2 h2 i bound ts, v2 ≠ v → hands s !! v2 = Some h2 → aim_of h2 = Some (i, bound, ts) → spares (once_recorded pl s) w2 (at_channel i ts) (is_run i)) →
  (∀ i bound ts, aim_of h' = Some (i, bound, ts) → aims w2 i bound ts ∧ at_channel i ts ∈ used w'
     ∧ ∀ v2 h2 i2 bound2 ts2, v2 ≠ v → hands s !! v2 = Some h2 → aim_of h2 = Some (i2, bound2, ts2) → at_channel i2 ts2 = at_channel i ts → is_run i2 ∧ is_run i) →
  sys_kept pl (set_hand s v w' h').
Proof.
  intros [H1 H2 H3 H4] Hok Hk Hu Hsp Ha. assert (Hw : once_recorded pl (set_hand s v w' h') = w2) by (unfold once_recorded; cbn [hands world set_hand]; by rewrite due_set).
  split; rewrite ?Hw; [done|done| |]; cbn [hands world set_hand].
  - intros v2 h2 i bound ts [[<- <-]|[Hne Hv2]]%lookup_insert_Some Haim; [by destruct (Ha i bound ts Haim) as (? & ? & _)|].
    destruct (H3 v2 h2 i bound ts Hv2 Haim) as [Hi Hin]. split; [|set_solver]. eapply spares_aims; [|exact Hi]. by eapply Hsp.
  - intros v1 v2 h1 h2 i1 i2 bo1 bo2 ts1 ts2 Hne [[<- <-]|[Hne1 Hv1]]%lookup_insert_Some [[<- <-]|[Hne2 Hv2]]%lookup_insert_Some Ha1 Ha2 Hat; try done.
    + destruct (Ha _ _ _ Ha1) as (_ & _ & Hb). destruct (Hb v2 h2 i2 bo2 ts2); auto.
    + destruct (Ha _ _ _ Ha2) as (_ & _ & Hb). destruct (Hb v1 h1 i1 bo1 ts1); auto.
    + exact (H4 v1 v2 h1 h2 i1 i2 bo1 bo2 ts1 ts2 Hne Hv1 Hv2 Ha1 Ha2 Hat).
Qed.
Lemma sk_world pl s w' (w2 := set_redis w' (due pl (hands s) (redis w'))) :
  sys_kept pl s → kept w2 → used (world s) ⊆ used w' →
  (∀ at_ run, at_ ∈ used (world s) → spares (once_recorded pl s) w2 at_ run) → sys_kept pl (set_world s w').
Proof.
  intros [H1 H2 H3 H4] Hk Hu Hsp. split; [done|done| |done]. intros v h i bound ts Hv Ha. destruct (H3 v h i bound ts Hv Ha) as [Hi Hin].
  split; [|cbn; set_solver]. eapply spares_aims; [|exact Hi]. by apply Hsp.
Qed.

(** Steps that send no text. *)
Lemma sk_quiet pl s v h h' w' (w2 := set_redis w' (due_record pl h' (due pl (delete v (hands s)) (redis w')))) :
  sys_kept pl s → hands s !! v = Some h → hands_ok (<[v := h']> (hands s)) → kept w2 → used (world s) ⊆ used w' →
  (∀ x, x ∈ sent w' → plain x → x ∈ sent (world s)) → fewer (redis w2) (redis (once_recorded pl s)) →
  (∀ j bound' ts, aim_of h' = Some (j, bound', ts) → ∃ i bound, aim_of h = Some (i, bound, ts) ∧ retold i j
     ∧ ∀ t, bound = Some t → ∃ t', bound' = Some t' ∧ begins t t') →
  sys_kept pl (set_hand s v w' h').
Proof.
  intros Hs Hv Hok Hk Hu Hsent Hf Ha. assert (Hsp : ∀ at_ run, spares (once_recorded pl s) w2 at_ run) by (intros at_ run'; by apply spares_fewer).
  apply sk_set; [done|done|exact Hk|done|by intros|]. intros j bound' ts Hj. destruct (Ha j bound' ts Hj) as (i & bound & Hi & Hij & Hb).
  destruct (sk_aims pl s Hs v h i bound ts Hv Hi) as [Haim Hin]. rewrite (retold_at i j ts Hij). split_and!.
  - eapply retold_aims; [exact Hij| |exact Hb]. by eapply spares_aims.
  - set_solver.
  - intros v2 h2 i2 bound2 ts2 Hne Hv2 Hi2 Hat. rewrite (retold_run i j Hij). exact (sk_apart pl s Hs v2 v h2 h i2 i bound2 bound ts2 ts Hne Hv2 Hv Hi2 Hi Hat).
Qed.
Lemma sk_goes pl s v h h' w' :
  sys_kept pl s → hands s !! v = Some h → hands_ok (<[v := h']> (hands s)) →
  (∀ r, due_record pl h' r = due_record pl h r) → redis w' = redis (world s) → kept (set_redis w' (redis (once_recorded pl s))) →
  used (world s) ⊆ used w' → (∀ x, x ∈ sent w' → plain x → x ∈ sent (world s)) →
  (∀ j bound' ts, aim_of h' = Some (j, bound', ts) → ∃ i bound, aim_of h = Some (i, bound, ts) ∧ retold i j
     ∧ ∀ t, bound = Some t → ∃ t', bound' = Some t' ∧ begins t t') →
  sys_kept pl (set_hand s v w' h').
Proof.
  intros Hs Hv Hok Hdue Hr Hk Hu Hsent Ha.
  assert (Heq : redis (once_recorded pl s) = due_record pl h' (due pl (delete v (hands s)) (redis w'))).
  { cbn. rewrite (due_get pl _ v h) by (try apply Hs; done). by rewrite Hdue, Hr. }
  rewrite Heq in Hk. apply (sk_quiet pl s v h); try done. by rewrite Heq.
Qed.
Lemma hands_ok_goes hs v b t t' rest :
  hands_ok hs → hs !! v = Some (mk_hand (Some (b, t)) rest) → tasked b t' → hands_ok (<[v := mk_hand (Some (b, t')) rest]> hs).
Proof.
  intros Hok Hv Ht. apply hands_ok_set; [by apply hands_ok_delete|]. intros b2 t2 [= <- <-]. split; [done|]. exact (ok_away _ Hok v _ b t Hv eq_refl).
Qed.
Lemma hands_ok_rests hs v rest : hands_ok hs → hands_ok (<[v := mk_hand None rest]> hs).
Proof. intros Hok. apply hands_ok_set; [by apply hands_ok_delete|done]. Qed.

(** What settles: a message is posted under an id of its own; of a message that
    went out, the mark and Redis' record are written, and its dispatcher does
    not crash before that; a send that raised sent nothing; and two dispatchers
    do not deliver rows of one session at a time. *)
Definition settled (a : Action) (s : System) : Prop :=
  match a with
  | AInbound _ ch posted _ => ∀ ts, posted = Some ts → fresh (world s) (ch, ts)
  | ADeliver worker e =>
    match hands s !! worker with
    | Some (mk_hand None (b :: _)) => away (delete worker (hands s)) (item_session (head b))
    | Some (mk_hand (Some (_, TSend i update_ts _)) _) =>
      match e_send e with
      | Posts ts _ => fresh (world s) (at_channel i ts)
      | Edits _ => update_ts ≠ None
      | SendRaises _ out => out = None
      | SendFails _ => True
      end
    | Some (mk_hand (Some (_, TMark _ (Some _))) _) => e_mark e = true
    | Some (mk_hand (Some (_, TRecord _ _ _ _)) _) => e_redis_after e = true
    | _ => True
    end
  | ACrash worker =>
    match hands s !! worker with
    | Some (mk_hand (Some (_, TMark _ (Some _))) _) | Some (mk_hand (Some (_, TRecord _ _ _ _)) _) => False
    | _ => True
    end
  | _ => True
  end.

Section worker.
Context (pl : Platform) (now : Z) (s : System) (Hs : sys_kept pl s) (v : nat) (b : Burst) (rest : list Burst).
(** The text goes out. *)
Lemma sk_sends i update_ts said ts m :
  hands s !! v = Some (mk_hand (Some (b, TSend i update_ts said)) rest) → goes_to i (world s) update_ts ts →
  (∀ t, recorded_ts update_ts m = Some t → t = ts ∨ update_ts = Some t) →
  sys_kept pl (set_hand s v (log_sent (at_channel i ts) i (world s)) (mk_hand (Some (b, TMark i (Some (update_ts, said, m)))) rest)).
Proof using Hs.
  intros Hv Hts Hm. pose proof (sk_hands pl s Hs) as Hok. pose proof (ok_tasked _ Hok v _ b _ Hv eq_refl i eq_refl) as Hi.
  assert (Hdue : redis (once_recorded pl s) = due pl (delete v (hands s)) (redis (world s))) by (cbn; by rewrite (due_get pl _ v _ _ Hok Hv)).
  assert (Haim : ∀ t, update_ts = Some t → aim_of (mk_hand (Some (b, TSend i update_ts said)) rest) = Some (i, Some (text_of (item_payload i)), t)) by (by intros t ->).
  apply sk_set; [done|eapply hands_ok_goes; [done|exact Hv|by intros i' [= <-]]| |cbn; set_solver| |done].
  - cbn. rewrite <-Hdue. apply (kept_sent pl i (once_recorded pl s) update_ts said); [apply Hs| |exact Hts|exact Hm].
    intros t Ht. exact (sk_aims pl s Hs v _ i _ t Hv (Haim t Ht)).
  - intros v2 h2 i2 bound2 ts2 Hne Hv2 Ha2. cbn. rewrite <-Hdue. apply (sent_spares pl i (once_recorded pl s) update_ts said); [exact Hts|exact Hm|by eapply (sk_aims pl s Hs v2)|].
    intros t Ht Hat. destruct (sk_apart pl s Hs v v2 _ h2 i i2 _ bound2 t ts2 (not_eq_sym Hne) Hv Hv2 (Haim t Ht) Ha2 Hat). done.
Qed.
Lemma sk_item e t :
  hands s !! v = Some (mk_hand (Some (b, t)) rest) → settled (ADeliver v e) s → (∀ d, t ≠ TDone d) →
  sys_kept pl (let '(w, t) := item_step pl e now (head b) t (world s) in set_hand s v w (mk_hand (Some (b, t)) rest)).
Proof using Hs.
  intros Hv Hset Hnd. cbn [settled] in Hset. rewrite Hv in Hset. pose proof (sk_hands pl s Hs) as Hok. pose proof (sk_kept pl s Hs) as Hk.
  pose proof (ok_tasked _ Hok v _ b t Hv eq_refl) as Ht.
  assert (Hgo : ∀ t' w', tasked b t' → (∀ r, due_record pl (mk_hand (Some (b, t')) rest) r = due_record pl (mk_hand (Some (b, t)) rest) r) →
    redis w' = redis (world s) → kept (set_redis w' (redis (once_recorded pl s))) → used (world s) ⊆ used w' → (∀ x, x ∈ sent w' → plain x → x ∈ sent (world s)) →
    (∀ j bound' ts, aim_of (mk_hand (Some (b, t')) rest) = Some (j, bound', ts) → ∃ i bound, aim_of (mk_hand (Some (b, t)) rest) = Some (i, bound, ts) ∧ retold i j
       ∧ ∀ u, bound = Some u → ∃ u', bound' = Some u' ∧ begins u u') →
    sys_kept pl (set_hand s v w' (mk_hand (Some (b, t')) rest))).
  { intros t' w' Ht'. apply (sk_goes pl s v (mk_hand (Some (b, t)) rest)); [done|done|]. by eapply hands_ok_goes. }
  assert (Hrows : ∀ rs, kept (set_redis (set_rows (world s) rs) (redis (once_recorded pl s)))) by (intros rs; by apply (kept_as (once_recorded pl s))).
  assert (Hresend : ∀ i u said files, t = TFiles i u said files → ∀ text, let j := prepend_said u said (with_payload i (set_text (item_payload i) text)) in
    sys_kept pl (set_hand s v (world s) (mk_hand (Some (b, TSend j u said)) rest))).
  { intros i u said files -> text j. assert (Hij : retold i j) by apply retold_prepend, retold_set_text. apply Hgo; try done.
    - intros j' [= <-]. destruct Hij as [-> _]. by apply Ht.
    - destruct u as [u|]; [|done]. intros j' bound' ts [= <- <- <-]. exists i, None. split_and!; done. }
  destruct t as [i u said files|i u|i u|i u said|i after|i u said m|err|err|d]; cbn [item_step].
  - destruct (if bool_decide _ then None else e_uploaded e) as [[|id ids]|]; [by eapply Hresend| |by eapply Hresend].
    apply Hgo; try done.
    + exact (kept_files i id _ Hk).
    + cbn. set_solver.
    + intros x [Hx| ->%list_elem_of_singleton]%elem_of_app Hpl; [done|]. by destruct Hpl as [_ []].
    + destruct u as [u|]; [|done]. intros j bound' ts [= <- <- <-]. exists i, None. split_and!; done.
  - assert (Hcar : ∀ ts, u = Some ts → carries (once_recorded pl s) (at_channel i ts) None).
    { intros ts ->. exact (aim_carries _ _ _ _ (proj1 (sk_aims pl s Hs v _ i None ts Hv eq_refl))). }
    apply Hgo; try (unfold delete_placeholder; by destruct u). pose proof (kept_drop e i u _ Hk Hcar) as Hd. unfold delete_placeholder in *. by destruct u.
  - unfold forget_placeholder. destruct u as [u|]; [destruct (e_redis_after e)|]; try (by apply Hgo).
    assert (Hf : fewer (due pl (delete v (hands s)) (clear_placeholder (item_session i) (redis (world s)))) (redis (once_recorded pl s))).
    { cbn. rewrite (due_get pl _ v _ _ Hok Hv). apply due_fewer; [by apply hands_ok_delete|apply fewer_clear]. }
    apply (sk_quiet pl s v (mk_hand (Some (b, TForget i (Some u))) rest)); try done.
    + by eapply hands_ok_goes.
    + exact (kept_forget _ _ Hf Hk).
  - cbn in Hset. unfold send_text. destruct (e_send e) as [err out|err|ts told|told].
    + rewrite Hset. by apply Hgo.
    + by apply Hgo.
    + apply sk_sends; [done|by left|]. unfold message_of, recorded_ts. destruct told; [|auto]. destruct (str_truthy ts); [|auto]. intros t [= <-]. by left.
    + destruct u as [u|]; [|done]. apply sk_sends; [done|by right|]. unfold message_of, recorded_ts. destruct told; [|auto]. destruct (str_truthy u); auto.
  - destruct after as [[[u said] m]|]; [rewrite Hset; by apply Hgo|]. destruct (e_mark e); by apply Hgo.
  - cbn in Hset. rewrite Hset. destruct (record_put pl i u said m) as (p & c & Hput & _).
    assert (Heq : due pl (delete v (hands s)) (record_progress pl i u said m (redis (world s))) = redis (once_recorded pl s)).
    { cbn. rewrite (due_get pl _ v _ _ Hok Hv). cbn. rewrite !Hput. apply due_put; [by apply hands_ok_delete|].
      rewrite (Ht i eq_refl). exact (ok_away _ Hok v _ b _ Hv eq_refl). }
    apply (sk_quiet pl s v (mk_hand (Some (b, TRecord i u said m)) rest)); try done; cbn [redis set_redis due_record current].
    + by eapply hands_ok_goes.
    + rewrite Heq. by apply (kept_as (once_recorded pl s)).
    + by rewrite Heq.
  - destruct (e_mark e); by apply Hgo.
  - destruct (e_mark_again e); by apply Hgo.
  - by destruct (Hnd d).
Qed.
(** A delivery starts. *)
Lemma sk_start e :
  hands s !! v = Some (mk_hand None (b :: rest)) → away (delete v (hands s)) (item_session (head b)) →
  sys_kept pl (let '(w, t) := start_item pl e (head b) (world s) in set_hand s v w (mk_hand (Some (b, t)) rest)).
Proof using Hs.
  intros Hv Haway. pose proof (sk_hands pl s Hs) as Hok. pose proof (sk_kept pl s Hs) as Hk.
  pose proof (hands_ok_delete _ v Hok) as Hokd. set (i := head b) in *.
  assert (Hokt : ∀ t, tasked b t → hands_ok (<[v := mk_hand (Some (b, t)) rest]> (hands s))).
  { intros t Ht. apply hands_ok_set; [done|]. by intros b2 t2 [= <- <-]. }
  assert (Hfail : ∀ t, tasked b t → (∀ r, due_record pl (mk_hand (Some (b, t)) rest) r = r) → aim_of (mk_hand (Some (b, t)) rest) = None →
    sys_kept pl (set_hand s v (world s) (mk_hand (Some (b, t)) rest))).
  { intros t Ht Hd Ha. apply (sk_goes pl s v (mk_hand None (b :: rest))); try done; [by apply Hokt|]. intros j bound' ts. by rewrite Ha. }
  assert (Hdue : redis (once_recorded pl s) = due pl (delete v (hands s)) (redis (world s))) by (cbn; by rewrite (due_get pl _ v _ _ Hok Hv)).
  unfold start_item. destruct (negb (str_truthy _)); [by apply Hfail|]. destruct (negb (e_tenant e)); [by apply Hfail|].
  destruct (negb (e_creds e)); [by apply Hfail|]. destruct (asks_redis pl i && _); [by apply Hfail|].
  destruct (choose_edit pl i (redis (world s))) as [[r u] said] eqn:Hch. destruct (choose_edit_edits _ _ _ _ _ _ Hch) as (He & Hf & Hnar).
  set (D := due pl (delete v (hands s))) in *. set (w2 := set_redis (world s) (D r)).
  assert (Hfd : fewer (D r) (redis (once_recorded pl s))) by (rewrite Hdue; by apply due_fewer).
  assert (Hk2 : kept w2) by exact (kept_forget _ _ Hfd Hk).
  destruct (due_same pl _ Hokd _ Haway r) as [Hsp Hsr].
  assert (He2 : edits i (redis w2) u said) by (unfold edits in *; cbn; unfold D; by rewrite Hsp, Hsr || (destruct u, (code_run_of (item_payload i)); rewrite ?Hsp, ?Hsr)).
  assert (Hgo : ∀ t, tasked b t → (∀ r, due_record pl (mk_hand (Some (b, t)) rest) r = r) →
    (∀ j bound ts, aim_of (mk_hand (Some (b, t)) rest) = Some (j, bound, ts) → u = Some ts ∧ retold i j ∧ ∀ x, said = Some x → ∃ x', bound = Some x' ∧ begins x x') →
    sys_kept pl (set_hand s v (set_redis (world s) r) (mk_hand (Some (b, t)) rest))).
  { intros t Ht Hid Ha. apply sk_set; [done|by apply Hokt|rewrite Hid; exact Hk2|done| |].
    - intros v2 h2 j bound ts _ _ _. apply spares_fewer; [done|]. by rewrite Hid.
    - rewrite Hid. intros j bound ts Hj. destruct (Ha j bound ts Hj) as (-> & Hij & Hb). destruct (edits_aims i w2 ts said Hk2 He2) as [Haim Hin].
      rewrite (retold_at i j ts Hij). split_and!; [by eapply retold_aims|done|].
      intros v2 h2 i2 bound2 ts2 Hne Hv2 Ha2 Hat. rewrite (retold_run i j Hij). destruct (sk_aims pl s Hs v2 h2 i2 bound2 ts2 Hv2 Ha2) as [Haim2 _].
      assert (Hsp2 : spares (once_recorded pl s) w2 (at_channel i2 ts2) (is_run i2)) by (by apply spares_fewer).
      pose proof (spares_aims _ _ _ _ _ Hsp2 Haim2) as [_ _ Hr2 _ Hp2 Ho2]. rewrite Hat in *.
      destruct (code_run_of (item_payload i)) as [run|] eqn:Hrun.
      + assert (Hr : is_run i) by (unfold is_run; congruence). split; [|done]. destruct (decide (is_run i2)) as [|Hn2]; [done|].
        unfold edits in He2. rewrite Hrun in He2. destruct He2 as (_ & Hkk & _). by destruct (Hp2 Hn2 _ Hkk).
      + unfold edits in He2. rewrite Hrun in He2. destruct He2 as (p & Hp & Hpl & _). exfalso. destruct (decide (is_run i2)) as [Hr|Hn2]; [by eapply Hr2|].
        pose proof (Ho2 Hn2 _ p Hp Hpl) as Hss. destruct (current h2) as [[b2 t2]|] eqn:Hc2; [|unfold aim_of in Ha2; by rewrite Hc2 in Ha2].
        apply (Haway v2 h2 b2 t2); [by apply lookup_delete_Some|done|].
        rewrite <-(aim_session h2 i2 bound2 ts2 b2 t2 (ok_tasked _ Hok v2 h2 b2 t2 Hv2 Hc2) Hc2 Ha2). done. }
  assert (Hsend : ∀ j, retold i j → sys_kept pl (set_hand s v (set_redis (world s) r) (mk_hand (Some (b, TSend (prepend_said u said j) u said)) rest))).
  { intros j Hij. pose proof (retold_prepend u said i j Hij) as Hij'. apply Hgo; [|done|].
    - intros j' [= <-]. by destruct Hij'.
    - destruct u as [u|]; [|done]. intros j' bound ts [= <- <- <-]. split_and!; try done. intros x ->. eexists. split; [done|]. exact (prepend_begins u (Some x) j x eq_refl). }
  destruct (uploads pl && _) eqn:Hmed; [|by apply Hsend]. apply andb_prop in Hmed as [_ Hmed].
  destruct (parse_media_markers _) as [paths cleaned]. destruct (str_truthy (strip cleaned)); [apply Hsend, retold_set_text|].
  apply Hgo; [|done|].
  - intros j [= <-]. done.
  - destruct u as [u|]; [|done]. intros j bound ts [= <- <- <-]. split_and!; [done|apply retold_set_text|]. intros x ->.
    assert (Hn : narration_only (item_payload i) = true) by (by apply Hnar). apply narration_only_media in Hn. congruence.
Qed.
End worker.
Lemma sk_deliver pl e now s v h :
  sys_kept pl s → settled (ADeliver v e) s → hands s !! v = Some h →
  sys_kept pl (let '(w, h) := deliver_step pl e now h (world s) in set_hand s v w h).
Proof.
  intros Hs Hset Hv. destruct h as [[[b t]|] rest]; cbn [deliver_step].
  - pose proof (sk_item pl now s Hs v b rest e t Hv Hset) as Hitem.
    destruct t as [i u said files|i u|i u|i u said|i after|i u said m|err|err|d]; try (specialize (Hitem ltac:(done)); by destruct (item_step pl e now (head b) _ (world s))).
    apply (sk_goes pl s v (mk_hand (Some (b, TDone d)) rest)); try done.
    + apply hands_ok_rests, Hs.
    + by unfold settle_absorbed; destruct (absorbed b), (e_mark_absorbed e).
    + eapply kept_as; [| | | |exact (sk_kept pl s Hs)]; unfold settle_absorbed; by destruct (absorbed b), (e_mark_absorbed e).
    + by unfold settle_absorbed; destruct (absorbed b), (e_mark_absorbed e).
    + intros x. unfold settle_absorbed; by destruct (absorbed b), (e_mark_absorbed e).
  - destruct rest as [|b rest]; [unfold set_hand; rewrite insert_id by done; by destruct s|].
    cbn [settled] in Hset. rewrite Hv in Hset. pose proof (sk_start pl s Hs v b rest e Hv Hset) as Hst. by destruct (start_item pl e (head b) (world s)).
Qed.
Lemma kept_posted w at_ says : kept w → fresh w at_ → kept (mk_world (rows w) (redis w) (<[at_ := says]> (shown w)) (sent w) ({[at_]} ∪ used w)).
Proof.
  intros [H1 H2 H3 H4 H5 H6 H7 H8] [Hf _]. split; cbn; try done.
  - intros x Hx Hpl. rewrite lookup_insert_ne; [by apply H1|]. intros ->. by apply Hf, H6.
  - intros x Hx. apply H6 in Hx. set_solver.
  - intros s p Hs. apply H7 in Hs. set_solver.
  - intros k a Hk. apply H8 in Hk. set_solver.
Qed.
Lemma sk_inbound pl s session ch posted says :
  sys_kept pl s → (∀ ts, posted = Some ts → fresh (world s) (ch, ts)) → sys_kept pl (set_world s (inbound session ch posted says (world s))).
Proof.
  intros Hs Hf. pose proof (sk_kept pl s Hs) as Hk. unfold inbound. destruct (placeholders (redis (world s)) !! session) as [p|] eqn:Hp; [by destruct s, posted|].
  destruct posted as [ts|]; [|by destruct s]. specialize (Hf ts eq_refl). pose proof (kept_posted _ (ch, ts) says Hk Hf) as Hk2.
  unfold post_placeholder_once. rewrite Hp. destruct Hf as [Hf Hts]. cbn in Hts. assert (str_truthy ts = true) as -> by by destruct ts.
  assert (Hno : ∀ k, code_runs (redis (once_recorded pl s)) !! k ≠ Some (ch, ts)) by (intros k Hkk; by eapply Hf, (kept_used_run _ Hk)).
  assert (Hno2 : ∀ s2 p2, placeholders (redis (once_recorded pl s)) !! s2 = Some p2 → p_place p2 ≠ (ch, ts)).
  { intros s2 p2 Hs2 Hat. apply Hf. rewrite <-Hat. by eapply (kept_used_record _ Hk). }
  destruct (due_posted pl (hands s) session ch ts (redis (world s)) (sk_hands pl s Hs)) as [Hd|Hd].
  - apply sk_world; [done| |cbn; set_solver|]; cbn [redis set_redis]; rewrite Hd; [exact Hk2|]. intros at_ run' _. by apply spares_fewer.
  - apply sk_world; [done| |cbn; set_solver|]; cbn [redis set_redis]; rewrite Hd.
    + apply (kept_placeholder _ session ch ts "" Hk2); [intros x Hx _ Hat; destruct Hf; rewrite <-Hat; by apply (kept_used _ Hk)|exact Hno|intros s2 p2 Hs2 Hat; by destruct (Hno2 s2 p2 Hs2)|cbn; set_solver].
    + intros at_ run' Hin. split; cbn; try done. intros s2 p2. rewrite lookup_insert. case_decide; [|done]. intros [= <-] <-. done.
Qed.
Lemma sk_forget pl s r : sys_kept pl s → fewer r (redis (world s)) → sys_kept pl (set_world s (set_redis (world s) r)).
Proof.
  intros Hs Hf. apply (due_fewer pl (hands s)) in Hf; [|apply Hs]. apply sk_world; [done|exact (kept_forget (once_recorded pl s) _ Hf (sk_kept pl s Hs))|done|].
  intros at_ run' _. by apply spares_fewer.
Qed.
Lemma sk_crash pl s v : sys_kept pl s → settled (ACrash v) s → sys_kept pl (mk_system (world s) (delete v (hands s))).
Proof.
  intros Hs Hset. destruct (hands s !! v) as [h|] eqn:Hv; [|rewrite delete_id by done; by destruct s]. pose proof (sk_hands pl s Hs) as Hok.
  assert (Hd : redis (once_recorded pl s) = due pl (delete v (hands s)) (redis (world s))).
  { cbn. rewrite (due_get pl _ v h _ Hok Hv). cbn [settled] in Hset. rewrite Hv in Hset. unfold due_record.
    destruct h as [[[b t]|] rest]; [|done]. destruct t as [? ? ? ?|? ?|? ?|? ? ?|? [?|]|? ? ? ?|?|?|?]; done. }
  assert (Hw : once_recorded pl (mk_system (world s) (delete v (hands s))) = once_recorded pl s).
  { unfold once_recorded in *. cbn [redis set_redis] in Hd. cbn [hands world]. by rewrite Hd. }
  split; rewrite ?Hw; cbn [hands world].
  - by apply hands_ok_delete.
  - apply Hs.
  - intros v2 h2 i bound ts [_ Hv2]%lookup_delete_Some. by apply (sk_aims pl s Hs v2 h2).
  - intros v1 v2 h1 h2 i1 i2 bo1 bo2 ts1 ts2 Hne [_ Hv1]%lookup_delete_Some [_ Hv2]%lookup_delete_Some. by apply (sk_apart pl s Hs v1 v2 h1 h2 i1 i2 bo1 bo2 ts1 ts2).
Qed.
Lemma sk_claim pl s v rs bs : sys_kept pl s → idle (hands s !! v) = true → sys_kept pl (set_hand s v (set_rows (world s) rs) (mk_hand None bs)).
Proof.
  intros Hs Hi. pose proof (sk_hands pl s Hs) as Hok.
  assert (Hd : redis (once_recorded pl s) = due pl (delete v (hands s)) (redis (world s))).
  { cbn. destruct (hands s !! v) as [h|] eqn:Hv; [|by rewrite delete_id]. rewrite (due_get pl _ v h _ Hok Hv). by destruct h as [[?|] [|]]. }
  apply sk_set; [done|by apply hands_ok_rests| |done| |done]; unfold due_record; cbn [current redis set_rows]; rewrite <-Hd.
  - by apply (kept_as (once_recorded pl s)), Hs.
  - intros v2 h2 i bound ts _ _ _. by apply spares_fewer.
Qed.
Fixpoint settled_run (pl : Platform) (kind : string) (acts : list (Action * Z)) (s : System) : Prop :=
  match acts with [] => True | (a, now) :: acts => settled a s ∧ settled_run pl kind acts (step pl kind a now s) end.
Lemma sk_step pl kind a now s : settled a s → sys_kept pl s → sys_kept pl (step pl kind a now s).
Proof.
  intros Ha Hs. destruct a as [session ev dest p|session ch posted says|session|session run|worker free order|worker e|worker]; cbn [step].
  - apply sk_world; [done| |done|]; [by apply (kept_as (once_recorded pl s)), Hs|]. intros at_ run' _. by apply spares_fewer.
  - by apply sk_inbound.
  - by apply sk_forget, fewer_clear.
  - apply sk_forget; [done|]. split; [done|apply delete_subseteq].
  - destruct (idle (hands s !! worker)) eqn:Hi; [|done]. destruct (claim_batch _ _ _ _ _) as [rs items]. by apply sk_claim.
  - destruct (hands s !! worker) as [h|] eqn:Hv; [|done]. by apply sk_deliver.
  - by apply sk_crash.
Qed.
Lemma sk_run pl kind acts s : settled_run pl kind acts s → sys_kept pl s → sys_kept pl (run pl kind acts s).
Proof.
  revert s. induction acts as [|[a now] acts IH]; intros s; [done|]. intros [Ha Hrest] Hs. apply IH; [done|by apply sk_step].
Qed.
Lemma sk_empty pl : sys_kept pl empty_system.
Proof. split; cbn; [split; by intros v h b t|split; cbn; try done; by intros x ?%elem_of_nil|by intros|by intros]. Qed.


(** ** On a chat *)

Definition freshb (w : World) (at_ : Place) : bool := bool_decide (at_ ∉ used w) && str_truthy at_.2.
Lemma freshb_fresh w at_ : freshb w at_ = true → fresh w at_.
Proof. intros [Hu%bool_decide_eq_true Hne%str_truthy_ne]%andb_prop. done. Qed.
Definition awayb (hs : gmap nat Hand) (sess : nat) : bool :=
  forallb (λ x, match current x.2 with Some (b, _) => negb (item_session (head b) =? sess)%nat | None => true end) (map_to_list hs).
Lemma awayb_away hs sess : awayb hs sess = true → away hs sess.
Proof.
  unfold awayb. rewrite forallb_forall. intros Ha v h b t Hv%elem_of_map_to_list Hc. specialize (Ha (v, h) (proj1 (list_elem_of_In _ _) Hv)). cbn in Ha.
  rewrite Hc in Ha. by apply negb_true_iff, Nat.eqb_neq in Ha.
Qed.
Definition settledb (a : Action) (s : System) : bool :=
  match a with
  | AInbound _ ch (Some ts) _ => freshb (world s) (ch, ts)
  | ADeliver worker e =>
    match hands s !! worker with
    | Some (mk_hand None (b :: _)) => awayb (delete worker (hands s)) (item_session (head b))
    | Some (mk_hand (Some (_, TSend i update_ts _)) _) =>
      match e_send e with
      | Posts ts _ => freshb (world s) (at_channel i ts)
      | Edits _ => bool_decide (update_ts ≠ None)
      | SendRaises _ out => bool_decide (out = None)
      | SendFails _ => true
      end
    | Some (mk_hand (Some (_, TMark _ (Some _))) _) => e_mark e
    | Some (mk_hand (Some (_, TRecord _ _ _ _)) _) => e_redis_after e
    | _ => true
    end
  | ACrash worker =>
    match hands s !! worker with
    | Some (mk_hand (Some (_, TMark _ (Some _))) _) | Some (mk_hand (Some (_, TRecord _ _ _ _)) _) => false
    | _ => true
    end
  | _ => true
  end.
Lemma settledb_settled a s : settledb a s = true → settled a s.
Proof.
  destruct a as [session ev dest p|session ch posted says|session|session run|worker free order|worker e|worker]; cbn [settled settledb]; try done.
  - intros Hf ts ->. by apply freshb_fresh.
  - destruct (hands s !! worker) as [[[[b t]|] [|b2 rest]]|]; try done; try apply awayb_away.
    all: destruct t as [? ? ? ?|? ?|? ?|i u ?|? [?|]|? ? ? ?|?|?|?]; try done; destruct (e_send e); try done; first [apply freshb_fresh|apply bool_decide_eq_true_1].
  - destruct (hands s !! worker) as [[[[b t]|] rest]|]; try done. by destruct t as [? ? ? ?|? ?|? ?|? ? ?|? [?|]|? ? ? ?|?|?|?].
Qed.
Fixpoint settledb_run (pl : Platform) (kind : string) (acts : list (Action * Z)) (s : System) : bool :=
  match acts with [] => true | (a, now) :: acts => settledb a s && settledb_run pl kind acts (step pl kind a now s) end.
Lemma settledb_run_settled pl kind acts s : settledb_run pl kind acts s = true → settled_run pl kind acts s.
Proof.
  revert s. induction acts as [|[a now] acts IH]; intros s; [done|]. cbn [settledb_run settled_run]. intros [Ha Hr]%andb_prop.
  split; [by apply settledb_settled|by apply IH].
Qed.

Definition slack : Platform := mk_platform true true 4000.
Definition sends (a : SendAnswer) : Env := mk_env true true true (λ _, []) None true a true true true true.
Definition to_c1 : gmap string string := <["channel_identifier" := "T1:C1"]> (<["channel_id" := "C1"]> ∅).
Definition beside (text : string) : Payload := [("content", VStr text); ("intermediate", VBool true)].
Definition say_ (n : nat) (p : Payload) : Action * Z := (AEnqueue 7 n to_c1 p, Z.of_nat n).
Definition claims (worker : nat) (now : Z) : Action * Z := (AClaim worker (λ _, true) (λ l, l), now).
(** The steps of a delivery that goes out: it starts, sends, marks, records, and
    is done. *)
Definition delivers (worker : nat) (e : Env) (now : Z) : list (Action * Z) := replicate 5 (ADeliver worker e, now).
Definition a_turn : list (Action * Z) :=
  [(AInbound 7 "C1" (Some "t0") "Thinking…", 0); say_ 1 (beside "Looking"); say_ 2 (beside "Found it"); claims 1 3]
  ++ delivers 1 (sends (Edits true)) 4 ++ [say_ 5 (beside "Fixing"); claims 1 6] ++ delivers 1 (sends (Edits true)) 7
  ++ [say_ 8 [("content", VStr "Done")]; claims 2 9] ++ delivers 2 (sends (Posts "t1" true)) 10.
Definition chat_view (s : System) : list (nat * string) * option string * option string * list (nat * OutStatus) :=
  ((λ x, (sent_for x, sent_text x)) <$> sent (world s), shown (world s) !! ("C1", "t0"), shown (world s) !! ("C1", "t1"),
   (λ x, (x.1, out_status x.2)) <$> merge_sort by_id (map_to_list (rows (world s)))).
Definition lines (ws : list string) : string := PyStr.join nl2 ws.
Lemma a_turn_view :
  chat_view (run slack "slack" a_turn empty_system)
  = ([(1%nat, lines ["Looking"; "Found it"]); (3%nat, lines ["Looking"; "Found it"; "Fixing"]); (4%nat, "Done")],
     Some (lines ["Looking"; "Found it"; "Fixing"]), Some "Done", [(1%nat, Delivered); (2%nat, Delivered); (3%nat, Delivered); (4%nat, Delivered)]).
Proof. by vm_compute. Qed.
Lemma marked_turn : Forall (λ a, marks_taken a.1) a_turn.
Proof. unfold a_turn, delivers. cbn [replicate app]. repeat (constructor; [by cbn|]). constructor. Qed.

(** A dispatcher that crashes with a batch in hand: its rows are never sent,
    whatever comes after. *)
Definition crashed : list (Action * Z) := [say_ 1 (beside "Looking"); claims 1 2; (ACrash 1, 3)].
Lemma crash_strands pl acts :
  Forall (λ a, marks_taken a.1) acts →
  let w := world (run pl "slack" (crashed ++ acts) empty_system) in
  (∃ r, rows w !! 1%nat = Some r ∧ out_status r = Claimed) ∧ 1%nat ∉ sent_for <$> sent w.
Proof.
  intros Ha w. assert (Hm : Forall (λ a, marks_taken a.1) crashed) by (repeat (constructor; [by cbn|]); constructor).
  pose proof (once_run pl "slack" _ empty_system Hm once_empty) as Hs.
  destruct (stranded_for_good pl "slack" acts 1 (run pl "slack" crashed empty_system) Ha Hs) as [[(r & Hr & Hc) _] Hno].
  - assert (Hh : hands (run pl "slack" crashed empty_system) = ∅) by (vm_compute; reflexivity).
    split; [|intros v h; by rewrite Hh, lookup_empty].
    assert (Hst : out_status <$> rows (world (run pl "slack" crashed empty_system)) !! 1%nat = Some Claimed) by (vm_compute; reflexivity).
    apply fmap_Some in Hst as (r & ? & ?). by exists r.
  - assert (Hsent : sent (world (run pl "slack" crashed empty_system)) = []) by (vm_compute; reflexivity). rewrite Hsent. by intros ?%elem_of_nil.
  - subst w. unfold run in *. rewrite foldl_app. split; [by exists r|done].
Qed.
(** Redis is not written after an edit: the next text is put over the last. *)
Definition unrecorded (e : Env) : Env := mk_env true true true (λ _, []) None true (e_send e) false true true true.
Lemma unrecorded_edit_lost :
  (chat_view (run slack "slack" ([(AInbound 7 "C1" (Some "t0") "Thinking…", 0); say_ 1 (beside "Looking"); claims 1 2]
      ++ delivers 1 (unrecorded (sends (Edits true))) 3 ++ [say_ 4 (beside "Fixing"); claims 1 5] ++ delivers 1 (sends (Edits true)) 6) empty_system)).1.1
  = ([(1%nat, "Looking"); (2%nat, "Fixing")], Some "Fixing").
Proof. by vm_compute. Qed.
(** Two dispatchers deliver rows of one session at a time: both read what the
    message says before either writes it, and the text of the first is lost. *)
Definition overlapping : list (Action * Z) :=
  [(AInbound 7 "C1" (Some "t0") "Thinking…", 0); say_ 1 (beside "A"); claims 1 2] ++ delivers 1 (sends (Edits true)) 3
  ++ [say_ 4 (beside "B"); claims 1 5; say_ 6 (beside "C"); claims 2 7; (ADeliver 1 (sends (Edits true)), 8); (ADeliver 2 (sends (Edits true)), 8)]
  ++ replicate 4 (ADeliver 1 (sends (Edits true)), 9) ++ replicate 4 (ADeliver 2 (sends (Edits true)), 10).
Lemma overlap_loses_text :
  (chat_view (run slack "slack" overlapping empty_system)).1.1
  = ([(1%nat, "A"); (2%nat, lines ["A"; "B"]); (3%nat, lines ["A"; "C"])], Some (lines ["A"; "C"])).
Proof. by vm_compute. Qed.
(** The outbox does not take the mark of a message that went out: it goes out
    again. *)
Definition unmarked (a : SendAnswer) : Env := mk_env true true true (λ _, []) None true a true false true true.
Lemma unmarked_sent_twice :
  ((λ x, (sent_for x, sent_text x)) <$> sent (world (run slack "slack" ([say_ 1 [("content", VStr "Done")]; claims 1 2] ++ delivers 1 (unmarked (Posts "t1" true)) 3
      ++ [claims 1 MINUTE] ++ delivers 1 (sends (Posts "t2" true)) (MINUTE + 1)) empty_system)))
  = [(1%nat, "Done"); (1%nat, "Done")].
Proof. by vm_compute. Qed.
