(* ===== verification/Texts.v ===== *)
(** * Texts (Python's str)

    A text is a list of code points, as Python's [str] is: what the code that cares
    about letters beyond ASCII, or about the number of characters, works on.  The
    methods of [str] the sources use, and the lemmas on finding, stripping,
    splitting and joining that StreamText.v, Memory.v and MemoryRemote.v share. *)

From S2P Require Import Prelude.
From stdpp Require Import options.
Local Open Scope nat_scope.

Definition Text : Type := list N.
Definition u (s : string) : Text := (λ a, N_of_ascii a) <$> String.list_ascii_of_string s.

(** [str.lower], a letter at a time.  Of the letters outside ASCII, the two that
    lower to ASCII are here; any other lowers to one letter outside ASCII, which
    no tag has, and stands for itself. *)
Definition lower1 (c : N) : Text :=
  if (65 <=? c)%N && (c <=? 90)%N then [(c + 32)%N] else if (c =? 304)%N then [105; 775]%N else if (c =? 8490)%N then [107%N] else [c].
Definition lower (s : Text) : Text := s ≫= lower1.
(** [str.isspace] of a letter *)
Definition is_space_point (c : N) : bool :=
  (9 <=? c)%N && (c <=? 13)%N || (28 <=? c)%N && (c <=? 32)%N || bool_decide (c ∈ [133; 160; 5760; 8232; 8233; 8239; 8287; 12288]%N)
  || (8192 <=? c)%N && (c <=? 8202)%N.
Fixpoint lstrip_text (s : Text) : Text := match s with c :: r => if is_space_point c then lstrip_text r else s | [] => [] end.
Definition strip_text (s : Text) : Text := reverse (lstrip_text (reverse (lstrip_text s))).

(** [s.startswith(p)], [s.find(p)], [s.find(p, start)], [p in s] *)
Fixpoint starts (p s : Text) : bool :=
  match p, s with [], _ => true | a :: p, b :: s => (a =? b)%N && starts p s | _, _ => false end.
Fixpoint find (p s : Text) : option nat :=
  if starts p s then Some 0 else match s with [] => None | _ :: s => S <$> find p s end.
Definition find_from (p s : Text) (start : nat) : option nat := (λ i, start + i) <$> find p (drop start s).
Definition holds (p s : Text) : bool := bool_decide (find p s ≠ None).
(** [s[-n:]] and [s[:-n]], of [n] letters or none *)
Definition last_points (n : nat) (s : Text) : Text := match n with 0 => [] | _ => drop (length s - n) s end.
Definition but_last (n : nat) (s : Text) : Text := match n with 0 => s | _ => take (length s - n) s end.
Definition newline : N := 10%N.
Definition ends_newline (s : Text) : bool := bool_decide (last s = Some newline).

(** [sep.join(ws)] and [s.split(sep)], with a [sep] that is not empty: each
    piece but the last takes a letter at least. *)
Fixpoint join_text (sep : Text) (ws : list Text) : Text :=
  match ws with [] => [] | [w] => w | w :: ws => w ++ sep ++ join_text sep ws end.
Fixpoint split_loop (fuel : nat) (sep s : Text) : list Text :=
  match find sep s, fuel with
  | Some i, S fuel => take i s :: split_loop fuel sep (drop (i + length sep) s)
  | _, _ => [s]
  end.
Definition split_text (sep s : Text) : list Text := split_loop (length s) sep s.
(** [s.replace(old, new, 1)] *)
Definition replace_first (old new s : Text) : Text :=
  match find old s with Some i => take i s ++ new ++ drop (i + length old) s | None => s end.

(** ** Finding *)

Lemma starts_app p s t : starts p s = true → starts p (s ++ t) = true.
Proof.
  revert s. induction p as [|a p IH]; intros s; [done|]. destruct s as [|b s]; [done|]. cbn. intros [-> Hs]%andb_prop. by apply IH.
Qed.
Lemma starts_short p s t : length p ≤ length s → starts p (s ++ t) = starts p s.
Proof.
  revert s. induction p as [|a p IH]; intros s Hl; [done|]. destruct s as [|b s]; cbn in *; [lia|]. destruct (a =? b)%N; [|done]. apply IH. lia.
Qed.
Lemma starts_length p s : starts p s = true → length p ≤ length s.
Proof. revert s. induction p as [|a p IH]; intros [|b s]; cbn; try done; [lia|]. intros [_ Hs]%andb_prop. specialize (IH s Hs). lia. Qed.
Lemma starts_part p s t : starts p (s ++ t) = true → length s ≤ length p → starts s p = true.
Proof.
  revert p. induction s as [|b s IH]; intros [|a p]; cbn; try done; [lia|]. intros [Hab Hs]%andb_prop Hl. rewrite N.eqb_sym, Hab. apply IH; [done|lia].
Qed.
Lemma starts_trans s p t : starts s p = true → starts s (p ++ t) = true.
Proof. apply starts_app. Qed.

(** [first p s i]: the first place of [p] in [s]. *)
Definition first (p s : Text) (i : nat) : Prop := starts p (drop i s) = true ∧ ∀ j, j < i → starts p (drop j s) = false.
Lemma find_Some p s i : find p s = Some i → first p s i ∧ i ≤ length s.
Proof.
  revert i. induction s as [|c s IH]; intros i; cbn [find].
  - destruct (starts p []) eqn:Hs; [|done]. intros [= <-]. split; [split; [done|lia]|lia].
  - destruct (starts p (c :: s)) eqn:Hs; [intros [= <-]; split; [split; [done|lia]|lia]|].
    destruct (find p s) as [k|] eqn:Hk; [|done]. intros [= <-]. destruct (IH k eq_refl) as [[H1 H2] H3]. split; [|cbn; lia].
    split; [done|]. intros [|j] Hj; [done|]. cbn. apply H2. lia.
Qed.
Lemma find_None p s : find p s = None → ∀ i, i ≤ length s → starts p (drop i s) = false.
Proof.
  induction s as [|c s IH]; cbn [find].
  - destruct (starts p []) eqn:Hs; [done|]. intros _ i Hi. cbn in Hi. by assert (i = 0) as -> by lia.
  - destruct (starts p (c :: s)) eqn:Hs; [done|]. destruct (find p s); [done|]. intros _ [|i] Hi; [done|]. apply IH; [done|]. cbn in Hi. lia.
Qed.
Lemma first_find p s i : first p s i → i ≤ length s → find p s = Some i.
Proof.
  intros [H1 H2] Hi. destruct (find p s) as [k|] eqn:Hk.
  - apply find_Some in Hk as [[H3 H4] _]. destruct (lt_eq_lt_dec k i) as [[Hlt| ->]|Hlt]; [|done|].
    + by rewrite (H2 k Hlt) in H3.
    + by rewrite (H4 i Hlt) in H1.
  - by rewrite (find_None p s Hk i Hi) in H1.
Qed.
Lemma absent_find p s : (∀ i, i ≤ length s → starts p (drop i s) = false) → find p s = None.
Proof. intros H. destruct (find p s) as [k|] eqn:Hk; [|done]. apply find_Some in Hk as [[H1 _] Hl]. by rewrite H in H1. Qed.
Lemma find_app p s t i : find p s = Some i → find p (s ++ t) = Some i.
Proof.
  intros Hi. apply find_Some in Hi as [[H1 H2] Hl]. pose proof (starts_length _ _ H1) as Hp. rewrite length_drop in Hp. apply first_find; [|rewrite length_app; lia].
  split; [rewrite drop_app_le by lia; by apply starts_app|]. intros j Hj. rewrite drop_app_le by lia. rewrite starts_short; [by apply H2|]. rewrite length_drop. lia.
Qed.
(** Nothing before [k]: look from there. *)
Lemma find_skip p s k : k ≤ length s → (∀ j, j < k → starts p (drop j s) = false) → find p s = (λ i, k + i) <$> find p (drop k s).
Proof.
  intros Hk Hno. destruct (find p (drop k s)) as [i|] eqn:Hi; cbn.
  - apply find_Some in Hi as [[H1 H2] Hl]. rewrite length_drop in Hl. apply first_find; [|lia]. split; [by rewrite <-drop_drop|].
    intros j Hj. destruct (decide (j < k)) as [|Hge]; [by apply Hno|]. specialize (H2 (j - k) ltac:(lia)). rewrite drop_drop in H2. by replace (k + (j - k)) with j in H2 by lia.
  - apply absent_find. intros j Hj. destruct (decide (j < k)) as [|Hge]; [by apply Hno|]. pose proof (find_None _ _ Hi (j - k)) as Hn.
    rewrite length_drop, drop_drop in Hn. replace (k + (j - k)) with j in Hn by lia. apply Hn. lia.
Qed.

Lemma lstrip_app s t : lstrip_text s ≠ [] → lstrip_text (s ++ t) = lstrip_text s ++ t.
Proof. induction s as [|c s IH]; [done|]. cbn. by destruct (is_space_point c). Qed.

(** ** Parts of a text *)

(** [m] is written somewhere in [s]. *)
Definition within (m s : Text) : Prop := ∃ a b, s = a ++ m ++ b.
#[global] Instance within_preorder : PreOrder within.
Proof.
  split; [intros s; by exists [], []; rewrite app_nil_r|]. intros m s t [a [b ->]] [c [d ->]]. exists (c ++ a), (b ++ d). by rewrite <-!app_assoc.
Qed.
Lemma within_app_l s t : within s (s ++ t).
Proof. by exists [], t. Qed.
Lemma within_app_r s t : within t (s ++ t).
Proof. exists s, []. by rewrite app_nil_r. Qed.
Lemma within_take n s : within (take n s) s.
Proof. rewrite <-(take_drop n s) at 2. apply within_app_l. Qed.
Lemma within_drop n s : within (drop n s) s.
Proof. rewrite <-(take_drop n s) at 2. apply within_app_r. Qed.
Lemma within_elem c m s : within m s → c ∈ m → c ∈ s.
Proof. intros [a [b ->]] Hc. rewrite !elem_of_app. auto. Qed.
Lemma within_length m s : within m s → length m ≤ length s.
Proof. intros [a [b ->]]. rewrite !length_app. lia. Qed.
Lemma lstrip_suffix_text s : ∃ ws, s = ws ++ lstrip_text s.
Proof. induction s as [|c s [ws IH]]; [by exists []|]. cbn. destruct (is_space_point c); [|by exists []]. exists (c :: ws). cbn. by rewrite <-IH. Qed.
Lemma within_strip s : within (strip_text s) s.
Proof.
  destruct (lstrip_suffix_text s) as [ws Hs]. destruct (lstrip_suffix_text (reverse (lstrip_text s))) as [ws' Hs'].
  apply (f_equal reverse) in Hs'. rewrite reverse_involutive, reverse_app in Hs'. exists ws, (reverse ws'). unfold strip_text. by rewrite <-Hs'.
Qed.

(** ** Stripping *)

Definition front_ok (s : Text) : bool := match s with c :: _ => negb (is_space_point c) | [] => true end.
Lemma lstrip_front_text s : front_ok (lstrip_text s) = true.
Proof. induction s as [|c s IH]; [done|]. cbn. destruct (is_space_point c) eqn:Hc; [done|]. cbn. by rewrite Hc. Qed.
Lemma lstrip_id_text s : front_ok s = true → lstrip_text s = s.
Proof. destruct s as [|c s]; [done|]. cbn. by destruct (is_space_point c). Qed.
Lemma strip_strip_text s : strip_text (strip_text s) = strip_text s.
Proof.
  unfold strip_text. set (f := lstrip_text s). set (b := lstrip_text (reverse f)).
  assert (Hb : front_ok b = true) by apply lstrip_front_text. assert (Hf : front_ok (reverse b) = true).
  { destruct (lstrip_suffix_text (reverse f)) as [ws Hws]. fold b in Hws. apply (f_equal reverse) in Hws. rewrite reverse_involutive, reverse_app in Hws.
    assert (Hff : front_ok f = true) by apply lstrip_front_text. rewrite Hws in Hff. destruct (reverse b) as [|c r] eqn:Hr; [done|]. exact Hff. }
  rewrite (lstrip_id_text (reverse b)) by done. by rewrite reverse_involutive, (lstrip_id_text b).
Qed.

(** ** Splitting and joining *)

Lemma join_cons sep w ws : ws ≠ [] → join_text sep (w :: ws) = w ++ sep ++ join_text sep ws.
Proof. by destruct ws. Qed.
Lemma split_loop_nonempty fuel sep s : split_loop fuel sep s ≠ [].
Proof. destruct fuel; cbn; by destruct (find sep s). Qed.
Lemma find_split p s i : find p s = Some i → s = take i s ++ p ++ drop (i + length p) s.
Proof.
  intros [[Hs _] _]%find_Some. rewrite <-drop_drop. rewrite <-(take_drop i s) at 1. f_equal. revert Hs. generalize (drop i s). clear s i.
  induction p as [|a p IH]; intros [|b s]; cbn; try done. intros [->%N.eqb_eq Hs]%andb_prop. f_equal. by apply IH.
Qed.
Lemma join_split sep s : join_text sep (split_text sep s) = s.
Proof.
  unfold split_text. generalize (length s) as fuel. intros fuel. revert s. induction fuel as [|fuel IH]; intros s; cbn [split_loop]; destruct (find sep s) as [i|] eqn:Hi; try done.
  rewrite join_cons by apply split_loop_nonempty. rewrite IH. symmetry. by apply find_split.
Qed.
Lemma within_join sep e ws : e ∈ ws → within e (join_text sep ws).
Proof.
  induction ws as [|w ws IH]; [by intros ?%elem_of_nil|]. intros [->|He]%elem_of_cons.
  - destruct ws; [done|]. apply within_app_l.
  - destruct ws as [|w' ws]; [by apply elem_of_nil in He|]. rewrite join_cons by done. etrans; [by apply IH|]. rewrite app_assoc. apply within_app_r.
Qed.
Lemma within_split sep e s : e ∈ split_text sep s → within e s.
Proof. intros He. rewrite <-(join_split sep s). by apply within_join. Qed.
(** The first separator past [e] is the one put there. *)
Definition plain (sep e : Text) : Prop := find sep (e ++ sep) = Some (length e).
#[global] Instance plain_dec sep e : Decision (plain sep e).
Proof. unfold plain. apply _. Defined.
Lemma plain_alone sep e : sep ≠ [] → plain sep e → find sep e = None.
Proof.
  unfold plain. intros Hsep Hp. destruct (find sep e) as [i|] eqn:Hi; [|done]. pose proof (find_app _ _ sep _ Hi) as Hi'. rewrite Hp in Hi'. injection Hi' as Hl.
  apply find_Some in Hi as [[Hs _] _]. apply starts_length in Hs. rewrite length_drop in Hs. destruct sep; [done|]. cbn in Hs. lia.
Qed.
Lemma split_loop_join sep ws fuel : sep ≠ [] → ws ≠ [] → Forall (plain sep) ws → length ws ≤ S fuel → split_loop fuel sep (join_text sep ws) = ws.
Proof.
  intros Hsep. revert fuel. induction ws as [|w ws IH]; intros fuel Hne Hp Hl; [done|]. inversion_clear Hp as [|? ? Hw Hws].
  destruct ws as [|w' ws].
  - cbn [join_text]. destruct fuel; cbn [split_loop]; by rewrite plain_alone.
  - rewrite join_cons by done. assert (Hf : find sep (w ++ sep ++ join_text sep (w' :: ws)) = Some (length w)) by (rewrite app_assoc; by apply find_app).
    destruct fuel as [|fuel]; [cbn in Hl; lia|]. cbn [split_loop]. rewrite Hf. rewrite take_app_length. f_equal.
    rewrite <-drop_drop, drop_app_length, drop_app_length. apply IH; [done|done|cbn in *; lia].
Qed.
Lemma join_length sep ws : ws ≠ [] → length (join_text sep ws) + length sep = sum_list_with (λ w, length w + length sep) ws.
Proof.
  induction ws as [|w ws IH]; [done|]. intros _. destruct ws as [|w' ws]; [cbn; lia|].
  rewrite join_cons, !length_app by done. specialize (IH ltac:(done)). cbn [sum_list_with] in *. lia.
Qed.
Lemma split_join sep ws : sep ≠ [] → ws ≠ [] → Forall (plain sep) ws → split_text sep (join_text sep ws) = ws.
Proof.
  intros Hsep Hne Hp. apply split_loop_join; try done. pose proof (join_length sep ws Hne) as Hl.
  assert (Hs : length ws * length sep ≤ sum_list_with (λ w, length w + length sep) ws) by (clear; induction ws; cbn in *; lia).
  destruct sep as [|c sep]; [done|]. cbn [length] in *. nia.
Qed.

(** ** Blank texts *)

Lemma lstrip_blank s : lstrip_text s = [] ↔ Forall (λ c, is_space_point c = true) s.
Proof. induction s as [|c s IH]; cbn; [by split|]. rewrite Forall_cons. destruct (is_space_point c); [naive_solver|]. split; [done|naive_solver]. Qed.
Lemma strip_blank s : strip_text s = [] ↔ Forall (λ c, is_space_point c = true) s.
Proof.
  unfold strip_text. rewrite <-(lstrip_blank s). split.
  - intros Hs. apply (f_equal reverse) in Hs. rewrite reverse_involutive in Hs. apply lstrip_blank in Hs. pose proof (lstrip_front_text s) as Hf.
    destruct (lstrip_text s) as [|c r]; [done|]. rewrite Forall_forall in Hs. cbn [front_ok] in Hf. rewrite (Hs c) in Hf by (apply elem_of_reverse; left). done.
  - by intros ->.
Qed.
Lemma within_blank m s : within m s → strip_text s = [] → strip_text m = [].
Proof. rewrite !strip_blank, !Forall_forall. intros Hw Hs c Hc. by apply Hs, (within_elem c m). Qed.

(** ** What stands where *)

Lemma starts_split p s : starts p s = true ↔ ∃ t, s = p ++ t.
Proof.
  split; [|intros [t ->]; induction p as [|a p IH]; cbn; [done|by rewrite N.eqb_refl]].
  revert s. induction p as [|a p IH]; intros s; [by exists s|]. destruct s as [|b s]; [done|]. cbn. intros [->%N.eqb_eq Hs]%andb_prop. destruct (IH s Hs) as [t ->]. by exists t.
Qed.
Lemma holds_within p s : holds p s = true ↔ within p s.
Proof.
  unfold holds. rewrite bool_decide_eq_true. split.
  - intros Hf. destruct (find p s) as [i|] eqn:Hi; [|done]. exists (take i s), (drop (i + length p) s). by apply find_split.
  - intros (a & b & ->) Hn. pose proof (find_None _ _ Hn (length a)) as Hs. rewrite drop_app_length, length_app in Hs.
    assert (Ht : starts p (p ++ b) = true) by (apply starts_split; by exists b). rewrite Hs in Ht by lia. done.
Qed.
Lemma holds_trans p m s : holds p m = true → within m s → holds p s = true.
Proof. rewrite !holds_within. intros. by etrans. Qed.
Lemma find_holds p s : holds p s = false ↔ find p s = None.
Proof. unfold holds. rewrite bool_decide_eq_false. split; [apply dec_stable|intros -> H; by apply H]. Qed.
