(* ===== verification/StreamText.v ===== *)
(** * Text that streams past (harness/stream_scrubbers.py, harness/llm_call.py)

    A model's answer comes in pieces, and what a person must not see is taken
    out of it before each piece is shown: a model's thinking in tags, spans of
    recalled memory, and the error text a gateway sends as an answer.  A tag may
    be cut anywhere, so each scrubber holds back what may become one.

    Texts are those of Texts.v, since the code uses the places it finds in a
    lower-cased text in the text itself.  This file
    has the three scrubbers, the spans and errors they take out and their use in
    turn; what becomes of a block of thinking is in StreamThink.v. *)

From S2P Require Import Prelude.
From S2P Require Import Texts.
From stdpp Require Import options.
Local Open Scope nat_scope.

(** ** Held back *)

(** [_max_partial_suffix]: how much of the end may be the start of a tag. *)
Definition partial_size (tags : list Text) (low : Text) (size : nat) : bool :=
  existsb (λ tag, (size <? length tag) && starts (last_points size low) (lower tag)) tags.
Fixpoint first_size (ok : nat → bool) (size : nat) : nat := match size with 0 => 0 | S n => if ok size then size else first_size ok n end.
Definition max_len (tags : list Text) : nat := foldr Nat.max 0 (length <$> tags).
Definition max_partial_suffix (tags : list Text) (longest : nat) (buf : Text) : nat :=
  let low := lower buf in first_size (partial_size tags low) (Nat.min (length low) (longest - 1)).

(** ** Spans of memory *)

Definition OPEN_TAG : Text := u "<memory-context>".
Definition CLOSE_TAG : Text := u "</memory-context>".
Definition span_tag (inside : bool) : Text := if inside then CLOSE_TAG else OPEN_TAG.
Record ContextScrubber := mk_context { in_span : bool; context_buf : Text }.
Definition new_context : ContextScrubber := mk_context false [].
Definition span_partial (tag buf : Text) : nat := max_partial_suffix [tag] (length (lower tag)) buf.
(** The loop of [feed]: each turn drops a tag, so a turn for each letter is
    enough. *)
Fixpoint context_loop (fuel : nat) (inside : bool) (buf out : Text) : Text * ContextScrubber :=
  match fuel, buf with
  | _, [] => (out, mk_context inside [])
  | 0, _ => (out, mk_context inside buf)
  | S fuel, _ =>
    let tag := span_tag inside in
    match find tag (lower buf) with
    | None =>
      let held := span_partial tag buf in
      (if inside then out else out ++ but_last held buf, mk_context inside (last_points held buf))
    | Some i => context_loop fuel (negb inside) (drop (i + length tag) buf) (if inside then out else out ++ take i buf)
    end
  end.
Definition context_feed (s : ContextScrubber) (text : Text) : Text * ContextScrubber :=
  match text with [] => ([], s) | _ => let buf := context_buf s ++ text in context_loop (length buf) (in_span s) buf [] end.
Definition context_flush (s : ContextScrubber) : Text * ContextScrubber :=
  (if in_span s then [] else context_buf s, mk_context false []).

(** ** Thinking *)

Definition OPEN_TAG_NAMES : list string := ["think"; "thinking"; "reasoning"; "thought"; "REASONING_SCRATCHPAD"].
Definition OPEN_TAGS : list Text := (λ n, u ("<" +:+ n +:+ ">")) <$> OPEN_TAG_NAMES.
Definition CLOSE_TAGS : list Text := (λ n, u ("</" +:+ n +:+ ">")) <$> OPEN_TAG_NAMES.
Definition MAX_TAG_LEN : nat := max_len (OPEN_TAGS ++ CLOSE_TAGS).
Record ThinkScrubber := mk_think { in_block : bool; think_buf : Text; ended_newline : bool }.
Definition new_think : ThinkScrubber := mk_think false [] true.

(** [_find_first_tag]: the place and the length, the earliest place first. *)
Definition earlier {A} (key : A → nat) (best : option A) (x : A) : option A :=
  match best with Some b => if key x <? key b then Some x else best | None => Some x end.
Definition find_first_tag (buf : Text) (tags : list Text) : option (nat * nat) :=
  foldl (λ best tag, match find (lower tag) (lower buf) with Some i => earlier fst best (i, length tag) | None => best end) None tags.
Definition find_earliest_closed_pair (buf : Text) : option (nat * nat) :=
  let low := lower buf in
  foldl (λ best tags,
    match (i ← find (lower tags.1) low; j ← find_from (lower tags.2) low (i + length tags.1); Some (i, j + length tags.2)) with
    | Some p => earlier fst best p
    | None => best
    end) None (zip OPEN_TAGS CLOSE_TAGS).
(** [out] is what this call put out, a text for each part. *)
Definition after_newline (s : ThinkScrubber) (out : list Text) : bool :=
  match last out with Some t => ends_newline t | None => ended_newline s end.
Fixpoint after_last_newline (s : Text) : option Text :=
  match s with
  | [] => None
  | c :: r => match after_last_newline r with Some t => Some t | None => if (c =? newline)%N then Some r else None end
  end.
Definition is_boundary (s : ThinkScrubber) (buf : Text) (idx : nat) (out : list Text) : bool :=
  match idx with
  | 0 => after_newline s out
  | _ =>
    let preceding := take idx buf in
    match after_last_newline preceding with
    | None => after_newline s out && bool_decide (strip_text preceding = [])
    | Some line => bool_decide (strip_text line = [])
    end
  end.
(** The first place of the tag that is at a boundary, from [start] on. *)
Fixpoint tag_at_boundary (fuel : nat) (s : ThinkScrubber) (buf : Text) (out : list Text) (tag : Text) (start : nat) : option nat :=
  match fuel with
  | 0 => None
  | S fuel =>
    i ← find_from tag (lower buf) start;
    if is_boundary s buf i out then Some i else tag_at_boundary fuel s buf out tag (S i)
  end.
Definition find_open_at_boundary (s : ThinkScrubber) (buf : Text) (out : list Text) : option (nat * nat) :=
  foldl (λ best tag,
    match tag_at_boundary (S (length (lower buf))) s buf out (lower tag) 0 with Some i => earlier fst best (i, length tag) | None => best end) None OPEN_TAGS.

(** [_strip_orphan_close_tags]: close tags go, with the blanks after them. *)
Definition blank_point (c : N) : bool := bool_decide (c ∈ [32; 9; 13; 10]%N).
Fixpoint skip_blanks (s : Text) : nat := match s with c :: r => if blank_point c then S (skip_blanks r) else 0 | [] => 0 end.
Fixpoint strip_from (fuel : nat) (text low : Text) (idx : nat) : Text :=
  match fuel, text !! idx with
  | S fuel, Some c =>
    match List.find (λ tag, starts (lower tag) (drop idx low)) CLOSE_TAGS with
    | Some tag => let idx := idx + length tag in strip_from fuel text low (idx + skip_blanks (drop idx text))
    | None => c :: strip_from fuel text low (S idx)
    end
  | _, _ => []
  end.
Definition strip_orphan_close_tags (text : Text) : Text :=
  if holds (u "</") text then strip_from (length text) text (lower text) 0 else text.
Definition append_visible (s : ThinkScrubber) (out : list Text) (text : Text) : ThinkScrubber * list Text :=
  match strip_orphan_close_tags text with
  | [] => (s, out)
  | t => (mk_think (in_block s) (think_buf s) (ends_newline t), out ++ [t])
  end.

Definition set_block (s : ThinkScrubber) (b : bool) : ThinkScrubber := mk_think b (think_buf s) (ended_newline s).
Definition hold (s : ThinkScrubber) (buf : Text) : ThinkScrubber := mk_think (in_block s) buf (ended_newline s).
Fixpoint think_loop (fuel : nat) (s : ThinkScrubber) (buf : Text) (out : list Text) : Text * ThinkScrubber :=
  match fuel, buf with
  | _, [] => (concat out, s)
  | 0, _ => (concat out, s)
  | S fuel, _ =>
    if in_block s then
      match find_first_tag buf CLOSE_TAGS with
      | None => (concat out, hold s (last_points (max_partial_suffix CLOSE_TAGS MAX_TAG_LEN buf) buf))
      | Some (i, n) => think_loop fuel (set_block s false) (drop (i + n) buf) out
      end
    else
      let closed := find_earliest_closed_pair buf in
      let open := find_open_at_boundary s buf out in
      let held := Nat.max (max_partial_suffix OPEN_TAGS MAX_TAG_LEN buf) (max_partial_suffix CLOSE_TAGS MAX_TAG_LEN buf) in
      let or_pass :=
        match open with
        | Some (i, n) => let '(s, out) := append_visible s out (take i buf) in think_loop fuel (set_block s true) (drop (i + n) buf) out
        | None => let '(s, out) := append_visible (hold s (last_points held buf)) out (but_last held buf) in (concat out, s)
        end in
      match closed with
      | Some (i, j) =>
        if match open with None => true | Some (k, _) => i <=? k end then
          let '(s, out) := append_visible s out (take i buf) in think_loop fuel s (drop j buf) out
        else or_pass
      | None => or_pass
      end
  end.
Definition think_feed (s : ThinkScrubber) (text : Text) : Text * ThinkScrubber :=
  match text with [] => ([], s) | _ => let buf := think_buf s ++ text in think_loop (length buf) (hold s []) buf [] end.
Definition think_flush (s : ThinkScrubber) : Text * ThinkScrubber :=
  if in_block s then ([], mk_think false [] (ended_newline s))
  else
    match strip_orphan_close_tags (think_buf s) with
    | [] => ([], mk_think false [] (ended_newline s))
    | t => (t, mk_think false [] (ends_newline t))
    end.

(** ** A gateway's error *)

Definition UPSTREAM_SENTINEL_MARKER : Text := [19978; 28216; 27169; 22411; 26410; 36820; 22238; 20219; 20309; 20869; 23481]%N.
Definition UPSTREAM_ERROR_SENTINEL : Text :=
  [9888; 65039; 32]%N ++ UPSTREAM_SENTINEL_MARKER
  ++ [12290; 21487; 33021; 21407; 22240; 65306; 35302; 21457; 20102; 23433; 20840; 31574; 30053; 12289; 19978; 28216; 38480; 27969; 12289;
      25110; 27169; 22411; 23545; 24403; 21069; 36755; 20837; 30452; 25509; 32467; 26463; 12290; 35831; 37325; 35797; 25110; 31616; 21270;
      36755; 20837; 21518; 20877; 35797; 12290]%N.
Definition UPSTREAM_ERROR_SENTINELS : list Text := [UPSTREAM_ERROR_SENTINEL].
Definition MAX_SENTINEL_MESSAGE_LEN : nat := 200.
Definition contains_cjk (s : Text) : bool :=
  existsb (λ c, (13312 <=? c)%N && (c <=? 40959)%N || (63744 <=? c)%N && (c <=? 64255)%N) s.
Definition is_upstream_error_sentinel (text : Text) : bool :=
  let stripped := strip_text text in
  if bool_decide (stripped = []) then false
  else if existsb (λ p, starts p stripped) UPSTREAM_ERROR_SENTINELS then true
  else if MAX_SENTINEL_MESSAGE_LEN <=? length stripped then false
  else holds UPSTREAM_SENTINEL_MARKER stripped.
Record SentinelScrubber := mk_sentinel { sentinel_buf : Text; passthrough : bool; matched : bool }.
Definition new_sentinel : SentinelScrubber := mk_sentinel [] false false.
Definition sentinel_feed (s : SentinelScrubber) (text : Text) : Text * SentinelScrubber :=
  match text with
  | [] => ([], s)
  | _ =>
    if matched s then ([], s)
    else if passthrough s then (text, s)
    else
      let buf := sentinel_buf s ++ text in
      match lstrip_text buf with
      | [] => ([], mk_sentinel buf false false)
      | candidate =>
        if existsb (λ p, starts p candidate) UPSTREAM_ERROR_SENTINELS then ([], mk_sentinel [] false true)
        else if existsb (λ p, starts candidate p) UPSTREAM_ERROR_SENTINELS then ([], mk_sentinel buf false false)
        else if is_upstream_error_sentinel buf then ([], mk_sentinel [] false true)
        else (buf, mk_sentinel [] true false)
      end
  end.
Definition sentinel_flush (s : SentinelScrubber) : Text * SentinelScrubber :=
  if matched s then ([], mk_sentinel [] (passthrough s) true)
  else
    let out := sentinel_buf s in
    let candidate := lstrip_text out in
    if is_upstream_error_sentinel out || contains_cjk candidate && existsb (λ p, starts candidate p) UPSTREAM_ERROR_SENTINELS
    then ([], mk_sentinel [] (passthrough s) true)
    else (out, mk_sentinel [] (passthrough s) false).

(** ** The pieces of an answer (call_llm_streaming) *)

Record Scrubbers := mk_scrubbers { think : ThinkScrubber; context : ContextScrubber; sentinel : SentinelScrubber }.
Definition new_scrubbers : Scrubbers := mk_scrubbers new_think new_context new_sentinel.
(** A piece: what is shown of it. *)
Definition feed_delta (s : Scrubbers) (delta : Text) : Text * Scrubbers :=
  let '(t, th) := think_feed (think s) delta in
  let '(c, co) := context_feed (context s) t in
  let '(v, se) := sentinel_feed (sentinel s) c in
  (v, mk_scrubbers th co se).
(** The end of the stream: what was held back. *)
Definition feed_tail (s : Scrubbers) : Text * Scrubbers :=
  let '(t, th) := think_flush (think s) in
  let '(c, co) := context_feed (context s) t in
  let '(c', co) := context_flush co in
  let '(v, se) := sentinel_feed (sentinel s) (c ++ c') in
  let '(v', se) := sentinel_flush se in
  (v ++ v', mk_scrubbers th co se).
(** A scrubber run over pieces. *)
Fixpoint feed_all {S} (feed : S → Text → Text * S) (s : S) (pieces : list Text) : list Text * S :=
  match pieces with
  | [] => ([], s)
  | p :: pieces => let '(o, s) := feed s p in let '(os, s) := feed_all feed s pieces in (o :: os, s)
  end.
(** The text that was shown, and the text of the message that is kept: none
    where the answer was a gateway's error. *)
Definition shown_text (deltas : list Text) : Text * bool :=
  let '(os, s) := feed_all feed_delta new_scrubbers deltas in
  let '(tail, s) := feed_tail s in
  (concat os ++ tail, matched (sentinel s)).
Definition message_text (deltas : list Text) : Text := let '(t, gateway_error) := shown_text deltas in if gateway_error then [] else t.

(** ** The texts themselves, with nothing to wait for *)

(** Spans of memory taken out of a whole text; one that does not end goes to
    its end. *)
Fixpoint scrub (fuel : nat) (inside : bool) (s : Text) : Text :=
  match fuel with
  | 0 => []
  | S fuel =>
    let tag := span_tag inside in
    match find tag (lower s) with
    | None => if inside then [] else s
    | Some i => (if inside then [] else take i s) ++ scrub fuel (negb inside) (drop (i + length tag) s)
    end
  end.
Definition without_spans (s : Text) : Text := scrub (S (length s)) false s.
(** What the think scrubber lets through. *)
Definition without_thinking (deltas : list Text) : Text :=
  let '(os, s) := feed_all think_feed new_think deltas in concat os ++ (think_flush s).1.

(** ** Finding a tag *)

(** A text whose letters lower one to one: any without U+0130. *)
Definition even_text (s : Text) : Prop := Forall (λ c, c ≠ 304%N) s.
#[global] Instance even_text_dec s : Decision (even_text s).
Proof. unfold even_text. apply _. Defined.
Definition low (c : N) : N := match lower1 c with [d] => d | _ => c end.
Lemma lower_even s : even_text s → lower s = low <$> s.
Proof.
  induction 1 as [|c s Hc Hs IH]; [done|]. change (lower (c :: s)) with (lower1 c ++ lower s). rewrite IH. change (low <$> c :: s) with ([low c] ++ (low <$> s)).
  f_equal. unfold low, lower1. destruct (_ && _); [done|]. destruct (c =? 304)%N eqn:He; [by apply N.eqb_eq in He|]. by destruct (c =? 8490)%N.
Qed.
Lemma even_app s t : even_text (s ++ t) ↔ even_text s ∧ even_text t.
Proof. apply Forall_app. Qed.
Lemma even_drop n s : even_text s → even_text (drop n s).
Proof. apply Forall_drop. Qed.
Lemma lower_app s t : lower (s ++ t) = lower s ++ lower t.
Proof. apply bind_app. Qed.
Lemma lower_length s : even_text s → length (lower s) = length s.
Proof. intros Hs. by rewrite lower_even, length_fmap. Qed.
Lemma lower_drop n s : even_text s → lower (drop n s) = drop n (lower s).
Proof. intros Hs. rewrite !lower_even by (try apply even_drop; done). by rewrite fmap_drop. Qed.

Lemma first_size_spec ok n :
  first_size ok n ≤ n ∧ (0 < first_size ok n → ok (first_size ok n) = true) ∧ ∀ k, first_size ok n < k → k ≤ n → ok k = false.
Proof.
  induction n as [|n (H1 & H2 & H3)]; [split_and!; [done|cbn; lia|cbn; intros; lia]|]. cbn [first_size].
  destruct (ok (S n)) eqn:Hok; [split_and!; [lia|done|intros; lia]|]. split_and!; [lia|done|]. intros k Hk Hle.
  destruct (decide (k = S n)) as [->|]; [done|]. apply H3; lia.
Qed.
Lemma partial_le tags longest buf : even_text buf → max_partial_suffix tags longest buf ≤ length buf.
Proof.
  intros He. unfold max_partial_suffix. pose proof (first_size_spec (partial_size tags (lower buf)) (Nat.min (length (lower buf)) (longest - 1))) as [Hle _].
  rewrite lower_length in * by done. lia.
Qed.
(** What is let go holds no start of a tag, whatever follows. *)
Definition well_tagged (tags : list Text) (longest : nat) : Prop := Forall (λ tag, length (lower tag) = length tag ∧ 0 < length tag ≤ longest) tags.
Lemma held_covers tags longest buf rest tag j :
  well_tagged tags longest → even_text buf → tag ∈ tags → find (lower tag) (lower buf) = None →
  j < length buf - max_partial_suffix tags longest buf → starts (lower tag) (drop j (lower buf ++ rest)) = false.
Proof.
  unfold well_tagged. intros Htags He Hin Hno Hj. rewrite Forall_forall in Htags. destruct (Htags tag Hin) as (Hlen & Hpos & Hlong).
  unfold max_partial_suffix in Hj. pose proof (first_size_spec (partial_size tags (lower buf)) (Nat.min (length (lower buf)) (longest - 1))) as (_ & _ & Hmax).
  set (held := first_size _ _) in *. pose proof (lower_length buf He) as Hl. rewrite drop_app_le by lia.
  destruct (decide (j + length tag ≤ length buf)) as [Hfit|Hover].
  - rewrite starts_short by (rewrite length_drop; lia). apply (find_None _ _ Hno). lia.
  - apply not_true_is_false. intros Hs. apply starts_part in Hs; [|rewrite length_drop; lia].
    assert (Hp : partial_size tags (lower buf) (length buf - j) = true).
    { unfold partial_size. apply existsb_exists. exists tag. split; [by apply list_elem_of_In|]. apply andb_true_intro. split; [apply Nat.ltb_lt; lia|].
      replace (last_points (length buf - j) (lower buf)) with (drop j (lower buf)); [done|]. unfold last_points. destruct (length buf - j) eqn:Hd; [lia|].
      f_equal. lia. }
    rewrite Hmax in Hp; [done|lia|]. rewrite Hl. lia.
Qed.
Lemma last_but_last n s : n ≤ length s → but_last n s ++ last_points n s = s.
Proof. intros Hn. destruct n; cbn; [apply app_nil_r|]. apply take_drop. Qed.
Lemma last_points_drop n s : n ≤ length s → last_points n s = drop (length s - n) s.
Proof. intros Hn. destruct n; cbn; [|done]. by rewrite drop_ge by lia. Qed.
Lemma but_last_take n s : n ≤ length s → but_last n s = take (length s - n) s.
Proof. intros Hn. destruct n; cbn; [|done]. by rewrite take_ge by lia. Qed.
(** So the search goes on from what is held. *)
Lemma find_held tags longest buf rest tag (held := max_partial_suffix tags longest buf) :
  well_tagged tags longest → even_text (buf ++ rest) → tag ∈ tags → find (lower tag) (lower buf) = None →
  find (lower tag) (lower (buf ++ rest)) = (λ i, length buf - held + i) <$> find (lower tag) (lower (last_points held buf ++ rest)).
Proof.
  intros Htags [He Hr]%even_app Hin Hno. pose proof (partial_le tags longest buf He) as Hle. rewrite !lower_app. rewrite last_points_drop by done.
  rewrite lower_drop by done. rewrite <-drop_app_le by (rewrite lower_length by done; subst held; lia). apply find_skip.
  - rewrite length_app, lower_length by done. lia.
  - intros j Hj. by apply (held_covers tags longest).
Qed.

(** ** Spans: the pieces give what the whole text gives *)

Lemma tag_length (inside : bool) : 0 < length (span_tag inside).
Proof. apply Nat.ltb_lt. by destruct inside; vm_compute. Qed.
Lemma tag_lower (inside : bool) : lower (span_tag inside) = span_tag inside.
Proof. by destruct inside; vm_compute. Qed.
Lemma find_nonempty tag s i : 0 < length tag → find tag (lower s) = Some i → 0 < length s.
Proof. intros Hpos Hi. destruct s; [|cbn; lia]. by destruct tag; cbn in *; [lia|]. Qed.
Lemma scrub_fuel n m inside s : length s < n → length s < m → scrub n inside s = scrub m inside s.
Proof.
  revert m inside s. induction n as [|n IH]; intros m inside s Hn Hm; [lia|]. destruct m as [|m]; [lia|]. cbn [scrub].
  pose proof (tag_length inside) as Hpos. destruct (find _ (lower s)) as [i|] eqn:Hi; [|done]. apply find_nonempty in Hi; [|done].
  f_equal. apply IH; rewrite length_drop; lia.
Qed.
Definition scrubbed (inside : bool) (s : Text) : Text := scrub (S (length s)) inside s.
Lemma scrubbed_eq inside s (tag := span_tag inside) :
  scrubbed inside s = match find tag (lower s) with
    | None => if inside then [] else s
    | Some i => (if inside then [] else take i s) ++ scrubbed (negb inside) (drop (i + length tag) s)
    end.
Proof.
  unfold scrubbed at 1. cbn [scrub]. fold tag. pose proof (tag_length inside) as Hpos. destruct (find tag (lower s)) as [i|] eqn:Hi; [|done].
  apply find_nonempty in Hi; [|done]. f_equal. apply scrub_fuel; rewrite length_drop; fold tag in Hpos |- *; lia.
Qed.
(** The state after some pieces, and what it holds: no tag. *)
Definition quiet (s : ContextScrubber) : Prop :=
  even_text (context_buf s) ∧ find (span_tag (in_span s)) (lower (context_buf s)) = None.
Lemma span_tags (inside : bool) : well_tagged [span_tag inside] (length (lower (span_tag inside))).
Proof.
  constructor; [|constructor]. rewrite (tag_lower inside). pose proof (tag_length inside). split; [done|lia].
Qed.
Lemma scrubbed_held inside buf rest (tag := span_tag inside) (held := span_partial tag buf) :
  even_text (buf ++ rest) → find tag (lower buf) = None →
  scrubbed inside (buf ++ rest) = (if inside then [] else but_last held buf) ++ scrubbed inside (last_points held buf ++ rest).
Proof.
  intros He Hno. assert (Hle : held ≤ length buf) by (apply partial_le; by apply even_app in He as [? _]).
  pose proof (find_held [tag] (length (lower tag)) buf rest tag (span_tags inside) He) as Hf. fold (span_partial tag buf) in Hf. fold held in Hf.
  rewrite (tag_lower inside : lower tag = tag) in Hf. specialize (Hf ltac:(left) Hno). rewrite !scrubbed_eq. fold tag. rewrite Hf.
  destruct (find tag (lower (last_points held buf ++ rest))) as [i|]; cbn [fmap option_fmap option_map].
  - assert (Hd : drop (length buf - held + i + length tag) (buf ++ rest) = drop (i + length tag) (last_points held buf ++ rest)).
    { rewrite last_points_drop by done. rewrite <-drop_app_le by lia. rewrite drop_drop. f_equal. lia. }
    rewrite Hd. destruct inside; [done|]. rewrite app_assoc. f_equal. rewrite <-(last_but_last held buf) at 2 by done. rewrite <-app_assoc.
    rewrite but_last_take by done. rewrite take_app_ge; rewrite length_take; [|lia]. do 2 f_equal. lia.
  - destruct inside; [done|]. by rewrite app_assoc, last_but_last.
Qed.
Lemma scrubbed_found inside buf rest i (tag := span_tag inside) :
  find tag (lower buf) = Some i → i + length tag ≤ length buf →
  scrubbed inside (buf ++ rest) = (if inside then [] else take i buf) ++ scrubbed (negb inside) (drop (i + length tag) buf ++ rest).
Proof.
  intros Hi Hle. rewrite scrubbed_eq, lower_app. fold tag. rewrite (find_app _ _ _ _ Hi). rewrite drop_app_le by done.
  destruct inside; [done|]. by rewrite take_app_le by lia.
Qed.
Lemma context_loop_scrubs fuel inside buf out rest :
  length buf ≤ fuel → even_text (buf ++ rest) →
  ∃ o, (context_loop fuel inside buf out).1 = out ++ o
    ∧ scrubbed inside (buf ++ rest) = o ++ scrubbed (in_span (context_loop fuel inside buf out).2) (context_buf (context_loop fuel inside buf out).2 ++ rest)
    ∧ quiet (context_loop fuel inside buf out).2.
Proof.
  revert inside buf out. induction fuel as [|fuel IH]; intros inside buf out Hlen He.
  - destruct buf; [|cbn in Hlen; lia]. exists []. rewrite app_nil_r. split_and!; [done..|]. split; [constructor|]. by destruct inside.
  - destruct buf as [|c buf0]; [exists []; rewrite app_nil_r; split_and!; [done..|]; split; [constructor|]; by destruct inside|].
    set (buf := c :: buf0) in *. assert (Hbuf : even_text buf) by (by apply even_app in He as [? _]).
    change (context_loop (S fuel) inside buf out) with (match find (span_tag inside) (lower buf) with
      | None => let held := span_partial (span_tag inside) buf in (if inside then out else out ++ but_last held buf, mk_context inside (last_points held buf))
      | Some i => context_loop fuel (negb inside) (drop (i + length (span_tag inside)) buf) (if inside then out else out ++ take i buf)
      end).
    destruct (find (span_tag inside) (lower buf)) as [i|] eqn:Hi.
    + assert (Hle : i + length (span_tag inside) ≤ length buf).
      { pose proof Hi as [[Hs _] Hl]%find_Some. apply starts_length in Hs. rewrite length_drop, lower_length in * by done. lia. }
      rewrite (scrubbed_found inside buf rest i Hi Hle). pose proof (tag_length inside) as Hpos.
      destruct (IH (negb inside) (drop (i + length (span_tag inside)) buf) (if inside then out else out ++ take i buf)) as (o & Ho & Hs & Hq).
      * rewrite length_drop. cbn [length] in Hlen. subst buf. cbn [length] in *. lia.
      * apply even_app. split; [by apply even_drop|]. by apply even_app in He as [_ ?].
      * exists ((if inside then [] else take i buf) ++ o). split; [rewrite Ho; destruct inside; [done|by rewrite app_assoc]|]. split; [|exact Hq].
        rewrite Hs. by rewrite app_assoc.
    + exists (if inside then [] else but_last (span_partial (span_tag inside) buf) buf). cbn [fst snd in_span context_buf].
      split; [by destruct inside; [rewrite app_nil_r|]|]. split; [by apply scrubbed_held|]. unfold quiet. cbn [in_span context_buf].
      assert (Hle : span_partial (span_tag inside) buf ≤ length buf) by (by apply partial_le).
      rewrite last_points_drop by done. split; [by apply even_drop|]. rewrite lower_drop by done. apply absent_find. intros j Hj. rewrite drop_drop.
      apply (find_None _ _ Hi). rewrite length_drop, lower_length in Hj by done. rewrite lower_length by done. lia.
Qed.
(** Over pieces, with the end. *)
Lemma context_pieces s pieces :
  quiet s → even_text (context_buf s ++ concat pieces) →
  let '(os, s') := feed_all context_feed s pieces in quiet s' ∧ concat os ++ (context_flush s').1 = scrubbed (in_span s) (context_buf s ++ concat pieces).
Proof.
  revert s. induction pieces as [|p pieces IH]; intros s Hq He; cbn [feed_all concat].
  - split; [done|]. cbn [concat fst context_flush app]. rewrite app_nil_r. rewrite scrubbed_eq. destruct Hq as [_ Hf]. rewrite Hf. by destruct (in_span s).
  - cbn [concat] in He. destruct p as [|c p0]; [cbn [context_feed]; specialize (IH s Hq He); destruct (feed_all context_feed s pieces); exact IH|].
    set (p := c :: p0) in *. change (context_feed s p) with (context_loop (length (context_buf s ++ p)) (in_span s) (context_buf s ++ p) []).
    rewrite app_assoc in He. destruct (context_loop_scrubs (length (context_buf s ++ p)) (in_span s) (context_buf s ++ p) [] (concat pieces)) as (o & Ho & Hs & Hq'); [done|done|].
    destruct (context_loop _ _ _ _) as [o' s1]. cbn [fst snd] in *. subst o'. rewrite app_assoc, Hs.
    assert (He1 : even_text (context_buf s1 ++ concat pieces)) by (apply even_app; split; [apply Hq'|by apply even_app in He as [_ ?]]).
    specialize (IH s1 Hq' He1). destruct (feed_all context_feed s1 pieces) as [os s']. destruct IH as [Hq'' <-]. split; [done|]. cbn [concat]. by rewrite <-app_assoc.
Qed.

(** ** A gateway's error: nothing of it, or everything *)

Lemma sentinel_matched s pieces :
  matched s = true → let '(os, s') := feed_all sentinel_feed s pieces in concat os = [] ∧ matched s' = true ∧ (sentinel_flush s').1 = [].
Proof.
  intros Hm. induction pieces as [|p pieces IH]; cbn [feed_all]; [unfold sentinel_flush; by rewrite Hm|].
  assert (Hf : sentinel_feed s p = ([], s)) by (destruct p; cbn; by rewrite ?Hm). rewrite Hf. by destruct (feed_all sentinel_feed s pieces).
Qed.
Lemma sentinel_passing pieces :
  feed_all sentinel_feed (mk_sentinel [] true false) pieces = (pieces, mk_sentinel [] true false).
Proof. induction pieces as [|p pieces IH]; [done|]. cbn [feed_all]. assert (sentinel_feed (mk_sentinel [] true false) p = (p, mk_sentinel [] true false)) as -> by (by destruct p). by rewrite IH. Qed.
Definition opens_error (s : Text) : Prop := ∃ p, p ∈ UPSTREAM_ERROR_SENTINELS ∧ starts p (lstrip_text s) = true.
Definition waits (b : Text) : SentinelScrubber := mk_sentinel b false false.
Definition found_error : SentinelScrubber := mk_sentinel [] false true.
Definition passes : SentinelScrubber := mk_sentinel [] true false.
Lemma sentinel_some q : existsb q UPSTREAM_ERROR_SENTINELS = true ↔ ∃ p, p ∈ UPSTREAM_ERROR_SENTINELS ∧ q p = true.
Proof. rewrite existsb_exists. split; intros (p & Hp & Hq); exists p; by rewrite list_elem_of_In in *. Qed.
(** A piece, while the text may still become an error. *)
Lemma sentinel_feed_waits b p :
  p ≠ [] →
  sentinel_feed (waits b) p = ([], waits (b ++ p)) ∧ ¬ opens_error (b ++ p)
  ∨ sentinel_feed (waits b) p = ([], found_error)
  ∨ sentinel_feed (waits b) p = (b ++ p, passes) ∧ ∀ rest, ¬ opens_error ((b ++ p) ++ rest).
Proof.
  intros Hp. destruct p as [|c p0]; [done|]. set (p := c :: p0). unfold sentinel_feed. fold p. cbn [waits matched passthrough sentinel_buf].
  destruct (lstrip_text (b ++ p)) as [|d cand] eqn:Hc.
  { left. split; [done|]. intros (q & Hq & Hs). rewrite Hc in Hs. apply list_elem_of_singleton in Hq as ->. done. }
  destruct (existsb (λ q, starts q (d :: cand)) UPSTREAM_ERROR_SENTINELS) eqn:He; [right; by left|].
  assert (Hno : ∀ q, q ∈ UPSTREAM_ERROR_SENTINELS → starts q (d :: cand) = false).
  { intros q Hq. apply not_true_is_false. intros Hs. apply not_true_iff_false in He. apply He, sentinel_some. by exists q. }
  destruct (existsb (λ q, starts (d :: cand) q) UPSTREAM_ERROR_SENTINELS) eqn:Hpre.
  { left. split; [done|]. intros (q & Hq & Hs). rewrite Hc in Hs. by rewrite Hno in Hs. }
  right. destruct (is_upstream_error_sentinel (b ++ p)); [by left|]. right. split; [done|]. intros rest (q & Hq & Hs).
  rewrite lstrip_app, Hc in Hs by (by rewrite Hc). destruct (decide (length q ≤ length (d :: cand))) as [Hl|Hl].
  - rewrite starts_short in Hs by done. by rewrite Hno in Hs.
  - apply starts_part in Hs; [|lia]. apply not_true_iff_false in Hpre. apply Hpre, sentinel_some. by exists q.
Qed.
(** Over pieces, with the end. *)
Lemma sentinel_pieces b pieces :
  ¬ opens_error b →
  let '(os, s') := feed_all sentinel_feed (waits b) pieces in
  let '(t, s'') := sentinel_flush s' in
  (if matched s'' then concat os ++ t = [] else concat os ++ t = b ++ concat pieces) ∧ (opens_error (b ++ concat pieces) → matched s'' = true).
Proof.
  revert b. induction pieces as [|p pieces IH]; intros b Hb.
  - cbn [feed_all concat]. rewrite app_nil_r. unfold sentinel_flush. cbn [waits matched sentinel_buf passthrough]. destruct (_ || _); by split.
  - destruct (decide (p = [])) as [->|Hp].
    { cbn [feed_all sentinel_feed]. specialize (IH b Hb). by destruct (feed_all sentinel_feed _ pieces). }
    cbn [feed_all concat]. rewrite (app_assoc b p). destruct (sentinel_feed_waits b p Hp) as [[-> Hno]|[->|[-> Hno]]].
    + specialize (IH (b ++ p) Hno). by destruct (feed_all sentinel_feed _ pieces).
    + pose proof (sentinel_matched found_error pieces eq_refl) as Hm. destruct (feed_all sentinel_feed _ pieces) as [os s'].
      destruct Hm as (Ho & Hm & Hf). cbn [concat]. rewrite Ho. unfold sentinel_flush in *. by rewrite Hm.
    + unfold passes. rewrite sentinel_passing. cbn [concat]. unfold sentinel_flush. cbn [matched sentinel_buf passthrough]. split; [cbn; by rewrite app_nil_r|].
      intros Ho. by destruct (Hno (concat pieces)).
Qed.

(** ** The pieces of an answer, through all three *)

Lemma feed_all_app {S} (feed : S → Text → Text * S) s ps qs :
  feed_all feed s (ps ++ qs) = let '(os, s1) := feed_all feed s ps in let '(os', s2) := feed_all feed s1 qs in (os ++ os', s2).
Proof.
  revert s. induction ps as [|p ps IH]; intros s; cbn [feed_all app]; [by destruct (feed_all feed s qs)|].
  destruct (feed s p) as [o s1]. rewrite IH. destruct (feed_all feed s1 ps) as [os s2]. by destruct (feed_all feed s2 qs).
Qed.
Lemma feed_delta_all th co se deltas :
  feed_all feed_delta (mk_scrubbers th co se) deltas
  = let '(ts, th) := feed_all think_feed th deltas in
    let '(cs, co) := feed_all context_feed co ts in
    let '(vs, se) := feed_all sentinel_feed se cs in (vs, mk_scrubbers th co se).
Proof.
  revert th co se. induction deltas as [|d deltas IH]; intros th co se; [done|]. cbn [feed_all]. unfold feed_delta at 1. cbn [think context sentinel].
  destruct (think_feed th d) as [t th1] eqn:Ht. destruct (context_feed co t) as [c co1] eqn:Hc. destruct (sentinel_feed se c) as [v se1] eqn:Hv.
  rewrite IH. destruct (feed_all think_feed th1 deltas) as [ts th2]. cbn [feed_all]. rewrite Hc. destruct (feed_all context_feed co1 ts) as [cs co2].
  cbn [feed_all]. rewrite Hv. by destruct (feed_all sentinel_feed se1 cs).
Qed.

(** C30. However an answer is cut into pieces, what is shown of it is all of
    what the think scrubber lets through with its spans of memory taken out,
    as if that had come whole; or it is flagged as a gateway's error and
    nothing is shown, which it always is where it opens with one. What the
    think scrubber lets through is of even text ([even_text]: no letter
    lower-cases to two), and may itself depend on the cut. *)
Theorem shown_text_whole deltas (t := without_thinking deltas) :
  even_text t →
  let '(shown, gateway_error) := shown_text deltas in
  shown = (if gateway_error then [] else without_spans t) ∧ (opens_error (without_spans t) → gateway_error = true).
Proof.
  intros He. subst t. unfold shown_text, without_thinking, new_scrubbers in *. rewrite feed_delta_all.
  destruct (feed_all think_feed new_think deltas) as [ts th]. unfold feed_tail.
  destruct (think_flush th) as [tt th'] eqn:Htf. cbn [fst] in He |- *.
  assert (Hts : concat (ts ++ [tt]) = concat ts ++ tt) by (rewrite concat_app; cbn; by rewrite app_nil_r). rewrite <-Hts in He |- *.
  pose proof (context_pieces new_context (ts ++ [tt])) as Hctx. specialize (Hctx ltac:(by split; [constructor|]) He). rewrite feed_all_app in Hctx.
  destruct (feed_all context_feed new_context ts) as [cs co]. cbn [feed_all] in Hctx. destruct (context_feed co tt) as [c co1] eqn:Hc.
  destruct Hctx as [_ Hctx]. rewrite concat_app in Hctx. cbn [concat] in Hctx. rewrite app_nil_r in Hctx.
  change (scrubbed (in_span new_context) (context_buf new_context ++ concat (ts ++ [tt]))) with (without_spans (concat (ts ++ [tt]))) in Hctx.
  rewrite <-Hctx. clear Hctx He Hts. destruct (context_flush co1) as [c' co2] eqn:Hfl. cbn [fst].
  pose proof (sentinel_pieces [] (cs ++ [c ++ c'])) as Hs. change (waits []) with new_sentinel in Hs.
  specialize (Hs ltac:(by intros (q & ->%list_elem_of_singleton & Hq))). rewrite feed_all_app in Hs.
  destruct (feed_all sentinel_feed new_sentinel cs) as [vs se]. cbn [sentinel feed_all] in *. destruct (sentinel_feed se (c ++ c')) as [v se1] eqn:Hv.
  cbn [think context sentinel]. rewrite Htf, Hc, Hfl, Hv.
  destruct (sentinel_flush se1) as [v' se2]. cbn [sentinel]. rewrite !concat_app in Hs. cbn [concat app] in Hs. rewrite !app_nil_r in Hs.
  rewrite <-!app_assoc in *. destruct Hs as [Hs Hopen]. split; [|exact Hopen]. by destruct (matched se2).
Qed.

(** ** On an answer *)

Lemma shown_text_whole_witness :
  let deltas := [u "<think>no</think>It is <memory-con"; u "text>a secret</memory"; u "-context>fine"] in
  even_text (without_thinking deltas)
  ∧ shown_text deltas = (u "It is fine", false)
  ∧ (let '(shown, gateway_error) := shown_text deltas in shown = (if gateway_error then [] else without_spans (without_thinking deltas))).
Proof.
  intros deltas. assert (He : even_text (without_thinking deltas)) by (refine (bool_decide_eq_true_1 (even_text _) _); by vm_compute).
  split; [exact He|]. split; [by vm_compute|]. pose proof (shown_text_whole deltas He) as H. destruct (shown_text deltas) as [t e]. exact (proj1 H).
Defined.
(** A letter that lower-cases to two shifts what is taken out. *)
Lemma shifted_span_shown :
  message_text [replicate 18 304%N ++ u "<memory-context>secret</memory-context>fine"] = replicate 18 304%N ++ u "<memory-context>se".
Proof. by vm_compute. Qed.
(** A long answer that quotes the error early is swallowed, all of it. *)
Lemma long_quote_swallowed :
  let deltas := [u "It says " ++ UPSTREAM_SENTINEL_MARKER; u ": " ++ replicate 300 97%N] in
  is_upstream_error_sentinel (concat deltas) = false ∧ shown_text deltas = ([], true).
Proof. by vm_compute. Qed.
(** An error of other words is shown where its start comes alone. *)
Lemma drifted_error_shown :
  let deltas := [u "Error: "; UPSTREAM_SENTINEL_MARKER] in
  is_upstream_error_sentinel (concat deltas) = true ∧ shown_text deltas = (concat deltas, false).
Proof. by vm_compute. Qed.
