(* ===== verification/StreamThink.v ===== *)
(** * Thinking that streams past (harness/stream_scrubbers.py)

    What [StreamingThinkScrubber], as StreamText.v has it, does with a block of
    thinking that opens an answer: none of it is shown, wherever it is cut. *)

From S2P Require Import Prelude.
From S2P Require Import Texts.
From S2P Require Import StreamText.
From stdpp Require Import options.
Local Open Scope nat_scope.

(** ** Tags *)

(** A tag opens with the one [<] it has and closes with the one [>]. *)
Definition shapely (t : Text) : bool :=
  match t with c :: r => (c =? 60)%N && forallb (λ d, negb (d =? 60)%N) r && existsb (λ d, d =? 62)%N r && forallb (λ d, negb (d =? 62)%N) (removelast r) | [] => false end.
Definition all_tags : list Text := lower <$> OPEN_TAGS ++ CLOSE_TAGS.
Lemma all_shapely : forallb shapely all_tags = true.
Proof. by vm_compute. Qed.
Lemma all_apart : forallb (λ t, forallb (λ t', bool_decide (t = t') || negb (starts t t')) all_tags) all_tags = true.
Proof. by vm_compute. Qed.
Lemma forallb_elem {A} (p : A → bool) l x : forallb p l = true → x ∈ l → p x = true.
Proof. rewrite forallb_forall. intros H Hx. by apply H, list_elem_of_In. Qed.
Lemma open_tag t : t ∈ OPEN_TAGS → lower t ∈ all_tags.
Proof. intros Ht. apply (list_elem_of_fmap_2 lower), elem_of_app. by left. Qed.
Lemma close_tag t : t ∈ CLOSE_TAGS → lower t ∈ all_tags.
Proof. intros Ht. apply (list_elem_of_fmap_2 lower), elem_of_app. by right. Qed.
(** No two at one place. *)
Lemma same_tag t t' s : t ∈ all_tags → t' ∈ all_tags → starts t s = true → starts t' s = true → t = t'.
Proof.
  intros Ht Ht' Hs Hs'. assert (Hlt : ∀ a b, a ∈ all_tags → b ∈ all_tags → starts a s = true → starts b s = true → length a ≤ length b → a = b).
  { clear. intros a b Ha Hb Hsa Hsb Hl. pose proof (forallb_elem _ _ b (forallb_elem _ _ a all_apart Ha) Hb) as Hap. cbn beta in Hap.
    apply orb_prop in Hap as [Hap|Hap]; [by apply bool_decide_eq_true in Hap|]. apply negb_true_iff in Hap.
    assert (Hp : starts a b = true); [|congruence]. clear Hap Ha Hb. revert b s Hl Hsa Hsb. induction a as [|c a IH]; intros [|d b] [|e s]; cbn; try done; [lia|].
    intros Hl [Hc Hsa]%andb_prop [Hd Hsb]%andb_prop. apply N.eqb_eq in Hc as ->. apply N.eqb_eq in Hd as ->. rewrite N.eqb_refl. eapply IH; [lia|exact Hsa|exact Hsb]. }
  destruct (decide (length t ≤ length t')) as [|]; [by apply Hlt|]. symmetry. apply Hlt; auto. lia.
Qed.
Lemma starts_lookup (p s : list N) i c : starts p s = true → p !! i = Some c → s !! i = Some c.
Proof.
  revert s i. induction p as [|a p IH]; intros s i Hs Hi; [done|]. destruct s as [|b s]; [done|]. cbn in Hs. apply andb_prop in Hs as [->%N.eqb_eq Hs].
  destruct i as [|i]; [exact Hi|exact (IH s i Hs Hi)].
Qed.
Lemma tag_first t : t ∈ all_tags → t !! 0 = Some 60%N ∧ ∀ i, t !! S i ≠ Some 60%N.
Proof.
  intros Ht. pose proof (forallb_elem _ _ t all_shapely Ht) as Hs. destruct t as [|c r]; [done|]. cbn in Hs.
  apply andb_prop in Hs as [[[->%N.eqb_eq Hr]%andb_prop _]%andb_prop _]. split; [done|]. intros i Hi. cbn in Hi.
  apply list_elem_of_lookup_2 in Hi. by apply (forallb_elem _ _ _ Hr) in Hi.
Qed.
Lemma tag_last t : t ∈ all_tags → 62%N ∈ t.
Proof.
  intros Ht. pose proof (forallb_elem _ _ t all_shapely Ht) as Hs. destruct t as [|c r]; [done|]. cbn in Hs.
  apply andb_prop in Hs as [[_ Hr]%andb_prop _]. apply existsb_exists in Hr as (d & Hd & ->%N.eqb_eq). right. by apply list_elem_of_In.
Qed.
Lemma tag_before_last t n : t ∈ all_tags → n < length t → 62%N ∉ take n t.
Proof.
  intros Ht Hn Hin. pose proof (forallb_elem _ _ t all_shapely Ht) as Hs. destruct t as [|c r]; [done|]. cbn [shapely] in Hs.
  apply andb_prop in Hs as [[[->%N.eqb_eq _]%andb_prop _]%andb_prop Hr]. apply list_elem_of_lookup in Hin as [i Hi].
  apply lookup_take_Some in Hi as [Hi Hlt]. destruct i as [|i]; [done|]. cbn in Hi, Hn.
  assert (Hrl : 62%N ∈ removelast r).
  { apply list_elem_of_lookup. exists i. rewrite removelast_firstn_len. apply lookup_take_Some. split; [done|]. lia. }
  by apply (forallb_elem _ _ _ Hr) in Hrl.
Qed.
(** A tag does not run into another. *)
Lemma no_straddle t t' s i j : t ∈ all_tags → t' ∈ all_tags → starts t (drop i s) = true → starts t' (drop j s) = true → j < i → j + length t' ≤ i.
Proof.
  intros Ht Ht' Hs Hs' Hj. destruct (tag_first t Ht) as [H0 _], (tag_first t' Ht') as [_ HS]. apply Nat.nlt_ge. intros Hlt.
  apply (starts_lookup _ _ 0 60%N) in Hs; [|done]. rewrite lookup_drop, Nat.add_0_r in Hs.
  destruct (lookup_lt_is_Some_2 t' (i - j)) as [c Hc]; [lia|]. pose proof (starts_lookup _ _ _ _ Hs' Hc) as Hl. rewrite lookup_drop in Hl.
  replace (j + (i - j)) with i in Hl by lia. assert (c = 60%N) as -> by congruence. destruct (i - j) as [|d] eqn:Hd; [lia|]. by apply (HS d).
Qed.

(** The least of what a list gives. *)
Definition least {A} (f : A → option (nat * nat)) (l : list A) : option (nat * nat) :=
  foldl (λ best x, match f x with Some v => earlier fst best v | None => best end) None l.
Lemma least_from {A} (f : A → option (nat * nat)) l best v :
  foldl (λ best x, match f x with Some v => earlier fst best v | None => best end) best l = Some v → best = Some v ∨ ∃ x, x ∈ l ∧ f x = Some v.
Proof.
  revert best. induction l as [|y l IH]; intros best; cbn [foldl]; [by left|]. intros [Hb|(x & Hx & Hf)]%IH; [|right; exists x; split; [by right|done]].
  destruct (f y) as [w|] eqn:Hy; [|by left]. unfold earlier in Hb. destruct best as [b|]; [destruct (_ <? _)|]; [|by left|]; right; exists y; split; try left; congruence.
Qed.
Lemma least_in {A} (f : A → option (nat * nat)) l v : least f l = Some v → ∃ x, x ∈ l ∧ f x = Some v.
Proof. intros [?|?]%least_from; [done|done]. Qed.
Lemma least_le {A} (f : A → option (nat * nat)) l v x w : least f l = Some v → x ∈ l → f x = Some w → fst v ≤ fst w.
Proof.
  unfold least. assert (Hg : ∀ l best v, foldl (λ best x, match f x with Some v => earlier fst best v | None => best end) best l = Some v →
    (∀ b, best = Some b → fst v ≤ fst b) ∧ ∀ x w, x ∈ l → f x = Some w → fst v ≤ fst w); [|intros H Hx Hf; by eapply Hg].
  clear. intros l. induction l as [|y l IH]; intros best v; cbn [foldl]; [intros ->; split; [by intros b [= ->]|by intros x w ?%elem_of_nil]|].
  intros [Hb Hl]%IH. destruct (f y) as [z|] eqn:Hy.
  - assert (Hz : fst v ≤ fst z ∧ ∀ b, best = Some b → fst v ≤ fst b).
    { unfold earlier in Hb. destruct best as [b0|]; [destruct (Nat.ltb_spec (fst z) (fst b0))|]; specialize (Hb _ eq_refl); (split; [lia|]); intros b [= <-]; lia. }
    split; [apply Hz|]. intros x w [->|Hx]%elem_of_cons Hf; [|by eapply Hl]. assert (w = z) as -> by congruence. exact (proj1 Hz).
  - split; [done|]. intros x w [->|Hx]%elem_of_cons Hf; [congruence|by eapply Hl].
Qed.
Lemma least_none {A} (f : A → option (nat * nat)) l : (∀ x, x ∈ l → f x = None) → least f l = None.
Proof. intros Hn. destruct (least f l) as [v|] eqn:Hl; [|done]. apply least_in in Hl as (x & Hx & Hf). by rewrite Hn in Hf. Qed.
Lemma least_is {A} (f : A → option (nat * nat)) l x v :
  x ∈ l → f x = Some v → (∀ y w, y ∈ l → f y = Some w → w = v ∨ fst v < fst w) → least f l = Some v.
Proof.
  unfold least. intros Hx Hf Hleast.
  assert (Hkeep : ∀ l', (∀ y, y ∈ l' → y ∈ l) → foldl (λ best x, match f x with Some v => earlier fst best v | None => best end) (Some v) l' = Some v).
  { intros l'. induction l' as [|y l' IH]; intros Hin; [done|]. cbn [foldl]. destruct (f y) as [w|] eqn:Hy; [|apply IH; intros; apply Hin; by right].
    assert (earlier fst (Some v) w = Some v) as ->; [|apply IH; intros; apply Hin; by right]. unfold earlier.
    destruct (Hleast y w (Hin y ltac:(left)) Hy) as [->|Hlt]; [by rewrite Nat.ltb_irrefl|]. destruct (Nat.ltb_spec (fst w) (fst v)); [lia|done]. }
  assert (Hgo : ∀ l' best, (∀ y, y ∈ l' → y ∈ l) → x ∈ l' → (∀ b, best = Some b → b = v ∨ fst v < fst b) →
    foldl (λ best x, match f x with Some v => earlier fst best v | None => best end) best l' = Some v); [|by apply Hgo].
  intros l'. induction l' as [|y l' IH]; intros best Hin Hx' Hb; [by apply elem_of_nil in Hx'|]. cbn [foldl].
  assert (Hin' : ∀ z, z ∈ l' → z ∈ l) by (intros; apply Hin; by right). apply elem_of_cons in Hx' as [<-|Hx'].
  - rewrite Hf. assert (earlier fst best v = Some v) as ->; [|by apply Hkeep]. unfold earlier. destruct best as [b|]; [|done].
    destruct (Hb b eq_refl) as [->|Hlt]; [by rewrite Nat.ltb_irrefl|]. destruct (Nat.ltb_spec (fst v) (fst b)); [done|lia].
  - apply IH; [done|done|]. intros b. destruct (f y) as [w|] eqn:Hy; [|apply Hb]. unfold earlier. destruct best as [b0|].
    + destruct (_ <? _); [intros [= <-]; by eapply Hleast; [apply Hin; left|]|apply Hb].
    + intros [= <-]. eapply Hleast; [apply Hin; left|done].
Qed.

Lemma find_first_least buf tags : find_first_tag buf tags = least (λ tag, (λ i, (i, length tag)) <$> find (lower tag) (lower buf)) tags.
Proof.
  unfold find_first_tag, least. generalize (@None (nat * nat)). induction tags as [|t tags IH]; intros best; [done|]. cbn [foldl].
  rewrite IH. f_equal. by destruct (find (lower t) (lower buf)).
Qed.
Lemma closed_least buf :
  find_earliest_closed_pair buf
  = least (λ tags, i ← find (lower tags.1) (lower buf); j ← find_from (lower tags.2) (lower buf) (i + length tags.1); Some (i, j + length tags.2)) (zip OPEN_TAGS CLOSE_TAGS).
Proof. done. Qed.
Lemma boundary_least s buf out :
  find_open_at_boundary s buf out
  = least (λ tag, (λ i, (i, length tag)) <$> tag_at_boundary (S (length (lower buf))) s buf out (lower tag) 0) OPEN_TAGS.
Proof.
  unfold find_open_at_boundary, least. generalize (@None (nat * nat)). generalize OPEN_TAGS as tags. intros tags.
  induction tags as [|t tags IH]; intros best; [done|]. cbn [foldl]. rewrite IH. f_equal. by destruct (tag_at_boundary _ _ _ _ _ _).
Qed.
Lemma boundary_found fuel s buf out tag start i :
  tag_at_boundary fuel s buf out tag start = Some i → start ≤ i ∧ starts tag (drop i (lower buf)) = true.
Proof.
  revert start. induction fuel as [|fuel IH]; intros start; [done|]. cbn [tag_at_boundary]. unfold find_from.
  destruct (find tag (drop start (lower buf))) as [k|] eqn:Hk; [|done]. cbn. destruct (is_boundary _ _ _ _).
  - intros [= <-]. apply find_Some in Hk as [[Hs _] _]. rewrite drop_drop in Hs. split; [lia|done].
  - intros [Hle Hs]%IH. split; [lia|done].
Qed.
Lemma no_close_point t s : t ∈ all_tags → 62%N ∉ s → find t s = None.
Proof.
  intros Ht Hs. apply absent_find. intros i _. apply not_true_is_false. intros Hst. apply tag_last in Ht as [n Hn]%list_elem_of_lookup.
  pose proof (starts_lookup _ _ _ _ Hst Hn) as Hl. rewrite lookup_drop in Hl. by apply list_elem_of_lookup_2, Hs in Hl.
Qed.
Lemma strip_nil : strip_orphan_close_tags [] = [].
Proof. done. Qed.
Lemma think_tags tags : tags = OPEN_TAGS ∨ tags = CLOSE_TAGS → well_tagged tags MAX_TAG_LEN.
Proof.
  assert (H : forallb (λ tags, forallb (λ tag, (length (lower tag) =? length tag) && (1 <=? length tag) && (length tag <=? MAX_TAG_LEN)) tags) [OPEN_TAGS; CLOSE_TAGS] = true) by (by vm_compute).
  intros Ht. apply Forall_forall. intros tag Hin. assert (Htags : tags ∈ [OPEN_TAGS; CLOSE_TAGS]) by (destruct Ht as [-> | ->]; set_solver).
  pose proof (forallb_elem _ _ tag (forallb_elem _ _ tags H Htags) Hin) as Hb. cbn beta in Hb.
  apply andb_prop in Hb as [[H1%Nat.eqb_eq H2%Nat.leb_le]%andb_prop H3%Nat.leb_le]. lia.
Qed.

(** A block: an opening tag of the code's, what is in it, and its closing tag,
    the first one of any in it. *)
Record block (k : nat) (opening body closing : Text) : Prop := {
  block_open : ∃ o, OPEN_TAGS !! k = Some o ∧ lower opening = lower o;
  block_close : ∃ c, CLOSE_TAGS !! k = Some c ∧ lower closing = lower c;
  block_first : find_first_tag (body ++ closing) CLOSE_TAGS = Some (length body, length closing);
  block_even : even_text (opening ++ body ++ closing)
}.
Section block.
Context (k : nat) (opening body closing : Text) (Hblock : block k opening body closing).
Lemma opening_tag : lower opening ∈ all_tags.
Proof using All. destruct (block_open _ _ _ _ Hblock) as (o & Ho & ->). by eapply open_tag, list_elem_of_lookup_2. Qed.
Lemma closing_tag : lower closing ∈ all_tags.
Proof using All. destruct (block_close _ _ _ _ Hblock) as (c & Hc & ->). by eapply close_tag, list_elem_of_lookup_2. Qed.
Lemma evens : even_text opening ∧ even_text body ∧ even_text closing.
Proof using All. pose proof (block_even _ _ _ _ Hblock) as He. rewrite !even_app in He. tauto. Qed.

(** While the opening tag comes, all of it is held. *)
Lemma opening_held t rest fuel :
  opening = t ++ rest → t ≠ [] → rest ≠ [] → think_loop (S fuel) (mk_think false [] true) t [] = ([], mk_think false t true).
Proof using All.
  intros Ho Ht Hr. destruct evens as (Heo & _). rewrite Ho in Heo. apply even_app in Heo as [Het Her].
  destruct (block_open _ _ _ _ Hblock) as (o & Hk & Hlow). assert (Hin : o ∈ OPEN_TAGS) by (by eapply list_elem_of_lookup_2).
  assert (Hlen : length o = length t + length rest).
  { pose proof (think_tags OPEN_TAGS ltac:(by left)) as Htags. unfold well_tagged in Htags. rewrite Forall_forall in Htags. destruct (Htags o Hin) as [<- _].
    rewrite <-Hlow, Ho, lower_app, length_app, !lower_length by done. done. }
  assert (Hrest : 0 < length rest) by (destruct rest; [done|cbn; lia]).
  assert (Hno : ∀ tag, tag ∈ all_tags → find tag (lower t) = None).
  { intros tag Htag. apply no_close_point; [done|]. intros Hin'. apply (tag_before_last (lower opening) (length t) opening_tag).
    - rewrite Ho, lower_app, length_app, !lower_length by done. lia.
    - rewrite Ho, lower_app, take_app_le by (rewrite lower_length by done; lia). by rewrite take_ge by (rewrite lower_length by done; lia). }
  assert (Hpair : find_earliest_closed_pair t = None).
  { rewrite closed_least. apply least_none. intros [a b] Hab%elem_of_zip_l. cbn [fst]. by rewrite (Hno _ (open_tag a Hab)). }
  assert (Hopen : ∀ s out, find_open_at_boundary s t out = None).
  { intros s out. rewrite boundary_least. apply least_none. intros tag Htag. cbn [tag_at_boundary]. unfold find_from. rewrite drop_0. by rewrite (Hno _ (open_tag tag Htag)). }
  assert (Hheld : Nat.max (max_partial_suffix OPEN_TAGS MAX_TAG_LEN t) (max_partial_suffix CLOSE_TAGS MAX_TAG_LEN t) = length t).
  { pose proof (partial_le CLOSE_TAGS MAX_TAG_LEN t Het). pose proof (partial_le OPEN_TAGS MAX_TAG_LEN t Het).
    enough (length t ≤ max_partial_suffix OPEN_TAGS MAX_TAG_LEN t) by lia. apply Nat.nlt_ge. intros Hlt. unfold max_partial_suffix in Hlt.
    pose proof (first_size_spec (partial_size OPEN_TAGS (lower t)) (Nat.min (length (lower t)) (MAX_TAG_LEN - 1))) as (_ & _ & Hmax).
    pose proof (think_tags OPEN_TAGS ltac:(by left)) as Htags. unfold well_tagged in Htags. rewrite Forall_forall in Htags. destruct (Htags o Hin) as (Hol & _ & Hmx).
    assert (Hp : partial_size OPEN_TAGS (lower t) (length t) = true).
    { apply existsb_exists. exists o. split; [by apply list_elem_of_In|]. apply andb_true_intro. split; [apply Nat.ltb_lt; lia|].
      rewrite last_points_drop by (rewrite lower_length by done; lia). rewrite lower_length, Nat.sub_diag, drop_0 by done. rewrite <-Hlow, Ho, lower_app.
      apply starts_app. clear. induction (lower t); [done|]. cbn. by rewrite N.eqb_refl. }
    rewrite Hmax in Hp; [done|lia|]. rewrite lower_length by done. lia. }
  destruct t as [|c t0]; [done|]. set (t := c :: t0) in *. cbn [think_loop in_block]. fold t. rewrite Hpair, Hopen, Hheld.
  rewrite but_last_take, Nat.sub_diag, take_0 by lia. unfold append_visible. rewrite strip_nil. unfold hold. cbn [in_block ended_newline].
  by rewrite last_points_drop, Nat.sub_diag, drop_0 by lia.
Qed.

(** The closing tag is where it is, whatever follows, and no tag is before it. *)
Lemma close_here x : starts (lower closing) (drop (length body) (lower (body ++ closing ++ x))) = true.
Proof using All.
  destruct evens as (_ & Heb & _). rewrite !lower_app. rewrite drop_app_le by (rewrite lower_length; done).
  rewrite drop_ge by (by rewrite lower_length). cbn [app]. apply starts_app. clear. induction (lower closing); [done|]. cbn. by rewrite N.eqb_refl.
Qed.
Lemma close_length tag : tag ∈ CLOSE_TAGS → length (lower tag) = length tag ∧ 0 < length tag.
Proof using . intros Ht. pose proof (think_tags CLOSE_TAGS ltac:(by right)) as H. unfold well_tagged in H. rewrite Forall_forall in H. destruct (H tag Ht) as (? & ? & _). done. Qed.
Lemma close_none_before tag j : tag ∈ CLOSE_TAGS → j < length body → starts (lower tag) (drop j (lower (body ++ closing))) = false.
Proof using All.
  intros Ht Hj. apply not_true_is_false. intros Hs. pose proof (block_first _ _ _ _ Hblock) as Hf. rewrite find_first_least in Hf.
  destruct (find (lower tag) (lower (body ++ closing))) as [i|] eqn:Hi.
  - assert (Hij : i ≤ j). { apply find_Some in Hi as [[_ Hno] _]. apply Nat.nlt_ge. intros Hlt. by rewrite Hno in Hs. }
    assert (Hle : length body ≤ i); [|lia]. clear Hs. revert Hf. generalize dependent tag. generalize CLOSE_TAGS as tags. intros tags tag Ht Hi Hf.
    by apply (least_le _ _ _ tag (i, length tag) Hf Ht); rewrite Hi.
  - destruct evens as (_ & Heb & Hec). rewrite (find_None _ _ Hi j) in Hs; [done|]. rewrite lower_length by (by apply even_app). rewrite length_app. lia.
Qed.
Lemma close_before tag j x : tag ∈ CLOSE_TAGS → j < length body → starts (lower tag) (drop j (lower (body ++ closing ++ x))) = false.
Proof using All.
  intros Ht Hj. apply not_true_is_false. intros Hs. destruct evens as (_ & Heb & Hec). pose proof (no_straddle _ _ _ _ _ closing_tag (close_tag tag Ht) (close_here x) Hs Hj) as Hend.
  assert (Hlow : lower (body ++ closing ++ x) = lower (body ++ closing) ++ lower x) by (by rewrite !lower_app, app_assoc). rewrite Hlow in Hs.
  assert (Hlen : length (lower (body ++ closing)) = length body + length closing) by (rewrite lower_length by (by apply even_app); by rewrite length_app).
  rewrite drop_app_le in Hs by lia. rewrite starts_short in Hs by (rewrite length_drop; lia). by rewrite close_none_before in Hs.
Qed.
(** Before its last letter there is no closing tag. *)
Lemma close_none tag b r : tag ∈ CLOSE_TAGS → body ++ closing = b ++ r → r ≠ [] → find (lower tag) (lower b) = None.
Proof using All.
  intros Ht Hb Hr. apply absent_find. intros i Hi. apply not_true_is_false. intros Hs. destruct evens as (_ & Heb & Hec).
  assert (Hev : even_text (b ++ r)) by (rewrite <-Hb; by apply even_app). apply even_app in Hev as [He1 He2].
  assert (Hlen : length body + length closing = length b + length r) by (rewrite <-!length_app; by rewrite Hb).
  assert (Hrl : 0 < length r) by (destruct r; [done|cbn; lia]).
  pose proof (starts_length _ _ Hs) as Hfit. rewrite length_drop, (lower_length b) in Hfit by done. rewrite (lower_length b) in Hi by done.
  assert (Hs' : starts (lower tag) (drop i (lower (body ++ closing))) = true).
  { rewrite Hb, lower_app, drop_app_le by (by rewrite lower_length). by apply starts_app. }
  pose proof (close_length tag Ht) as [Htl Htp]. pose proof (close_here []) as Hc. rewrite app_nil_r in Hc.
  assert (Hcl : length (lower closing) = length closing) by (by apply lower_length).
  destruct (lt_eq_lt_dec i (length body)) as [[Hlt|Heq]|Hgt].
  - by rewrite close_none_before in Hs'.
  - rewrite Heq in Hs'. pose proof (same_tag _ _ _ (close_tag tag Ht) closing_tag Hs' Hc) as Hsame. rewrite Hsame in *. lia.
  - pose proof (no_straddle _ _ _ _ _ (close_tag tag Ht) closing_tag Hs' Hc Hgt). lia.
Qed.

(** What is held in a block: all of it but what no tag can start in. *)
Definition covered (b h : Text) : Prop :=
  ∃ a, b = a ++ h ∧ ∀ tag rest j, tag ∈ CLOSE_TAGS → j < length a → starts (lower tag) (drop j (lower (b ++ rest))) = false.
Lemma covered_find b h t tag (n := length b - length h) : covered b h → even_text (b ++ t) → tag ∈ CLOSE_TAGS →
  find (lower tag) (lower (b ++ t)) = (λ i, n + i) <$> find (lower tag) (lower (h ++ t)).
Proof using .
  intros (a & Hb & Hno) He Ht. assert (Hn : n = length a) by (subst n; rewrite Hb, length_app; lia). rewrite Hn. clear n Hn.
  assert (Hlow : lower (h ++ t) = drop (length a) (lower (b ++ t))).
  { rewrite <-lower_drop by done. f_equal. rewrite Hb, <-app_assoc. by rewrite drop_app_length. }
  rewrite Hlow. apply find_skip; [|intros j Hj; by apply Hno]. rewrite lower_length by done. rewrite Hb, !length_app. lia.
Qed.
Lemma inside_held b h p r fuel (t := h ++ p) (held := max_partial_suffix CLOSE_TAGS MAX_TAG_LEN t) :
  covered b h → body ++ closing = (b ++ p) ++ r → r ≠ [] → p ≠ [] →
  think_loop (S fuel) (mk_think true [] true) t [] = ([], mk_think true (last_points held t) true) ∧ covered (b ++ p) (last_points held t).
Proof using All.
  intros Hc Hb Hr Hp. destruct evens as (_ & Heb & Hec). assert (Hev : even_text ((b ++ p) ++ r)) by (rewrite <-Hb; by apply even_app).
  apply even_app in Hev as [He _]. assert (Hnone : ∀ tag, tag ∈ CLOSE_TAGS → find (lower tag) (lower t) = None).
  { intros tag Ht. pose proof (close_none tag (b ++ p) r Ht Hb Hr) as Hn. rewrite (covered_find b h p tag Hc He Ht) in Hn. by apply fmap_None in Hn. }
  destruct Hc as (a & Hba & Hno). assert (Het : even_text t). { rewrite Hba, <-app_assoc in He. by apply even_app in He as [_ ?]. }
  assert (Hheld : held ≤ length t) by (by apply partial_le). split.
  - assert (Hne : t ≠ []) by (subst t; by destruct h, p). clearbody t. destruct t as [|c t0]; [done|]. set (t := c :: t0) in *.
    cbn [think_loop in_block]. fold t. assert (find_first_tag t CLOSE_TAGS = None) as ->; [|done].
    rewrite find_first_least. apply least_none. intros tag Ht. by rewrite (Hnone tag Ht).
  - exists (a ++ but_last held t). split; [rewrite <-app_assoc, last_but_last by done; subst t; by rewrite Hba, app_assoc|].
    intros tag rest j Ht Hj. rewrite length_app, but_last_take, length_take in Hj by done. destruct (decide (j < length a)) as [Hlt|Hge].
    + rewrite <-app_assoc. by apply Hno.
    + pose proof (held_covers CLOSE_TAGS MAX_TAG_LEN t (lower rest) tag (j - length a) (think_tags CLOSE_TAGS ltac:(by right)) Het Ht (Hnone tag Ht)) as Hcov.
      fold held in Hcov. specialize (Hcov ltac:(lia)). rewrite <-Hcov. f_equal. rewrite Hba, <-app_assoc. fold t. rewrite <-app_assoc, !lower_app.
      assert (Hea : even_text a) by (rewrite Hba, <-app_assoc in He; by apply even_app in He as [? _]).
      rewrite drop_app_ge by (rewrite lower_length by done; lia). rewrite lower_length by done. subst t. by rewrite lower_app, <-app_assoc.
Qed.
Lemma inside_closes b h p x fuel :
  covered b h → body ++ closing = b ++ p → p ≠ [] → even_text x →
  think_loop (S fuel) (mk_think true [] true) (h ++ p ++ x) [] = think_loop fuel (mk_think false [] true) x [].
Proof using All.
  intros Hc Hb Hp Hx. destruct evens as (_ & Heb & Hec). destruct (block_close _ _ _ _ Hblock) as (c & Hk & Hlow).
  assert (Hct : c ∈ CLOSE_TAGS) by (by eapply list_elem_of_lookup_2). destruct (close_length c Hct) as [Hcl Hcp].
  assert (Hcc : length c = length closing) by (rewrite <-Hcl, <-Hlow; by apply lower_length).
  assert (Htotal : body ++ closing ++ x = b ++ (p ++ x)) by (by rewrite !app_assoc, Hb).
  assert (Hev : even_text (b ++ (p ++ x))) by (rewrite <-Htotal; by rewrite !even_app).
  assert (Hlen : length body + length closing = length b + length p) by (rewrite <-!length_app; by rewrite Hb).
  pose proof Hc as (a & Hba & _). assert (Hbl : length b = length a + length h) by (by rewrite Hba, length_app).
  assert (Hfind : find (lower c) (lower (body ++ closing ++ x)) = Some (length body)).
  { apply first_find; [split; [rewrite <-Hlow; apply close_here|intros j Hj; by apply close_before]|]. rewrite lower_length by (by rewrite !even_app). rewrite length_app. lia. }
  assert (Hplace : ∀ tag i, tag ∈ CLOSE_TAGS → find (lower tag) (lower (h ++ p ++ x)) = Some i →
    (i = length body - length a ∧ length a ≤ length body ∧ length tag = length closing) ∨ length body < length a + i).
  { intros tag i Ht Hi. pose proof (covered_find b h (p ++ x) tag Hc Hev Ht) as Hf. rewrite Hi in Hf. cbn in Hf. rewrite <-Htotal in Hf.
    replace (length b - length h) with (length a) in Hf by lia. pose proof Hf as [[Hs _] _]%find_Some.
    destruct (lt_eq_lt_dec (length a + i) (length body)) as [[Hlt|Heq]|Hgt]; [by rewrite close_before in Hs| |by right]. left. split; [lia|]. split; [lia|].
    rewrite Heq in Hs. pose proof (same_tag _ _ _ (close_tag tag Ht) closing_tag Hs (close_here x)) as Hsame.
    destruct (close_length tag Ht) as [<- _]. rewrite Hsame. by apply lower_length. }
  assert (Hmine : find (lower c) (lower (h ++ p ++ x)) = Some (length body - length a) ∧ length a ≤ length body).
  { pose proof (covered_find b h (p ++ x) c Hc Hev Hct) as Hf. rewrite <-Htotal, Hfind in Hf. replace (length b - length h) with (length a) in Hf by lia.
    destruct (find (lower c) (lower (h ++ p ++ x))) as [i|]; [|done]. injection Hf as Hf. split; [f_equal; lia|lia]. }
  destruct Hmine as [Hmine Hab].
  assert (Hfirst : find_first_tag (h ++ p ++ x) CLOSE_TAGS = Some (length body - length a, length c)).
  { rewrite find_first_least. apply (least_is _ _ c); [done|by rewrite Hmine|]. intros tag w Ht. destruct (find (lower tag) _) as [i|] eqn:Hi; [|done].
    intros [= <-]. destruct (Hplace tag i Ht Hi) as [(-> & _ & Htl)|Hlt]; [left; congruence|right; cbn; lia]. }
  assert (Hdrop : drop (length body - length a + length c) (h ++ p ++ x) = x).
  { rewrite app_assoc, drop_app_ge by (rewrite length_app; lia). replace (_ - length (h ++ p)) with 0; [done|]. rewrite length_app. lia. }
  assert (Hne : h ++ p ++ x ≠ []) by (by destruct h, p). remember (h ++ p ++ x) as t eqn:Ht. destruct t as [|c0 t0]; [done|].
  cbn [think_loop in_block]. rewrite Hfirst, Hdrop. done.
Qed.

(** The opening tag, at the front. *)
Lemma opening_length (o : Text) : OPEN_TAGS !! k = Some o → length o = length opening ∧ 0 < length o.
Proof using All.
  intros Ho. destruct (block_open _ _ _ _ Hblock) as (o' & Ho' & Hlow). assert (o' = o) as -> by congruence. destruct evens as (Heo & _).
  pose proof (think_tags OPEN_TAGS ltac:(by left)) as Htags. unfold well_tagged in Htags. rewrite Forall_forall in Htags.
  destruct (Htags o) as (Hl & Hp & _); [by eapply list_elem_of_lookup_2|]. rewrite <-Hl, <-Hlow. rewrite lower_length by done. split; [done|]. rewrite <-Hl, <-Hlow, lower_length in Hp by done. lia.
Qed.
Lemma opening_here b : starts (lower opening) (lower (opening ++ b)) = true.
Proof using . rewrite lower_app. apply starts_app. induction (lower opening); [done|]. cbn. by rewrite N.eqb_refl. Qed.
Lemma open_found b : find_open_at_boundary (mk_think false [] true) (opening ++ b) [] = Some (0, length opening).
Proof using All.
  destruct (block_open _ _ _ _ Hblock) as (o & Ho & Hlow). destruct (opening_length o Ho) as [Hol Hop]. rewrite boundary_least, <-Hol.
  apply (least_is _ _ o); [by eapply list_elem_of_lookup_2| |].
  - cbn [tag_at_boundary]. unfold find_from. rewrite drop_0. assert (find (lower o) (lower (opening ++ b)) = Some 0) as ->; [|done].
    apply first_find; [|lia]. split; [rewrite drop_0, <-Hlow; apply opening_here|lia].
  - intros tag w Ht. destruct (tag_at_boundary _ _ _ _ _ _) as [i|] eqn:Hi; [|done]. intros [= <-]. apply boundary_found in Hi as [_ Hs]. cbn [fst].
    destruct i as [|i]; [left|right; lia]. rewrite drop_0 in Hs. pose proof (same_tag _ _ _ (open_tag tag Ht) opening_tag Hs (opening_here b)) as Hsame.
    f_equal. rewrite Hol. pose proof (think_tags OPEN_TAGS ltac:(by left)) as Htags. unfold well_tagged in Htags. rewrite Forall_forall in Htags.
    destruct (Htags tag Ht) as (<- & _). rewrite Hsame. by destruct evens as (Heo & _); apply lower_length.
Qed.
Lemma tags_paired : forallb (λ p, forallb (λ p', bool_decide (lower p.1 = lower p'.1 → p = p')) (zip OPEN_TAGS CLOSE_TAGS)) (zip OPEN_TAGS CLOSE_TAGS) = true.
Proof using . by vm_compute. Qed.
(** A closed pair at the front is this block's own. *)
Lemma pair_own b (p : Text * Text) : p ∈ zip OPEN_TAGS CLOSE_TAGS → find (lower p.1) (lower (opening ++ b)) = Some 0 → OPEN_TAGS !! k = Some p.1 ∧ CLOSE_TAGS !! k = Some p.2.
Proof using All.
  intros Hp Hf. destruct (block_open _ _ _ _ Hblock) as (o & Ho & Hlow), (block_close _ _ _ _ Hblock) as (c & Hc & _).
  assert (Hoc : (o, c) ∈ zip OPEN_TAGS CLOSE_TAGS) by (apply (list_elem_of_lookup_2 _ k), lookup_zip_with_Some; by exists o, c).
  pose proof (forallb_elem _ _ _ (forallb_elem _ _ _ tags_paired Hp) Hoc) as Hpair. apply bool_decide_eq_true in Hpair. cbn [fst] in Hpair.
  apply find_Some in Hf as [[Hs _] _]. rewrite drop_0 in Hs. assert (Hin : p.1 ∈ OPEN_TAGS) by (destruct p; by apply elem_of_zip_l in Hp).
  rewrite Hpair; [done|]. rewrite <-Hlow. exact (same_tag _ _ _ (open_tag _ Hin) opening_tag Hs (opening_here b)).
Qed.
Lemma after_opening b : even_text b → drop (length opening) (lower (opening ++ b)) = lower b.
Proof using All. intros Hb. destruct evens as (Heo & _). rewrite lower_app. rewrite <-(lower_length opening Heo). by rewrite drop_app_length. Qed.
Lemma block_opens b r fuel :
  body ++ closing = b ++ r → r ≠ [] → think_loop (S fuel) (mk_think false [] true) (opening ++ b) [] = think_loop fuel (mk_think true [] true) b [].
Proof using All.
  intros Hb Hr. destruct evens as (Heo & Heb & Hec). assert (Hev : even_text (b ++ r)) by (rewrite <-Hb; by apply even_app). apply even_app in Hev as [He _].
  destruct (block_open _ _ _ _ Hblock) as (o & Ho & Hlow). destruct (opening_length o Ho) as [Hol Hop].
  assert (Hpair : match find_earliest_closed_pair (opening ++ b) with Some (i, _) => i ≠ 0 | None => True end).
  { rewrite closed_least. destruct (least _ _) as [[i j]|] eqn:Hl; [|done]. apply least_in in Hl as ([po pc] & Hp & Hf). intros ->. cbn [fst snd] in Hf.
    destruct (find (lower po) (lower (opening ++ b))) as [i|] eqn:Hi; [|done]. cbn [mbind option_bind] in Hf.
    destruct (find_from (lower pc) _ _) as [j'|] eqn:Hj; [|done]. cbn in Hf. injection Hf as -> _. destruct (pair_own b (po, pc) Hp Hi) as [Ho1 Hc1]. cbn [fst snd] in Ho1, Hc1.
    assert (po = o) as Hpo by congruence. unfold find_from in Hj. rewrite Hpo, Hol in Hj. cbn [Nat.add] in Hj. rewrite after_opening in Hj by done.
    rewrite (close_none pc b r) in Hj; [done|by eapply list_elem_of_lookup_2|done|done]. }
  assert (Hne : opening ++ b ≠ []) by (destruct opening; [cbn in Hol; lia|done]).
  pose proof (open_found b) as Hopen. remember (opening ++ b) as t eqn:Ht. destruct t as [|c0 t0]; [done|]. cbn [think_loop in_block]. rewrite Hopen.
  cbn [take]. unfold append_visible. rewrite strip_nil. assert (Hd : drop (0 + length opening) (c0 :: t0) = b) by (rewrite Ht; exact (drop_app_length opening b)).
  rewrite Hd. destruct (find_earliest_closed_pair (c0 :: t0)) as [[[|i] j]|]; done.
Qed.
Lemma block_whole x fuel :
  even_text x → think_loop (S fuel) (mk_think false [] true) (opening ++ body ++ closing ++ x) [] = think_loop fuel (mk_think false [] true) x [].
Proof using All.
  intros Hx. destruct evens as (Heo & Heb & Hec). destruct (block_open _ _ _ _ Hblock) as (o & Ho & Hlow), (block_close _ _ _ _ Hblock) as (c & Hc & Hclow).
  destruct (opening_length o Ho) as [Hol Hop]. assert (Hct : c ∈ CLOSE_TAGS) by (by eapply list_elem_of_lookup_2).
  assert (Hcc : length c = length closing) by (destruct (close_length c Hct) as [<- _]; rewrite <-Hclow; by apply lower_length).
  set (b := body ++ closing ++ x). assert (Hev : even_text b) by (subst b; by rewrite !even_app).
  assert (Hfind0 : find (lower o) (lower (opening ++ b)) = Some 0).
  { apply first_find; [|lia]. split; [rewrite drop_0, <-Hlow; apply opening_here|lia]. }
  assert (Hfind : find (lower c) (lower b) = Some (length body)).
  { apply first_find; [split; [rewrite <-Hclow; apply close_here|intros j Hj; by apply close_before]|]. rewrite lower_length by done. subst b. rewrite length_app. lia. }
  assert (Hmine : ∀ p : Text * Text, OPEN_TAGS !! k = Some p.1 → CLOSE_TAGS !! k = Some p.2 →
    (i ← find (lower p.1) (lower (opening ++ b)); j ← find_from (lower p.2) (lower (opening ++ b)) (i + length p.1); Some (i, j + length p.2))
    = Some (0, length opening + length body + length closing)).
  { intros [po pc] Hp1 Hp2. cbn [fst snd] in *. assert (po = o) as -> by congruence. assert (pc = c) as -> by congruence. rewrite Hfind0. cbn [mbind option_bind]. unfold find_from.
    cbn [Nat.add]. rewrite Hol, after_opening, Hfind by done. cbn. by rewrite Hcc. }
  assert (Hpair : find_earliest_closed_pair (opening ++ b) = Some (0, length opening + length body + length closing)).
  { rewrite closed_least. apply (least_is _ _ (o, c)); [apply (list_elem_of_lookup_2 _ k), lookup_zip_with_Some; by exists o, c|by apply Hmine|].
    intros [po pc] w Hp Hw. cbn [fst snd] in Hw. apply bind_Some in Hw as (i & Hi & Hw). apply bind_Some in Hw as (j & Hj & [= <-]).
    destruct i as [|i]; [left|right; cbn; lia]. destruct (pair_own b (po, pc) Hp Hi) as [Hp1 Hp2]. pose proof (Hmine (po, pc) Hp1 Hp2) as Hm. cbn [fst snd] in Hm.
    rewrite Hi in Hm. cbn [mbind option_bind] in Hm. rewrite Hj in Hm. cbn in Hm. congruence. }
  assert (Hne : opening ++ b ≠ []) by (destruct opening; [cbn in Hol; lia|done]).
  pose proof (open_found b) as Hopen. assert (Hd : drop (length opening + length body + length closing) (opening ++ b) = x).
  { subst b. rewrite !app_assoc. rewrite drop_app_ge by (rewrite !length_app; lia). by rewrite !length_app, Nat.sub_diag. }
  remember (opening ++ b) as t eqn:Ht. destruct t as [|c0 t0]; [done|]. cbn [think_loop in_block]. rewrite Hopen, Hpair, Hd. cbn [Nat.leb take]. unfold append_visible. by rewrite strip_nil.
Qed.
End block.

(** Each turn of the loop drops a letter at least. *)
Lemma first_tag_pos buf tags i n : tags = OPEN_TAGS ∨ tags = CLOSE_TAGS → find_first_tag buf tags = Some (i, n) → 0 < n.
Proof.
  intros Ht Hf. rewrite find_first_least in Hf. apply least_in in Hf as (tag & Hin & Hf). destruct (find _ _); [|done]. injection Hf as _ <-.
  pose proof (think_tags tags Ht) as Htags. unfold well_tagged in Htags. rewrite Forall_forall in Htags. by destruct (Htags tag Hin) as (_ & ? & _).
Qed.
Lemma open_pos s buf out i n : find_open_at_boundary s buf out = Some (i, n) → 0 < n.
Proof.
  intros Hf. rewrite boundary_least in Hf. apply least_in in Hf as (tag & Hin & Hf). destruct (tag_at_boundary _ _ _ _ _ _); [|done]. injection Hf as _ <-.
  pose proof (think_tags OPEN_TAGS ltac:(by left)) as Htags. unfold well_tagged in Htags. rewrite Forall_forall in Htags. by destruct (Htags tag Hin) as (_ & ? & _).
Qed.
Lemma pair_pos buf i j : find_earliest_closed_pair buf = Some (i, j) → 0 < j.
Proof.
  intros Hf. rewrite closed_least in Hf. apply least_in in Hf as ([po pc] & Hin & Hf). cbn [fst snd] in Hf.
  apply bind_Some in Hf as (i' & _ & Hf). apply bind_Some in Hf as (j' & _ & [= _ <-]). apply elem_of_zip_r in Hin. destruct (close_length pc Hin). lia.
Qed.
Lemma think_fuel n m s buf out : length buf ≤ n → length buf ≤ m → think_loop n s buf out = think_loop m s buf out.
Proof.
  revert m s buf out. induction n as [|n IH]; intros m s buf out Hn Hm; [destruct buf; [by destruct m|cbn in Hn; lia]|].
  destruct buf as [|c buf0]; [by destruct m|]. destruct m as [|m]; [cbn in Hm; lia|]. set (buf := c :: buf0) in *. cbn [think_loop]. fold buf.
  assert (Hbuf : 0 < length buf) by (cbn; lia).
  destruct (in_block s).
  - destruct (find_first_tag buf CLOSE_TAGS) as [[i k]|] eqn:Hf; [|done]. apply first_tag_pos in Hf; [|by right]. apply IH; rewrite length_drop; lia.
  - assert (Hopen : match find_open_at_boundary s buf out with
      | Some (i, k) => let '(s, out) := append_visible s out (take i buf) in think_loop n (set_block s true) (drop (i + k) buf) out
      | None => let held := Nat.max (max_partial_suffix OPEN_TAGS MAX_TAG_LEN buf) (max_partial_suffix CLOSE_TAGS MAX_TAG_LEN buf) in
          let '(s, out) := append_visible (hold s (last_points held buf)) out (but_last held buf) in (concat out, s)
      end = match find_open_at_boundary s buf out with
      | Some (i, k) => let '(s, out) := append_visible s out (take i buf) in think_loop m (set_block s true) (drop (i + k) buf) out
      | None => let held := Nat.max (max_partial_suffix OPEN_TAGS MAX_TAG_LEN buf) (max_partial_suffix CLOSE_TAGS MAX_TAG_LEN buf) in
          let '(s, out) := append_visible (hold s (last_points held buf)) out (but_last held buf) in (concat out, s)
      end).
    { destruct (find_open_at_boundary s buf out) as [[i k]|] eqn:Hf; [|done]. apply open_pos in Hf. destruct (append_visible _ _ _).
      apply IH; rewrite length_drop; lia. }
    cbn zeta in Hopen. rewrite Hopen. clear Hopen. destruct (find_earliest_closed_pair buf) as [[i j]|] eqn:Hf; [|done]. apply pair_pos in Hf.
    destruct (match find_open_at_boundary s buf out with Some _ => _ | None => _ end); [|done]. destruct (append_visible _ _ _).
    apply IH; rewrite length_drop; lia.
Qed.
Lemma think_feed_loop s p n : p ≠ [] → length (think_buf s ++ p) ≤ n → think_feed s p = think_loop n (hold s []) (think_buf s ++ p) [].
Proof. intros Hp Hn. destruct p as [|c p]; [done|]. by apply think_fuel. Qed.
Lemma think_feed_new x n : length x ≤ n → think_feed new_think x = think_loop n (mk_think false [] true) x [].
Proof. intros Hn. destruct x as [|c x]; [by destruct n|]. by apply think_fuel. Qed.

(** What the scrubber is in when [t], the front of a block, came. *)
Definition in_front (opening t : Text) (s : ThinkScrubber) : Prop :=
  (∃ rest, opening = t ++ rest ∧ rest ≠ [] ∧ s = mk_think false t true) ∨ ∃ b h, t = opening ++ b ∧ s = mk_think true h true ∧ covered b h.
Section pieces.
Context (k : nat) (opening body closing : Text) (Hblock : block k opening body closing).
Lemma covered_start : covered [] [].
Proof using . exists []. split; [done|]. intros tag rest j _ Hj. cbn in Hj. lia. Qed.
Lemma front_feed t s p r :
  in_front opening t s → p ≠ [] → opening ++ body ++ closing = (t ++ p) ++ r → r ≠ [] → ∃ s', think_feed s p = ([], s') ∧ in_front opening (t ++ p) s'.
Proof using All.
  intros [(rest & Ho & Hr & ->)|(b & h & -> & -> & Hc)] Hp Htot Hrne.
  - rewrite (think_feed_loop _ _ (S (S (length (t ++ p))))) by (cbn; try done; lia). cbn [think_buf hold in_block ended_newline].
    destruct (decide (length (t ++ p) < length opening)) as [Hlt|Hge].
    + assert (Hpre : ∃ rest', opening = (t ++ p) ++ rest' ∧ rest' ≠ []).
      { exists (drop (length (t ++ p)) opening). assert (Htk : take (length (t ++ p)) opening = t ++ p).
        { assert (H : take (length (t ++ p)) (opening ++ body ++ closing) = take (length (t ++ p)) ((t ++ p) ++ r)) by (by rewrite Htot).
          rewrite take_app_le in H by lia. by rewrite take_app_length in H. }
        split; [rewrite <-(take_drop (length (t ++ p)) opening) at 1; by rewrite Htk|]. intros Hd. apply (f_equal length) in Hd. rewrite length_drop in Hd. cbn in Hd. lia. }
      destruct Hpre as (rest' & Ho' & Hr'). exists (mk_think false (t ++ p) true). split; [|left; by exists rest'].
      apply (opening_held k opening body closing Hblock _ rest'); [done|by destruct t, p|done].
    + assert (Hb : ∃ b, t ++ p = opening ++ b ∧ body ++ closing = b ++ r).
      { exists (drop (length opening) (t ++ p)). assert (Htk : take (length opening) (t ++ p) = opening).
        { assert (H : take (length opening) (opening ++ body ++ closing) = take (length opening) ((t ++ p) ++ r)) by (by rewrite Htot).
          rewrite take_app_length in H. by rewrite take_app_le in H by lia. }
        split; [rewrite <-(take_drop (length opening) (t ++ p)) at 1; by rewrite Htk|]. apply (f_equal (drop (length opening))) in Htot. rewrite drop_app_length in Htot.
        by rewrite drop_app_le in Htot by lia. }
      destruct Hb as (b & -> & Hb). rewrite (block_opens k opening body closing Hblock b r _ Hb Hrne).
      destruct (decide (b = [])) as [->|Hne].
      * exists (mk_think true [] true). split; [done|]. right. exists [], []. split_and!; [done|done|apply covered_start].
      * destruct (inside_held k opening body closing Hblock [] [] b r (length (opening ++ b)) covered_start Hb Hrne Hne) as [Hl Hc]. cbn [app] in Hl, Hc.
        eexists. split; [exact Hl|]. right. by eexists _, _.
  - assert (Hb : body ++ closing = (b ++ p) ++ r). { apply (app_inv_head opening). rewrite Htot. by rewrite <-!app_assoc. }
    destruct (inside_held k opening body closing Hblock b h p r (length (h ++ p)) Hc Hb Hrne Hp) as [Hl Hc'].
    rewrite (think_feed_loop _ _ (S (length (h ++ p)))) by (cbn; try done; lia). cbn [think_buf hold in_block ended_newline].
    eexists. split; [exact Hl|]. right. exists (b ++ p). eexists. split; [by rewrite app_assoc|]. by split.
Qed.
Lemma front_close t s p x :
  in_front opening t s → p ≠ [] → opening ++ body ++ closing = t ++ p → even_text x → think_feed s (p ++ x) = think_feed new_think x.
Proof using All.
  intros Hf Hp Htot Hx. assert (Hpx : p ++ x ≠ []) by (by destruct p). destruct Hf as [(rest & Ho & Hr & ->)|(b & h & -> & -> & Hc)].
  - rewrite (think_feed_loop _ _ (S (length (t ++ p ++ x)))) by (cbn; try done; lia). cbn [think_buf hold in_block ended_newline].
    replace (t ++ p ++ x) with (opening ++ body ++ closing ++ x) by (by rewrite !app_assoc, <-(app_assoc opening), Htot).
    rewrite (block_whole k opening body closing Hblock x _ Hx). symmetry. apply think_feed_new. rewrite !length_app. lia.
  - assert (Hb : body ++ closing = b ++ p). { apply (app_inv_head opening). rewrite Htot. by rewrite <-app_assoc. }
    rewrite (think_feed_loop _ _ (S (length (h ++ p ++ x)))) by (cbn; try done; lia). cbn [think_buf hold in_block ended_newline].
    rewrite (inside_closes k opening body closing Hblock b h p x _ Hc Hb Hp Hx). symmetry. apply think_feed_new. rewrite !length_app. lia.
Qed.
Lemma front_pieces t s pieces r :
  in_front opening t s → opening ++ body ++ closing = (t ++ concat pieces) ++ r → r ≠ [] →
  ∃ os s', feed_all think_feed s pieces = (os, s') ∧ concat os = [] ∧ in_front opening (t ++ concat pieces) s'.
Proof using All.
  revert t s. induction pieces as [|p pieces IH]; intros t s Hf Htot Hr; cbn [feed_all concat] in *.
  - exists [], s. by rewrite app_nil_r in *.
  - destruct (decide (p = [])) as [->|Hp].
    + cbn [app] in *. destruct (IH t s Hf Htot Hr) as (os & s' & Hfa & Ho & Hf'). cbn [think_feed]. rewrite Hfa. by exists ([] :: os), s'.
    + rewrite (app_assoc t p) in *. assert (Htot' : opening ++ body ++ closing = (t ++ p) ++ concat pieces ++ r) by (rewrite Htot; by rewrite <-!app_assoc).
      destruct (front_feed t s p (concat pieces ++ r) Hf Hp Htot') as (s1 & -> & Hf1); [by intros [_ ?]%app_eq_nil|].
      destruct (IH (t ++ p) s1 Hf1 Htot Hr) as (os & s' & -> & Ho & Hf'). by exists ([] :: os), s'.
Qed.
End pieces.

(** C31. A block of thinking that opens an answer, whose closing tag is the
    first of any kind in it and which holds no letter that lower-cases to two
    ([block]), is not shown, however it is cut into pieces: while it lasts
    nothing is, and what comes after it, even text where it shares the block's
    last piece, is shown as if the answer began there. *)
Theorem think_block_hidden k opening body closing :
  block k opening body closing →
  (∀ pieces b r, concat pieces = opening ++ b → body ++ closing = b ++ r → r ≠ [] → without_thinking pieces = [])
  ∧ (∀ pieces p x more, concat pieces ++ p = opening ++ body ++ closing → p ≠ [] → even_text x →
      without_thinking (pieces ++ (p ++ x) :: more) = without_thinking (x :: more)).
Proof.
  intros Hblock. pose proof (opening_here opening []) as Hop. destruct (block_open _ _ _ _ Hblock) as (o & Ho & _).
  destruct (opening_length k opening body closing Hblock o Ho) as [Hol Hpos].
  assert (Hnew : in_front opening [] new_think) by (left; exists opening; split_and!; [done|intros ->; cbn in Hol; lia|done]).
  split.
  - intros pieces b r Hcat Hb Hr. destruct (front_pieces k opening body closing Hblock [] new_think pieces r Hnew) as (os & s' & Hf & Hos & Hs'); [|done|].
    { cbn [app]. by rewrite Hcat, Hb, app_assoc. }
    unfold without_thinking. rewrite Hf, Hos. cbn [app] in Hs'. destruct Hs' as [(rest & Hrest & Hne & _)|(b' & h & _ & -> & _)]; [|done].
    exfalso. apply (f_equal length) in Hrest. rewrite Hcat, !length_app in Hrest. destruct rest; [done|cbn in Hrest; lia].
  - intros pieces p x more Hcat Hp Hx. destruct (front_pieces k opening body closing Hblock [] new_think pieces p Hnew) as (os & s' & Hf & Hos & Hs'); [by rewrite <-Hcat|done|].
    unfold without_thinking. rewrite feed_all_app, Hf. cbn [feed_all].
    rewrite (front_close k opening body closing Hblock (concat pieces) s' p x Hs' Hp (eq_sym Hcat) Hx). destruct (think_feed new_think x) as [ox sx].
    destruct (feed_all think_feed sx more) as [om sm]. rewrite concat_app, Hos. done.
Qed.

(** ** On an answer *)

Lemma a_block : block 0 (u "<Think>") (u "a < b") (u "</think>").
Proof.
  split; [exists (u "<think>"); by vm_compute|exists (u "</think>"); by vm_compute|by vm_compute|]. refine (bool_decide_eq_true_1 (even_text _) _). by vm_compute.
Qed.
Lemma think_block_hidden_witness :
  block 0 (u "<Think>") (u "a < b") (u "</think>")
  ∧ without_thinking ([u "<Th"; u "ink>a <"; u " b</thi"] ++ (u "nk>" ++ u "Hello") :: [u " there"]) = u "Hello there".
Proof.
  split; [exact a_block|]. destruct (think_block_hidden 0 (u "<Think>") (u "a < b") (u "</think>") a_block) as [_ H].
  transitivity (without_thinking [u "Hello"; u " there"]); [|by vm_compute].
  apply (H [u "<Th"; u "ink>a <"; u " b</thi"] (u "nk>") (u "Hello") [u " there"]); [by vm_compute|by vm_compute|].
  refine (bool_decide_eq_true_1 (even_text _) _). by vm_compute.
Defined.

(** Another tag's closing within a block: the code pairs tags by name where the
    block comes whole, and ends it at any closing tag where it comes in pieces. *)
Lemma other_tag_ends_block :
  without_thinking [u "<think>a</thought>b</think>c"] = u "c" ∧ without_thinking [u "<think>"; u "a</thought>b</think>c"] = u "bc".
Proof. by vm_compute. Qed.
(** A letter that lower-cases to two within a block: a letter after it goes too. *)
Lemma even_block_needed : without_thinking [u "<think>" ++ [304%N] ++ u "</think>Hello"] = u "ello".
Proof. by vm_compute. Qed.
(** Thinking within a line is taken out where it comes in one piece, and shown
    where it comes in two. *)
Lemma inline_thinking_shown :
  without_thinking [u "So <think>no</think>yes"] = u "So yes" ∧ without_thinking [u "So <think>"; u "no</think>yes"] = u "So <think>noyes".
Proof. by vm_compute. Qed.
