(* ===== verification/StreamCalls.v ===== *)
(** * Tool calls that stream past (harness/llm_call.py, harness/message_utils.py)

    The tool calls of a streamed answer come as deltas, each for an index: the
    first has the call's id, each may have some of its name and arguments.  Some
    servers use one index for all calls of an answer, told apart by their ids.
    A call is told to whoever listens as soon as one at a higher slot begins.

    [json_ok] says which texts [json.loads] reads; a delta comes with whether the
    text so far was found to be a gateway's error (StreamText.v). *)

From S2P Require Import Prelude.
From S2P Require Import PyStr.
From S2P Require Import RuntimeGovernance.
From stdpp Require Import gmap sorting options.
Local Open Scope Z_scope.

(** ** Names *)

(** [clean_tool_call_name]: the last name in template markup, or the name
    stripped. *)
Definition name_char (a : ascii) : bool :=
  let n := N_of_ascii a in
  ((65 <=? n) && (n <=? 90) || (97 <=? n) && (n <=? 122) || (48 <=? n) && (n <=? 57))%N || bool_decide (a ∈ ["_"; "."; "-"]%char).
Fixpoint take_name (s : string) : string := match s with String a r => if name_char a then String a (take_name r) else "" | EmptyString => "" end.
Definition name_at (s : string) : option string :=
  t ← drop_prefix "<function=" s; let n := take_name t in if String.eqb n "" then None else Some n.
Fixpoint last_name (s : string) : option string :=
  match s with String _ r => match last_name r with Some n => Some n | None => name_at s end | EmptyString => None end.
Definition clean_tool_call_name (name : string) : string := match last_name name with Some n => n | None => strip name end.
Definition renamed (name : string) : string := default name (dict_get name RENAMED_TOOLS).

(** ** Deltas *)

Record Entry := mk_entry { e_id : string; e_name : string; e_args : string }.
#[global] Instance Entry_eq_dec : EqDecision Entry.
Proof. solve_decision. Defined.
Record CallDelta := mk_delta { c_index : option Z; c_id : option string; c_function : option (option string * option string) }.
Record Calls := mk_calls {
  slots : gmap Z Entry;          (* tool_calls_acc *)
  last_id_at : gmap Z string;    (* _last_id_at_idx *)
  active_slot : gmap Z Z;        (* _active_slot_by_idx *)
  notified : gset Z;             (* _notified_slots *)
  highest : Z;                   (* _highest_known_slot *)
  told : list Entry              (* on_tool_call_complete's calls *)
}.
Definition no_calls : Calls := mk_calls ∅ ∅ ∅ ∅ (-1) [].
Definition sorted_slots (m : gmap Z Entry) : list Z := merge_sort Z.le (map_to_list m).*1.
Definition max_slot (m : gmap Z Entry) : Z := match (map_to_list m).*1 with [] => -1 | k :: ks => foldr Z.max k ks end.
Definition with_slots (c : Calls) (m : gmap Z Entry) : Calls := mk_calls m (last_id_at c) (active_slot c) (notified c) (highest c) (told c).

Definition raw_idx (d : CallDelta) : Z := default 0 (c_index d).
Definition delta_id (d : CallDelta) : string := default "" (c_id d).
Definition part (o : option string) : string := default "" o.
Definition name_part (d : CallDelta) : string := match c_function d with Some (n, _) => part n | None => "" end.
Definition args_part (d : CallDelta) : string := match c_function d with Some (_, a) => part a | None => "" end.

(** The slot of a delta: that of its index, or a new one where the index turned
    to another call. *)
Definition place_delta (d : CallDelta) (c : Calls) : Z * Calls :=
  let r := raw_idx d in
  let act := if decide (is_Some (active_slot c !! r)) then active_slot c else <[r := r]> (active_slot c) in
  let other := str_truthy (delta_id d) && match last_id_at c !! r with Some last => negb (String.eqb (delta_id d) last) | None => false end in
  let act := if other then <[r := max_slot (slots c) + 1]> act else act in
  let ids := if str_truthy (delta_id d) then <[r := delta_id d]> (last_id_at c) else last_id_at c in
  (default r (act !! r), mk_calls (slots c) ids act (notified c) (highest c) (told c)).
Definition grow (d : CallDelta) (e : Entry) : Entry :=
  mk_entry (if str_truthy (delta_id d) then delta_id d else e_id e) (e_name e +:+ name_part d) (e_args e +:+ args_part d).

(** One slot told: its name is cleaned in place, and renamed where it is told. *)
Definition tell (c : Calls) (slot : Z) : Calls :=
  match slots c !! slot with
  | None => c
  | Some e =>
    let name := clean_tool_call_name (e_name e) in
    if str_truthy name then
      let e := mk_entry (e_id e) (renamed name) (e_args e) in
      mk_calls (<[slot := e]> (slots c)) (last_id_at c) (active_slot c) ({[slot]} ∪ notified c) (highest c) (told c ++ [e])
    else with_slots c (<[slot := mk_entry (e_id e) name (e_args e)]> (slots c))
  end.
Definition tell_slots (wanted : Z → bool) (c : Calls) : Calls :=
  foldl (λ c slot, if wanted slot && negb (bool_decide (slot ∈ notified c)) then tell c slot else c) c (sorted_slots (slots c)).

(** A delta; [listens]: a call may run while the answer streams. *)
Definition feed_call (listens : bool) (x : bool * CallDelta) (c : Calls) : Calls :=
  let '(gateway_error, d) := x in
  let '(idx, c) := place_delta d c in
  let c := with_slots c (<[idx := grow d (default (mk_entry (delta_id d) "" "") (slots c !! idx))]> (slots c)) in
  if listens && negb gateway_error && (highest c <? idx) then
    let c := tell_slots (λ slot, slot <? idx) c in mk_calls (slots c) (last_id_at c) (active_slot c) (notified c) idx (told c)
  else c.
(** The end of the stream: the calls not told yet, and the names cleaned. *)
Definition clean_entry (e : Entry) : Entry := mk_entry (e_id e) (clean_tool_call_name (e_name e)) (e_args e).
Definition finish_calls (listens gateway_error : bool) (c : Calls) : Calls :=
  let c := if listens && negb gateway_error then tell_slots (λ _, true) c else c in with_slots c (clean_entry <$> slots c).
Definition feed_calls (listens : bool) (xs : list (bool * CallDelta)) (c : Calls) : Calls := foldl (λ c x, feed_call listens x c) c xs.

(** ** The message *)

Section message.
Variable json_ok : string → bool.
(** [_ensure_parseable_tool_call_arguments] *)
Definition is_parseable_json (s : string) : bool := negb (String.eqb (strip s) "") && json_ok s.
Definition parseable (e : Entry) : Entry := if is_parseable_json (e_args e) then e else mk_entry (e_id e) (e_name e) "{}".
(** [reconstruct_message_from_deltas]: the calls, by slot. *)
Definition message_calls (gateway_error : bool) (c : Calls) : list Entry :=
  if gateway_error then [] else parseable <$> omap (λ k, slots c !! k) (sorted_slots (slots c)).

(** [tool_call_arguments_look_incomplete] *)
Inductive Closer := Curly | Square.
#[global] Instance Closer_eq_dec : EqDecision Closer.
Proof. solve_decision. Defined.
Fixpoint look_loop (s : string) (stack : list Closer) (in_string escaped : bool) : bool :=
  match s with
  | EmptyString => in_string || negb (bool_decide (stack = []))
  | String a r =>
    if in_string then
      if escaped then look_loop r stack true false
      else if Ascii.eqb a "\" then look_loop r stack true true
      else look_loop r stack (negb (Ascii.eqb a "034")) false
    else if Ascii.eqb a "034" then look_loop r stack true escaped
    else if Ascii.eqb a "{" then look_loop r (Curly :: stack) false escaped
    else if Ascii.eqb a "[" then look_loop r (Square :: stack) false escaped
    else if Ascii.eqb a "}" || Ascii.eqb a "]" then
      match stack with
      | top :: rest => if bool_decide (top = if Ascii.eqb a "}" then Curly else Square) then look_loop r rest false escaped else true
      | [] => false
      end
    else look_loop r stack false escaped
  end.
Definition look_incomplete (raw_args : string) : bool :=
  let raw := strip raw_args in
  if String.eqb raw "" then false else if json_ok raw then false else look_loop raw [] false false.
(** [_partial_tool_names_from_accumulator] *)
Definition partial_tool_names (treat_empty : bool) (c : Calls) : list string :=
  omap (λ k, e ← slots c !! k;
    if str_truthy (e_name e) && (look_incomplete (e_args e) || treat_empty && negb (str_truthy (e_args e))) then Some (e_name e) else None) (sorted_slots (slots c)).
End message.

(** ** Calls come back whole *)

(** The calls [es] at the slots from 0. *)
Definition in_slots (es : list Entry) : gmap Z Entry := map_seqZ 0 es.
Lemma in_slots_snoc es e : in_slots (es ++ [e]) = <[Z.of_nat (length es) := e]> (in_slots es).
Proof. unfold in_slots. rewrite map_seqZ_snoc. by rewrite Z.add_0_l. Qed.
Lemma in_slots_keys es : (map_to_list (in_slots es)).*1 ≡ₚ seqZ 0 (Z.of_nat (length es)).
Proof. unfold in_slots. rewrite map_to_list_seqZ. rewrite fst_zip; [done|]. rewrite length_seqZ. lia. Qed.
Lemma seqZ_sorted m n : StronglySorted Z.le (seqZ m (Z.of_nat n)).
Proof.
  induction n as [|n IH]; [constructor|]. rewrite seqZ_S. apply strongly_sorted_snoc; [done|]. apply Forall_forall. intros x Hx%elem_of_seqZ. lia.
Qed.
Lemma sorted_in_slots es : sorted_slots (in_slots es) = seqZ 0 (Z.of_nat (length es)).
Proof.
  apply (StronglySorted_unique Z.le); [apply (StronglySorted_merge_sort Z.le)|apply seqZ_sorted|]. unfold sorted_slots. by rewrite merge_sort_Permutation, in_slots_keys.
Qed.
Lemma max_in_slots es : es ≠ [] → max_slot (in_slots es) = Z.of_nat (length es) - 1.
Proof.
  intros Hne. unfold max_slot. pose proof (in_slots_keys es) as Hp. destruct (map_to_list (in_slots es)).*1 as [|k ks].
  - apply Permutation_nil_l in Hp. destruct es; [done|]. by rewrite seqZ_cons in Hp by (cbn; lia).
  - assert (Hmax : ∀ l b, b <= foldr Z.max b l ∧ Forall (λ x, x <= foldr Z.max b l) l ∧ (foldr Z.max b l = b ∨ foldr Z.max b l ∈ l)).
    { intros l b. induction l as [|x l (H1 & H2 & H3)]; cbn; [split_and!; [lia|done|by left]|]. split; [lia|]. split.
      - constructor; [lia|]. eapply Forall_impl; [exact H2|]. cbn. lia.
      - destruct (Z.max_spec x (foldr Z.max b l)) as [[_ ->]|[_ ->]]; [|right; left]. destruct H3; [by left|right; by right]. }
    destruct (Hmax ks k) as (H1 & H2 & H3). assert (Hin : foldr Z.max k ks ∈ k :: ks) by (destruct H3 as [->|]; [left|by right]).
    rewrite Hp in Hin. apply elem_of_seqZ in Hin. assert (Hlast : Z.of_nat (length es) - 1 ∈ k :: ks) by (rewrite Hp; apply elem_of_seqZ; destruct es; cbn in *; [done|lia]).
    apply elem_of_cons in Hlast as [Hk|Hk]; [lia|]. rewrite Forall_forall in H2. specialize (H2 _ Hk). lia.
Qed.

(** How a call is sent: its id with the first delta, then its name and its
    arguments in parts. *)
Definition more_of (r : Z) (id : string) (d : CallDelta) : Prop := raw_idx d = r ∧ (delta_id d = "" ∨ delta_id d = id).
Definition sends_call (r : Z) (e : Entry) (ds : list CallDelta) : Prop :=
  ∃ d ds', ds = d :: ds' ∧ raw_idx d = r ∧ delta_id d = e_id e ∧ Forall (more_of r (e_id e)) ds'
    ∧ e_name e = foldl (λ s d, s +:+ name_part d) "" ds ∧ e_args e = foldl (λ s d, s +:+ args_part d) "" ds.
(** A name that is a tool's, as sent. *)
Definition plain_name (n : string) : Prop := clean_tool_call_name n = n ∧ n ≠ "" ∧ dict_get n RENAMED_TOOLS = None.

(** While the call [cur] comes, after [es]: on one index, or each on its own. *)
Definition index_of (one : bool) (i : Z) : Z := if one then 0 else i.
Record coming (one listens : bool) (es : list Entry) (cur : Entry) (c : Calls) : Prop := {
  at_slots : slots c = in_slots (es ++ [cur]);
  at_told : told c = if listens then es else [];
  at_notified : ∀ k, k ∈ notified c ↔ listens = true ∧ 0 <= k < Z.of_nat (length es);
  at_highest : highest c = if listens then Z.of_nat (length es) else -1;
  at_active : active_slot c !! index_of one (Z.of_nat (length es)) = Some (Z.of_nat (length es));
  at_last : last_id_at c !! index_of one (Z.of_nat (length es)) = Some (e_id cur);
  at_new : one = false → ∀ j, Z.of_nat (length es) < j → active_slot c !! j = None ∧ last_id_at c !! j = None
}.
Lemma in_slots_last es e : in_slots (es ++ [e]) !! Z.of_nat (length es) = Some e.
Proof. by rewrite in_slots_snoc, lookup_insert_eq. Qed.
Lemma in_slots_none es k : Z.of_nat (length es) <= k → in_slots es !! k = None.
Proof. intros Hk. apply lookup_map_seqZ_None. lia. Qed.
Lemma str_truthy_true s : s ≠ "" → str_truthy s = true.
Proof. intros Hs. unfold str_truthy. destruct (String.eqb s "") eqn:He; [by apply String.eqb_eq in He|done]. Qed.
Lemma tell_plain c slot e : slots c !! slot = Some e → plain_name (e_name e) →
  tell c slot = mk_calls (slots c) (last_id_at c) (active_slot c) ({[slot]} ∪ notified c) (highest c) (told c ++ [e]).
Proof.
  intros He (Hc & Hne & Hr). unfold tell. rewrite He, Hc, (str_truthy_true _ Hne). assert (Hen : mk_entry (e_id e) (renamed (e_name e)) (e_args e) = e) by (unfold renamed; rewrite Hr; by destruct e).
  rewrite Hen. by rewrite insert_id.
Qed.
(** The slots told: the last one wanted, where all before it were. *)
Lemma tell_last wanted c es e rest :
  slots c = in_slots (es ++ [e] ++ rest) → plain_name (e_name e) → (∀ k, k ∈ notified c ↔ 0 <= k < Z.of_nat (length es)) →
  (∀ k, wanted k = bool_decide (k <= Z.of_nat (length es))) ∨ (rest = [] ∧ ∀ k, wanted k = true) →
  tell_slots wanted c = mk_calls (slots c) (last_id_at c) (active_slot c) ({[Z.of_nat (length es)]} ∪ notified c) (highest c) (told c ++ [e]).
Proof.
  intros Hs Hp Hn Hw. unfold tell_slots. rewrite Hs at 1. rewrite sorted_in_slots. rewrite !length_app. cbn [length]. rewrite !Nat2Z.inj_add.
  rewrite seqZ_app, foldl_app by lia. cbn [Z.of_nat]. rewrite seqZ_app, foldl_app by lia. rewrite Z.add_0_l. change (seqZ (Z.of_nat (length es)) (Z.of_nat 1)) with [Z.of_nat (length es)].
  set (go := λ c slot, if wanted slot && negb (bool_decide (slot ∈ notified c)) then tell c slot else c).
  assert (Hskip : ∀ l c', (∀ k, k ∈ l → wanted k && negb (bool_decide (k ∈ notified c')) = false) → foldl go c' l = c').
  { intros l c'. induction l as [|k l IH]; intros Hl; [done|]. cbn [foldl]. unfold go at 2. rewrite (Hl k) by left. apply IH. intros k' Hk'. apply Hl. by right. }
  rewrite (Hskip _ c) by (intros k Hk%elem_of_seqZ; rewrite bool_decide_true by (apply Hn; lia); apply andb_false_r). cbn [foldl]. unfold go at 2.
  assert (Hwant : wanted (Z.of_nat (length es)) = true) by (destruct Hw as [Hw|[_ Hw]]; rewrite Hw; [apply bool_decide_true; lia|done]).
  rewrite Hwant, bool_decide_false by (rewrite Hn; lia). cbn [andb negb]. rewrite (tell_plain c _ e); [|rewrite Hs, app_assoc|done].
  - apply Hskip. intros k Hk%elem_of_seqZ. destruct Hw as [Hw|[-> _]]; [|cbn in Hk; lia]. rewrite Hw, bool_decide_false by lia. done.
  - unfold in_slots. apply lookup_map_seqZ_Some. split; [lia|]. rewrite Z.sub_0_r, Nat2Z.id. rewrite lookup_app_l by (rewrite length_app; cbn; lia).
    by rewrite lookup_app_r, Nat.sub_diag by lia.
Qed.

Definition grow_all (ds : list CallDelta) (e : Entry) : Entry := foldl (λ e d, grow d e) e ds.
Lemma coming_more one listens es cur c d :
  e_id cur ≠ "" → more_of (index_of one (Z.of_nat (length es))) (e_id cur) d → coming one listens es cur c → coming one listens es (grow d cur) (feed_call listens (false, d) c).
Proof.
  intros Hid [Hr Hd] [Hs Ht Hn Hh Ha Hl Hnew]. unfold feed_call, place_delta. rewrite Hr, Hl.
  assert (Hother : str_truthy (delta_id d) && negb (String.eqb (delta_id d) (e_id cur)) = false) by (destruct Hd as [->| ->]; [done|by rewrite String.eqb_refl, andb_false_r]).
  rewrite Hother. destruct (decide (is_Some (active_slot c !! index_of one (Z.of_nat (length es))))) as [_|Hno]; [|by destruct Hno; eexists]. rewrite Ha. cbn [from_option Datatypes.id].
  set (ids := if str_truthy (delta_id d) then _ else _).
  assert (Hids : ∀ j, ids !! j = last_id_at c !! j).
  { intros j. subst ids. destruct Hd as [Hd|Hd]; rewrite Hd; [reflexivity|]. rewrite (str_truthy_true _ Hid), lookup_insert. case_decide as Hj; [|done]. by rewrite <-Hj, Hl. }
  cbn [slots with_slots last_id_at active_slot notified highest told negb]. rewrite Hs.
  rewrite in_slots_last. cbn [from_option Datatypes.id]. rewrite Hh.
  assert (Hfin : coming one listens es (grow d cur) (mk_calls (<[Z.of_nat (length es) := grow d cur]> (in_slots (es ++ [cur]))) ids (active_slot c) (notified c) (highest c) (told c))).
  { split; cbn [slots last_id_at active_slot notified highest told]; try done.
    - by rewrite !in_slots_snoc, insert_insert_eq.
    - rewrite Hids, Hl. unfold grow. cbn [e_id]. destruct Hd as [->| ->]; [done|]. by rewrite str_truthy_true.
    - intros Ho j Hj. rewrite Hids. by apply Hnew. }
  destruct listens; cbn [andb]; [|rewrite Hh in Hfin; exact Hfin]. destruct (Z.ltb_spec (Z.of_nat (length es)) (Z.of_nat (length es))); [lia|]. rewrite Hh in Hfin. exact Hfin.
Qed.
Lemma coming_all one listens es cur c ds :
  e_id cur ≠ "" → Forall (more_of (index_of one (Z.of_nat (length es))) (e_id cur)) ds → coming one listens es cur c →
  coming one listens es (grow_all ds cur) (feed_calls listens ((false,.) <$> ds) c).
Proof.
  intros Hid Hds. revert cur c Hid Hds. induction ds as [|d ds IH]; intros cur c Hid Hds Hc; [done|]. inversion_clear Hds as [|? ? Hd Hds'].
  assert (Hgid : e_id (grow d cur) = e_id cur) by (unfold grow; cbn; destruct Hd as [_ [->| ->]]; [done|by destruct (str_truthy _)]).
  apply IH; [by rewrite Hgid|by rewrite Hgid|by apply coming_more].
Qed.
Lemma coming_first one listens d id :
  raw_idx d = index_of one 0 → delta_id d = id → id ≠ "" → coming one listens [] (grow d (mk_entry id "" "")) (feed_call listens (false, d) no_calls).
Proof.
  intros Hr Hd Hid. assert (Hz : index_of one 0 = 0) by (by destruct one). rewrite Hz in Hr. unfold feed_call, place_delta. rewrite Hr, Hd, (str_truthy_true _ Hid).
  unfold no_calls. cbn [active_slot last_id_at slots].
  rewrite !lookup_empty. cbn [andb].
  destruct (decide (is_Some (@None Z))) as [[? ?]|_]; [done|]. rewrite lookup_insert_eq. cbn [from_option Datatypes.id].
  unfold with_slots. cbn [slots last_id_at active_slot notified highest told negb].
  assert (Hfin : ∀ h, h = (if listens then 0 else -1) →
    coming one listens [] (grow d (mk_entry id "" "")) (mk_calls (<[0 := grow d (mk_entry id "" "")]> ∅) (<[0 := id]> ∅) (<[0 := 0]> ∅) ∅ h [])).
  { intros h ->. split; cbn [slots last_id_at active_slot notified highest told length]; change (Z.of_nat 0) with 0; rewrite ?Hz, ?lookup_insert_eq; try done.
    - by destruct listens.
    - intros k. split; [set_solver|lia].
    - unfold grow. cbn [e_id]. rewrite Hd. by destruct (str_truthy id).
    - intros _ j Hj. by rewrite !lookup_insert_ne by lia. }
  destruct listens; cbn [andb negb]; [|by apply Hfin]. cbn [Z.ltb Z.compare]. unfold tell_slots.
  cbn [slots]. assert (Hk : sorted_slots (<[0 := grow d (mk_entry id "" "")]> ∅) = [0]) by (exact (sorted_in_slots [grow d (mk_entry id "" "")])). rewrite Hk. cbn. by apply Hfin.
Qed.
Lemma coming_next one listens es cur c d id :
  plain_name (e_name cur) → raw_idx d = index_of one (Z.of_nat (length es) + 1) → delta_id d = id → id ≠ "" → id ≠ e_id cur → coming one listens es cur c →
  coming one listens (es ++ [cur]) (grow d (mk_entry id "" "")) (feed_call listens (false, d) c).
Proof.
  intros Hp Hr Hd Hid Hne [Hs Ht Hn Hh Ha Hl Hnew]. set (n := Z.of_nat (length es)) in *.
  assert (Hn1 : Z.of_nat (length (es ++ [cur])) = n + 1) by (rewrite length_app; cbn; lia).
  assert (Hplace : ∃ ids act, place_delta d c = (n + 1, mk_calls (slots c) ids act (notified c) (highest c) (told c))
    ∧ act !! index_of one (n + 1) = Some (n + 1) ∧ ids !! index_of one (n + 1) = Some id
    ∧ (one = false → ∀ j, n + 1 < j → act !! j = None ∧ ids !! j = None)).
  { unfold place_delta. rewrite Hr, Hd, (str_truthy_true _ Hid). destruct one; cbn [index_of] in *.
    - rewrite Ha, Hl. destruct (decide (is_Some (Some n))) as [_|Hno]; [|by destruct Hno; eexists].
      assert (String.eqb id (e_id cur) = false) as -> by (by apply String.eqb_neq). cbn [andb negb]. rewrite Hs, max_in_slots by (by destruct es). rewrite Hn1.
      replace (n + 1 - 1 + 1) with (n + 1) by lia. rewrite lookup_insert_eq. eexists _, _. split; [done|]. rewrite !lookup_insert_eq. done.
    - destruct (Hnew eq_refl (n + 1)) as [Hna Hnl]; [lia|]. rewrite Hna, Hnl. destruct (decide (is_Some (@None Z))) as [[? ?]|_]; [done|]. cbn [andb].
      rewrite lookup_insert_eq. eexists _, _. split; [done|]. rewrite !lookup_insert_eq. split_and!; [done|done|]. intros _ j Hj. rewrite !lookup_insert_ne by lia. apply Hnew; [done|lia]. }
  destruct Hplace as (ids & act & Hpl & Hact & Hids & Hnew'). unfold feed_call. rewrite Hpl. cbn [slots with_slots last_id_at active_slot notified highest told negb].
  rewrite Hs, in_slots_none by lia. cbn [from_option Datatypes.id]. rewrite Hd. set (e := grow d (mk_entry id "" "")).
  assert (Hslots : <[n + 1 := e]> (in_slots (es ++ [cur])) = in_slots (es ++ [cur] ++ [e])) by (rewrite app_assoc, (in_slots_snoc (es ++ [cur])); by rewrite Hn1).
  rewrite Hslots. assert (Heid : e_id e = id) by (subst e; unfold grow; cbn; by rewrite Hd, str_truthy_true).
  destruct listens; cbn [andb negb].
  - rewrite Hh. destruct (Z.ltb_spec n (n + 1)); [|lia]. rewrite (tell_last _ _ es cur [e]); [|done|done|intros k; rewrite Hn; fold n; naive_solver|].
    + split; cbn [slots last_id_at active_slot notified highest told]; rewrite ?Hn1; try done; [by rewrite <-app_assoc|by rewrite Ht| |by rewrite Heid].
      intros k. rewrite elem_of_union, elem_of_singleton, Hn. fold n. lia.
    + left. intros k. fold n. case_bool_decide; lia.
  - split; cbn [slots last_id_at active_slot notified highest told]; rewrite ?Hn1; try done; [by rewrite <-app_assoc| |by rewrite Heid].
    intros k. rewrite Hn. naive_solver.
Qed.

(** The answer's calls, with how each is sent; the ids of two that follow each
    other differ. *)
Fixpoint sends (one : bool) (i : Z) (last : option string) (calls : list (Entry * list CallDelta)) : Prop :=
  match calls with
  | [] => True
  | (e, ds) :: rest =>
    sends_call (index_of one i) e ds ∧ plain_name (e_name e) ∧ e_id e ≠ "" ∧ last ≠ Some (e_id e) ∧ sends one (i + 1) (Some (e_id e)) rest
  end.
Definition stream_of (calls : list (Entry * list CallDelta)) : list (bool * CallDelta) := (false,.) <$> (calls ≫= snd).

Lemma grow_all_parts ds e :
  Forall (λ d, delta_id d = "" ∨ delta_id d = e_id e) ds →
  grow_all ds e = mk_entry (e_id e) (foldl (λ s d, s +:+ name_part d) (e_name e) ds) (foldl (λ s d, s +:+ args_part d) (e_args e) ds).
Proof.
  revert e. induction ds as [|d ds IH]; intros e Hds; [by destruct e|]. inversion_clear Hds as [|? ? Hd Hds'].
  assert (Hid : e_id (grow d e) = e_id e) by (unfold grow; cbn [e_id]; destruct Hd as [Hd|Hd]; rewrite Hd; [done|by destruct (str_truthy _)]).
  unfold grow_all in *. cbn [foldl]. rewrite IH by (by rewrite Hid). by rewrite Hid.
Qed.
Lemma feed_calls_app listens xs ys c : feed_calls listens (xs ++ ys) c = feed_calls listens ys (feed_calls listens xs c).
Proof. apply foldl_app. Qed.
(** One call after those before it. *)
Lemma sent_whole r e ds : sends_call r e ds → e_id e ≠ "" →
  ∃ d ds', ds = d :: ds' ∧ raw_idx d = r ∧ delta_id d = e_id e ∧ Forall (more_of r (e_id e)) ds' ∧ e_id (grow d (mk_entry (e_id e) "" "")) = e_id e
    ∧ grow_all ds' (grow d (mk_entry (e_id e) "" "")) = e.
Proof.
  intros (d & ds' & -> & Hr & Hid & Hmore & Hname & Hargs) Hne. exists d, ds'. assert (He : e_id (grow d (mk_entry (e_id e) "" "")) = e_id e) by (unfold grow; cbn [e_id]; rewrite Hid; by destruct (str_truthy _)).
  split_and!; try done. rewrite grow_all_parts, He.
  - cbn [foldl] in Hname, Hargs. unfold grow. cbn [e_name e_args]. rewrite <-Hname, <-Hargs. by destruct e.
  - rewrite He. eapply Forall_impl; [exact Hmore|]. by intros ? [_ ?].
Qed.
Lemma coming_calls one listens es cur c calls :
  coming one listens es cur c → plain_name (e_name cur) → sends one (Z.of_nat (length es) + 1) (Some (e_id cur)) calls →
  ∃ es' cur', es ++ [cur] ++ calls.*1 = es' ++ [cur'] ∧ coming one listens es' cur' (feed_calls listens (stream_of calls) c) ∧ plain_name (e_name cur').
Proof.
  revert es cur c. induction calls as [|[e ds] calls IH]; intros es cur c Hc Hp Hs; [by exists es, cur|]. cbn [sends] in Hs. destruct Hs as (Hds & Hpe & Hid & Hlast & Hs).
  destruct (sent_whole _ _ _ Hds Hid) as (d & ds' & -> & Hr & Hdid & Hmore & He & Hall).
  unfold stream_of. cbn [mbind list_bind snd]. rewrite fmap_app, feed_calls_app. cbn [fmap list_fmap]. unfold feed_calls at 2. cbn [foldl].
  assert (Hl : Z.of_nat (length (es ++ [cur])) = Z.of_nat (length es) + 1) by (rewrite length_app; cbn; lia).
  assert (Hnew : coming one listens (es ++ [cur]) e (feed_calls listens ((false,.) <$> ds') (feed_call listens (false, d) c))).
  { rewrite <-Hall at 1. apply coming_all; [by rewrite He|by rewrite He, Hl|]. apply coming_next; try done. congruence. }
  edestruct (IH _ _ _ Hnew) as (es' & cur' & Heq & Hc' & Hp'); [done|by rewrite Hl|]. exists es', cur'. split_and!; [|exact Hc'|done].
  by rewrite <-Heq, <-app_assoc.
Qed.

(** All slots in order are the calls. *)
Lemma all_slots es : omap (λ k, in_slots es !! k) (seqZ 0 (Z.of_nat (length es))) = es.
Proof.
  induction es as [|e es IH] using rev_ind; [done|]. rewrite length_app. cbn [length]. rewrite Nat2Z.inj_add, seqZ_app by lia. rewrite omap_app, Z.add_0_l. f_equal.
  - rewrite <-IH at 2. apply list_omap_ext. apply Forall2_same_length_lookup_2; [done|]. intros i k k' Hk Hk'. simplify_eq.
    apply list_elem_of_lookup_2, elem_of_seqZ in Hk. rewrite in_slots_snoc, lookup_insert_ne by lia. done.
  - change (seqZ (Z.of_nat (length es)) (Z.of_nat 1)) with [Z.of_nat (length es)]. cbn [omap list_omap]. by rewrite in_slots_last.
Qed.
Lemma clean_in_slots es : Forall (λ e, plain_name (e_name e)) es → clean_entry <$> in_slots es = in_slots es.
Proof.
  intros Hp. apply map_eq. intros k. rewrite lookup_fmap. destruct (in_slots es !! k) as [e|] eqn:He; [|done]. cbn [fmap option_fmap option_map]. f_equal.
  unfold in_slots in He. apply lookup_map_seqZ_Some in He as [_ He]. rewrite Forall_forall in Hp. destruct (Hp e (list_elem_of_lookup_2 _ _ _ He)) as (Hc & _).
  unfold clean_entry. rewrite Hc. by destruct e.
Qed.
Lemma finish_coming one listens es cur c :
  coming one listens es cur c → Forall (λ e, plain_name (e_name e)) (es ++ [cur]) →
  slots (finish_calls listens false c) = in_slots (es ++ [cur]) ∧ told (finish_calls listens false c) = if listens then es ++ [cur] else [].
Proof.
  intros [Hs Ht Hn Hh _ _ _] Hp. unfold finish_calls. assert (Hpc : plain_name (e_name cur)) by (apply Forall_app in Hp as [_ Hp']; by inversion Hp').
  destruct listens; cbn [andb negb].
  - rewrite (tell_last _ _ es cur []); [|done|done|intros k; rewrite Hn; naive_solver|by right]. cbn [slots with_slots told]. by rewrite Hs, Ht, clean_in_slots.
  - cbn [slots with_slots told]. by rewrite Hs, Ht, clean_in_slots.
Qed.
Lemma sends_plain one i last calls : sends one i last calls → Forall (λ e, plain_name (e_name e)) calls.*1.
Proof. revert i last. induction calls as [|[e ds] calls IH]; intros i last; cbn [sends]; [by constructor|]. intros (_ & Hp & _ & _ & Hs). constructor; [done|by eapply IH]. Qed.
(** C32. However the calls of a streamed answer are cut into parts, and whether
    the server counts them or sends all on one index, whoever listens is told
    each call once, whole and in order, and the message has these calls, in
    order, with arguments that parse. *)
Theorem stream_calls_assembled (json_ok : string → bool) (one listens : bool) (calls : list (Entry * list CallDelta)) :
  sends one 0 None calls →
  let c := finish_calls listens false (feed_calls listens (stream_of calls) no_calls) in
  told c = (if listens then calls.*1 else []) ∧ message_calls json_ok false c = parseable json_ok <$> calls.*1.
Proof.
  intros Hs. pose proof (sends_plain _ _ _ _ Hs) as Hp.
  assert (Hend : ∀ es c, slots c = in_slots es → message_calls json_ok false c = parseable json_ok <$> es).
  { intros es c Hc. unfold message_calls. by rewrite Hc, sorted_in_slots, all_slots. }
  destruct calls as [|[e ds] calls].
  { cbn zeta. split; [by destruct listens|]. apply (Hend []). unfold finish_calls, stream_of. by destruct listens. }
  cbn [sends] in Hs. destruct Hs as (Hds & Hpe & Hid & _ & Hs). destruct (sent_whole _ _ _ Hds Hid) as (d & ds' & -> & Hr & Hdid & Hmore & He & Hall).
  assert (Hfirst : coming one listens [] e (feed_calls listens ((false,.) <$> ds') (feed_call listens (false, d) no_calls))).
  { rewrite <-Hall at 1. apply coming_all; [by rewrite He|by rewrite He|]. by apply coming_first. }
  edestruct (coming_calls one listens [] e _ calls Hfirst) as (es' & cur' & Heq & Hc & _); [done|done|]. cbn [app] in Heq.
  assert (Hrun : feed_calls listens (stream_of ((e, d :: ds') :: calls)) no_calls = feed_calls listens (stream_of calls) (feed_calls listens ((false,.) <$> ds') (feed_call listens (false, d) no_calls))).
  { unfold stream_of. cbn [mbind list_bind snd]. by rewrite fmap_app, feed_calls_app. }
  cbn zeta. rewrite Hrun. change (((e, d :: ds') :: calls).*1) with (e :: calls.*1) in Hp |- *. rewrite Heq in Hp |- *. destruct (finish_coming _ _ _ _ _ Hc Hp) as [Hslots Htold]. split; [exact Htold|by apply Hend].
Qed.

Definition two_calls : list (Entry * list CallDelta) :=
  [(mk_entry "a" "read_file" "{1}", [mk_delta (Some 0) (Some "a") (Some (Some "read_", None)); mk_delta None None (Some (Some "file", Some "{")); mk_delta (Some 0) (Some "a") (Some (None, Some "1}"))]);
   (mk_entry "b" "terminal" "{", [mk_delta None (Some "b") (Some (Some "terminal", Some "{")); mk_delta (Some 0) None None])].
Definition two_calls_sent : list (bool * CallDelta) := stream_of two_calls.
Lemma stream_calls_assembled_witness :
  let c := finish_calls true false (feed_calls true two_calls_sent no_calls) in
  told c = two_calls.*1 ∧ message_calls (String.eqb "{1}") false c = [mk_entry "a" "read_file" "{1}"; mk_entry "b" "terminal" "{}"].
Proof.
  apply (stream_calls_assembled (String.eqb "{1}") true true two_calls). cbn [sends two_calls].
  split_and!; try done.
  - eexists _, _. split; [done|]. split_and!; try done. repeat constructor; vm_compute; tauto.
  - eexists _, _. split; [done|]. split_and!; try done. repeat constructor; vm_compute; tauto.
Defined.
