(* ===== verification/ApiErrors.v ===== *)
(** * Errors of a model call (harness/error_classifier.py, harness/error_classify.py)

    What an exception of a provider's client says: its status, its texts, what kind
    of failure they are taken for by the retries (CallRetry.v), and what the person
    whose session failed reads of it.

    An exception is its attributes and texts; [show] of_status [str] of a float, a list or a
    dict, [loads] of_status [json.loads]. *)

From S2P Require Import Prelude.
From S2P Require Import PyStr.
From S2P Require Import Cadence.
From S2P Require Import Texts.
From stdpp Require Import options.
Local Open Scope Z_scope.

(** ** Exceptions *)

Record ApiError := mk_error {
  status_attr : pyval;             (* exc.status_code; [VNone] where there is none, and so on *)
  response_status : pyval;         (* exc.response.status_code *)
  http_status : pyval;             (* exc.http_status *)
  code_attr : pyval;               (* exc.code *)
  body_attr : pyval;               (* exc.body *)
  response_json : option pyval;    (* exc.response.json(), where it returns *)
  message : Text;                  (* str(exc) *)
  type_name : string;              (* type(exc).__name__ *)
  module_name : string;            (* type(exc).__module__ *)
  plain_exception : bool;          (* isinstance(exc, Exception) *)
  value_error : bool;              (* isinstance(exc, ValueError) *)
  type_error : bool;               (* isinstance(exc, TypeError) *)
  unicode_encode_error : bool;     (* isinstance(exc, UnicodeEncodeError) *)
  os_error : bool;                 (* isinstance(exc, OSError), as ConnectionError and TimeoutError are *)
  connection_error : bool;         (* isinstance(exc, ConnectionError) *)
  timeout_error : bool;            (* isinstance(exc, TimeoutError) *)
  httpx_transient : bool;          (* one of httpx's timeouts, ConnectError or RemoteProtocolError *)
  openai_error : bool;             (* isinstance(exc, openai.APIError) *)
  retry_after : option Z;          (* what extract_retry_after finds, in milliseconds *)
  partial_tool_names : option (list string)  (* a PartialToolCallStreamError's *)
}.
Definition is_dict (v : pyval) : bool := match v with VDict _ => true | _ => false end.
Definition any_in (patterns : list string) (s : Text) : bool := existsb (λ p, holds (u p) s) patterns.

(** ** What kind of failure (error_classifier.py) *)

Inductive FailoverReason :=
  | auth | auth_permanent | billing | rate_limit | overloaded | server_error | timeout | context_overflow | payload_too_large
  | image_too_large | model_not_found | provider_policy_blocked | format_error | thinking_signature | long_context_tier
  | oauth_long_context_beta_forbidden | llama_cpp_grammar_pattern | unknown.
#[global] Instance FailoverReason_eq_dec : EqDecision FailoverReason.
Proof. solve_decision. Defined.
Record ClassifiedError := mk_classified {
  reason : FailoverReason; classified_status : option Z; classified_message : Text;
  retryable : bool; should_compress : bool; should_rotate_credential : bool; should_fallback : bool }.

Definition BILLING_PATTERNS : list string :=
  ["insufficient credits"; "insufficient_quota"; "insufficient balance"; "credit balance"; "credits have been exhausted"; "top up your credits";
   "payment required"; "billing hard limit"; "exceeded your current quota"].
Definition RATE_LIMIT_PATTERNS : list string :=
  ["rate limit"; "rate_limit"; "too many requests"; "throttled"; "requests per minute"; "tokens per minute"; "requests per day"; "try again in";
   "please retry after"; "resource_exhausted"; "rate increased too quickly"; "throttlingexception"; "servicequotaexceededexception"].
Definition USAGE_LIMIT_PATTERNS : list string := ["usage limit"; "quota"; "limit exceeded"; "key limit exceeded"].
Definition USAGE_LIMIT_TRANSIENT_SIGNALS : list string := ["try again"; "retry"; "resets at"; "reset in"; "wait"].
Definition CONTEXT_OVERFLOW_PATTERNS : list string :=
  ["context length"; "context size"; "maximum context"; "context window"; "too many tokens"; "prompt is too long"; "prompt exceeds max length";
   "reduce the length"; "exceeds the limit"; "maximum context length exceeded"; "request entity too large"].
Definition IMAGE_TOO_LARGE_PATTERNS : list string :=
  ["image is too large"; "image too large"; "image exceeds"; "image size exceeds"; "image exceeds the maximum"; "images must be";
   "maximum image size"; "too many pixels"; "5mb"; "5 mb"].
Definition MODEL_NOT_FOUND_PATTERNS : list string := ["model not found"; "does not exist"; "unknown model"].
Definition SSL_TRANSIENT_PATTERNS : list string := ["tlsv1_alert_internal_error"; "ssl"; "sslerror"; "tls alert"; "decryption failed or bad record mac"].
Definition SERVER_DISCONNECT_PATTERNS : list string :=
  ["peer closed"; "server disconnected"; "remote protocol error"; "connection closed"; "connection reset"; "broken pipe"].
Definition TRANSPORT_ERROR_TYPES : list string :=
  ["ReadTimeout"; "ConnectTimeout"; "PoolTimeout"; "ConnectError"; "ReadError"; "RemoteProtocolError"; "ServerDisconnectedError"; "ProtocolError"; "TimeoutError"].

Section classify.
Variable show : pyval → Text.
Variable loads : string → option pyval.
(** [str(v)] *)
Definition str_of (v : pyval) : Text :=
  match v with VStr s => u s | VInt z => u (str_of_int z) | VNone => u "None" | VBool true => u "True" | VBool false => u "False" | _ => show v end.
(** [str(v or "")] *)
Definition or_empty (v : pyval) : Text := if truthy v then str_of v else [].
Definition extract_status_code (e : ApiError) : option Z :=
  match status_attr e with VNone => py_int (response_status e) | s => py_int s end.
Definition extract_error_body (e : ApiError) : pyval :=
  if is_dict (body_attr e) then body_attr e
  else match response_json e with Some v => if is_dict v then v else VDict [] | None => VDict [] end.
Definition extract_message (e : ApiError) (body : pyval) : Text :=
  let err := py_get body "error" VNone in
  if is_dict err && truthy (py_get err "message" VNone) then str_of (py_get err "message" VNone)
  else if truthy (py_get body "message" VNone) then str_of (py_get body "message" VNone)
  else message e.
(** A text after those that do not have it yet. *)
Definition add_part (part : Text) (parts : list Text) : list Text :=
  if negb (bool_decide (part = [])) && forallb (λ p, negb (holds part p)) parts then parts ++ [part] else parts.
(** What the provider behind a router answered, which the router quotes. *)
Definition inner_message (err : pyval) : Text :=
  match py_get (py_get err "metadata" VNone) "raw" VNone with
  | VStr raw =>
    if bool_decide (strip_text (u raw) = []) then []
    else match loads raw with
      | Some inner => let inner_err := py_get inner "error" VNone in if is_dict inner_err then lower (or_empty (py_get inner_err "message" VNone)) else []
      | None => []
      end
  | _ => []
  end.
Definition combined_error_message (e : ApiError) (body : pyval) : Text :=
  let parts := [lower (message e)] in
  let err := py_get body "error" VNone in
  join_text (u " ")
    (if is_dict err then add_part (inner_message err) (add_part (lower (or_empty (py_get err "message" VNone))) parts)
     else if truthy (py_get body "message" VNone) then add_part (lower (str_of (py_get body "message" VNone))) parts
     else parts).
(** [approx_tokens > context_length * 0.6] of whole numbers *)
Definition large_context (approx_tokens context_length num_messages : Z) : bool :=
  (3 * context_length <? 5 * approx_tokens) || (context_length <=? 256000) && ((120000 <? approx_tokens) || (200 <? num_messages)).
Definition has_status (s : option Z) (codes : list Z) : bool := match s with Some c => bool_decide (c ∈ codes) | None => false end.
Definition in_range (s : option Z) (lo hi : Z) : bool := match s with Some c => (lo <=? c) && (c <? hi) | None => false end.
Definition classify_api_error (e : ApiError) (provider : string) (approx_tokens context_length num_messages : Z) : ClassifiedError :=
  let status := extract_status_code e in
  let body := extract_error_body e in
  let msg := combined_error_message e body in
  let has := λ p, holds (u p) msg in
  let result := λ r again compress rotate fall, mk_classified r status (extract_message e body) again compress rotate fall in
  let of_status := λ codes, has_status status codes in
  if bool_decide (type_name e ∈ ["AuthenticationError"; "PermissionDeniedError"]) then result auth false false (String.eqb (type_name e) "AuthenticationError") true
  else if String.eqb (type_name e) "RateLimitError" then result rate_limit true false true true
  else if String.eqb (type_name e) "APITimeoutError" then result timeout true false false false
  else if of_status [400] && has "signature" && has "thinking" then result thinking_signature true false false false
  else if of_status [429] && has "extra usage" && has "long context" then result long_context_tier true true false false
  else if of_status [400] && has "long context beta" && has "not yet available" then result oauth_long_context_beta_forbidden true false false false
  else if of_status [400] && (has "error parsing grammar" || has "json-schema-to-grammar" || has "unable to generate parser" && has "template") then
    result llama_cpp_grammar_pattern true false false false
  else if any_in SSL_TRANSIENT_PATTERNS msg then result timeout true false false false
  else if of_status [402] then
    if any_in USAGE_LIMIT_PATTERNS msg && any_in USAGE_LIMIT_TRANSIENT_SIGNALS msg then result rate_limit true false true true else result billing false false true true
  else if of_status [401; 403] then result auth false false (of_status [401]) true
  else if any_in IMAGE_TOO_LARGE_PATTERNS msg then result image_too_large true false false false
  else if of_status [413] then result payload_too_large true true false false
  else if of_status [429] || any_in RATE_LIMIT_PATTERNS msg then result rate_limit true false true true
  else if of_status [400] && any_in CONTEXT_OVERFLOW_PATTERNS msg then result context_overflow true true false false
  else if of_status [400] && String.eqb (str_lower provider) "anthropic" && large_context approx_tokens context_length num_messages then
    result context_overflow true true false false
  else if any_in BILLING_PATTERNS msg then result billing false false true true
  else if any_in CONTEXT_OVERFLOW_PATTERNS msg then result context_overflow true true false false
  else if any_in SERVER_DISCONNECT_PATTERNS msg then
    if match status with None | Some 0 => true | _ => false end && large_context approx_tokens context_length num_messages then result context_overflow true true false false
    else result timeout true false false false
  else if of_status [404] && any_in MODEL_NOT_FOUND_PATTERNS msg then result model_not_found false false false true
  else if of_status [500; 502] then result server_error true false false false
  else if of_status [503; 529] then result overloaded true false false false
  else if bool_decide (type_name e ∈ TRANSPORT_ERROR_TYPES) || timeout_error e || connection_error e || os_error e then result timeout true false false false
  else if in_range status 400 500 then result format_error false false false true
  else if in_range status 500 600 then result server_error true false false false
  else result unknown true false false false.
End classify.

(** ** What a person reads of it (error_classify.py) *)

Definition CATEGORY_TITLES : list (string * string) :=
  [("provider_error", "The model provider returned an error."); ("rate_limit", "Rate limit reached with the model provider.");
   ("auth_failed", "Authentication with the model provider failed."); ("context_overflow", "Conversation is too long for the selected model.");
   ("network", "Network error reaching the model provider."); ("timeout", "The model provider timed out.");
   ("invalid_response", "The model returned an empty or malformed response."); ("tool_error", "A tool failed during execution.");
   ("storage_error", "Workspace storage is unavailable."); ("database_error", "Session storage is unavailable.");
   ("governance_denied", "Action blocked by governance policy."); ("unknown", "The session failed due to an internal error.")].
Definition NON_RETRYABLE : list string := ["auth_failed"; "governance_denied"; "context_overflow"].
Definition MAX_DETAIL_CHARS : nat := 500.
Definition CONTEXT_PHRASES : list string :=
  ["context length"; "context size"; "maximum context"; "token limit"; "too many tokens"; "reduce the length"; "exceeds the limit"; "context window";
   "request entity too large"; "prompt is too long"; "prompt exceeds max length"].
Definition INVALID_RESPONSE_PHRASES : list string := ["invalid llm response"; "llm returned empty response"; "response is none or has no choices"].
Definition NETWORK_EXC_NAMES : list string := ["ConnectError"; "ConnectTimeout"; "ReadError"; "RemoteProtocolError"; "ServerDisconnectedError"; "ProtocolError"].
Definition TIMEOUT_EXC_NAMES : list string := ["TimeoutError"; "ReadTimeout"; "WriteTimeout"; "PoolTimeout"; "asyncio.TimeoutError"].
Definition API_EXCEPTION_NAMES : list string :=
  ["APIError"; "APIStatusError"; "APITimeoutError"; "AuthenticationError"; "BadRequestError"; "InternalServerError"; "NotFoundError"; "PermissionDeniedError"; "RateLimitError"].
Definition category_of_reason (r : FailoverReason) : string :=
  match r with
  | auth | auth_permanent => "auth_failed"
  | rate_limit => "rate_limit"
  | timeout => "timeout"
  | context_overflow | payload_too_large | image_too_large | long_context_tier | oauth_long_context_beta_forbidden => "context_overflow"
  | format_error | thinking_signature | llama_cpp_grammar_pattern => "invalid_response"
  | billing | model_not_found | provider_policy_blocked | overloaded | server_error | unknown => "provider_error"
  end.
Record ErrorInfo := mk_info { category : string; title : string; detail : Text; info_retryable : bool }.

(** [isinstance(status, int)]: a bool is one. *)
Definition int_of_attr (v : pyval) : option Z := match v with VInt z => Some z | VBool b => Some (if b then 1 else 0) | _ => None end.
Definition first_some {A} (xs : list (option A)) : option A := head (omap Datatypes.id xs).
Definition harness_status_code (e : ApiError) : option Z :=
  first_some (int_of_attr <$> [status_attr e; response_status e; http_status e; code_attr e]).
(** Where [str.splitlines] ends a line. *)
Definition line_break (c : N) : bool := bool_decide (c ∈ [10; 11; 12; 13; 28; 29; 30; 133; 8232; 8233]%N).
Fixpoint first_line (s : Text) : Text := match s with c :: r => if line_break c then [] else c :: first_line r | [] => [] end.
Definition rstrip_text (s : Text) : Text := reverse (lstrip_text (reverse s)).
(** [s.rfind(" ")] *)
Definition rfind_space (s : Text) : option nat := last (filter (λ i, s !! i = Some 32%N) (List.seq 0 (length s))).
Definition ellipsis : N := 8230.
Definition trim_detail (text : Text) : Text :=
  let line := strip_text (first_line text) in
  if (length line <=? MAX_DETAIL_CHARS)%nat then line
  else
    let cutoff := match rfind_space (take MAX_DETAIL_CHARS line) with
                  | Some i => if (i <? MAX_DETAIL_CHARS / 2)%nat then MAX_DETAIL_CHARS else i
                  | None => MAX_DETAIL_CHARS
                  end in
    rstrip_text (take cutoff line) ++ [ellipsis].
Definition is_timeout (e : ApiError) : bool := timeout_error e || bool_decide (type_name e ∈ TIMEOUT_EXC_NAMES).
Definition starts_with_any (names : list string) (s : string) : bool := existsb (startswith s) names.
Definition pick_category (e : ApiError) (status : option Z) : string :=
  let msg := lower (message e) in
  let name := type_name e in
  let named := λ names, bool_decide (name ∈ names) in
  if has_status status [401; 403] then "auth_failed"
  else if has_status status [429] then if holds (u "long context") msg && holds (u "extra usage") msg then "context_overflow" else "rate_limit"
  else if has_status status [413] then "context_overflow"
  else if in_range status 500 600 then "provider_error"
  else if named ["AuthenticationError"; "PermissionDeniedError"] then "auth_failed"
  else if named ["RateLimitError"] then "rate_limit"
  else if named ["APITimeoutError"] then "timeout"
  else if any_in CONTEXT_PHRASES msg then "context_overflow"
  else if value_error e && any_in INVALID_RESPONSE_PHRASES msg then "invalid_response"
  else if is_timeout e then "timeout"
  else if named NETWORK_EXC_NAMES then "network"
  else if starts_with_any ["httpx"; "aiohttp"] (module_name e) then "network"
  else if connection_error e then "network"
  else if starts_with_any ["sqlalchemy"; "asyncpg"; "psycopg"] (module_name e) then "database_error"
  else if starts_with_any ["botocore"; "aiobotocore"; "boto3"; "aioboto3"] (module_name e) then "storage_error"
  else if named ["ClientError"; "EndpointConnectionError"; "NoCredentialsError"] then "storage_error"
  else if str_contains "Policy" name && (str_contains "Denied" name || str_contains "Deny" name) then "governance_denied"
  else if named ["PolicyDeniedError"; "GovernanceError"] then "governance_denied"
  else if named ["ToolExecutionError"; "SagaCompensationError"] then "tool_error"
  else if named ["APIError"; "APIStatusError"; "BadRequestError"] then "provider_error"
  else "unknown".
Definition should_use_api_classifier (e : ApiError) (status : option Z) : bool :=
  match status with Some _ => true | None => false end || (match body_attr e with VNone => false | _ => true end)
  || bool_decide (type_name e ∈ API_EXCEPTION_NAMES) || starts_with_any ["openai"; "anthropic"] (module_name e).
Definition api_projection_retryable (c : ClassifiedError) (category : string) : bool :=
  if bool_decide (category ∈ NON_RETRYABLE) then false else retryable c.
(** [_CATEGORY_TITLES[category]], which raises for a name that is no category. *)
Definition title_of (category : string) : option string := (λ kv, kv.2.2) <$> list_find (λ kv, kv.1 = category) CATEGORY_TITLES.
Section told.
Variable show : pyval → Text.
Variable loads : string → option pyval.
Definition classify_harness_error (e : ApiError) : option ErrorInfo :=
  let status := harness_status_code e in
  let msg := match message e with [] => u (type_name e) | m => m end in
  if plain_exception e && should_use_api_classifier e status then
    let classified := classify_api_error show loads e "" 0 200000 0 in
    let c := category_of_reason (reason classified) in
    t ← title_of c; Some (mk_info c t (trim_detail msg) (api_projection_retryable classified c))
  else
    let c := pick_category e status in
    t ← title_of c; Some (mk_info c t (trim_detail msg) (negb (bool_decide (c ∈ NON_RETRYABLE)))).
End told.

(** ** What they say *)

Lemma pick_category_known e status : title_of (pick_category e status) ≠ None.
Proof. unfold pick_category. repeat case_match; by vm_compute. Qed.
Lemma category_of_reason_known r : title_of (category_of_reason r) ≠ None.
Proof. by destruct r; vm_compute. Qed.

Lemma first_line_breaks s : Forall (λ c, line_break c = false) (first_line s).
Proof. induction s as [|c s IH]; cbn; [done|]. destruct (line_break c) eqn:Hc; by constructor. Qed.
Lemma lstrip_Forall P s : Forall P s → Forall P (lstrip_text s).
Proof. induction s as [|c s IH]; [done|]. intros [Hc Hs]%Forall_cons_1. cbn. destruct (is_space_point c); [by apply IH|by constructor]. Qed.
Lemma lstrip_short s : (length (lstrip_text s) ≤ length s)%nat.
Proof. induction s as [|c s IH]; [done|]. cbn. destruct (is_space_point c); cbn; lia. Qed.
Lemma rstrip_Forall P s : Forall P s → Forall P (rstrip_text s).
Proof. intros Hs. by apply Forall_reverse, lstrip_Forall, Forall_reverse. Qed.
Lemma rstrip_short s : (length (rstrip_text s) ≤ length s)%nat.
Proof. unfold rstrip_text. rewrite length_reverse. etrans; [apply lstrip_short|by rewrite length_reverse]. Qed.
Lemma rfind_space_lt s i : rfind_space s = Some i → (i < length s)%nat.
Proof.
  unfold rfind_space. intros Hi%last_Some_elem_of. apply list_elem_of_filter in Hi as [_ Hi%list_elem_of_In]. apply in_seq in Hi. lia.
Qed.
(** One line, of 500 letters and an ellipsis at most. *)
Lemma trim_detail_bound text : (length (trim_detail text) ≤ 501)%nat ∧ Forall (λ c, line_break c = false) (trim_detail text).
Proof.
  assert (Forall (λ c, line_break c = false) (strip_text (first_line text))) as Hl by apply (rstrip_Forall _ _ (lstrip_Forall _ _ (first_line_breaks text))).
  unfold trim_detail. destruct (Nat.leb_spec (length (strip_text (first_line text))) MAX_DETAIL_CHARS) as [Hle|Hgt].
  - unfold MAX_DETAIL_CHARS in Hle. split; [lia|done].
  - set (cutoff := match rfind_space _ with Some i => _ | None => _ end).
    assert (cutoff ≤ MAX_DETAIL_CHARS)%nat as Hc.
    { subst cutoff. case_match eqn:Hr; [|done]. apply rfind_space_lt in Hr. rewrite length_take in Hr. case_match; lia. }
    clearbody cutoff. split.
    + rewrite length_app. pose proof (rstrip_short (take cutoff (strip_text (first_line text)))) as Hs. rewrite length_take in Hs. cbn. unfold MAX_DETAIL_CHARS in *. lia.
    + apply Forall_app. split; [by apply rstrip_Forall, Forall_take|]. by constructor.
Qed.

(** What the handler of a failed call may rely on of a classification. *)
Record coherent (c : ClassifiedError) : Prop := {
  compresses : should_compress c = true ↔ reason c ∈ [context_overflow; payload_too_large; long_context_tier];
  hopeless : retryable c = false ↔ reason c ∈ [auth; billing; model_not_found; format_error];
  hopeless_elsewhere : retryable c = false → should_fallback c = true;
  rotates : should_rotate_credential c = true → should_fallback c = true
}.
Definition coherentb (c : ClassifiedError) : bool :=
  Bool.eqb (should_compress c) (bool_decide (reason c ∈ [context_overflow; payload_too_large; long_context_tier])) &&
  Bool.eqb (retryable c) (bool_decide (reason c ∉ [auth; billing; model_not_found; format_error])) &&
  (should_fallback c || retryable c) && (should_fallback c || negb (should_rotate_credential c)).
Lemma coherentb_spec c : coherentb c = true → coherent c.
Proof.
  unfold coherentb. rewrite !andb_true_iff. intros [[[H1%Bool.eqb_prop H2%Bool.eqb_prop] H3] H4].
  split; rewrite ?H1, ?H2; [by rewrite bool_decide_eq_true|rewrite bool_decide_eq_false; by destruct (decide (reason c ∈ [auth; billing; model_not_found; format_error])); naive_solver|..].
  - intros Hr. by rewrite H2, Hr, orb_false_r in H3.
  - intros Hr. by rewrite Hr, orb_false_r in H4.
Qed.
Lemma classify_coherent show loads e provider approx_tokens context_length num_messages :
  coherent (classify_api_error show loads e provider approx_tokens context_length num_messages).
Proof.
  apply coherentb_spec. unfold classify_api_error. cbv zeta beta.
  repeat match goal with |- context [if ?b then _ else _] => destruct b end; reflexivity.
Qed.

(** C33. What classify_harness_error makes of any exception: there is a
    category, which has a fixed title; the detail is one line, of 501 letters
    at most; and a retry is offered for no category that a retry cannot mend.
    *)
Theorem error_told show loads e :
  ∃ info, classify_harness_error show loads e = Some info ∧
    title_of (category info) = Some (title info) ∧
    (length (detail info) ≤ 501)%nat ∧ Forall (λ c, line_break c = false) (detail info) ∧
    (info_retryable info = true → category info ∉ NON_RETRYABLE).
Proof.
  assert (∀ (c : string) msg again, title_of c ≠ None → (again = true → c ∉ NON_RETRYABLE) →
    ∃ info, (t ← title_of c; Some (mk_info c t (trim_detail msg) again)) = Some info ∧ title_of (category info) = Some (title info) ∧
      (length (detail info) ≤ 501)%nat ∧ Forall (λ c, line_break c = false) (detail info) ∧ (info_retryable info = true → category info ∉ NON_RETRYABLE)) as Hone.
  { intros c msg again Hc Hagain. destruct (title_of c) as [t|] eqn:Ht; [|done]. destruct (trim_detail_bound msg). by exists (mk_info c t (trim_detail msg) again). }
  unfold classify_harness_error. cbv zeta. case_match.
  - apply Hone; [apply category_of_reason_known|]. unfold api_projection_retryable. by case_bool_decide.
  - apply Hone; [apply pick_category_known|]. by case_bool_decide.
Qed.
(** A long line is cut at its cap and given an ellipsis: one letter more than the
    cap of 500 that the code's documents give. *)
Lemma detail_passes_cap : length (trim_detail (replicate 600 97%N)) = 501%nat.
Proof. by vm_compute. Qed.
