(* ===== verification/CallRetry.v ===== *)
(** * The retries of a model call (harness/llm_call.py, harness/resilience.py)

    A call to a model may fail in many ways, and the harness answers each: another
    provider, a smaller context, smaller images, no thinking blocks, a wait.
    [call_llm_with_retry] is the loop that does, three attempts long; what a request
    came to at each attempt, what the other workers' guard says and the turn's stop
    are the [Attempt] of that number.

    Times are in milliseconds.  The log of acts is what the loop does to the world:
    the requests it sends, the sleeps, the switches of provider.  Texts hold no lone
    surrogates, so [sanitize_messages] leaves them as they are. *)

From S2P Require Import Prelude.
From S2P Require Import PyStr.
From S2P Require Import Texts.
From S2P Require Import Transcript.
From S2P Require Import ApiErrors.
From stdpp Require Import options.
Local Open Scope Z_scope.

Definition MAX_LLM_RETRIES : nat := 3.
Definition MAX_COMPRESSION_ATTEMPTS : nat := 3.
Definition FALLBACK_CONTEXT_WINDOW : Z := 128000.
Definition MAX_RATE_LIMIT_WAIT : Z := 330000.
Definition RATE_LIMIT_RECHECK_BUFFER : Z := 2000.

(** ** Providers to fall back on (resilience.py, loop.py) *)

Definition Client : Type := string.
Record Slot := mk_slot { slot_client : Client; slot_model : string }.
Record Harness := mk_harness {
  fallback_chain : list Slot; fallback_index : nat;
  llm : Client; current_model : option string;
  primary_config : option (Client * option string); fallback_activated : bool;
  streaming_flag : bool }.
(** [try_activate_fallback] and what the harness makes of it. *)
Definition try_activate_fallback (h : Harness) : option (Client * string * nat * option (Client * option string)) :=
  slot ← fallback_chain h !! fallback_index h;
  let primary := if fallback_activated h then primary_config h else Some (llm h, current_model h) in
  Some (slot_client slot, slot_model slot, S (fallback_index h), primary).
Definition activate_fallback (h : Harness) : bool * Harness :=
  match try_activate_fallback h with
  | Some (client, model, index, primary) => (true, mk_harness (fallback_chain h) index client (Some model) primary true (streaming_flag h))
  | None => (false, h)
  end.
Definition set_streaming_enabled (b : bool) (h : Harness) : Harness :=
  mk_harness (fallback_chain h) (fallback_index h) (llm h) (current_model h) (primary_config h) (fallback_activated h) b.

(** ** The window of a model (model_metadata.py, context.py) *)

Definition CONTEXT_PROBE_TIERS : list Z := [128000; 64000; 32000; 16000; 8000].
Definition get_next_probe_tier (current_length : Z) : option Z := head (List.filter (λ tier, tier <? current_length) CONTEXT_PROBE_TIERS).
Definition set_context_length (new old : Z) : Z := if (new <=? 0) || (old <=? new) then old else new.

(** ** The shared cooldown of a provider (rate_limit_guard.py) *)

(** [remaining_seconds()], of the moment Redis holds and the clock. *)
Definition remaining_seconds (reset_at : option Z) (now : Z) : option Z :=
  match reset_at with Some t => if t - now <=? 0 then None else Some (t - now) | None => None end.
(** What a look at the guard finds, and whether the turn is stopped. *)
Record Look := mk_look { look_reset : option Z; look_now : Z; look_stopped : bool }.
Inductive Waited := Cleared | TooLong (remaining : Z) | StoppedWaiting.
(** [_wait_out_rate_limit]: the naps, and how it ends; [None] out of fuel. *)
Fixpoint wait_out (fuel : nat) (looks : nat → Look) (i : nat) (waited : Z) : option (list Z * Waited) :=
  match fuel with
  | O => None
  | S fuel =>
    let l := looks i in
    match remaining_seconds (look_reset l) (look_now l) with
    | None => Some ([], Cleared)
    | Some remaining =>
      if (MAX_RATE_LIMIT_WAIT <? remaining) || (MAX_RATE_LIMIT_WAIT <=? waited) then Some ([], TooLong remaining)
      else if look_stopped l then Some ([], StoppedWaiting)
      else
        let nap := Z.min (remaining + RATE_LIMIT_RECHECK_BUFFER) (MAX_RATE_LIMIT_WAIT - waited) in
        '(naps, end_) ← wait_out fuel looks (S i) (waited + nap);
        Some (nap :: naps, end_)
    end
  end.
Definition WAIT_LOOKS : nat := 166.

(** ** Images made smaller (image_shrink.py) *)

Section images.
(** [_shrink_data_url], which is Pillow's and base64's work. *)
Variable shrink_data_url : pyval → option string.
Definition dict_set (key : string) (v : pyval) (d : pyval) : pyval :=
  match d with VDict kvs => VDict ((λ kv, if String.eqb kv.1 key then (kv.1, v) else kv) <$> kvs) | d => d end.
Definition shrink_part (part : pyval) : pyval * bool :=
  let image_url := py_get part "image_url" VNone in
  if is_dict image_url then
    match shrink_data_url (py_get image_url "url" VNone) with
    | Some s =>
      if (match py_get image_url "url" VNone with VStr s' => String.eqb s s' | _ => false end) then (part, false)
      else (dict_set "image_url" (dict_set "url" (VStr s) image_url) part, true)
    | None => (part, false)
    end
  else (part, false).
Definition shrink_message (m : pyval) : pyval * nat :=
  match py_get m "content" VNone with
  | VList parts => let shrunk := shrink_part <$> parts in (dict_set "content" (VList (fst <$> shrunk)) m, length (List.filter snd shrunk))
  | _ => (m, 0%nat)
  end.
Definition shrink_image_parts_in_messages (messages : list pyval) : list pyval * nat :=
  (fst ∘ shrink_message <$> messages, sum_list (snd ∘ shrink_message <$> messages)).
End images.

(** ** The call *)

Inductive CallResult := Answered (message usage : pyval) | Failed (e : ApiError) | CallCancelled.
(** What [compress_context] comes back with: [None] is a history it could not make smaller. *)
Inductive Compression := Compressed (messages : list pyval) | NotSmaller | CompressRaised.
Record Attempt := mk_attempt {
  stopped : bool;                 (* interrupt_check() *)
  guard_look : Look;
  wait_looks : nat → Look;        (* the looks of a wait *)
  streamed : CallResult;          (* call_llm_streaming_inner *)
  plain_answer : CallResult;      (* call_llm_non_streaming *)
  jitter : Z }.                   (* random.uniform(0, delay / 2) *)
Inductive Act :=
  | ActRequest (client : Client) (model : string) (stream : bool) (messages : list pyval)
  | ActStreamingOff | ActSwitch (client : Client) (model : string) | ActExecutor | ActReconnect (names : list string)
  | ActCooldown | ActCompress | ActCompressed | ActStripped | ActShrunk | ActSanitized | ActNaps (naps : list Z) | ActSleep (ms : Z).
Inductive Outcome :=
  | Returned (message usage : pyval)
  | Raised (e : ApiError)         (* the exception of a call, or of its answer's shape *)
  | Cancelled                     (* a BaseException, which the loop lets through *)
  | OtherError (x : pyexn)        (* one of the handler's own *)
  | CallbackRaised                (* one of compress_context's *)
  | RateLimited (remaining : Z) | InterruptedWaiting
  | Exhausted.                    (* "LLM call exhausted all retries" *)
Record CallState := mk_call {
  thinking_sig_retry_attempted : bool; compression_attempts : nat; rate_limit_fallback_active : bool;
  messages : list pyval; call_model : string; window : option Z; harness : Harness; acts : list Act }.
Definition act (a : Act) (st : CallState) : CallState :=
  mk_call (thinking_sig_retry_attempted st) (compression_attempts st) (rate_limit_fallback_active st) (messages st) (call_model st) (window st) (harness st) (acts st ++ [a]).
Definition with_messages (l : list pyval) (st : CallState) : CallState :=
  mk_call (thinking_sig_retry_attempted st) (compression_attempts st) (rate_limit_fallback_active st) l (call_model st) (window st) (harness st) (acts st).
Definition with_window (w : option Z) (st : CallState) : CallState :=
  mk_call (thinking_sig_retry_attempted st) (compression_attempts st) (rate_limit_fallback_active st) (messages st) (call_model st) w (harness st) (acts st).
Definition with_harness (h : Harness) (model : string) (st : CallState) : CallState :=
  mk_call (thinking_sig_retry_attempted st) (compression_attempts st) (rate_limit_fallback_active st) (messages st) model (window st) h (acts st).
Definition with_thinking (st : CallState) : CallState :=
  mk_call true (compression_attempts st) (rate_limit_fallback_active st) (messages st) (call_model st) (window st) (harness st) (acts st).
Definition with_guard_stale (st : CallState) : CallState :=
  mk_call (thinking_sig_retry_attempted st) (compression_attempts st) true (messages st) (call_model st) (window st) (harness st) (acts st).
Definition one_more_compression (st : CallState) : CallState :=
  mk_call (thinking_sig_retry_attempted st) (S (compression_attempts st)) (rate_limit_fallback_active st) (messages st) (call_model st) (window st) (harness st) (acts st).

(** How a step of the loop's body leaves: to the next attempt ([continue], or the
    body's end), out of the call, or on to the step after it. *)
Inductive Flow := Again (st : CallState) | Done (o : Outcome) (st : CallState) | Through (st : CallState).
Definition and_then (f : Flow) (k : CallState → Flow) : Flow := match f with Through st => k st | f => f end.
Notation "f ;; st => k" := (and_then f (λ st, k)) (at level 100, st name, k at level 200, right associativity).
(** A step that is taken only where [b] is. *)
Definition when (b : bool) (f : CallState → Flow) (st : CallState) : Flow := if b then f st else Through st.

Definition raised_value_error (text : Text) : ApiError :=
  {| status_attr := VNone; response_status := VNone; http_status := VNone; code_attr := VNone; body_attr := VNone; response_json := None;
     message := text; type_name := "ValueError"; module_name := "builtins"; plain_exception := true; value_error := true; type_error := false;
     unicode_encode_error := false; os_error := false; connection_error := false; timeout_error := false; httpx_transient := false;
     openai_error := false; retry_after := None; partial_tool_names := None |}.
Definition py_type_name (v : pyval) : string :=
  match v with VNone => "NoneType" | VBool _ => "bool" | VInt _ => "int" | VStr _ => "str" | VList _ => "list" | VDict _ => "dict" end.
Definition shape_error (m : pyval) : ApiError :=
  raised_value_error (u ("Invalid LLM response shape: expected dict, got " +:+ py_type_name m)).
Definition empty_response_error : ApiError := raised_value_error (u "LLM returned empty response").
Definition interrupted_result (model : string) : pyval * pyval :=
  (VDict [("role", VStr "assistant"); ("content", VStr "")],
   VDict [("model", VStr model); ("input_tokens", VInt 0); ("output_tokens", VInt 0); ("cache_read_tokens", VInt 0); ("finish_reason", VStr "interrupted")]).

(** [extract_status_code] and [is_transient_error] of llm_call.py *)
Definition call_status_code (e : ApiError) : option Z :=
  match py_int (status_attr e) with Some c => Some c | None => py_int (response_status e) end.
Definition SSE_CONN_PHRASES : list string :=
  ["connection lost"; "connection reset"; "connection closed"; "connection terminated"; "network error"; "network connection"; "terminated";
   "peer closed"; "broken pipe"; "upstream connect error"].
Definition is_transient_error (e : ApiError) : bool :=
  httpx_transient e || connection_error e || timeout_error e
  || openai_error e && negb (truthy (status_attr e)) && any_in SSE_CONN_PHRASES (lower (ApiErrors.message e)).
Definition no_status (s : option Z) : bool := match s with None | Some 0 => true | _ => false end.
(** [len(m.get("content", "") or "")], which a number has not. *)
Definition content_length (m : pyval) : pyres pyexn Z :=
  match py_get m "content" (VStr "") with
  | VStr s => Ok (Z.of_nat (String.length s))
  | VList l => Ok (Z.of_nat (length l))
  | VDict kvs => Ok (Z.of_nat (length kvs))
  | v => if truthy v then Raise (TypeError "object has no len()") else Ok 0
  end.
Definition estimate_tokens (ms : list pyval) : pyres pyexn Z :=
  pybind (pymap (λ m, pybind (content_length m) (λ n, Ok (n / 4))) (List.filter is_dict ms)) (λ ns, Ok (foldr Z.add 0 ns)).
Definition backoff_delay (attempt : nat) : Z := Z.min (2000 * 2 ^ Z.of_nat (attempt - 1)) 60000.

Section retry.
Variable show : pyval → Text.
Variable loads : string → option pyval.
Variable shrink_data_url : pyval → option string.
(** [parse_context_limit_from_error] *)
Variable parse_context_limit : Text → option Z.
(** The [k]-th compression of the call. *)
Variable compress_context : nat → list pyval → Compression.
Variable provider : string.
Variables has_guard has_compress has_executor streaming_enabled : bool.
Variable llm_client : Client.
Variable env : nat → Attempt.

(** [if activate_fallback(): create_kwargs["model"] = ...; continue] *)
Definition fail_over (st : CallState) : Flow :=
  let '(moved, h) := activate_fallback (harness st) in
  if moved then
    let model := match current_model h with Some m => if str_truthy m then m else call_model st | None => call_model st end in
    Again (act (ActSwitch (llm h) model) (with_harness h model st))
  else Through st.
Definition new_executor (st : CallState) : CallState := if has_executor then act ActExecutor st else st.
Definition jittered_backoff (attempt : nat) : Z := backoff_delay attempt + jitter (env attempt).
Definition pause_of (e : ApiError) (attempt : nat) : Z :=
  match retry_after e with Some ms => if ms =? 0 then jittered_backoff attempt else ms | None => jittered_backoff attempt end.
(** One of the call's three compressions: the retry's request is the smaller one. *)
Definition try_compress (st : CallState) : Flow :=
  let st := one_more_compression st in
  if (compression_attempts st <=? MAX_COMPRESSION_ATTEMPTS)%nat then
    match compress_context (compression_attempts st) (messages st) with
    | Compressed l => Again (act ActCompressed (with_messages l (act ActCompress st)))
    | NotSmaller => Through (act ActCompress st)
    | CompressRaised => Done CallbackRaised (act ActCompress st)
    end
  else Through st.
Definition resanitize (st : CallState) (k : CallState → Flow) : Flow :=
  match sanitize_tool_pairs (messages st) with Ok l => k (act ActSanitized (with_messages l st)) | Raise x => Done (OtherError x) st end.

(** What the handler knows of the failure. *)
Record Failure := mk_failure {
  error : ApiError; attempt_no : nat; tokens : Z; classified : ClassifiedError; failure_status : option Z; error_msg : Text }.
Definition on_partial_stream (f : Failure) (st : CallState) : Flow :=
  match partial_tool_names (error f) with
  | Some names =>
    if negb (retryable (classified f)) || (MAX_LLM_RETRIES <=? attempt_no f)%nat then Done (Raised (error f)) st
    else Again (act (ActSleep (pause_of (error f) (attempt_no f))) (new_executor (act (ActReconnect names) st)))
  | None => Through st
  end.
Definition has_thinking (m : pyval) : bool := match m with VDict kvs => match assoc "reasoning_details" kvs with Some _ => true | None => false end | _ => false end.
Definition strip_thinking (m : pyval) : pyval :=
  match m with VDict kvs => VDict (List.filter (λ kv, negb (String.eqb kv.1 "reasoning_details")) kvs) | m => m end.
Definition on_thinking_signature (f : Failure) (st : CallState) : Flow :=
  if bool_decide (reason (classified f) = thinking_signature) && negb (thinking_sig_retry_attempted st) then
    let stripped := existsb has_thinking (messages st) in
    let st := with_messages (strip_thinking <$> messages st) (with_thinking st) in
    if stripped then Again (act ActStripped st) else Through st
  else Through st.
Definition on_rate_limit (f : Failure) (st : CallState) : Flow :=
  if bool_decide (failure_status f = Some 429) then
    let st := if has_guard then act ActCooldown st else st in
    match window st with
    | Some w => when (bool_decide (reason (classified f) = long_context_tier) && has_compress) (λ st, try_compress (with_window (Some (set_context_length 200000 w)) st)) st
    | None => Through st
    end ;; st => fail_over st
  else if bool_decide (failure_status f = Some 402) then fail_over st
  else Through st.
Definition on_image (f : Failure) (st : CallState) : Flow :=
  if bool_decide (reason (classified f) = image_too_large) then
    let '(l, changed) := shrink_image_parts_in_messages shrink_data_url (messages st) in
    match changed with O => Done (Raised (error f)) (with_messages l st) | _ => Again (act ActShrunk (with_messages l st)) end
  else Through st.
Definition is_payload_too_large (f : Failure) : bool :=
  bool_decide (reason (classified f) = payload_too_large) || bool_decide (failure_status f = Some 413)
  || any_in ["request entity too large"; "payload too large"; "error code: 413"] (error_msg f).
Definition on_payload (f : Failure) (st : CallState) : Flow :=
  if is_payload_too_large f && has_compress then try_compress st ;; st => Done (Raised (error f)) st else Through st.
Definition is_context_length_error (f : Failure) (n_messages : Z) : bool :=
  bool_decide (reason (classified f) = context_overflow) || any_in CONTEXT_PHRASES (error_msg f)
  || bool_decide (failure_status f = Some 400) && ((80000 <? tokens f) || (80 <? n_messages)) && (length (strip_text (error_msg f)) <? 30)%nat
  || no_status (failure_status f)
     && (any_in ["server disconnected"; "peer closed connection"] (error_msg f)
         || bool_decide (type_name (error f) ∈ ["ReadError"; "RemoteProtocolError"; "ServerDisconnectedError"]))
     && ((120000 <? tokens f) || (200 <? n_messages)).
Definition smaller_window (f : Failure) (w : Z) : Z :=
  let new := match parse_context_limit (error_msg f) with
             | Some limit => if negb (limit =? 0) && (limit <? w) then Some limit else get_next_probe_tier w
             | None => get_next_probe_tier w
             end in
  match new with Some n => set_context_length n w | None => w end.
Definition on_context (too_long : bool) (f : Failure) (st : CallState) : Flow :=
  when (too_long && has_compress) (λ st, try_compress (with_window (smaller_window f <$> window st) st)) st.
(** [_err_body.get("error", {}).get("message", "").strip()], which raises where
    one of them is of another type. *)
Definition error_body_message (e : ApiError) : pyres pyexn string :=
  match body_attr e with
  | VDict kvs =>
    match py_get (VDict kvs) "error" (VDict []) with
    | VDict err => match py_get (VDict err) "message" (VStr "") with VStr s => Ok s | _ => Raise (AttributeError "strip") end
    | _ => Raise (AttributeError "get")
    end
  | _ => Ok ""
  end.
Definition is_client_error (f : Failure) (body_message : string) (too_long : bool) : bool :=
  let generic_400 := bool_decide (failure_status f = Some 400) && bool_decide (lower (strip_text (u body_message)) ∈ [u "error"; []]) in
  ((value_error (error f) || type_error (error f)) && negb (unicode_encode_error (error f))
   || in_range (failure_status f) 400 500 && negb (has_status (failure_status f) [413; 429; 529]) && negb generic_400
   || any_in ["error code: 401"; "error code: 403"; "error code: 404"; "error code: 422"; "is not a valid model"; "invalid model"; "model not found";
              "invalid api key"; "invalid_api_key"; "authentication"; "unauthorized"; "forbidden"; "not found"] (error_msg f))
  && negb too_long.
Definition on_client (too_long : bool) (f : Failure) (st : CallState) : Flow :=
  match error_body_message (error f) with
  | Raise x => Done (OtherError x) st
  | Ok m => if is_client_error f m too_long then fail_over st ;; st => Done (Raised (error f)) st else Through st
  end.
Definition on_rest (f : Failure) (st : CallState) : Flow :=
  let is_retryable := retryable (classified f) || has_status (failure_status f) [429; 500; 502; 503; 529] || is_transient_error (error f) in
  if negb is_retryable || (MAX_LLM_RETRIES <=? attempt_no f)%nat then fail_over st ;; st => Done (Raised (error f)) st
  else Again (act (ActSleep (pause_of (error f) (attempt_no f))) st).

(** The [except] clauses, in their order. *)
Definition handle (attempt : nat) (e : ApiError) (st : CallState) : Flow :=
  if unicode_encode_error e then
    resanitize st (λ st, if (MAX_LLM_RETRIES <=? attempt)%nat then Done (Raised e) st else Again st)
  else
    match estimate_tokens (messages st) with
    | Raise x => Done (OtherError x) st
    | Ok tokens =>
      let n_messages := Z.of_nat (length (messages st)) in
      let width := match window st with Some w => w | None => FALLBACK_CONTEXT_WINDOW end in
      let f := mk_failure e attempt tokens (classify_api_error show loads e provider tokens width n_messages) (call_status_code e) (lower (ApiErrors.message e)) in
      let too_long := is_context_length_error f n_messages in
      on_partial_stream f st ;; st => on_thinking_signature f st ;; st => on_rate_limit f st ;; st => on_image f st ;; st =>
      on_payload f st ;; st => on_context too_long f st ;; st => on_client too_long f st ;; st => on_rest f st
    end.

(** [call_llm_streaming]: the stream, or else the plain call; a plain call that fails
    too leaves the stream's own error. *)
Definition request (stream : bool) (st : CallState) : CallState := act (ActRequest llm_client (call_model st) stream (messages st)) st.
Definition send (attempt : nat) (st : CallState) : CallResult * CallState :=
  if streaming_enabled then
    let st := request true st in
    match streamed (env attempt) with
    | Failed e =>
      if bool_decide (partial_tool_names e = None) then
        let st := request false (act ActStreamingOff (with_harness (set_streaming_enabled false (harness st)) (call_model st) st)) in
        match plain_answer (env attempt) with Failed _ => (Failed e, st) | r => (r, st) end
      else (Failed e, st)
    | r => (r, st)
    end
  else (plain_answer (env attempt), request false st).
Definition is_sentinel (usage : pyval) : bool := truthy (py_get usage "upstream_error_sentinel" VNone).
(** What comes back is dropped where it is empty or the gateway's own error. *)
Definition take_answer (attempt : nat) (message usage : pyval) (st : CallState) : Flow :=
  if negb (is_dict message) then handle attempt (shape_error message) st
  else if negb (truthy message) then fail_over st ;; st => handle attempt empty_response_error st
  else if is_sentinel usage then
    fail_over (new_executor st) ;; st =>
    if (attempt <? MAX_LLM_RETRIES)%nat then Again (act (ActSleep (jittered_backoff attempt)) st) else handle attempt empty_response_error st
  else Done (Returned message usage) st.
Definition try_once (attempt : nat) (st : CallState) : Flow :=
  let '(r, st) := send attempt st in
  match r with
  | Answered message usage => take_answer attempt message usage st
  | Failed e => handle attempt e st
  | CallCancelled => Done Cancelled st
  end.
(** A provider that is cooling down: another one, or the wait, whose fuel lasts
    ([wait_out_ends]). *)
Definition mind_guard (attempt : nat) (st : CallState) : Flow :=
  if has_guard && negb (rate_limit_fallback_active st) then
    let l := guard_look (env attempt) in
    match remaining_seconds (look_reset l) (look_now l) with
    | None => Through st
    | Some _ =>
      match fail_over st with
      | Again st => Again (with_guard_stale st)
      | _ =>
        match wait_out WAIT_LOOKS (wait_looks (env attempt)) 0 0 with
        | Some (naps, Cleared) => Through (act (ActNaps naps) st)
        | Some (naps, TooLong remaining) => Done (RateLimited remaining) (act (ActNaps naps) st)
        | Some (naps, StoppedWaiting) => Done InterruptedWaiting (act (ActNaps naps) st)
        | None => Through st
        end
      end
    end
  else Through st.
(** The loop's body *)
Definition step (attempt : nat) (st : CallState) : Flow :=
  if stopped (env attempt) then let '(m, usage) := interrupted_result (call_model st) in Done (Returned m usage) st
  else mind_guard attempt st ;; st => try_once attempt st.
Fixpoint attempts (more attempt : nat) (st : CallState) : Outcome * CallState :=
  match more with
  | O => (Exhausted, st)
  | S more =>
    match step attempt st with
    | Again st | Through st => attempts more (S attempt) st
    | Done o st => (o, st)
    end
  end.
Definition call_llm_with_retry (st : CallState) : Outcome * CallState :=
  match sanitize_tool_pairs (messages st) with
  | Ok l => attempts MAX_LLM_RETRIES 1 (with_messages l st)
  | Raise x => (OtherError x, st)
  end.
End retry.
Definition start (h : Harness) (ms : list pyval) (model : string) (w : option Z) : CallState := mk_call false 0 false ms model w h [].

(** ** The wait *)

Lemma remaining_positive t now r : remaining_seconds t now = Some r → 0 < r.
Proof. unfold remaining_seconds. destruct t as [t|]; [|done]. destruct (Z.leb_spec (t - now) 0); naive_solver lia. Qed.
(** Each nap but the last is of two seconds at least. *)
Lemma wait_out_enough fuel looks i waited :
  0 <= waited <= MAX_RATE_LIMIT_WAIT → MAX_RATE_LIMIT_WAIT - waited <= 2000 * (Z.of_nat fuel - 1) →
  ∃ naps end_, wait_out fuel looks i waited = Some (naps, end_) ∧ Forall (λ nap, 0 < nap) naps ∧ waited + foldr Z.add 0 naps <= MAX_RATE_LIMIT_WAIT.
Proof.
  revert i waited. induction fuel as [|fuel IH]; intros i waited Hw Hf; [lia|]. cbn [wait_out].
  destruct (remaining_seconds _ _) as [r|] eqn:Hr; [|eexists [], _; cbn; split_and!; [done..|lia]]. apply remaining_positive in Hr.
  destruct ((MAX_RATE_LIMIT_WAIT <? r) || _) eqn:Hlong; [eexists [], _; cbn; split_and!; [done..|lia]|].
  apply orb_false_iff in Hlong as [H1%Z.ltb_ge H2%Z.leb_gt].
  destruct (look_stopped _); [eexists [], _; cbn; split_and!; [done..|lia]|]. unfold RATE_LIMIT_RECHECK_BUFFER.
  set (nap := Z.min (r + 2000) (MAX_RATE_LIMIT_WAIT - waited)).
  assert (fuel ≠ O) as Hfuel by lia.
  destruct (IH (S i) (waited + nap)) as (naps & end_ & -> & Hn & Hs); [lia..|].
  exists (nap :: naps), end_. cbn. split_and!; [done|constructor; [lia|done]|lia].
Qed.
(** The wait ends as the look after its last nap says. *)
Definition ended_by (l : Look) (end_ : Waited) (waited : Z) : Prop :=
  match end_ with
  | Cleared => remaining_seconds (look_reset l) (look_now l) = None
  | TooLong r => remaining_seconds (look_reset l) (look_now l) = Some r ∧ (MAX_RATE_LIMIT_WAIT < r ∨ MAX_RATE_LIMIT_WAIT <= waited)
  | StoppedWaiting => look_stopped l = true
  end.
Lemma wait_out_end fuel looks i waited naps end_ :
  wait_out fuel looks i waited = Some (naps, end_) → (length naps < fuel)%nat ∧ ended_by (looks (i + length naps)%nat) end_ (waited + foldr Z.add 0 naps).
Proof.
  revert i waited naps. induction fuel as [|fuel IH]; intros i waited naps; cbn [wait_out]; [done|].
  destruct (remaining_seconds _ _) as [r|] eqn:Hr.
  2:{ intros [= <- <-]. cbn. rewrite Nat.add_0_r. split; [lia|done]. }
  destruct ((MAX_RATE_LIMIT_WAIT <? r) || _) eqn:Hlong.
  { intros [= <- <-]. cbn. rewrite Nat.add_0_r, Hr, Z.add_0_r. apply orb_true_iff in Hlong as [?%Z.ltb_lt|?%Z.leb_le]; split; auto with lia. }
  destruct (look_stopped _) eqn:Hs; [intros [= <- <-]; cbn; rewrite Nat.add_0_r; split; [lia|done]|].
  intros Hw. apply bind_Some in Hw as ([naps' end'] & Hw & [= <- <-]). apply IH in Hw as [Hl He]. cbn. split; [lia|].
  rewrite Nat.add_succ_r. by rewrite <-Z.add_assoc in He.
Qed.

(** ** What a step does to the call *)

Definition is_request (a : Act) : bool := match a with ActRequest _ _ _ _ => true | _ => false end.
Definition is_compression (a : Act) : bool := match a with ActCompress => true | _ => false end.
Definition requests (st : CallState) : list Act := List.filter is_request (acts st).
Definition compressions (st : CallState) : nat := length (List.filter is_compression (acts st)).
Definition by_client (client : Client) (a : Act) : Prop := match a with ActRequest c _ _ _ => c = client | _ => True end.
(** A recovery: the next request is another one. *)
Definition recovery (a : Act) : bool := match a with ActSwitch _ _ | ActCompressed | ActStripped | ActShrunk => true | _ => false end.
Definition recovered (st : CallState) : Prop := ∃ a, last (acts st) = Some a ∧ recovery a = true.
Definition within_budget (st : CallState) : Prop := (compressions st ≤ compression_attempts st ∧ compressions st ≤ MAX_COMPRESSION_ATTEMPTS)%nat.

(** [n] switches of provider and [r] requests of the client at most. *)
Record grows (client : Client) (n r : nat) (st st' : CallState) : Prop := {
  grows_index : (fallback_index (harness st) ≤ fallback_index (harness st') ≤ fallback_index (harness st) + n)%nat;
  grows_requests : ∃ rs, requests st' = requests st ++ rs ∧ (length rs ≤ r)%nat ∧ Forall (by_client client) rs;
  grows_budget : within_budget st → within_budget st'
}.
Lemma grows_refl client n r st : grows client n r st st.
Proof. split; [lia| |done]. exists []. rewrite app_nil_r. split_and!; [done|cbn; lia|done]. Qed.
Lemma grows_trans client n1 n2 r1 r2 st1 st2 st3 : grows client n1 r1 st1 st2 → grows client n2 r2 st2 st3 → grows client (n1 + n2) (r1 + r2) st1 st3.
Proof.
  intros [Hi1 (rs1 & H1 & Hl1 & Hc1) Hb1] [Hi2 (rs2 & H2 & Hl2 & Hc2) Hb2]. split; [lia| |auto].
  exists (rs1 ++ rs2). rewrite H2, H1, app_assoc. split_and!; [done|rewrite length_app; lia|by apply Forall_app].
Qed.
Lemma grows_le client n n' r r' st st' : grows client n r st st' → (n ≤ n')%nat → (r ≤ r')%nat → grows client n' r' st st'.
Proof. intros [Hi (rs & H & Hl & Hc) Hb] Hn Hr. split; [lia| |done]. exists rs. split_and!; [done|lia|done]. Qed.

(** A change that sends nothing, compresses nothing, switches nothing. *)
Lemma grows_then client a st st' :
  is_request a = false → is_compression a = false → acts st' = acts st ++ [a] → compression_attempts st' = compression_attempts st →
  fallback_index (harness st') = fallback_index (harness st) → grows client 0 0 st st'.
Proof.
  intros Ha Hc Hacts Hatt Hi. split; [lia| |].
  - exists []. unfold requests. rewrite Hacts, List.filter_app. cbn. rewrite Ha. split_and!; [done|cbn; lia|done].
  - unfold within_budget, compressions. rewrite Hacts, Hatt, List.filter_app. cbn. by rewrite Hc, app_nil_r.
Qed.
Lemma grows_act client a st : is_request a = false → is_compression a = false → grows client 0 0 st (act a st).
Proof. intros. by apply (grows_then _ a). Qed.
Lemma grows_same client st st' :
  acts st' = acts st → compression_attempts st' = compression_attempts st → fallback_index (harness st') = fallback_index (harness st) → grows client 0 0 st st'.
Proof.
  intros Ha Hc Hi. split; [lia| |unfold within_budget, compressions; by rewrite Ha, Hc]. exists []. unfold requests. rewrite Ha, app_nil_r. split_and!; [done|cbn; lia|done].
Qed.
Lemma grows_request client stream st : grows client 0 1 st (request client stream st).
Proof.
  split; [cbn; lia| |].
  - exists [ActRequest client (call_model st) stream (messages st)]. unfold requests. cbn. rewrite List.filter_app. cbn. split_and!; [done|lia|by constructor].
  - unfold within_budget, compressions. cbn. by rewrite List.filter_app, app_nil_r.
Qed.
#[export] Hint Resolve grows_refl grows_act grows_same grows_request : retry.

(** What is asked of a way to leave a step: where it goes on or out, no switch;
    where it goes to the next attempt, one at most, and never from the last attempt
    but after a recovery. *)
Definition flow_ok (client : Client) (attempt r : nat) (Q : Outcome → CallState → Prop) (st : CallState) (f : Flow) : Prop :=
  match f with
  | Through st' => grows client 0 r st st'
  | Done o st' => grows client 0 r st st' ∧ Q o st'
  | Again st' => grows client 1 r st st' ∧ (recovered st' ∨ (attempt < MAX_LLM_RETRIES)%nat)
  end.
Lemma and_then_ok client attempt r1 r2 Q st f k :
  flow_ok client attempt r1 Q st f → (∀ st', grows client 0 r1 st st' → flow_ok client attempt r2 Q st' (k st')) →
  flow_ok client attempt (r1 + r2) Q st (and_then f k).
Proof.
  destruct f as [st'|o st'|st']; cbn; intros Hf Hk.
  - destruct Hf as [Hf ?]. split; [eapply grows_le; [exact Hf|lia..]|done].
  - destruct Hf as [Hf ?]. split; [eapply grows_le; [exact Hf|lia..]|done].
  - specialize (Hk st' Hf). destruct (k st') as [st2|o st2|st2]; cbn in *.
    + destruct Hk as [Hk ?]. split; [apply (grows_trans client 0 1 r1 r2 _ _ _ Hf Hk)|done].
    + destruct Hk as [Hk ?]. split; [apply (grows_trans client 0 0 r1 r2 _ _ _ Hf Hk)|done].
    + apply (grows_trans client 0 0 r1 r2 _ _ _ Hf Hk).
Qed.
(** After other changes of the call. *)
Lemma flow_after client attempt r1 r2 Q st st' f : grows client 0 r1 st st' → flow_ok client attempt r2 Q st' f → flow_ok client attempt (r1 + r2) Q st f.
Proof.
  intros H0. destruct f as [st2|o st2|st2]; cbn.
  - intros [H ?]. split; [|done]. apply (grows_trans client 0 1 r1 r2 _ _ _ H0 H).
  - intros [H ?]. split; [|done]. apply (grows_trans client 0 0 r1 r2 _ _ _ H0 H).
  - intros H. apply (grows_trans client 0 0 r1 r2 _ _ _ H0 H).
Qed.
Lemma flow_from client attempt r Q st st' f : grows client 0 0 st st' → flow_ok client attempt r Q st' f → flow_ok client attempt r Q st f.
Proof. apply (flow_after _ _ 0). Qed.
Lemma recovered_act a st : recovery a = true → recovered (act a st).
Proof. intros Ha. exists a. cbn. by rewrite last_snoc. Qed.
#[export] Hint Resolve recovered_act : retry.

(** ** The steps of the handler *)

Section steps.
Context (show : pyval → Text) (loads : string → option pyval) (shrink_data_url : pyval → option string) (parse_context_limit : Text → option Z)
        (compress_context : nat → list pyval → Compression) (provider : string) (has_guard has_compress has_executor streaming_enabled : bool)
        (llm_client : Client) (env : nat → Attempt).
Notation flow_ok := (flow_ok llm_client).
Notation grows := (grows llm_client).

Lemma fail_over_ok attempt Q st : flow_ok attempt 0 Q st (fail_over st).
Proof.
  unfold fail_over, activate_fallback, try_activate_fallback. destruct (fallback_chain _ !! _) as [slot|]; cbn; [|apply grows_refl].
  split; [|left; by apply recovered_act]. split; [cbn; lia| |].
  - exists []. unfold requests. cbn. rewrite List.filter_app, !app_nil_r. split_and!; [done|cbn; lia|done].
  - unfold within_budget, compressions. cbn. by rewrite List.filter_app, app_nil_r.
Qed.
(** The fourth compression is not made. *)
Definition compress_failed (st : CallState) : Prop :=
  (compression_attempts st ≤ MAX_COMPRESSION_ATTEMPTS)%nat ∧ compress_context (compression_attempts st) (messages st) = CompressRaised.
Lemma try_compress_ok attempt Q st : (∀ st', compress_failed st' → Q CallbackRaised st') → flow_ok attempt 0 Q st (try_compress compress_context st).
Proof.
  intros HQ.
  assert (grows 0 0 st (one_more_compression st)) as H1.
  { split; [cbn; lia|exists []; rewrite app_nil_r; by split_and!|]. unfold within_budget, compressions. cbn. lia. }
  unfold try_compress. destruct (Nat.leb_spec (compression_attempts (one_more_compression st)) MAX_COMPRESSION_ATTEMPTS) as [Hle|]; [|exact H1].
  assert (grows 0 0 st (act ActCompress (one_more_compression st))) as H2.
  { split; [cbn; lia| |]; unfold requests, within_budget, compressions, MAX_COMPRESSION_ATTEMPTS in *; cbn in *; rewrite List.filter_app; cbn.
    - exists []. by rewrite !app_nil_r.
    - rewrite length_app. cbn. lia. }
  destruct (compress_context _ _) as [l| |] eqn:Hcc; cbn; [|exact H2|split; [exact H2|by apply HQ]]. split; [|left; by apply recovered_act].
  eapply grows_le; [apply (grows_trans _ 0 0 0 0 _ _ _ H2); by apply (grows_then _ ActCompressed)|lia..].
Qed.
Lemma new_executor_grows st : grows 0 0 st (new_executor has_executor st).
Proof. unfold new_executor. destruct has_executor; auto with retry. Qed.
Lemma again_ok attempt Q st st' : grows 0 0 st st' → (recovered st' ∨ (attempt < MAX_LLM_RETRIES)%nat) → flow_ok attempt 0 Q st (Again st').
Proof. intros H Hr. split; [eapply grows_le; [exact H|lia..]|done]. Qed.

(** What the handler raises: the failure itself, an exception of its own, where
    the failure's body or the messages are of another shape than it reads, or
    one of compress_context. *)
Definition told (e : ApiError) (o : Outcome) (st : CallState) : Prop :=
  match o with
  | Raised e' => e' = e
  | OtherError x => error_body_message e = Raise x ∨ estimate_tokens (messages st) = Raise x ∨ sanitize_tool_pairs (messages st) = Raise x
  | CallbackRaised => has_compress = true ∧ compress_failed st
  | _ => False
  end.
Lemma resanitize_ok attempt r Q st k :
  (∀ x st', sanitize_tool_pairs (messages st') = Raise x → Q (OtherError x) st') → (∀ st', grows 0 0 st st' → flow_ok attempt r Q st' (k st')) → flow_ok attempt r Q st (resanitize st k).
Proof.
  intros HQ Hk. unfold resanitize. destruct (sanitize_tool_pairs _) as [l|x] eqn:Hsan; [|by split; [apply grows_refl|auto]].
  assert (grows 0 0 st (act ActSanitized (with_messages l st))) as H by (by apply (grows_then _ ActSanitized)).
  eapply flow_from; [exact H|]. by apply Hk.
Qed.
Lemma on_partial_ok f st : flow_ok (attempt_no f) 0 (told (error f)) st (on_partial_stream has_executor env f st).
Proof.
  unfold on_partial_stream. destruct (partial_tool_names _) as [names|]; [|apply grows_refl].
  destruct (negb _ || _) eqn:Hl; [by split; [apply grows_refl|]|]. apply orb_false_iff in Hl as [_ Hl%Nat.leb_gt]. apply again_ok; [|by right].
  apply (grows_trans _ 0 0 0 0 _ (act (ActReconnect names) st)); [by apply grows_act|].
  eapply (grows_trans _ 0 0 0 0); [apply new_executor_grows|by apply grows_act].
Qed.
Lemma on_thinking_ok f st : flow_ok (attempt_no f) 0 (told (error f)) st (on_thinking_signature f st).
Proof.
  unfold on_thinking_signature. destruct (bool_decide _ && _); [|apply grows_refl]. destruct (existsb _ _); [|by apply grows_same].
  apply again_ok; [by apply (grows_then _ ActStripped)|left; by apply recovered_act].
Qed.
Lemma on_rate_limit_ok f st : flow_ok (attempt_no f) 0 (told (error f)) st (on_rate_limit compress_context has_guard has_compress f st).
Proof.
  unfold on_rate_limit. destruct (bool_decide _); [|destruct (bool_decide _); [apply fail_over_ok|apply grows_refl]].
  apply (flow_from _ _ _ _ _ (if has_guard then act ActCooldown st else st)); [destruct has_guard; auto with retry|].
  apply (and_then_ok _ _ 0 0); [|intros; apply fail_over_ok].
  destruct (window _) as [w|]; [|apply grows_refl]. unfold when. destruct (_ && has_compress) eqn:Hhc; [|apply grows_refl]. apply andb_prop in Hhc as [_ Hhc].
  eapply flow_from; [|by apply try_compress_ok]. by apply grows_same.
Qed.
Lemma on_image_ok f st : flow_ok (attempt_no f) 0 (told (error f)) st (on_image shrink_data_url f st).
Proof.
  unfold on_image. destruct (bool_decide _); [|apply grows_refl]. destruct (shrink_image_parts_in_messages _ _) as [l [|n]].
  - by split; [apply grows_same|].
  - apply again_ok; [by apply (grows_then _ ActShrunk)|left; by apply recovered_act].
Qed.
Lemma on_payload_ok f st : flow_ok (attempt_no f) 0 (told (error f)) st (on_payload compress_context has_compress f st).
Proof.
  unfold on_payload. destruct (_ && has_compress) eqn:Hhc; [|apply grows_refl]. apply andb_prop in Hhc as [_ Hhc]. apply (and_then_ok _ _ 0 0); [by apply try_compress_ok|]. intros st' _. by split; [apply grows_refl|].
Qed.
Lemma on_context_ok too_long f st : flow_ok (attempt_no f) 0 (told (error f)) st (on_context parse_context_limit compress_context has_compress too_long f st).
Proof.
  unfold on_context, when. destruct (_ && has_compress) eqn:Hhc; [|apply grows_refl]. apply andb_prop in Hhc as [_ Hhc]. eapply flow_from; [|by apply try_compress_ok]. by apply grows_same.
Qed.
Lemma fail_over_or_raise f st : flow_ok (attempt_no f) 0 (told (error f)) st (fail_over st ;; st => Done (Raised (error f)) st).
Proof. apply (and_then_ok _ _ 0 0); [apply fail_over_ok|]. intros st' _. by split; [apply grows_refl|]. Qed.
Lemma on_client_ok too_long f st : flow_ok (attempt_no f) 0 (told (error f)) st (on_client too_long f st).
Proof.
  unfold on_client. destruct (error_body_message _) as [m|x] eqn:Hm; [|by split; [apply grows_refl|left]]. destruct (is_client_error _ _ _); [apply fail_over_or_raise|apply grows_refl].
Qed.
Lemma on_rest_ok f st : flow_ok (attempt_no f) 0 (told (error f)) st (on_rest env f st).
Proof.
  unfold on_rest. cbv zeta. destruct (_ || _) eqn:Hl; [apply fail_over_or_raise|]. apply orb_false_iff in Hl as [_ Hl%Nat.leb_gt].
  apply again_ok; [by apply grows_act|by right].
Qed.

(** The handler has an answer to every failure. *)
Definition leaves (f : Flow) : Prop := match f with Through _ => False | _ => True end.
Lemma and_then_leaves f k : (∀ st, leaves (k st)) → leaves (and_then f k).
Proof. by destruct f; cbn. Qed.
Notation handle := (handle show loads shrink_data_url parse_context_limit compress_context provider has_guard has_compress has_executor env).
Lemma handle_leaves attempt e st : leaves (handle attempt e st).
Proof.
  unfold CallRetry.handle. destruct (unicode_encode_error e).
  - unfold resanitize. destruct (sanitize_tool_pairs _); [|done]. by destruct (_ <=? _)%nat.
  - destruct (estimate_tokens _); [|done]. cbv zeta. do 7 (apply and_then_leaves; intros ?). unfold on_rest. cbv zeta.
    destruct (_ || _); [by apply and_then_leaves|done].
Qed.
Lemma handle_ok attempt e st : flow_ok attempt 0 (told e) st (handle attempt e st).
Proof.
  unfold CallRetry.handle. destruct (unicode_encode_error e).
  - apply resanitize_ok; [by right; right|]. intros st' _. destruct (Nat.leb_spec MAX_LLM_RETRIES attempt); [by split; [apply grows_refl|]|].
    apply again_ok; [apply grows_refl|by right].
  - destruct (estimate_tokens _) as [n|x] eqn:Hest; [|by split; [apply grows_refl|right; left]]. cbv zeta. set (f := mk_failure _ _ _ _ _ _).
    change attempt with (attempt_no f). change e with (error f).
    apply (and_then_ok _ _ 0 0); [apply on_partial_ok|]. intros st1 _.
    apply (and_then_ok _ _ 0 0); [apply on_thinking_ok|]. intros st2 _.
    apply (and_then_ok _ _ 0 0); [apply on_rate_limit_ok|]. intros st3 _.
    apply (and_then_ok _ _ 0 0); [apply on_image_ok|]. intros st4 _.
    apply (and_then_ok _ _ 0 0); [apply on_payload_ok|]. intros st5 _.
    apply (and_then_ok _ _ 0 0); [apply on_context_ok|]. intros st6 _.
    apply (and_then_ok _ _ 0 0); [apply on_client_ok|]. intros st7 _.
    apply on_rest_ok.
Qed.

(** ** An attempt *)

(** What a request came to, of the two a stream that fails sends. *)
Definition call_result (attempt : nat) : CallResult :=
  if streaming_enabled then
    match streamed (env attempt) with
    | Failed e => if bool_decide (partial_tool_names e = None) then match plain_answer (env attempt) with Failed _ => Failed e | r => r end else Failed e
    | r => r
    end
  else plain_answer (env attempt).
Definition good_answer (message usage : pyval) : Prop := is_dict message = true ∧ truthy message = true ∧ is_sentinel usage = false.
(** Where the outcome of an attempt comes from: the failure of its request, or an
    answer that is none; or the wait for a provider that cools down. *)
Definition failed (attempt : nat) (e : ApiError) : Prop :=
  call_result attempt = Failed e ∨ ∃ m usage, call_result attempt = Answered m usage ∧ ¬ good_answer m usage ∧ (e = shape_error m ∨ e = empty_response_error).
Definition waited_out (attempt : nat) (end_ : Waited) : Prop :=
  has_guard = true ∧ remaining_seconds (look_reset (guard_look (env attempt))) (look_now (guard_look (env attempt))) ≠ None
  ∧ ∃ naps, wait_out WAIT_LOOKS (wait_looks (env attempt)) 0 0 = Some (naps, end_) ∧ ended_by (wait_looks (env attempt) (length naps)) end_ (foldr Z.add 0 naps).
Definition accounted (attempt : nat) (o : Outcome) (st : CallState) : Prop :=
  match o with
  | Returned m usage =>
    (stopped (env attempt) = true ∧ ∃ model, (m, usage) = interrupted_result model) ∨ (call_result attempt = Answered m usage ∧ good_answer m usage)
  | Raised e => failed attempt e
  | Cancelled => call_result attempt = CallCancelled
  | RateLimited r => waited_out attempt (TooLong r)
  | InterruptedWaiting => waited_out attempt StoppedWaiting
  | OtherError x => sanitize_tool_pairs (messages st) = Raise x ∨ ∃ e, failed attempt e ∧ told e (OtherError x) st
  | CallbackRaised => (∃ e, failed attempt e) ∧ has_compress = true ∧ compress_failed st
  | Exhausted => False
  end.
Lemma told_accounted attempt e o st : failed attempt e → told e o st → accounted attempt o st.
Proof. intros He Ho. destruct o; cbn in Ho; try done; [by subst|right; by exists e|split; [by exists e|done]]. Qed.
Lemma flow_weaken attempt r r' (Q Q' : Outcome → CallState → Prop) st f : flow_ok attempt r Q st f → (∀ o st', Q o st' → Q' o st') → (r ≤ r')%nat → flow_ok attempt r' Q' st f.
Proof.
  intros Hf HQ Hr. destruct f as [st'|o st'|st']; cbn in *; [destruct Hf as [Hf ?]; split..|]; try done; try (by apply HQ); by eapply grows_le.
Qed.
Lemma send_result attempt st : fst (send streaming_enabled llm_client env attempt st) = call_result attempt.
Proof. unfold send, call_result. repeat case_match; by simplify_eq. Qed.
Lemma send_grows attempt st : grows 0 2 st (snd (send streaming_enabled llm_client env attempt st)).
Proof.
  assert (∀ stream st', grows 0 1 st' (request llm_client stream st')) as Hr by (intros; apply grows_request).
  assert (∀ st', grows 0 1 st' (request llm_client false (act ActStreamingOff (with_harness (set_streaming_enabled false (harness st')) (call_model st') st')))) as Hoff.
  { intros st'. eapply (grows_trans _ 0 0 0 1); [|apply Hr]. by apply (grows_then _ ActStreamingOff). }
  unfold send. destruct streaming_enabled; [|eapply grows_le; [apply Hr|lia..]].
  destruct (streamed _) as [| e|]; cbn [snd]; [eapply grows_le; [apply Hr|lia..]| |eapply grows_le; [apply Hr|lia..]].
  destruct (bool_decide _); [|eapply grows_le; [apply Hr|lia..]].
  destruct (plain_answer _); cbn [snd]; apply (grows_trans _ 0 0 1 1 _ (request llm_client true st)); auto.
Qed.
Notation try_once := (try_once show loads shrink_data_url parse_context_limit compress_context provider has_guard has_compress has_executor streaming_enabled llm_client env).
Notation take_answer := (take_answer show loads shrink_data_url parse_context_limit compress_context provider has_guard has_compress has_executor env).
Lemma handle_accounted attempt e st : failed attempt e → flow_ok attempt 0 (accounted attempt) st (handle attempt e st).
Proof. intros He. eapply flow_weaken; [apply handle_ok|intros o st'; by apply told_accounted|lia]. Qed.
Lemma take_answer_ok attempt m usage st :
  call_result attempt = Answered m usage → flow_ok attempt 0 (accounted attempt) st (take_answer attempt m usage st) ∧ leaves (take_answer attempt m usage st).
Proof.
  intros Hr. unfold CallRetry.take_answer, good_answer.
  assert (∀ e st', ¬ good_answer m usage → e = shape_error m ∨ e = empty_response_error → flow_ok attempt 0 (accounted attempt) st' (handle attempt e st')) as Hbad.
  { intros e st' Hb He. apply handle_accounted. right. eauto 6. }
  unfold good_answer in Hbad. destruct (is_dict m) eqn:Hd; cbn [negb].
  2:{ split; [apply Hbad; [intros (H & _); discriminate H|by left]|apply handle_leaves]. }
  destruct (truthy m) eqn:Ht; cbn [negb].
  2:{ split; [|apply and_then_leaves; intros; apply handle_leaves]. apply (and_then_ok _ _ 0 0); [apply fail_over_ok|]. intros. apply Hbad; [intros (_ & Hn & _); discriminate Hn|by right]. }
  destruct (is_sentinel usage) eqn:Hs; [|by split; [split; [apply grows_refl|right]|]].
  split; [|apply and_then_leaves; intros; destruct (_ <? _)%nat; [done|apply handle_leaves]].
  eapply flow_from; [apply new_executor_grows|]. apply (and_then_ok _ _ 0 0); [apply fail_over_ok|]. intros st' _.
  destruct (Nat.ltb_spec attempt MAX_LLM_RETRIES); [apply again_ok; [by apply grows_act|by right]|]. apply Hbad; [intros (_ & _ & Hn); discriminate Hn|by right].
Qed.
Lemma try_once_ok attempt st : flow_ok attempt 2 (accounted attempt) st (try_once attempt st) ∧ leaves (try_once attempt st).
Proof.
  unfold CallRetry.try_once. pose proof (send_result attempt st) as Hr. pose proof (send_grows attempt st) as Hg.
  destruct (send _ _ _ attempt st) as [r st']. cbn in Hr, Hg. subst r.
  destruct (call_result attempt) as [m usage|e|] eqn:Hr.
  - destruct (take_answer_ok attempt m usage st' Hr). split; [|done]. by apply (flow_after _ _ 2 0 _ _ st').
  - split; [|apply handle_leaves]. apply (flow_after _ _ 2 0 _ _ st' _ Hg), handle_accounted. by left.
  - split; [by split|done].
Qed.
Lemma mind_guard_ok attempt st : flow_ok attempt 0 (accounted attempt) st (mind_guard has_guard env attempt st).
Proof.
  unfold mind_guard. destruct (has_guard && _) eqn:Hg; [|apply grows_refl]. apply andb_prop in Hg as [Hg _].
  destruct (remaining_seconds _ _) as [r|] eqn:Hrem; [|apply grows_refl]. pose proof (fail_over_ok attempt (accounted attempt) st) as Hf.
  destruct (fail_over st) as [st'|o st'|st'].
  1:{ destruct Hf as [Hf [(a & Hl & Ha)|?]]; [|split; [|by right]]; [split; [|left; by exists a]|]; apply (grows_trans _ 1 0 0 0 _ _ _ Hf); by apply grows_same. }
  all: destruct (wait_out _ _ _ _) as [[naps end_]|] eqn:Hw; [|apply grows_refl]; destruct (wait_out_end _ _ _ _ _ _ Hw) as [_ Hend];
    assert (waited_out attempt end_) as Hout by (split_and!; [done|congruence|by exists naps]).
  all: destruct end_; cbn [flow_ok accounted]; [by apply grows_act|split; [by apply grows_act|done]..].
Qed.
Notation step := (step show loads shrink_data_url parse_context_limit compress_context provider has_guard has_compress has_executor streaming_enabled llm_client env).
Lemma step_ok attempt st : flow_ok attempt 2 (accounted attempt) st (step attempt st).
Proof.
  unfold CallRetry.step. destruct (stopped (env attempt)) eqn:Hs.
  - split; [apply grows_refl|]. left. split; [done|]. by exists (call_model st).
  - apply (and_then_ok _ _ 0 2); [apply mind_guard_ok|]. intros st' _. apply try_once_ok.
Qed.
Lemma step_leaves attempt st : leaves (step attempt st).
Proof. unfold CallRetry.step. destruct (stopped _); [done|]. apply and_then_leaves. intros st'. apply try_once_ok. Qed.
Notation attempts := (attempts show loads shrink_data_url parse_context_limit compress_context provider has_guard has_compress has_executor streaming_enabled llm_client env).
(** What the loop leaves, whatever happens to its requests. *)
Definition call_ends (first : nat) (o : Outcome) (st' : CallState) : Prop :=
  match o with
  | Exhausted => recovered st'
  | o => ∃ k, (first ≤ k ≤ MAX_LLM_RETRIES)%nat ∧ accounted k o st'
  end.
Lemma attempts_end more attempt st :
  (attempt + more = S MAX_LLM_RETRIES)%nat → (1 ≤ more)%nat →
  grows more (2 * more) st (snd (attempts more attempt st)) ∧ call_ends attempt (fst (attempts more attempt st)) (snd (attempts more attempt st)).
Proof.
  revert attempt st. induction more as [|more IH]; intros attempt st Ha Hm; [lia|]. cbn [CallRetry.attempts].
  pose proof (step_ok attempt st) as Hs. pose proof (step_leaves attempt st) as Hl. destruct (step attempt st) as [st'|o st'|st']; [| |done].
  - destruct Hs as [Hg Hr]. destruct more as [|more].
    + cbn. split; [exact Hg|]. destruct Hr as [Hr|Hr]; [exact Hr|]. unfold MAX_LLM_RETRIES in *. lia.
    + destruct (IH (S attempt) st') as [Hg' He]; [lia..|]. split.
      * eapply grows_le; [apply (grows_trans _ _ _ _ _ _ _ _ Hg Hg')|lia..].
      * revert He. unfold call_ends. set (o := fst _). destruct o; try done; intros (k & Hk & ?); exists k; (split; [lia|done]).
  - cbn [fst snd]. destruct Hs as [Hg Ho]. split; [eapply grows_le; [exact Hg|lia..]|].
    destruct o; try (exists attempt; split; [lia|exact Ho]). done.
Qed.
End steps.

(** ** The call *)

(** C34. A call to the model ends, whatever its requests come to: in six
    requests at most, three compressions and three switches of provider. An
    answer it returns is one a request brought, neither empty nor the
    gateway's own error, unless the turn was stopped; what it raises is what a
    request ended with, or the guard's limit after a wait that ended so, or,
    in place of a request's failure, an exception of the handler itself, where
    that failure's body or the messages have another shape than it reads, or
    of a compression that raised; and it ends with none of these only after a
    recovery that no attempt was left for. All requests go to the client it
    was given, after a switch of provider too. *)
Theorem retries_end show loads shrink_data_url parse_context_limit compress_context provider has_guard has_compress has_executor streaming_enabled llm_client env
    h ms model w :
  let '(o, st) := call_llm_with_retry show loads shrink_data_url parse_context_limit compress_context provider has_guard has_compress has_executor
    streaming_enabled llm_client env (start h ms model w) in
  call_ends compress_context has_guard has_compress streaming_enabled env 1 o st ∧
  (length (requests st) ≤ 6)%nat ∧ Forall (by_client llm_client) (requests st) ∧ (compressions st ≤ 3)%nat ∧
  (fallback_index h ≤ fallback_index (harness st) ≤ fallback_index h + 3)%nat.
Proof.
  unfold call_llm_with_retry. destruct (sanitize_tool_pairs _) as [l|x] eqn:Hsan; [|by split; [exists 1%nat; split; [unfold MAX_LLM_RETRIES; lia|by left]|cbn; split_and!; (done || lia)]].
  destruct (attempts_end show loads shrink_data_url parse_context_limit compress_context provider has_guard has_compress has_executor streaming_enabled llm_client env
    MAX_LLM_RETRIES 1 (with_messages l (start h ms model w))) as [[Hi (rs & Hr & Hl & Hc) Hb] He]; [done|by unfold MAX_LLM_RETRIES; lia|].
  destruct (attempts _ _ _ _ _ _ _ _ _ _ _ _ _ _ _) as [o st]. cbn [fst snd] in *. cbn in Hr. rewrite Hr. split; [done|]. split_and!; [done|done| |apply Hi..].
  apply Hb. split; cbn; lia.
Qed.

(** The wait for a provider's cooldown ends: within 166 looks at the guard and 330
    seconds of naps, as the last look says; [WAIT_LOOKS] is fuel enough. *)
Theorem wait_out_ends looks :
  ∃ naps end_, wait_out WAIT_LOOKS looks 0 0 = Some (naps, end_) ∧ (length naps < WAIT_LOOKS)%nat ∧
    Forall (λ nap, 0 < nap) naps ∧ foldr Z.add 0 naps <= MAX_RATE_LIMIT_WAIT ∧ ended_by (looks (length naps)) end_ (foldr Z.add 0 naps).
Proof.
  destruct (wait_out_enough WAIT_LOOKS looks 0 0) as (naps & end_ & Hw & Hn & Hs); [unfold MAX_RATE_LIMIT_WAIT; lia|unfold MAX_RATE_LIMIT_WAIT, WAIT_LOOKS; lia|].
  destruct (wait_out_end _ _ _ _ _ _ Hw) as [Hl He]. exists naps, end_. by split_and!.
Qed.

(** ** A provider that throttles *)

(** A 429, and then what [next] says, with one provider to fall back on. *)
Definition ex_throttled : ApiError :=
  {| status_attr := VInt 429; response_status := VNone; http_status := VNone; code_attr := VNone; body_attr := VNone; response_json := None;
     message := u "Too many requests"; type_name := "RateLimitError"; module_name := "openai"; plain_exception := true; value_error := false; type_error := false;
     unicode_encode_error := false; os_error := false; connection_error := false; timeout_error := false; httpx_transient := false;
     openai_error := true; retry_after := None; partial_tool_names := None |}.
Definition ex_overflow : ApiError :=
  {| status_attr := VInt 400; response_status := VNone; http_status := VNone; code_attr := VNone; body_attr := VNone; response_json := None;
     message := u "maximum context length is 32768 tokens"; type_name := "BadRequestError"; module_name := "openai"; plain_exception := true; value_error := false; type_error := false;
     unicode_encode_error := false; os_error := false; connection_error := false; timeout_error := false; httpx_transient := false;
     openai_error := true; retry_after := None; partial_tool_names := None |}.
Definition ex_answer : pyval := VDict [("role", VStr "assistant"); ("content", VStr "Done.")].
Definition ex_look (reset : option Z) : Look := mk_look reset 0 false.
Definition ex_attempt (reset : option Z) (r : CallResult) : Attempt := mk_attempt false (ex_look reset) (λ _, ex_look None) r r 0.
Definition ex_harness : Harness := mk_harness [mk_slot "fallback" "small-model"; mk_slot "second" "tiny-model"] 0 "primary" (Some "big-model") None false true.
Definition ex_call (has_guard : bool) (env : nat → Attempt) : Outcome * CallState :=
  call_llm_with_retry (λ _, []) (λ _, None) (λ _, None) (λ _, Some 32768) (λ k ms, Compressed ms) "" has_guard true false false "primary" env
    (start ex_harness [VDict [("role", VStr "user"); ("content", VStr "Hi")]] "big-model" (Some 128000)).
Definition models_of (st : CallState) : list (Client * string) :=
  omap (λ a, match a with ActRequest c m _ _ => Some (c, m) | _ => None end) (acts st).

(** The harness moves to the fallback, its client and its model; the loop sends the
    fallback's model to the client it was called with. *)
Lemma fallback_misrouted :
  let '(o, st) := ex_call false (λ k, ex_attempt None (if (k =? 1)%nat then Failed ex_throttled else Answered ex_answer (VDict []))) in
  o = Returned ex_answer (VDict []) ∧ llm (harness st) = "fallback" ∧ models_of st = [("primary", "big-model"); ("primary", "small-model")].
Proof. by vm_compute. Qed.
(** What the last attempt mends is never sent, and its error is not the one raised. *)
Lemma last_recovery_unsent :
  let '(o, st) := ex_call false (λ k, ex_attempt None (Failed ex_overflow)) in
  o = Exhausted ∧ length (requests st) = 3%nat ∧ last (acts st) = Some ActCompressed.
Proof. by vm_compute. Qed.
(** The cooldown of the provider that was left moves the next attempt on too: the
    first fallback gets no request. *)
Lemma fallback_passed_over :
  let '(o, st) := ex_call true (λ k, if (k =? 1)%nat then ex_attempt None (Failed ex_throttled) else ex_attempt (Some 60000) (Answered ex_answer (VDict []))) in
  o = Returned ex_answer (VDict []) ∧ llm (harness st) = "second" ∧ models_of st = [("primary", "big-model"); ("primary", "tiny-model")].
Proof. by vm_compute. Qed.
(** A body whose error is a text hides the provider's failure behind the handler's. *)
Lemma text_error_hidden :
  let e := {| status_attr := VInt 401; response_status := VNone; http_status := VNone; code_attr := VNone; body_attr := VDict [("error", VStr "invalid api key")]; response_json := None;
     message := u "invalid api key"; type_name := "AuthenticationError"; module_name := "openai"; plain_exception := true; value_error := false; type_error := false;
     unicode_encode_error := false; os_error := false; connection_error := false; timeout_error := false; httpx_transient := false;
     openai_error := true; retry_after := None; partial_tool_names := None |} in
  fst (ex_call false (λ k, ex_attempt None (Failed e))) = OtherError (AttributeError "get").
Proof. by vm_compute. Qed.
