(* ===== verification/Regex.v ===== *)
(** * Regular expressions (Python's re)

    The regular expressions the sources search texts with, as far as a search that
    finds something or nothing goes: what a pattern reads, a matcher by
    derivatives, and letters compared as [re.IGNORECASE] does. *)

From S2P Require Import Prelude.
From S2P Require Import Texts.
From stdpp Require Import options.
Local Open Scope N_scope.

Inductive regex :=
  | Never
  | Empty
  | Letter (ok : N → bool)
  | Then (r t : regex)
  | Or (r t : regex)
  | Star (r : regex).

(** What a pattern reads. *)
Inductive reads : regex → Text → Prop :=
  | reads_empty : reads Empty []
  | reads_letter ok c : ok c = true → reads (Letter ok) [c]
  | reads_then r t s s' : reads r s → reads t s' → reads (Then r t) (s ++ s')
  | reads_or_l r t s : reads r s → reads (Or r t) s
  | reads_or_r r t s : reads t s → reads (Or r t) s
  | reads_star_nil r : reads (Star r) []
  | reads_star r s s' : reads r s → reads (Star r) s' → reads (Star r) (s ++ s').

Fixpoint nullable (r : regex) : bool :=
  match r with
  | Never | Letter _ => false
  | Empty | Star _ => true
  | Then r t => nullable r && nullable t
  | Or r t => nullable r || nullable t
  end.
(** Without the parts that read nothing. *)
Definition then_ (r t : regex) : regex := match r with Never => Never | Empty => t | _ => Then r t end.
Definition or_ (r t : regex) : regex := match r, t with Never, _ => t | _, Never => r | _, _ => Or r t end.
(** What is left of a pattern once it read a letter. *)
Fixpoint deriv (c : N) (r : regex) : regex :=
  match r with
  | Never | Empty => Never
  | Letter ok => if ok c then Empty else Never
  | Then r t => if nullable r then or_ (then_ (deriv c r) t) (deriv c t) else then_ (deriv c r) t
  | Or r t => or_ (deriv c r) (deriv c t)
  | Star r => then_ (deriv c r) (Star r)
  end.
Fixpoint accepts (r : regex) (s : Text) : bool := match s with [] => nullable r | c :: s => accepts (deriv c r) s end.
Definition anything : regex := Star (Letter (λ _, true)).
(** [re.search(r, s) is not None] *)
Definition search (r : regex) (s : Text) : bool := accepts (Then anything (Then r anything)) s.

(** ** Patterns *)

(** The letter of a pattern against one of a text, both lowered; of the letters
    outside ASCII, two lower to one of a pattern and two are taken for one. *)
Definition fold_case (c : N) : N := if (65 <=? c) && (c <=? 90) then c + 32 else if c =? 304 then 105 else if c =? 8490 then 107 else c.
Definition same_letter (p c : N) : bool :=
  (fold_case c =? fold_case p) || (fold_case p =? 105) && (c =? 305) || (fold_case p =? 115) && (c =? 383).
Definition letters (t : Text) : regex := foldr (λ p r, then_ (Letter (same_letter p)) r) Empty t.
Definition lit (s : string) : regex := letters (u s).
Definition one_of (ws : list string) : regex := foldr (λ w r, or_ (lit w) r) Never ws.
Definition space : regex := Letter is_space_point.
(** [\s+] *)
Definition blanks : regex := Then space (Star space).
Definition optional (r : regex) : regex := Or Empty r.
Definition not_in (cs : Text) : regex := Letter (λ c, negb (bool_decide (c ∈ cs))).
(** [\w]; [beyond]: the letters and digits outside ASCII *)
Definition is_word (beyond : N → bool) (c : N) : bool :=
  if c <? 128 then (48 <=? c) && (c <=? 57) || (65 <=? c) && (c <=? 90) || (c =? 95) || (97 <=? c) && (c <=? 122) else beyond c.
(** Parts one after the other, and words with blanks between them. *)
Definition in_turn (rs : list regex) : regex := foldr Then Empty rs.
Definition spaced (rs : list regex) : regex :=
  match rs with [] => Empty | r :: rs => foldl (λ a b, Then a (Then blanks b)) r rs end.

(** ** The matcher reads what the pattern reads *)

Lemma reads_Never s : ¬ reads Never s.
Proof. inversion 1. Qed.
Lemma reads_Empty s : reads Empty s ↔ s = [].
Proof. split; [by inversion 1|intros ->; constructor]. Qed.
Lemma reads_Letter ok s : reads (Letter ok) s ↔ ∃ c, s = [c] ∧ ok c = true.
Proof. split; [inversion 1; eauto|intros (c & -> & Hc); by constructor]. Qed.
Lemma reads_Then r t s : reads (Then r t) s ↔ ∃ a b, s = a ++ b ∧ reads r a ∧ reads t b.
Proof. split; [inversion 1; eauto|intros (a & b & -> & Ha & Hb); by constructor]. Qed.
Lemma reads_Or r t s : reads (Or r t) s ↔ reads r s ∨ reads t s.
Proof. split; [inversion 1; eauto|intros [?|?]; [by apply reads_or_l|by apply reads_or_r]]. Qed.
Lemma reads_then_ r t s : reads (then_ r t) s ↔ reads (Then r t) s.
Proof.
  rewrite reads_Then. destruct r; cbn; rewrite ?reads_Then; try done.
  - split; [by intros ?%reads_Never|by intros (? & ? & _ & ?%reads_Never & _)].
  - split; [by exists [], s; split_and!; [|constructor|]|]. intros (a & b & -> & ->%reads_Empty & Hb). exact Hb.
Qed.
Lemma reads_or_ r t s : reads (or_ r t) s ↔ reads r s ∨ reads t s.
Proof. pose proof (reads_Never s) as Hn. destruct r, t; cbn; rewrite ?reads_Or; tauto. Qed.
Lemma nullable_reads r : nullable r = true ↔ reads r [].
Proof.
  induction r as [| |ok|r IHr t IHt|r IHr t IHt|r IHr]; cbn.
  - split; [done|by intros ?%reads_Never].
  - split; [constructor|done].
  - split; [done|by inversion 1].
  - rewrite andb_true_iff, IHr, IHt, reads_Then. split; [intros []; by exists [], []|]. intros (a & b & [-> ->]%eq_sym%app_eq_nil & ? & ?). done.
  - by rewrite orb_true_iff, IHr, IHt, reads_Or.
  - split; [constructor|done].
Qed.
Lemma star_cons r c s : reads (Star r) (c :: s) → ∃ a b, s = a ++ b ∧ reads r (c :: a) ∧ reads (Star r) b.
Proof.
  remember (Star r) as q eqn:Hq. remember (c :: s) as w eqn:Hw. intros H. revert Hq c s Hw. induction H as [| | | | | |r' a b Ha _ Hb IHb]; try done.
  intros [= <-] c s Hw. destruct a as [|d a]; [by apply (IHb eq_refl)|]. injection Hw as -> <-. by exists a, b.
Qed.
Lemma deriv_reads c r s : reads (deriv c r) s ↔ reads r (c :: s).
Proof.
  revert s. induction r as [| |ok|r IHr t IHt|r IHr t IHt|r IHr]; intros s; cbn [deriv].
  - split; by intros ?%reads_Never.
  - split; [by intros ?%reads_Never|by intros ?%reads_Empty].
  - rewrite reads_Letter. destruct (ok c) eqn:Hc; [rewrite reads_Empty|]; split; try by intros ?%reads_Never.
    + intros ->. by exists c.
    + by intros (d & [= <- ->] & _).
    + intros (d & [= <- ->] & Hd). congruence.
  - assert (Hthen : reads (then_ (deriv c r) t) s ↔ ∃ a b, s = a ++ b ∧ reads r (c :: a) ∧ reads t b).
    { rewrite reads_then_, reads_Then. split; intros (a & b & -> & Ha & Hb); exists a, b; split_and!; try done; by apply IHr. }
    assert (Hboth : reads (Then r t) (c :: s) ↔ (nullable r = true ∧ reads t (c :: s)) ∨ reads (then_ (deriv c r) t) s).
    { rewrite Hthen, reads_Then, nullable_reads. split.
      - intros ([|d a] & b & Hab & Ha & Hb); [left; by rewrite Hab|]. injection Hab as -> ->. right. by exists a, b.
      - intros [[Hn Ht]|(a & b & -> & Ha & Hb)]; [by exists [], (c :: s)|by exists (c :: a), b]. }
    rewrite Hboth. destruct (nullable r); [rewrite reads_or_, IHt|]; naive_solver.
  - by rewrite reads_or_, IHr, IHt, reads_Or.
  - rewrite reads_then_, reads_Then. split.
    + intros (a & b & -> & Ha%IHr & Hb). change (reads (Star r) ((c :: a) ++ b)). by constructor.
    + intros (a & b & -> & Ha & Hb)%star_cons. exists a, b. split_and!; try done. by apply IHr.
Qed.
Lemma accepts_reads r s : accepts r s = true ↔ reads r s.
Proof. revert r. induction s as [|c s IH]; intros r; cbn [accepts]; [apply nullable_reads|]. by rewrite IH, deriv_reads. Qed.
Lemma reads_anything s : reads anything s.
Proof. induction s as [|c s IH]; [constructor|]. change (c :: s) with ([c] ++ s). constructor; [by constructor|done]. Qed.
(** A search finds what stands anywhere in a text. *)
Lemma search_reads r s : search r s = true ↔ ∃ m, within m s ∧ reads r m.
Proof.
  unfold search. rewrite accepts_reads, reads_Then. split.
  - intros (a & b & -> & _ & Hb). apply reads_Then in Hb as (m & b' & -> & Hm & _). exists m. split; [by exists a, b'|done].
  - intros (m & (a & b & ->) & Hm). exists a, (m ++ b). split_and!; [done|apply reads_anything|]. apply reads_Then. exists m, b. split_and!; [done|done|apply reads_anything].
Qed.
Lemma search_within r m s : within m s → search r s = false → search r m = false.
Proof.
  intros Hw Hs. destruct (search r m) eqn:Hm; [|done]. apply search_reads in Hm as (m' & Hm' & Hr). assert (search r s = true) as Hs'; [|congruence].
  apply search_reads. exists m'. split; [by etrans|done].
Qed.
(** A letter no match begins with. *)
Lemma search_cons r c s : nullable r = false → deriv c r = Never → search r (c :: s) = search r s.
Proof.
  intros Hn Hd. apply eq_bool_prop_intro. rewrite !Is_true_true, !search_reads. split; [|intros (m & Hm & Hr); exists m; split; [etrans; [done|apply (within_app_r [c])]|done]].
  intros (m & (a & b & Heq) & Hr). destruct a as [|d a]; [|injection Heq as -> ->; exists m; split; [by exists a, b|done]].
  destruct m as [|d m]; [apply nullable_reads in Hr; congruence|]. injection Heq as <- _. apply deriv_reads in Hr. rewrite Hd in Hr. by apply reads_Never in Hr.
Qed.
