(* ===== verification/MemoryKeys.v ===== *)
(** * Whose memory a session has (channels/memory_boundary.py, runtime/memory_protocol.py)

    Remembered text is kept under a key of the object store: that of a boundary
    (a conversation, a visitor, a project, a case, an evaluation), of a user, or of
    all sessions of the agent.  The worker that runs a session and the route its
    tools write through compute the key each on its own.

    Ids are the texts Python makes of them; [digest] is SHA-256 in hexadecimal. *)

From S2P Require Import Prelude.
From S2P Require Import PyStr.
From S2P Require Import Texts.
From stdpp Require Import gmap options.

Inductive Target := About_work | About_user.
#[global] Instance Target_eq_dec : EqDecision Target.
Proof. solve_decision. Defined.
Definition target_name (t : Target) : string := match t with About_work => "memory" | About_user => "user" end.

(** ** The boundary of a session *)

Definition MANAGED_CHANNELS : list string := ["slack"; "teams"; "telegram"; "whatsapp"; "voice"; "discord"].
Definition WEBSITE_CHANNEL : string := "website".
Definition EVAL_BOUNDARY_PREFIX : string := "eval:".
Definition PROJECT_BOUNDARY_PREFIX : string := "workstream:".
Definition BUYER_BOUNDARY_PREFIX : string := "buyer:".
Definition VISITOR_BOUNDARY_PREFIX : string := "visitor:".
Definition CASE_BOUNDARY_PREFIX : string := "case:".
(** A session, with what its config says of its memory. *)
Record Session := mk_session {
  session_id : string; org_id : string; agent_id : string; channel : string;
  memory_boundary : string; embed_end_user_id : string; channel_session_key : string; slack_channel_id : string; multi_party : bool
}.
Definition persisted (s : Session) : string := strip (memory_boundary s).
Definition is_visitor_boundary (boundary : option string) : bool := startswith (default "" boundary) VISITOR_BOUNDARY_PREFIX.
Definition is_eval_session (s : Session) : bool := startswith (persisted s) EVAL_BOUNDARY_PREFIX.
Definition is_case_session (s : Session) : bool := startswith (persisted s) CASE_BOUNDARY_PREFIX.
Definition legacy_boundary_fallback_id (s : Session) : string := if str_truthy (channel_session_key s) then channel_session_key s else session_id s.
Section boundary.
Variable digest : string → string.
Definition visitor_boundary (agent_id embed identity : string) : string :=
  VISITOR_BOUNDARY_PREFIX +:+ String.substring 0 32 (digest (agent_id +:+ ":" +:+ embed +:+ ":" +:+ identity)).
Definition session_memory_boundary (s : Session) : option string :=
  if String.eqb (channel s) WEBSITE_CHANNEL then
    Some (if startswith (persisted s) VISITOR_BOUNDARY_PREFIX then persisted s else visitor_boundary (agent_id s) (embed_end_user_id s) (session_id s))
  else if negb (bool_decide (channel s ∈ MANAGED_CHANNELS)) then
    if is_eval_session s || existsb (startswith (persisted s)) [PROJECT_BOUNDARY_PREFIX; BUYER_BOUNDARY_PREFIX; CASE_BOUNDARY_PREFIX] then Some (persisted s) else None
  else if str_truthy (persisted s) then Some (persisted s)
  else
    let fallback := legacy_boundary_fallback_id s in
    Some (if String.eqb (channel s) "slack" then
            if startswith (strip (slack_channel_id s)) "C" then "public" else "slack:iso:" +:+ fallback
          else channel s +:+ ":iso:" +:+ fallback).

(** [boundary_token]: the boundary a channel's conversation is stamped with. *)
Definition boundary_token (platform channel_id visibility chat_type fallback_id : string) : string :=
  let cid := strip channel_id in
  let isolated := platform +:+ ":iso:" +:+ fallback_id in
  if String.eqb platform "slack" then
    if negb (str_truthy cid) then isolated
    else if String.eqb visibility "public" then "public"
    else if String.eqb visibility "dm" then "slack:d:" +:+ cid else "slack:c:" +:+ cid
  else if String.eqb platform "telegram" then
    if negb (str_truthy cid) then isolated
    else if String.eqb visibility "dm" || String.eqb chat_type "private" then "tg:d:" +:+ cid
    else if String.eqb chat_type "channel" then "tg:c:" +:+ cid
    else if bool_decide (chat_type ∈ ["group"; "supergroup"]) then "tg:g:" +:+ cid
    else isolated
  else if String.eqb platform "discord" then
    if negb (str_truthy cid) then isolated
    else if String.eqb visibility "dm" then "discord:d:" +:+ cid else "discord:c:" +:+ cid
  else isolated.

(** ** Keys *)

(** Who a part of the store belongs to. *)
Inductive Owner := Of_boundary (b : string) | Of_user (user : string) | Of_all.
#[global] Instance Owner_eq_dec : EqDecision Owner.
Proof. solve_decision. Defined.
Definition owner_of (boundary user_id : option string) : Owner :=
  match boundary, user_id with Some b, _ => Of_boundary b | None, Some u => Of_user u | None, None => Of_all end.
Fixpoint drop_slashes (s : string) : string := match s with String "/" r => drop_slashes r | _ => s end.
Definition rstrip_slash (s : string) : string := string_rev (drop_slashes (string_rev s "")) "".
Definition owner_path (o : Owner) : string := match o with Of_boundary b => "/boundaries/" +:+ b | Of_user u => "/users/" +:+ u | Of_all => "/shared" end.
Definition object_key (storage_key_prefix : string) (o : Owner) (target : string) : string :=
  rstrip_slash storage_key_prefix +:+ owner_path o +:+ "/" +:+ target +:+ ".json".
Definition memory_object_key (storage_key_prefix : string) (user_id : option string) (target : string) (boundary : option string) : pyres pyexn string :=
  if negb (bool_decide (target ∈ ["memory"; "user"])) then Raise (ValueError ("unknown memory target: " +:+ target))
  else Ok (object_key storage_key_prefix (owner_of boundary user_id) target).

(** The user whose memory a turn uses ([_memory_user_id]; [user_id] is the worker's
    tenant's), the keys of the worker that runs a session, and those of the route
    its tools write through. *)
Definition memory_user_id (s : Session) (user_id : option string) : option string := if multi_party s then None else user_id.
Definition build_r2_memory_keys (prefix : string) (s : Session) (user_id : option string) (t : Target) : pyres pyexn string :=
  memory_object_key prefix user_id (target_name t) (session_memory_boundary s).
Inductive Principal := JUDGE | USER | CHANNEL.
#[global] Instance Principal_eq_dec : EqDecision Principal.
Proof. solve_decision. Defined.
Record Tenant := mk_tenant { tenant_org : string; user_id : option string; service_account_id : option string; session_scope_id : option string }.
(** No principal: the exception becomes a 500. *)
Definition principal (tn : Tenant) : option Principal :=
  match service_account_id tn, user_id tn, session_scope_id tn with
  | Some _, _, _ => Some JUDGE
  | None, Some _, _ => Some USER
  | None, None, Some _ => Some CHANNEL
  | None, None, None => None
  end.
Definition covers_session (tn : Tenant) (session : string) : bool := match session_scope_id tn with None => true | Some s => String.eqb s session end.
Definition owns_session (tn : Tenant) (session_org session : string) : bool := String.eqb session_org (tenant_org tn) && covers_session tn session.
Inductive Answer (A : Type) := Found (a : A) | Http (status : Z).
#[global] Arguments Found {A}. #[global] Arguments Http {A}.
(** [_session_boundary]; [sessions]: the session store, if there is one; the
    [session_id] of the request, or the one of its token. *)
Definition session_boundary (sessions : option (string → option Session)) (tn : Tenant) (agent : string) (asked : option string) : Answer (option string) :=
  match (match asked with Some i => Some i | None => session_scope_id tn end) with
  | None => Found None
  | Some i =>
    match sessions with
    | None => Http 503
    | Some get_session =>
      match get_session i with
      | None => Http 404
      | Some s =>
        if negb (String.eqb (agent_id s) agent) || negb (owns_session tn (org_id s) i) then Http 404
        else if is_case_session s && negb (bool_decide (session_scope_id tn = Some (session_id s))) then Http 404
        else Found (session_memory_boundary s)
      end
    end
  end.
(** [_build_store], up to the keys it reads *)
Definition route_keys (bucket : string) (prefix : string) (sessions : option (string → option Session)) (tn : Tenant) (agent : string) (asked : option string)
    : Answer (Target → pyres pyexn string) :=
  if negb (str_truthy bucket) then Http 503
  else match session_boundary sessions tn agent asked with
  | Http status => Http status
  | Found boundary =>
    match principal tn with
    | None => Http 500
    | Some p =>
      if bool_decide (p = CHANNEL) && negb (is_visitor_boundary boundary) then Http 403
      else Found (λ t, memory_object_key prefix (user_id tn) (target_name t) boundary)
    end
  end.
End boundary.

(** ** Keys tell owners apart *)

Lemma app_length_r (a b c d : string) : a +:+ b = c +:+ d → String.length b = String.length d → a = c ∧ b = d.
Proof.
  revert c. induction a as [|x a IH]; intros [|y c] Heq Hl; cbn in *; [done| | |].
  - apply (f_equal String.length) in Heq. rewrite !string_app_length in Heq. cbn in Heq. lia.
  - apply (f_equal String.length) in Heq. rewrite !string_app_length in Heq. cbn in Heq. lia.
  - injection Heq as -> Heq. destruct (IH c Heq Hl) as [-> ->]. done.
Qed.
Lemma app_inj_l (a b c : string) : a +:+ b = a +:+ c → b = c.
Proof. induction a as [|x a IH]; cbn; [done|]. intros [=]. auto. Qed.
Lemma owner_path_inj o o' : owner_path o = owner_path o' → o = o'.
Proof. destruct o, o'; cbn [owner_path]; intros H; try discriminate H; try done; apply app_inj_l in H; by subst. Qed.
Lemma target_tail (a b : string) (t t' : Target) : a +:+ "/" +:+ target_name t +:+ ".json" = b +:+ "/" +:+ target_name t' +:+ ".json" → a = b ∧ t = t'.
Proof.
  intros Heq. destruct t, t'; cbn [target_name] in Heq; try (by apply app_length_r in Heq as [-> _]); exfalso.
  - change ("/" +:+ "memory" +:+ ".json") with ("/mem" +:+ "ory.json") in Heq. change ("/" +:+ "user" +:+ ".json") with ("/u" +:+ "ser.json") in Heq.
    rewrite !string_app_assoc in Heq. apply app_length_r in Heq as [_ Heq]; done.
  - change ("/" +:+ "memory" +:+ ".json") with ("/mem" +:+ "ory.json") in Heq. change ("/" +:+ "user" +:+ ".json") with ("/u" +:+ "ser.json") in Heq.
    rewrite !string_app_assoc in Heq. apply app_length_r in Heq as [_ Heq]; done.
Qed.
Lemma object_key_inj prefix o o' t t' : object_key prefix o (target_name t) = object_key prefix o' (target_name t') → o = o' ∧ t = t'.
Proof.
  unfold object_key. intros Heq%app_inj_l. apply target_tail in Heq as [Heq ->]. by apply owner_path_inj in Heq.
Qed.
Section keys.
Variable digest : string → string.
(** The owner that a session's worker, which acts for [user], reads. *)
Definition session_owner (s : Session) (user : option string) : Owner := owner_of (session_memory_boundary digest s) (memory_user_id s user).
(** C37. The route writes where the worker reads: for a session the route
    accepts, which has a boundary or whose caller is the user the worker acts
    for, its keys are the worker's; sessions of different owners have
    different keys; and one reached without a sign-in has the part of its own
    visitor and no other. *)
Theorem route_keys_right (bucket prefix agent : string) (get_session : string → option Session) (tn : Tenant) (asked : option string) (i : string) (s : Session)
    (worker_user : option string) (k : Target → pyres pyexn string) :
  route_keys digest bucket prefix (Some get_session) tn agent asked = Found k →
  (match asked with Some i => Some i | None => session_scope_id tn end) = Some i → get_session i = Some s →
  session_memory_boundary digest s ≠ None ∨ user_id tn = memory_user_id s worker_user →
  (∀ t, k t = build_r2_memory_keys digest prefix s (memory_user_id s worker_user) t) ∧ agent_id s = agent ∧ org_id s = tenant_org tn
  ∧ (∀ s' u t t', k t = build_r2_memory_keys digest prefix s' (memory_user_id s' u) t' → session_owner s' u = session_owner s worker_user ∧ t = t')
  ∧ (principal tn = Some CHANNEL → ∃ b, session_owner s worker_user = Of_boundary b ∧ startswith b VISITOR_BOUNDARY_PREFIX = true).
Proof.
  unfold route_keys, session_boundary. destruct (negb (str_truthy bucket)); [done|]. intros Hk Hi Hs Hm. rewrite Hi, Hs in Hk.
  destruct (negb _ || negb _) eqn:Hown; [done|]. apply orb_false_iff in Hown as [Hagent%negb_false_iff%String.eqb_eq Hown%negb_false_iff]. apply andb_true_iff in Hown as [Horg%String.eqb_eq _].
  destruct (is_case_session s && _); [done|]. destruct (principal tn) as [p|] eqn:Hp; [|done]. destruct (bool_decide (p = CHANNEL) && _) eqn:Hv; [done|]. injection Hk as <-.
  assert (Howner : owner_of (session_memory_boundary digest s) (user_id tn) = session_owner s worker_user).
  { unfold session_owner. destruct Hm as [Hm| ->]; [|done]. by destruct (session_memory_boundary digest s). }
  assert (Hkey : ∀ u s' t, build_r2_memory_keys digest prefix s' (memory_user_id s' u) t = Ok (object_key prefix (session_owner s' u) (target_name t))) by (intros u s' t; by destruct t).
  assert (Hroute : ∀ t, memory_object_key prefix (user_id tn) (target_name t) (session_memory_boundary digest s) = Ok (object_key prefix (session_owner s worker_user) (target_name t))).
  { intros t. rewrite <-Howner. by destruct t. }
  split_and!; [intros t; by rewrite Hroute, Hkey|done|done| |].
  - intros s' u t t'. rewrite Hroute, Hkey. intros [= Heq]. apply object_key_inj in Heq as [-> ->]. done.
  - intros [= ->]. rewrite bool_decide_true in Hv by done. apply negb_false_iff in Hv. rewrite <-Howner. unfold is_visitor_boundary in Hv.
    destruct (session_memory_boundary digest s) as [b|]; [by exists b|done].
Qed.
End keys.

Definition no_digest (s : string) : string := s.
Definition a_visit : Session := mk_session "s1" "org" "agent" "website" "" "" "" "" false.
Lemma route_keys_right_witness :
  ∃ k, route_keys no_digest "bucket" "p/" (Some (λ i, if String.eqb i "s1" then Some a_visit else None)) (mk_tenant "org" None None (Some "s1")) "agent" None = Found k
    ∧ k About_user = Ok "p/boundaries/visitor:agent::s1/user.json" ∧ (∀ t, k t = build_r2_memory_keys no_digest "p/" a_visit (memory_user_id a_visit None) t).
Proof.
  eexists. split; [reflexivity|]. split; [vm_compute; reflexivity|].
  apply (route_keys_right no_digest "bucket" "p/" "agent" (λ i, if String.eqb i "s1" then Some a_visit else None) (mk_tenant "org" None None (Some "s1")) None "s1" a_visit None);
    [reflexivity|reflexivity|reflexivity|left; discriminate].
Defined.
(** Another person of the organisation asks for a session without a boundary: the
    route accepts the call, and writes to the caller's own part, which the worker
    that runs the session for its user does not read. *)
Definition a_chat : Session := mk_session "s2" "org" "agent" "web" "" "" "" "" false.
Lemma other_caller_other_keys :
  ∃ k, route_keys no_digest "bucket" "p/" (Some (λ i, if String.eqb i "s2" then Some a_chat else None)) (mk_tenant "org" (Some "ben") None None) "agent" (Some "s2") = Found k
    ∧ k About_user = Ok "p/users/ben/user.json"
    ∧ build_r2_memory_keys no_digest "p/" a_chat (memory_user_id a_chat (Some "ann")) About_user = Ok "p/users/ann/user.json".
Proof. eexists. split; [reflexivity|]. by vm_compute. Qed.
