(* ===== verification/MemoryRemote.v ===== *)
(** * Memory in the object store (memory/r2_store.py, runtime/memory_io.py, api/routes/memory.py, harness/context_files.py)

    The memory of a session that writes through the API: an object for each key, with
    a version and a text of entries.  A request to change it reads both objects,
    checks and edits the text it read, reads the version again and writes; requests
    run side by side, one [step] between two of their reads and writes.

    An object is what [decode_envelope] makes of its bytes.  [memory_guard] and
    [beyond] are those of Memory.v. *)

From S2P Require Import Prelude.
From S2P Require Import Texts.
From S2P Require Import Regex.
From S2P Require Import MemoryKeys.
From S2P Require Import Memory.
From stdpp Require Import gmap options.
Local Open Scope nat_scope.

(** ** What is written is looked at again *)

Section context.
Variable beyond : N → bool.
Definition dot : regex := not_in [newline].
Definition CONTEXT_THREAT_PATTERNS : list (regex * string) :=
  [(spaced [lit "ignore"; one_of ["previous"; "all"; "above"; "prior"]; lit "instructions"], "prompt_injection");
   (spaced [lit "do"; lit "not"; lit "tell"; lit "the"; lit "user"], "deception_hide");
   (spaced [lit "system"; lit "prompt"; lit "override"], "sys_prompt_override");
   (spaced [lit "disregard"; one_of ["your"; "all"; "any"]; one_of ["instructions"; "rules"; "guidelines"]], "disregard_rules");
   (spaced [lit "act"; lit "as"; one_of ["if"; "though"]; lit "you"; Or (spaced [lit "have"; lit "no"]) (spaced [lit "don't"; lit "have"]);
            one_of ["restrictions"; "limits"; "rules"]], "bypass_restrictions");
   (in_turn [lit "<!--"; Star (not_in (u ">")); one_of ["ignore"; "override"; "system"; "secret"; "hidden"]; Star (not_in (u ">")); lit "-->"], "html_comment_injection");
   (in_turn [lit "<"; Star space; lit "div"; blanks; lit "style"; Star space; lit "="; Star space; Letter (λ c, bool_decide (c ∈ [34; 39]%N)); Star dot;
             lit "display"; Star space; lit ":"; Star space; lit "none"], "hidden_div");
   (in_turn [lit "translate"; blanks; Star dot; blanks; lit "into"; blanks; Star dot; blanks; lit "and"; blanks; one_of ["execute"; "run"; "eval"]], "translate_execute");
   (sends_secret beyond "curl", "exfil_curl");
   (in_turn [lit "cat"; blanks; Star dot; one_of [".env"; "credentials"; ".netrc"; ".pgpass"]], "read_secrets")].
(** The characters, with how a finding names them. *)
Definition CONTEXT_INVISIBLE_CHARS : list (N * string) :=
  [(8203, "U+200B"); (8204, "U+200C"); (8205, "U+200D"); (8288, "U+2060"); (65279, "U+FEFF");
   (8234, "U+202A"); (8235, "U+202B"); (8236, "U+202C"); (8237, "U+202D"); (8238, "U+202E")]%N.
Definition context_findings (content : Text) : list string :=
  ((λ p, "invisible unicode " +:+ p.2) <$> filter (λ p, p.1 ∈ content) CONTEXT_INVISIBLE_CHARS)
  ++ (snd <$> filter (λ p, search p.1 content = true) CONTEXT_THREAT_PATTERNS).
Definition scan_context_content (content : Text) (filename : string) : Text :=
  match context_findings content with
  | [] => content
  | findings => u ("[BLOCKED: " +:+ filename +:+ " contained potential prompt injection (" +:+ PyStr.join ", " findings +:+ "). Content not loaded.]")
  end.
End context.

(** ** Objects *)

Inductive Object := Envelope (version : Z) (text : Text) | Junk.
Notation Bucket := (gmap string Object).
Definition read_user_memory (b : Bucket) (key : string) : option (Text * Z) :=
  match b !! key with Some (Envelope v t) => Some (t, v) | _ => None end.
Definition write_user_memory (beyond : N → bool) (b : Bucket) (key : string) (content : Text) (expected_version : Z) : Bucket * Z :=
  let v := (expected_version + 1)%Z in (<[key := Envelope v (scan_context_content beyond content "memory")]> b, v).

(** ** The working set of a store *)

Definition DELIMITER : Text := newline :: u "---" ++ [newline].
Record RStore := mk_rstore { content_of : Target → Text; last_seen_version : Target → Z }.
Definition new_rstore : RStore := mk_rstore (λ _, []) (λ _, 0%Z).
Definition upd {A} (t : Target) (x : A) (f : Target → A) : Target → A := λ t', if decide (t' = t) then x else f t'.
Definition put_content (t : Target) (c : Text) (s : RStore) : RStore := mk_rstore (upd t c (content_of s)) (last_seen_version s).
Definition put_seen (t : Target) (v : Z) (s : RStore) : RStore := mk_rstore (content_of s) (upd t v (last_seen_version s)).
(** One turn of [load_from_r2]. *)
Definition load_target_r2 (b : Bucket) (key : string) (t : Target) (s : RStore) : RStore :=
  match read_user_memory b key with
  | None => put_seen t 0 (put_content t [] s)
  | Some (text, v) => put_seen t v (put_content t text s)
  end.
Definition text_entries (c : Text) : list Text := if nonempty c then filter (λ e, nonempty e = true) (split_text DELIMITER c) else [].
Definition get_entries (t : Target) (s : RStore) : list Text := text_entries (content_of s t).
Definition format_r2 (t : Target) (s : RStore) : option Text := match get_entries t s with [] => None | es => Some (join_text DELIMITER es) end.
Definition add_r2 (t : Target) (content : Text) (s : RStore) : RStore :=
  put_content t (join_text DELIMITER (merge_entry (get_entries t s) content).1) s.
(** [replace] and, with nothing in its place, [remove]; [None]: "old_text not found" *)
Definition replace_r2 (t : Target) (old_text new_content : Text) (s : RStore) : option RStore :=
  if holds old_text (content_of s t) then Some (put_content t (replace_first old_text new_content (content_of s t)) s) else None.
(** [_persist], before and after its wait. *)
Definition persist_read (b : Bucket) (key : string) (t : Target) (s : RStore) : Z * bool :=
  let current := match read_user_memory b key with Some (_, v) => v | None => 0%Z end in
  (current, negb (bool_decide (current = last_seen_version s t))).
Definition persist_write (beyond : N → bool) (b : Bucket) (key : string) (t : Target) (current : Z) (s : RStore) : Bucket * RStore :=
  let '(b, v) := write_user_memory beyond b key (content_of s t) current in (b, put_seen t v s).

(** ** A request *)

Inductive Action := Do_add | Do_replace | Do_remove.
Record Body := mk_body { body_action : Action; body_target : Target; body_content : option Text; body_old : option Text }.
Inductive Failure :=
  | Scanned (why : Refusal) | Would_exceed (used limit : nat) | No_entry (old_text : Text) | Not_found.
Inductive Response :=
  | Status (status : Z)
  | Failed (why : Failure)
  | Mutated (message : string) (entries : list Text) (used limit entry_count : nat).
Definition total_length (es : list Text) : nat := sum_list_with length es.
Section route.
Variable memory_guard : Text → option Text.
Variable beyond : N → bool.
Definition char_limit (t : Target) : nat := match t with About_work => 2200 | About_user => 1375 end.
(** The body of [mutate_memory], up to where the store persists: an answer, or what
    is to be stored and what to say of it. *)
Definition decide_change (body : Body) (s : RStore) : Response + (RStore * string) :=
  let t := body_target body in
  let limit := char_limit t in
  let current_entries := get_entries t s in
  match body_action body with
  | Do_add =>
    match given (body_content body) with
    | None => inl (Status 422)
    | Some c =>
      match scan_memory_content memory_guard beyond c with
      | Some why => inl (Failed (Scanned why))
      | None =>
        let '(merged, replaced) := merge_entry current_entries c in
        if limit <? total_length merged then inl (Failed (Would_exceed (total_length merged) limit))
        else inr (add_r2 t c s, if replaced then "Entry replaced." else "Entry added.")
      end
    end
  | Do_replace =>
    match given (body_old body), given (body_content body) with
    | Some old, Some c =>
      match scan_memory_content memory_guard beyond c with
      | Some why => inl (Failed (Scanned why))
      | None =>
        match list_find (λ e, holds old e = true) current_entries with
        | None => inl (Failed (No_entry (take 50 old)))
        | Some (_, m) =>
          let used := total_length current_entries - length m + length c in
          if limit <? used then inl (Failed (Would_exceed used limit))
          else match replace_r2 t m c s with Some s => inr (s, "Entry replaced.") | None => inl (Failed Not_found) end
        end
      end
    | _, _ => inl (Status 422)
    end
  | Do_remove =>
    match given (body_old body) with
    | None => inl (Status 422)
    | Some old =>
      match list_find (λ e, holds old e = true) current_entries with
      | None => inl (Failed (No_entry (take 50 old)))
      | Some (_, m) => match replace_r2 t m [] s with Some s => inr (s, "Entry removed.") | None => inl (Failed Not_found) end
      end
    end
  end.
Definition answer (t : Target) (message : string) (s : RStore) : Response :=
  let es := get_entries t s in Mutated message es (total_length es) (char_limit t) (length es).

(** Where a request waits: before each read and write of the object store. *)
Inductive Phase :=
  | Loading (t : Target)
  | Comparing (message : string)
  | Writing (message : string) (current : Z)
  | Ended (r : Response).
Record Request := mk_request { key_of : Target → string; body : Body; store : RStore; phase : Phase }.
Definition new_request (keys : Target → string) (b : Body) : Request := mk_request keys b new_rstore (Loading About_work).
Definition advance (b : Bucket) (q : Request) : Bucket * Request :=
  let t := body_target (body q) in
  let wait s p := mk_request (key_of q) (body q) s p in
  match phase q with
  | Loading About_work => (b, wait (load_target_r2 b (key_of q About_work) About_work (store q)) (Loading About_user))
  | Loading About_user =>
    let s := load_target_r2 b (key_of q About_user) About_user (store q) in
    match decide_change (body q) s with
    | inl r => (b, wait s (Ended r))
    | inr (s, message) => (b, wait s (Comparing message))
    end
  | Comparing message => let '(current, _) := persist_read b (key_of q t) t (store q) in (b, wait (store q) (Writing message current))
  | Writing message current =>
    let '(b, s) := persist_write beyond b (key_of q t) t current (store q) in (b, wait s (Ended (answer t message s)))
  | Ended _ => (b, q)
  end.
(** A request that no other meets. *)
Definition alone (b : Bucket) (keys : Target → string) (bd : Body) : Bucket * Request :=
  Nat.iter 4 (λ x, advance x.1 x.2) (b, new_request keys bd).

(** ** Requests side by side *)

Record Server := mk_server { bucket : Bucket; requests : gmap nat Request }.
Inductive Event := Begin (i : nat) (keys : Target → string) (b : Body) | Turn (i : nat).
Definition step (w : Server) (e : Event) : Server :=
  match e with
  | Begin i keys b => match requests w !! i with None => mk_server (bucket w) (<[i := new_request keys b]> (requests w)) | Some _ => w end
  | Turn i =>
    match requests w !! i with
    | Some q => let '(b, q) := advance (bucket w) q in mk_server b (<[i := q]> (requests w))
    | None => w
    end
  end.
Definition run (w : Server) (es : list Event) : Server := foldl step w es.
End route.

(** ** Where an entry stands *)

(** An entry with no delimiter in it, and none of a delimiter's characters at an
    end. *)
Definition edge (c : N) : Prop := c ≠ newline ∧ c ≠ 45%N.
Definition whole (e : Text) : Prop := (∃ c, e !! 0 = Some c ∧ edge c) ∧ (∃ c, last e = Some c ∧ edge c) ∧ Texts.find DELIMITER e = None.
(** What is between two delimiters: an entry, or nothing where one was removed. *)
Definition piece (e : Text) : Prop := e = [] ∨ whole e.
Lemma delimiter_char i c : DELIMITER !! i = Some c → ¬ edge c.
Proof. intros Hc [H1 H2]. do 5 (destruct i as [|i]; [injection Hc as <-; done|]). done. Qed.
Lemma starts_drop_lookup p s j i : starts p (drop j s) = true → i < length p → s !! (j + i) = p !! i.
Proof. intros [t Ht]%starts_split Hi. by rewrite <-lookup_drop, Ht, lookup_app_l. Qed.
Lemma last_place (m : Text) c : last m = Some c → m !! (length m - 1) = Some c.
Proof. intros Hc. rewrite last_lookup, <-Nat.sub_1_r in Hc. exact Hc. Qed.
Lemma entry_no_straddle m x rest j :
  whole m → Texts.find m x = None → j < length x + 5 → starts m (drop j (x ++ DELIMITER ++ rest)) = false.
Proof.
  intros ((c0 & Hc0 & He0) & (c1 & Hc1 & He1) & Hd) Hx Hj. destruct (starts m (drop j _)) eqn:Hs; [exfalso|done].
  assert (Hdel : ∀ i, length x ≤ i < length x + 5 → (x ++ DELIMITER ++ rest) !! i = DELIMITER !! (i - length x)).
  { intros i Hi. rewrite lookup_app_r, lookup_app_l by (cbn; lia). done. }
  assert (Hlen : 0 < length m) by (apply lookup_lt_Some in Hc0; lia).
  pose proof (starts_drop_lookup _ _ _ 0 Hs Hlen) as H0. rewrite Nat.add_0_r, Hc0 in H0.
  destruct (decide (length x ≤ j)) as [Hge|Hlt]; [rewrite Hdel in H0 by lia; by apply delimiter_char in H0|].
  destruct (decide (j + length m ≤ length x)) as [Hin|Hout].
  { rewrite drop_app_le, starts_short in Hs by (rewrite ?length_drop; lia). by rewrite (find_None _ _ Hx j) in Hs by lia. }
  destruct (decide (j + length m ≤ length x + 5)) as [Hin|Hout'].
  { pose proof (starts_drop_lookup _ _ _ (length m - 1) Hs ltac:(lia)) as H1. rewrite (last_place m c1 Hc1), Hdel in H1 by lia. by apply delimiter_char in H1. }
  apply starts_split in Hs as [t Ht]. apply (f_equal (drop (length x - j))) in Ht. rewrite drop_drop in Ht. replace (j + (length x - j)) with (length x) in Ht by lia.
  rewrite drop_app_length, drop_app_le in Ht by lia. assert (Hs : starts DELIMITER (drop (length x - j) m ++ t) = true) by (rewrite <-Ht; apply starts_split; by exists rest).
  rewrite starts_short in Hs by (rewrite length_drop; cbn; lia). by rewrite (find_None _ _ Hd) in Hs by lia.
Qed.
Lemma whole_plain e : whole e → plain DELIMITER e.
Proof.
  intros ((c0 & Hc0 & _) & (c1 & Hc1 & He1) & Hd). apply first_find; [|rewrite length_app; lia]. split; [by rewrite drop_app_length|].
  intros j Hj. destruct (starts _ _) eqn:Hs; [exfalso|done]. destruct (decide (j + 5 ≤ length e)) as [Hin|Hout].
  - rewrite drop_app_le, starts_short in Hs by (rewrite ?length_drop; cbn; lia). by rewrite (find_None _ _ Hd j) in Hs by lia.
  - pose proof (starts_drop_lookup _ _ _ (length e - 1 - j) Hs) as H1. replace (j + (length e - 1 - j)) with (length e - 1) in H1 by lia.
    specialize (H1 ltac:(cbn; lia)).
    assert (He : (e ++ DELIMITER) !! (length e - 1) = Some c1) by (rewrite lookup_app_l by lia; exact (last_place e c1 Hc1)).
    apply (delimiter_char (length e - 1 - j) c1); [|done]. etrans; [symmetry; exact H1|exact He].
Qed.
Lemma piece_plain e : piece e → plain DELIMITER e.
Proof. intros [->|He]; [by vm_compute|by apply whole_plain]. Qed.
Lemma whole_nonempty e : whole e → e ≠ [].
Proof. by intros ((c & Hc & _) & _) ->. Qed.

(** The entries of a text of pieces. *)
Definition entries_in (ps : list Text) : list Text := filter (λ e, nonempty e = true) ps.
Lemma text_entries_join ps : Forall piece ps → text_entries (join_text DELIMITER ps) = entries_in ps.
Proof.
  intros Hps. unfold text_entries. destruct (nonempty (join_text DELIMITER ps)) eqn:Hne.
  - rewrite split_join; [done|done|by intros ->|]. eapply Forall_impl; [exact Hps|apply piece_plain].
  - apply bool_decide_eq_false_1, dec_stable in Hne. symmetry. apply elem_of_nil_inv. intros e [He Hin]%list_elem_of_filter.
    apply (within_join DELIMITER), within_length in Hin. rewrite Hne in Hin. by destruct e; [|cbn in Hin; lia].
Qed.
Lemma entries_whole ps : Forall piece ps → Forall whole (entries_in ps).
Proof.
  rewrite !Forall_forall. intros Hps e [He Hin]%list_elem_of_filter. by destruct (Hps e Hin) as [->|].
Qed.
Lemma entries_pieces es : Forall whole es → Forall piece es ∧ entries_in es = es.
Proof.
  intros Hes. split; [eapply Forall_impl; [exact Hes|by right]|]. apply filter_Forall_id. eapply Forall_impl; [exact Hes|].
  intros e He%whole_nonempty. by apply bool_decide_eq_true_2.
Qed.
(** The first place of an entry's text is where the entry is. *)
Lemma replace_piece pre m post new :
  whole m → (∀ x, x ∈ pre → Texts.find m x = None) →
  replace_first m new (join_text DELIMITER (pre ++ m :: post)) = join_text DELIMITER (pre ++ new :: post) ∧ holds m (join_text DELIMITER (pre ++ m :: post)) = true.
Proof.
  intros Hm Hpre. split; [|apply holds_within, within_join, elem_of_app; right; left]. induction pre as [|x pre IH]; cbn [app].
  - assert (Hjoin : ∀ e, join_text DELIMITER (e :: post) = e ++ match post with [] => [] | _ => DELIMITER ++ join_text DELIMITER post end)
      by (intros e; destruct post; [by rewrite app_nil_r|by rewrite join_cons]).
    rewrite !Hjoin. unfold replace_first. rewrite (first_find m _ 0); [cbn; by rewrite drop_app_length| |lia].
    split; [apply starts_split; by eexists|lia].
  - rewrite !join_cons by (by destruct pre). unfold replace_first in *. specialize (IH ltac:(intros; apply Hpre; by right)).
    set (rest := join_text DELIMITER (pre ++ m :: post)) in *. set (k := length x + 5).
    rewrite (find_skip m _ k); [|unfold k; rewrite !length_app; cbn; lia|intros j Hj; apply entry_no_straddle; [done|apply Hpre; left|done]].
    assert (Hdrop : ∀ s i, drop (k + i) (x ++ DELIMITER ++ s) = drop i s).
    { intros s i. unfold k. rewrite <-drop_drop, <-drop_drop, drop_app_length. done. }
    rewrite <-(Nat.add_0_r k) at 1. rewrite Hdrop, drop_0. destruct (Texts.find m rest) as [i|] eqn:Hi; cbn [fmap option_fmap option_map].
    + rewrite <-IH. rewrite <-Nat.add_assoc, Hdrop. assert (Htake : take (k + i) (x ++ DELIMITER ++ rest) = x ++ DELIMITER ++ take i rest).
      { rewrite app_assoc. replace k with (length (x ++ DELIMITER)) by (rewrite length_app; done). by rewrite take_app_add, app_assoc. }
      rewrite Htake. by rewrite <-!app_assoc.
    + exfalso. apply find_holds in Hi. assert (Hh : holds m rest = true) by (apply holds_within, within_join, elem_of_app; right; left). congruence.
Qed.

(** ** What a request does *)

(** What a change makes of the entries: [add] puts its text at the end or in the
    place of the record with its title; the others take the first entry their text
    is in. *)
Inductive changed (body : Body) : list Text → list Text → Prop :=
  | changed_new c es : body_action body = Do_add → body_content body = Some c → (heading c → ∀ e, e ∈ es → title_of e ≠ title_of c) →
      changed body es (es ++ [c])
  | changed_titled c pre e post : body_action body = Do_add → body_content body = Some c → heading c → title_of e = title_of c →
      (∀ x, x ∈ pre → title_of x ≠ title_of c) → changed body (pre ++ e :: post) (pre ++ c :: post)
  | changed_replace old c pre e post : body_action body = Do_replace → body_old body = Some old → body_content body = Some c → holds old e = true →
      (∀ x, x ∈ pre → holds old x = false) → changed body (pre ++ e :: post) (pre ++ c :: post)
  | changed_remove old pre e post : body_action body = Do_remove → body_old body = Some old → holds old e = true →
      (∀ x, x ∈ pre → holds old x = false) → changed body (pre ++ e :: post) (pre ++ post).
Lemma entries_app ps qs : entries_in (ps ++ qs) = entries_in ps ++ entries_in qs.
Proof. apply filter_app. Qed.
(** An entry among the pieces. *)
Lemma entry_piece ps pre e post : entries_in ps = pre ++ e :: post →
  ∃ ps1 ps2, ps = ps1 ++ e :: ps2 ∧ entries_in ps1 = pre ∧ entries_in ps2 = post.
Proof.
  revert pre. induction ps as [|p ps IH]; intros pre Heq; [by destruct pre|]. unfold entries_in in *. rewrite filter_cons in Heq. case_decide as Hp.
  - destruct pre as [|q pre]; cbn in Heq; injection Heq as -> Heq; [by exists [], ps|]. destruct (IH pre Heq) as (p1 & p2 & -> & <- & <-).
    exists (q :: p1), p2. split_and!; [done|by rewrite filter_cons_True|done].
  - destruct (IH pre Heq) as (p1 & p2 & -> & <- & <-). exists (p :: p1), p2. split_and!; [done|by rewrite filter_cons_False|done].
Qed.
Lemma first_holding old es i m : list_find (λ e, holds old e = true) es = Some (i, m) →
  ∃ pre post, es = pre ++ m :: post ∧ holds old m = true ∧ ∀ x, x ∈ pre → holds old x = false.
Proof.
  intros (Hi & Hm & Hmin)%list_find_Some. exists (take i es), (drop (S i) es). split_and!; [by rewrite take_drop_middle|done|].
  intros x Hx. apply list_elem_of_lookup in Hx as [j Hj]. apply lookup_take_Some in Hj as [Hj Hlt]. apply not_true_iff_false. by apply (Hmin j).
Qed.
(** Putting [new] in the place of the first entry that holds [old]. *)
Lemma replaced_pieces ps old i m new :
  Forall piece ps → piece new → list_find (λ e, holds old e = true) (entries_in ps) = Some (i, m) →
  ∃ ps' pre post, holds m (join_text DELIMITER ps) = true ∧ replace_first m new (join_text DELIMITER ps) = join_text DELIMITER ps' ∧ Forall piece ps'
    ∧ entries_in ps = pre ++ m :: post ∧ entries_in ps' = pre ++ entries_in [new] ++ post ∧ holds old m = true ∧ ∀ x, x ∈ pre → holds old x = false.
Proof.
  intros Hps Hnew (pre & post & Heq & Hm & Hpre)%first_holding. destruct (entry_piece _ _ _ _ Heq) as (p1 & p2 & -> & <- & <-).
  apply Forall_app in Hps as Hps'. destruct Hps' as [Hp1 [_ Hp2]%Forall_cons].
  assert (Hwhole : whole m). { pose proof (entries_whole _ Hps) as Hw. rewrite Heq, Forall_app, Forall_cons in Hw. tauto. }
  assert (Hno : ∀ x, x ∈ p1 → Texts.find m x = None).
  { intros x Hx. apply find_holds. destruct (holds m x) eqn:Hh; [|done]. exfalso. destruct (nonempty x) eqn:Hne.
    - assert (Hxi : x ∈ entries_in p1) by (by apply list_elem_of_filter). specialize (Hpre x Hxi). apply holds_within in Hh. rewrite (holds_trans _ _ _ Hm Hh) in Hpre. done.
    - apply bool_decide_eq_false_1, dec_stable in Hne as ->. apply holds_within, within_length in Hh. destruct Hwhole as ((c & Hc & _) & _). apply lookup_lt_Some in Hc. cbn in Hh. lia. }
  destruct (replace_piece p1 m p2 new Hwhole Hno) as [Hr Hh]. exists (p1 ++ new :: p2), (entries_in p1), (entries_in p2). split_and!; try done.
  - apply Forall_app. split; [done|by constructor].
  - rewrite entries_app. f_equal. change (new :: p2) with ([new] ++ p2). by rewrite entries_app.
Qed.
Section requests.
Variable memory_guard : Text → option Text.
Variable beyond : N → bool.
Lemma total_app es es' : total_length (es ++ es') = total_length es + total_length es'.
Proof. apply sum_list_with_app. Qed.
Definition no_answer (r : Response) : Prop := match r with Mutated _ _ _ _ _ => False | _ => True end.
Definition body_whole (body : Body) : Prop := body_action body = Do_remove ∨ ∀ c, given (body_content body) = Some c → whole c.
Lemma decide_left body s ps (t := body_target body) :
  content_of s t = join_text DELIMITER ps → Forall piece ps → body_whole body →
  match decide_change memory_guard beyond body s with
  | inl r => no_answer r
  | inr (s', _) => ∃ ps', content_of s' t = join_text DELIMITER ps' ∧ Forall piece ps' ∧ changed body (entries_in ps) (entries_in ps')
      ∧ (body_action body ≠ Do_remove → total_length (entries_in ps') ≤ char_limit t)
  end.
Proof.
  intros Hc Hps Hb. unfold decide_change. fold t. assert (Hes : get_entries t s = entries_in ps) by (unfold get_entries; rewrite Hc; by apply text_entries_join).
  assert (Hput : ∀ c s, content_of (put_content t c s) t = c) by (intros c s'; cbn; unfold upd; by rewrite decide_True).
  rewrite Hes. destruct (body_action body) eqn:Ha.
  - destruct (given (body_content body)) as [c|] eqn:Hg; [|done]. assert (Hw : whole c) by (destruct Hb as [?|Hb]; [congruence|by apply Hb]).
    apply given_Some in Hg. destruct (scan_memory_content _ _ _); [done|]. unfold add_r2. rewrite Hes. pose proof (entries_whole _ Hps) as Hwes.
    assert (Hm : changed body (entries_in ps) (merge_entry (entries_in ps) c).1 ∧ Forall whole (merge_entry (entries_in ps) c).1).
    { destruct (merge_cases c (entries_in ps)) as [(pre & e & post & Heq & -> & Hh & He & Hpre)|[-> Hno]].
      - rewrite Heq in *. apply Forall_app in Hwes as [H1 [_ H2]%Forall_cons]. split; [by apply changed_titled|]. apply Forall_app. split; [done|by constructor].
      - split; [by apply changed_new|]. apply Forall_app. split; [done|by constructor]. }
    destruct Hm as [Hm Hmw]. destruct (merge_entry (entries_in ps) c) as [merged replaced]. cbn [fst] in *. destruct (Nat.ltb_spec (char_limit t) (total_length merged)); [done|].
    destruct (entries_pieces _ Hmw) as [Hmp Hme]. exists merged. rewrite Hput, Hme. split_and!; [done|done|done|lia].
  - destruct (given (body_old body)) as [old|] eqn:Ho; [|done]. destruct (given (body_content body)) as [c|] eqn:Hg; [|done].
    assert (Hw : whole c) by (destruct Hb as [?|Hb]; [congruence|by apply Hb]). apply given_Some in Ho, Hg. destruct (scan_memory_content _ _ _); [done|].
    destruct (list_find _ _) as [[i m]|] eqn:Hf; [|done]. match goal with |- context [?a <? ?b] => destruct (Nat.ltb_spec a b) as [|Hle] end; [done|].
    destruct (replaced_pieces _ _ _ _ c Hps (or_intror Hw) Hf) as (ps' & pre & post & Hh & Hr & Hps' & Heq & Heq' & Hm & Hpre). unfold replace_r2. rewrite Hc, Hh.
    exists ps'. rewrite Hput, Heq'. assert (Hce : entries_in [c] = [c]) by (apply entries_pieces; by constructor). rewrite Hce, Heq in *. split_and!; [done|done|by eapply changed_replace|].
    intros _. rewrite !total_app in *. unfold total_length in *. cbn [sum_list_with] in *. lia.
  - destruct (given (body_old body)) as [old|] eqn:Ho; [|done]. apply given_Some in Ho. destruct (list_find _ _) as [[i m]|] eqn:Hf; [|done].
    destruct (replaced_pieces _ _ _ _ [] Hps (or_introl eq_refl) Hf) as (ps' & pre & post & Hh & Hr & Hps' & Heq & Heq' & Hm & Hpre). unfold replace_r2. rewrite Hc, Hh.
    exists ps'. rewrite Hput, Heq', Heq. split_and!; [done|done|by eapply changed_remove|done].
Qed.

(** The text and the version a request reads. *)
Definition text_at (b : Bucket) (key : string) : Text := match read_user_memory b key with Some (c, _) => c | None => [] end.
Definition version_at (b : Bucket) (key : string) : Z := match read_user_memory b key with Some (_, v) => v | None => 0%Z end.
Definition loaded (b : Bucket) (keys : Target → string) : RStore :=
  load_target_r2 b (keys About_user) About_user (load_target_r2 b (keys About_work) About_work new_rstore).
Lemma read_put (b : gmap string Object) key v t : read_user_memory (<[key := Envelope v t]> b) key = Some (t, v).
Proof. unfold read_user_memory. by rewrite lookup_insert_eq. Qed.
Lemma loaded_text b keys t : content_of (loaded b keys) t = text_at b (keys t).
Proof. unfold loaded, load_target_r2, text_at. by destruct t, (read_user_memory b (keys About_work)) as [[]|], (read_user_memory b (keys About_user)) as [[]|]. Qed.
Lemma alone_eq b keys bd :
  alone memory_guard beyond b keys bd =
  match decide_change memory_guard beyond bd (loaded b keys) with
  | inl r => (b, mk_request keys bd (loaded b keys) (Ended r))
  | inr (s, message) =>
    let key := keys (body_target bd) in
    let s' := put_seen (body_target bd) (version_at b key + 1) s in
    (<[key := Envelope (version_at b key + 1) (scan_context_content beyond (content_of s (body_target bd)) "memory")]> b,
     mk_request keys bd s' (Ended (answer (body_target bd) message s')))
  end.
Proof.
  set (f := λ x, advance memory_guard beyond x.1 x.2). change (alone memory_guard beyond b keys bd) with (f (f (f (f (b, new_request keys bd))))).
  assert (Htwo : f (f (b, new_request keys bd)) = match decide_change memory_guard beyond bd (loaded b keys) with
    | inl r => (b, mk_request keys bd (loaded b keys) (Ended r)) | inr (s, message) => (b, mk_request keys bd s (Comparing message)) end) by reflexivity.
  rewrite Htwo. by destruct (decide_change memory_guard beyond bd (loaded b keys)) as [r|[s message]].
Qed.
(** C40. A request that meets no other, on a text of whole pieces and with
    content that is a whole entry, changes the entries as it asks or leaves
    the object store as it is: of what it stores, the version is the next one,
    the other objects stay, and the entries, within the limit where one was
    added or replaced, are those it answers with, after the second scan: where
    that finds nothing they are what is read, and where it finds an injection
    its notice is stored in their place. *)
Theorem remote_request (b : Bucket) (keys : Target → string) (bd : Body) (ps : list Text) (key := keys (body_target bd)) :
  text_at b key = join_text DELIMITER ps → Forall piece ps → body_whole bd →
  ∃ b' q r, alone memory_guard beyond b keys bd = (b', q) ∧ phase q = Ended r ∧
  match r with
  | Mutated _ es used limit n =>
    changed bd (entries_in ps) es ∧ used = total_length es ∧ n = length es ∧ (body_action bd ≠ Do_remove → used ≤ limit)
    ∧ (∀ k, k ≠ key → b' !! k = b !! k) ∧ version_at b' key = (version_at b key + 1)%Z
    ∧ ∃ ps', es = entries_in ps' ∧ Forall piece ps' ∧ text_at b' key = scan_context_content beyond (join_text DELIMITER ps') "memory"
        ∧ (context_findings beyond (join_text DELIMITER ps') = [] → text_at b' key = join_text DELIMITER ps' ∧ text_entries (text_at b' key) = es)
  | _ => b' = b
  end.
Proof.
  intros Ht Hps Hb. rewrite alone_eq. pose proof (decide_left bd (loaded b keys) ps) as Hd. cbv zeta in Hd. rewrite loaded_text in Hd. specialize (Hd Ht Hps Hb).
  destruct (decide_change _ _ _ _) as [r|[s message]]; [exists b; eexists _, r; split_and!; [reflexivity|done|by destruct r]|].
  destruct Hd as (ps' & Hc & Hps' & Hch & Hlim). eexists _, _, _. split_and!; [reflexivity|reflexivity|]. unfold answer.
  assert (Hes : get_entries (body_target bd) (put_seen (body_target bd) (version_at b (keys (body_target bd)) + 1) s) = entries_in ps').
  { unfold get_entries. cbn [content_of put_seen]. rewrite Hc. by apply text_entries_join. }
  rewrite Hes, Hc. fold key. split_and!; [done|done|done|done|intros k Hk; by apply lookup_insert_ne| |].
  - unfold version_at at 1. by rewrite read_put.
  - assert (Htext : text_at (<[key := Envelope (version_at b key + 1) (scan_context_content beyond (join_text DELIMITER ps') "memory")]> b) key
      = scan_context_content beyond (join_text DELIMITER ps') "memory") by (unfold text_at; by rewrite read_put).
    exists ps'. split_and!; [done|done|exact Htext|]. intros Hf. rewrite Htext. unfold scan_context_content. rewrite Hf. split; [done|]. by apply text_entries_join.
Qed.

(** ** Requests side by side *)

(** Requests for other owners' parts only. *)
Definition owned (prefix : string) (o : Owner) (keys : Target → string) : Prop := ∃ o', o' ≠ o ∧ ∀ t, keys t = object_key prefix o' (target_name t).
Definition others (prefix : string) (o : Owner) (e : Event) : Prop := match e with Begin _ keys _ => owned prefix o keys | Turn _ => True end.
Lemma advance_keys b q : key_of (advance memory_guard beyond b q).2 = key_of q.
Proof. unfold advance. destruct (phase q) as [[]| | |]; [done| |done|done|done]. by destruct (decide_change _ _ _ _) as [|[]]. Qed.
Lemma advance_frame b q k : (∀ t, key_of q t ≠ k) → (advance memory_guard beyond b q).1 !! k = b !! k.
Proof.
  intros Hk. unfold advance. destruct (phase q) as [[]| | |]; [done| |done| |done].
  - by destruct (decide_change _ _ _ _) as [|[]].
  - cbn [persist_write write_user_memory fst]. by apply lookup_insert_ne.
Qed.
(** Whatever requests run at once, in whatever order their reads and writes
    come: what is kept for one owner is changed by that owner's requests only. *)
Theorem remote_owner_apart (prefix : string) (o : Owner) (t : Target) (w : Server) (es : list Event) :
  map_Forall (λ _ q, owned prefix o (key_of q)) (requests w) → Forall (others prefix o) es →
  bucket (run memory_guard beyond w es) !! object_key prefix o (target_name t) = bucket w !! object_key prefix o (target_name t).
Proof.
  revert w. induction es as [|e es IH]; intros w Hw Hes; [done|]. inversion_clear Hes as [|? ? He Hes'].
  assert (Hstep : bucket (step memory_guard beyond w e) !! object_key prefix o (target_name t) = bucket w !! object_key prefix o (target_name t)
    ∧ map_Forall (λ _ q, owned prefix o (key_of q)) (requests (step memory_guard beyond w e))).
  { destruct e as [i keys bd|i]; cbn [step]; destruct (requests w !! i) as [q|] eqn:Hq; try done.
    - split; [done|]. cbn [requests]. by apply map_Forall_insert_2.
    - pose proof (Hw i q Hq) as Ho. pose proof (advance_keys (bucket w) q) as Hkeys. pose proof (advance_frame (bucket w) q (object_key prefix o (target_name t))) as Hframe.
      destruct (advance memory_guard beyond (bucket w) q) as [b' q']. cbn [fst snd] in *. split; [|apply map_Forall_insert_2; [by rewrite Hkeys|done]].
      apply Hframe. destruct Ho as (o' & Hne & Ho). intros t' Heq. rewrite Ho in Heq. by apply object_key_inj in Heq as [? _]. }
  destruct Hstep as [Hb Hr]. cbn [run foldl]. etrans; [by apply IH|done].
Qed.
End requests.

(** ** On requests *)

Definition keys_of (o : Owner) (t : Target) : string := object_key "p" o (target_name t).
Definition ask (a : Action) (content old : option string) : Body := mk_body a About_work (u <$> content) (u <$> old).
Definition holding (es : list string) : Bucket := {[ keys_of (Of_user "ana") About_work := Envelope 4 (join_text DELIMITER (u <$> es)) ]}.
Definition kept_for_ana (b : Bucket) : option (Z * list Text) :=
  match read_user_memory b (keys_of (Of_user "ana") About_work) with Some (c, v) => Some (v, text_entries c) | None => None end.
Lemma whole_test e : (match e with c :: _ => negb (bool_decide (c ∈ [newline; 45%N])) | [] => false end
  && match last e with Some c => negb (bool_decide (c ∈ [newline; 45%N])) | None => false end && bool_decide (Texts.find DELIMITER e = None)) = true → whole e.
Proof.
  intros H. apply andb_true_iff in H as [H Hf%bool_decide_eq_true]. apply andb_true_iff in H as [Hh Hl]. split_and!; [| |done].
  - destruct e as [|c e]; [done|]. exists c. split; [done|]. apply negb_true_iff, bool_decide_eq_false in Hh. unfold edge. set_solver.
  - destruct (last e) as [c|]; [|done]. exists c. split; [done|]. apply negb_true_iff, bool_decide_eq_false in Hl. unfold edge. set_solver.
Qed.
Lemma remote_request_witness :
  ∃ b' q, alone no_guard ascii_only (holding ["uses npm"; "likes tea"]) (keys_of (Of_user "ana")) (ask Do_replace (Some "uses pnpm") (Some "npm")) = (b', q)
    ∧ kept_for_ana b' = Some (5%Z, [u "uses pnpm"; u "likes tea"])
    ∧ changed (ask Do_replace (Some "uses pnpm") (Some "npm")) [u "uses npm"; u "likes tea"] [u "uses pnpm"; u "likes tea"].
Proof.
  destruct (remote_request no_guard ascii_only (holding ["uses npm"; "likes tea"]) (keys_of (Of_user "ana")) (ask Do_replace (Some "uses pnpm") (Some "npm")) [u "uses npm"; u "likes tea"])
    as (b' & q & r & Hrun & Hend & Hr).
  - vm_compute. reflexivity.
  - repeat constructor; apply whole_test; vm_compute; reflexivity.
  - right. intros c [= <-]. apply whole_test. vm_compute. reflexivity.
  - exists b', q. split; [exact Hrun|]. vm_compute in Hrun. injection Hrun as <- <-. split; [vm_compute; reflexivity|]. injection Hend as <-. exact (proj1 Hr).
Defined.
(** Two people's requests, read and write by turns. *)
Definition two_requests : list Event :=
  [Begin 0 (keys_of (Of_user "bob")) (ask Do_add (Some "x") None); Turn 0; Begin 1 (keys_of Of_all) (ask Do_add (Some "y") None); Turn 1; Turn 0; Turn 1; Turn 0; Turn 1; Turn 0; Turn 1].
Lemma remote_owner_apart_witness :
  bucket (run no_guard ascii_only (mk_server (holding ["a"]) ∅) two_requests) !! keys_of (Of_user "ana") About_work = holding ["a"] !! keys_of (Of_user "ana") About_work
  ∧ size (bucket (run no_guard ascii_only (mk_server (holding ["a"]) ∅) two_requests)) = 3.
Proof.
  split; [|vm_compute; reflexivity]. apply (remote_owner_apart no_guard ascii_only "p" (Of_user "ana") About_work (mk_server (holding ["a"]) ∅) two_requests).
  - apply map_Forall_empty.
  - repeat constructor; [by exists (Of_user "bob")|by exists Of_all].
Defined.
(** Two requests for one owner at once: both are told they are done, one is lost, and
    the version is that of one write. *)
Definition race : list Event :=
  let ana := keys_of (Of_user "ana") in
  [Begin 0 ana (ask Do_add (Some "x") None); Begin 1 ana (ask Do_add (Some "y") None); Turn 0; Turn 1; Turn 0; Turn 1; Turn 0; Turn 1; Turn 0; Turn 1].
Lemma racing_write_lost :
  let w := run no_guard ascii_only (mk_server (holding ["a"]) ∅) race in
  kept_for_ana (bucket w) = Some (5%Z, [u "a"; u "y"])
  ∧ ((λ q, phase q) <$> requests w !! 0) = Some (Ended (Mutated "Entry added." [u "a"; u "x"] 2 2200 2))
  ∧ ((λ q, phase q) <$> requests w !! 1) = Some (Ended (Mutated "Entry added." [u "a"; u "y"] 2 2200 2)).
Proof. vm_compute. repeat split. Qed.
(** A text that only the second look takes for an injection is written as its
    notice over everything that was kept, and the request says it is done. *)
Lemma flagged_write_wipes :
  let x := alone no_guard ascii_only (holding ["uses npm"]) (keys_of (Of_user "ana")) (ask Do_add (Some "<!-- ignore -->") None) in
  phase x.2 = Ended (Mutated "Entry added." [u "uses npm"; u "<!-- ignore -->"] 23 2200 2)
  ∧ kept_for_ana x.1 = Some (5%Z, [u "[BLOCKED: memory contained potential prompt injection (html_comment_injection). Content not loaded.]"]).
Proof. vm_compute. split; reflexivity. Qed.
(** An entry of dashes is taken out of the delimiter before it, and two entries
    become one. *)
Lemma dash_entry_breaks :
  kept_for_ana (alone no_guard ascii_only (holding ["abc"; "-"]) (keys_of (Of_user "ana")) (ask Do_remove None (Some "-"))).1
  = Some (5%Z, [u "abc" ++ [newline] ++ u "--" ++ [newline] ++ u "-"]).
Proof. vm_compute. reflexivity. Qed.
(** A removed entry leaves both of its delimiters. *)
Lemma removal_leaves_delimiter :
  text_at (alone no_guard ascii_only (holding ["a"; "b"; "c"]) (keys_of (Of_user "ana")) (ask Do_remove None (Some "b"))).1 (keys_of (Of_user "ana") About_work)
  = u "a" ++ DELIMITER ++ DELIMITER ++ u "c".
Proof. vm_compute. reflexivity. Qed.
